(* ===== verification/_CoqProject ===== *)
-Q . S2P
Prelude.v
Constants.v
Utils.v
TreeCheck.v
DisplayConfig.v
DisplayFormat.v
ValuesCheck.v
Pb.v
Messages.v
Wire.v
WireLogic.v
CanonicalHash.v
HashingParser.v
HashLogic.v
ValueHash.v
ValueCode.v
NodeHash.v
NodeCode.v
ReadLogic.v
HoldingParser.v
HoldingRead.v
DisplayParser.v
Sheet.v
ScreenFormat.v
ScreenRead.v
ScreenWalk.v
ScreenNode.v
ScreenSamples.v
Context.v
Prepared.v
PreparedRun.v
TxFlow.v
TxSamples.v
TxHash.v
TxWire.v
TreeHash.v
ClearTruth.v
ScreenTruth.v
TopologyMessages.v
Keys.v
Topology.v
TopologyFlow.v
TopologySamples.v
Handlers.v
Session.v
SessionFlow.v
SessionSamples.v
