(* ===== verification/Prelude.v ===== *)
(** * The Canton application of the Ledger devices: a verification library

    The application ([src/src/], C) signs Canton transactions on a device.  A host sends
    commands; the device parses what it is asked to sign, hashes it on the way, checks it,
    shows what it understood and signs the hash if the user agrees.  The question behind the
    development is what the signature is worth: that what is signed is what was received, and
    that a screen of clear signing is true of it.

    ** Parts

    A command goes from the main loop to the dispatcher and to a handler.  Signing takes many
    commands: the first opens a session ([clean_context], the path, the kind of signing), the
    next append to a buffer, and each end of message hands the buffer to the flow of the
    session.  A prepared transaction is a header, its nodes, its metadata and its disclosed
    contracts, each a message of its own.  Every node is decoded three times: once to hash it
    (reporting its place to the tree check and the contracts it uses to the values check),
    once to collect the holdings it writes (for the values check), and once to fill the
    screen.  The metadata closes the tree check, and the last part compares the screen with
    the holdings and finishes the hash.  A topology session is up to three messages that must
    together add one account.  The last message opens a review, and the answer to it signs.

    ** Files, in the order they build on each other

    - [Prelude]: machine integers with their wrap-around, C strings, the state and error monad
      [M] ([Ret], [Fail] for a function that returns false, [Abort] for a failed
      assertion, [NoFuel]), the predicates [safe], [keeps] and [answers] with the tactics that
      go through monadic code.
    - [Constants], [Utils]: [constants.h], [sw.h], [types.h], [params.h]; [utils.c],
      [bytewriter.c], [party_id.c].
    - [TreeCheck]: [node_tree_check.c].  [ValuesCheck]: [node_values_check.c].
    - [DisplayConfig], [DisplayFormat]: the tables of [pb_node_display_config.c] and the
      formatting of [pb_node_display_parser.c].
    - [Pb], [Messages], [Wire], [WireLogic]: the decoder of nanopb
      ([vendor/nanopb/pb_decode.c]), the structs and field lists of the generated headers, an
      encoder of the wire format, and rules that lead a parser over what was written.
    - [CanonicalHash]: [canonical_hash.c], with the encodings as functions.
    - [HashingParser], [HoldingParser], [DisplayParser]: the three parsers, whose callbacks are
      constructors of a type and whose function pointer call is one function with fuel.
    - [HashLogic], [ValueHash], [ValueCode]: rules for what a step of the hashing parser puts in
      the hasher; values as trees, their wire format and canonical encoding; that the encoding
      is unambiguous.
    - [NodeHash], [NodeCode]: the same for nodes with their values: what a part with a node on
      the wire leaves in the hasher or the store, and that the encoding is unambiguous.
    - [ReadLogic]: rules for parsers that only read what was written, over any state of which
      a preorder says that nothing of interest changed.
    - [HoldingRead]: the holding of a node as a function of its data, and that the holding
      parser finds exactly that.
    - [Sheet]: what a node puts on the screen as a function of its data, the screen that opens,
      the values found under its paths, the fields and the lines.  [ScreenFormat],
      [ScreenRead], [ScreenWalk], [ScreenNode], [ScreenSamples]: that the display parser does
      just that, from the lines back to the wire; two sample screens.
    - [Context]: [G_context] with the static state of every module, and [clean_context].
    - [Prepared], [PreparedRun], [TxFlow], [TxSamples], [TxHash]: [prepared_transaction.c]; what an
      accepted part did; whole transactions; samples; what their hash commits to.
    - [TxWire], [TreeHash]: the header and the metadata on the wire; a transaction as data, the
      trees its nodes form, and its hash as a function of them.
    - [ClearTruth], [ScreenTruth]: the holdings of a transaction as data, and that a clear
      signed screen is true of them; that the screen is the sheet of one of its nodes or
      contracts.
    - [TopologyMessages], [Keys], [Topology], [TopologyFlow], [TopologySamples]:
      [untyped_versioned_msg.c] and [get_public_key.c], in the same order.
    - [Handlers], [Session], [SessionFlow], [SessionSamples]: the handlers, the dispatcher, the
      reviews and the main loop; the application as a machine driven by events; a prepared
      transaction from its first command to its review; sample runs.

    A definition has the name of the C function, type or table it models; a function that
    is cut in pieces has pieces named after what they do.

    ** What the theorems show

    - End to end: [TxFlow.clear_signed_transaction_is_true] and
      [SessionFlow.clear_signed_session] (a screen of clear signing is true of every holding
      the transaction writes, and the nodes are one tree, unless the screen was opened by a
      disclosed contract), [Session.signature_follows_its_review] (nothing is signed but by
      confirming a review that shows it), [TopologyFlow.clear_signed_onboarding],
      [ClearTruth.clear_signed_screen_is_true_of_transaction] (the same for the transaction as
      data: the screen is true of the holdings that the arguments of its creates spell, each
      found by a recursion over the argument that knows nothing of the parser),
      [ScreenTruth.clear_signed_screen_is_in_the_transaction] (on a device that refuses no
      memory the lines, the title and the question that the user answers are those of one
      sheet of the transaction, and that sheet is true of the holdings),
      [TreeHash.signed_hash_is_canonical] (the hash that is signed is [transaction_hash], a
      recursion over the trees of the transaction that knows nothing of parsers, parts and
      stores), [TreeHash.signed_hash_commits_to_transaction] and
      [TopologyFlow.onboarding_hash_is_of_the_set] (the hash determines what is signed, up to
      collisions of SHA-256).  [TxFlow.signed_hash_is_over_the_parts] and
      [TxHash.signed_hash_commits] say the same of parts whose bytes are arbitrary: the hash is
      over, and determines, the hashes of the nodes and contracts that were read.
    - The application: it answers every command, a refusal closes the session, only the
      documented commands do anything.
    - The checks: the verdicts of the tree check and of the values check are exactly the
      conditions stated without their code, and those mean what the screen says.
    - The parsers: each terminates for any bytes and any refusal of the heap or the stack,
      stays in its bounds, and reports exactly what it read
      ([HoldingRead.values_collected_exactly] for the holdings,
      [ScreenNode.screen_read_exactly] and [put_off_screen_read_exactly] for the screen, on a
      device that refuses no memory); a screen is complete, and opened only by the action of
      the node.
    - The encodings: a well-formed value of any nesting and a well-formed node with its values
      are hashed to their canonical encodings ([ValueHash.value_hash_is_canonical],
      [NodeHash.node_hash_is_canonical]), the encodings of values, nodes and metadata are
      injective on well-formed data, the window of node hashes answers for the last thirty-two nodes, the first
      error stays, what the wire encoder writes is read back.
    - What does not hold is stated too: an orphan node behind a clear screen
      ([TxSamples.orphan_is_clear_signed]), a review of an unfinished transaction and a
      second review without lines ([SessionSamples.early_end_signs_no_hash],
      [second_review_is_empty]), a message after the last one
      ([TopologyFlow.message_after_the_last_aborts]), colliding field paths
      ([DisplayParser.backslash_paths_collide], [HoldingRead.dotted_label_is_a_path]), a path
      that is too long in a create that is read all the same
      ([HoldingRead.lost_path_is_still_reported], which [values_collected_exactly] leaves out) and values that are not hashed as they are
      written ([HashingParser.gen_map_key_count_is_lost], [long_label_is_hashed_in_pieces],
      [record_without_id_collides]), which [ValueHash.value_wf] and its values leave out.

    ** How it is modelled

    Integers are [Z] with the wrap-around of their width written out; bytes are lists of
    [Z]; a [char *] is an option of the bytes before its terminator.  A C function that
    can fail is a computation of [M], with the whole static state it uses passed along.
    The union of [G_context] is two groups of fields that [clean_context] zeroes together; the
    transaction that is being decoded and the hasher live in the state of the hashing parser,
    the lines of the screen in that of the display parser, and [in_hashing], [in_holding] and
    [in_display] hand the shared store and the clock over.

    The heap and the stack are the class [Device]: whether a request succeeds is an arbitrary
    function of how many came before, so every theorem holds for any refusals.  SHA-256
    ([Sha256]), the key derivation and the signatures ([Crypto]), the command buffer
    ([Buffer]), the sizes the compiler chooses ([Compiler]), the version of the build ([Build])
    and whether the topology mappings the application always refuses decode
    ([OtherMappings]) are classes as well; [Sha256Len] and [BufferLaws] are the facts about them
    that theorems use, and the samples give an instance of each.  Where a theorem says what a
    parser does with a well-formed message, the only other outcome is that it fails on a
    device that refuses memory ([refuses_memory]), or for a seed that the header lacks.

    The theorems about canonical hashes are about messages as a host writes them: each field
    once and in the order of its tag ([wire_value], [wire_node], [wire_daml_tx],
    [wire_metadata]), with counts and lengths in the ranges of the C types ([transaction_ok]).
    "Well-formed" is said of nodes and contracts that have the fields the parser requires and of
    values of [value_wf]: records have an id, labels, text map keys and constructors are shorter
    than the 64 bytes of the decode buffer, and the keys of a generic map are not structured.
    On other values the code does not hash the canonical encoding (the examples named above), so
    the theorems on hashes, and those on the screen and the holdings that walk the same
    values ([part_ok]), do not speak of them.
    Node ids have at most three characters, as the parser requires; a child must not have the
    number -1 of an empty slot of the store ([children_numbered]), which [atoint] computes for
    4294967295.  The trees are found, not assumed: a child that is not among the nodes before
    its parent has no hash and the transaction is not completed.

    Recursion that follows the nesting of messages has fuel: the length of the buffer plus
    one for a parse, the length of the stream for the fields of a message.  A callback only
    starts callbacks on shorter streams, so the fuel never runs out, which
    [hashing_parser_terminates], [values_collection_is_safe], [display_parse_is_safe] and
    [topology_message_is_answered] prove and [every_command_is_answered] extends to whole runs.

    ** Not modelled

    The drawing of screens and menus, the exchange with the host and the parsing of a command
    into its fields, and the release of memory (a pointer is never used after it is freed in
    the model, because values are copied).  The byte order of the C stack: a stack request is one
    question to the device.  A hasher that is read twice: [finalize_hash_transaction] gives the
    hash of what was put in since the last initialisation, which is what the code relies on
    until the hash is complete; no theorem speaks of a hash taken after that.  Debug
    printing.  Generated descriptor tables other than the field lists of [Messages] and
    [TopologyMessages]. *)

From Stdlib Require Export ZArith Bool List Lia Sorting.Permutation.
From stdpp Require Export prelude numbers list strings.

#[global] Open Scope Z_scope.
#[global] Set Default Goal Selector "!".

(** ** Machine integers: values of Z with the wrap-around written out *)

Definition u8 (z : Z) : Z := z mod 2 ^ 8.
Definition u32 (z : Z) : Z := z mod 2 ^ 32.
Definition u64 (z : Z) : Z := z mod 2 ^ 64.
Definition i32 (z : Z) : Z := (z + 2 ^ 31) mod 2 ^ 32 - 2 ^ 31.
Definition i64 (z : Z) : Z := (z + 2 ^ 63) mod 2 ^ 64 - 2 ^ 63.

Definition is_u8 (z : Z) : Prop := 0 <= z < 2 ^ 8.
Definition is_u32 (z : Z) : Prop := 0 <= z < 2 ^ 32.
Definition is_u64 (z : Z) : Prop := 0 <= z < 2 ^ 64.
Definition is_i32 (z : Z) : Prop := - 2 ^ 31 <= z < 2 ^ 31.
Definition is_i64 (z : Z) : Prop := - 2 ^ 63 <= z < 2 ^ 63.

Abbreviation bytes := (list Z).
Abbreviation wf_bytes := (Forall is_u8).

Create HintDb machine.

Lemma is_u8_u8 z : is_u8 (u8 z).
Proof. apply Z.mod_pos_bound; lia. Qed.
Lemma is_u32_u32 z : is_u32 (u32 z).
Proof. apply Z.mod_pos_bound; lia. Qed.
Lemma is_u64_u64 z : is_u64 (u64 z).
Proof. apply Z.mod_pos_bound; lia. Qed.
Lemma u8_id z : is_u8 z → u8 z = z.
Proof. apply Z.mod_small. Qed.
Lemma u32_id z : is_u32 z → u32 z = z.
Proof. apply Z.mod_small. Qed.
Lemma u64_id z : is_u64 z → u64 z = z.
Proof. apply Z.mod_small. Qed.
Lemma i32_id z : is_i32 z → i32 z = z.
Proof. unfold i32, is_i32. intros ?. rewrite Z.mod_small; lia. Qed.
Lemma i64_id z : is_i64 z → i64 z = z.
Proof. unfold i64, is_i64. intros ?. rewrite Z.mod_small; lia. Qed.
Lemma is_i32_i32 z : is_i32 (i32 z).
Proof. unfold i32, is_i32. pose proof (Z.mod_pos_bound (z + 2 ^ 31) (2 ^ 32)). lia. Qed.

Lemma i32_u32 z : i32 (u32 z) = i32 z.
Proof. unfold i32, u32. by rewrite Z.add_mod_idemp_l by lia. Qed.

#[export] Hint Resolve is_u8_u8 is_u32_u32 is_u64_u64 is_i32_i32 : machine.

(** ** Big-endian integers *)

Definition be32 (v : Z) : bytes :=
  [u8 (Z.shiftr v 24); u8 (Z.shiftr v 16); u8 (Z.shiftr v 8); u8 v].
Definition be64 (v : Z) : bytes :=
  [u8 (Z.shiftr v 56); u8 (Z.shiftr v 48); u8 (Z.shiftr v 40); u8 (Z.shiftr v 32);
   u8 (Z.shiftr v 24); u8 (Z.shiftr v 16); u8 (Z.shiftr v 8); u8 v].

(** The value of a big-endian byte list. *)
Definition be_value (l : bytes) : Z := fold_left (λ acc b, acc * 256 + b) l 0.

Lemma wf_be32 v : wf_bytes (be32 v).
Proof. repeat constructor; apply is_u8_u8. Qed.
Lemma wf_be64 v : wf_bytes (be64 v).
Proof. repeat constructor; apply is_u8_u8. Qed.
#[export] Hint Resolve wf_be32 wf_be64 : machine.

Lemma be32_value v : be_value (be32 v) = u32 v.
Proof.
  unfold be_value, be32, u8, u32; cbn [fold_left].
  rewrite !Z.shiftr_div_pow2 by lia. Z.to_euclidean_division_equations; lia.
Qed.

Lemma be64_value v : be_value (be64 v) = u64 v.
Proof.
  unfold be_value, be64, u8, u64; cbn [fold_left].
  rewrite !Z.shiftr_div_pow2 by lia. Z.to_euclidean_division_equations; lia.
Qed.

Lemma be32_inj v w : is_u32 v → is_u32 w → be32 v = be32 w → v = w.
Proof.
  intros Hv Hw H. rewrite <- (u32_id v), <- (u32_id w) by done.
  by rewrite <- !be32_value, H.
Qed.

Lemma be64_inj v w : is_u64 v → is_u64 w → be64 v = be64 w → v = w.
Proof.
  intros Hv Hw H. rewrite <- (u64_id v), <- (u64_id w) by done.
  by rewrite <- !be64_value, H.
Qed.

(** ** C strings

    A [char *] points to a buffer of bytes; the string it denotes stops at the first
    NUL.  A buffer is kept as the bytes before its terminator, so a buffer that holds a
    NUL in the middle reads short, as [strlen] and [strcmp] read it. *)

Fixpoint c_str (buf : bytes) : bytes :=
  match buf with
  | [] => []
  | c :: rest => if Z.eqb c 0 then [] else c :: c_str rest
  end.

Lemma c_str_length buf : (length (c_str buf) ≤ length buf)%nat.
Proof. induction buf as [|b buf IH]; cbn; [done|]. case_match; cbn; lia. Qed.
Definition strlen (buf : bytes) : Z := Z.of_nat (length (c_str buf)).
Definition str_eqb (a b : bytes) : bool := bool_decide (c_str a = c_str b).

(** The bytes of a literal of the source. *)
Definition lit (s : string) : bytes :=
  map (λ a, Z.of_N (Ascii.N_of_ascii a)) (String.list_ascii_of_string s).

Definition no_nul (buf : bytes) : Prop := Forall (λ c, c ≠ 0) buf.
Definition no_nulb (buf : bytes) : bool := forallb (λ c, negb (Z.eqb c 0)) buf.

Lemma no_nulb_spec buf : no_nulb buf = true ↔ no_nul buf.
Proof.
  unfold no_nulb, no_nul. rewrite forallb_forall, Forall_forall.
  split; intros H x Hx; specialize (H x); rewrite <- ?list_elem_of_In in *;
    specialize (H Hx); destruct (Z.eqb_spec x 0); naive_solver.
Qed.

Lemma c_str_no_nul buf : no_nul (c_str buf).
Proof.
  induction buf as [|c buf IH]; cbn; [constructor|].
  destruct (Z.eqb_spec c 0); by constructor.
Qed.

Lemma c_str_id buf : no_nul buf → c_str buf = buf.
Proof.
  induction 1 as [|c buf Hc H IH]; cbn; [done|].
  destruct (Z.eqb_spec c 0); [done|by rewrite IH].
Qed.

Lemma c_str_idemp buf : c_str (c_str buf) = c_str buf.
Proof. apply c_str_id, c_str_no_nul. Qed.

Lemma c_str_wf buf : wf_bytes buf → wf_bytes (c_str buf).
Proof.
  induction 1 as [|c buf Hc H IH]; cbn; [constructor|].
  destruct (Z.eqb c 0); by constructor.
Qed.

Lemma strlen_le buf : strlen buf ≤ Z.of_nat (length buf).
Proof.
  unfold strlen. induction buf as [|c buf IH]; cbn; [lia|].
  destruct (Z.eqb c 0); cbn; lia.
Qed.

Lemma strlen_nonneg buf : 0 ≤ strlen buf.
Proof. unfold strlen; lia. Qed.

#[export] Hint Resolve c_str_no_nul c_str_wf strlen_nonneg : machine.

Lemma str_eqb_spec a b : str_eqb a b = true ↔ c_str a = c_str b.
Proof. apply bool_decide_eq_true. Qed.

Lemma str_eqb_refl a : str_eqb a a = true.
Proof. by apply str_eqb_spec. Qed.

(** A pointer that may be NULL compared with a literal: false on NULL. *)
Definition opt_str_eqb (p : option bytes) (s : bytes) : bool :=
  match p with Some b => str_eqb b s | None => false end.

(** [memcmp(a, b, n) == 0] on arrays of the same length. *)
Definition mem_eqb (a b : bytes) : bool := bool_decide (a = b).

Lemma mem_eqb_spec a b : mem_eqb a b = true ↔ a = b.
Proof. apply bool_decide_eq_true. Qed.
Lemma mem_eqb_neq a b : mem_eqb a b = false ↔ a ≠ b.
Proof. apply bool_decide_eq_false. Qed.

(** ** Record update

    [r <| f := v |>] is [r] with the field [f] set, [r <| f ::= g |>] with [g] applied to
    it.  A record type gives its eta-expansion once, as an [Eta] instance, and the setter
    of a field is found from it. *)

Class Eta (R : Type) := eta_record : R → R.
Class FieldUpdate {R T : Type} (f : R → T) := update_field : (T → T) → R → R.
#[global] Arguments update_field {R T} f {_} _ _ /.

Ltac derive_field_update :=
  lazymatch goal with
  | |- @FieldUpdate ?R ?T ?f =>
      let g := fresh "g" in
      let r := fresh "r" in
      intros g r;
      let body := eval hnf in (@eta_record R _ r) in
      lazymatch eval pattern (f r) in body with
      | ?c _ => let t := eval cbv beta in (c (g (f r))) in exact t
      end
  end.
#[export] Hint Extern 1 (FieldUpdate _) => derive_field_update : typeclass_instances.

Notation "r <| f ::= g |>" := (update_field f g r)
  (at level 1, left associativity, format "r  <| f  ::=  g |>").
Notation "r <| f := v |>" := (update_field f (λ _, v) r)
  (at level 1, left associativity, format "r  <| f  :=  v |>").

(** ** State and failure

    A parser step of the source returns a C [bool] and has changed static state whether
    it succeeded or not, so the state survives a failure.  [Abort] is a failed
    [LEDGER_ASSERT] or [CX_ASSERT], which stops the application; [NoFuel] marks a bounded
    recursion of the model that ran out, and is proved not to happen. *)

Inductive outcome (A : Type) :=
  | Ret (a : A)
  | Fail
  | Abort
  | NoFuel.
#[global] Arguments Ret {A} a.
#[global] Arguments Fail {A}.
#[global] Arguments Abort {A}.
#[global] Arguments NoFuel {A}.

Definition M (S A : Type) : Type := S → outcome A * S.

Section Monad.
Context {S : Type}.

Definition ret {A} (a : A) : M S A := λ s, (Ret a, s).
Definition fail {A} : M S A := λ s, (Fail, s).
Definition abort {A} : M S A := λ s, (Abort, s).
Definition nofuel {A} : M S A := λ s, (NoFuel, s).
Definition get : M S S := λ s, (Ret s, s).
Definition gets {A} (f : S → A) : M S A := λ s, (Ret (f s), s).
Definition modify (f : S → S) : M S unit := λ s, (Ret tt, f s).
Definition bind {A B} (m : M S A) (k : A → M S B) : M S B := λ s,
  match m s with
  | (Ret a, s') => k a s'
  | (Fail, s') => (Fail, s')
  | (Abort, s') => (Abort, s')
  | (NoFuel, s') => (NoFuel, s')
  end.
Definition of_option {A} (o : option A) : M S A :=
  match o with Some a => ret a | None => fail end.
(** [LEDGER_ASSERT(b, ...)]. *)
Definition assert_that (b : bool) : M S unit := if b then ret tt else abort.
(** [if (!b) return false;] *)
Definition guard (b : bool) : M S unit := if b then ret tt else fail.
(** [bool res = f(...)]: the step's failure as a value; an abort stays one. *)
Definition attempt {A} (m : M S A) : M S (option A) := λ s,
  match m s with
  | (Ret a, s') => (Ret (Some a), s')
  | (Fail, s') => (Ret None, s')
  | (Abort, s') => (Abort, s')
  | (NoFuel, s') => (NoFuel, s')
  end.
Fixpoint mfor {A} (f : A → M S unit) (l : list A) : M S unit :=
  match l with
  | [] => ret tt
  | a :: l' => bind (f a) (λ _, mfor f l')
  end.
End Monad.

Declare Scope outcome_scope.
Delimit Scope outcome_scope with outcome.
Notation "'let*' x ':=' c 'in' k" := (bind c (λ x, k))
  (at level 10, x pattern, c at level 100, k at level 200) : outcome_scope.
Notation "'do*' c 'in' k" := (bind c (λ _, k))
  (at level 10, c at level 100, k at level 200) : outcome_scope.
#[global] Open Scope outcome_scope.

(** [safe P Q m]: from a state that satisfies the invariant [P] the step [m] ends in one
    that does, whether it succeeds or fails; its result satisfies [Q]; and it does not run
    out of fuel.  An abort stops the application.  With a trivial [P] it says that the step
    terminates. *)
Definition safe {S A} (P : S → Prop) (Q : A → Prop) (m : M S A) : Prop :=
  ∀ s, P s →
    match m s with
    | (Ret a, s') => P s' ∧ Q a
    | (Fail, s') => P s'
    | (Abort, _) => True
    | (NoFuel, _) => False
    end.
Abbreviation keeps P m := (safe P (λ _, True) m).
Definition anything {A} : A → Prop := λ _, True.

Create HintDb safe.

Section Safe.
Context {S : Type}.
Implicit Types P : S → Prop.

Lemma safe_ret {A} P (Q : A → Prop) a : Q a → safe P Q (ret a).
Proof. by intros HQ s HP. Qed.
Lemma safe_fail {A} P (Q : A → Prop) : safe P Q fail.
Proof. by intros s. Qed.
Lemma safe_abort {A} P (Q : A → Prop) : safe P Q abort.
Proof. by intros s. Qed.
Lemma safe_gets {A} P (f : S → A) : keeps P (gets f).
Proof. by intros s. Qed.
Lemma safe_get P : safe P P get.
Proof. by intros s. Qed.
Lemma safe_modify P f : (∀ s, P s → P (f s)) → keeps P (modify f).
Proof. intros H s HP. split; [by apply H|done]. Qed.
Lemma safe_of_option {A} P (Q : A → Prop) (o : option A) :
  (∀ a, o = Some a → Q a) → safe P Q (of_option o).
Proof. intros H. destruct o; [by apply safe_ret, H|apply safe_fail]. Qed.
Lemma safe_assert P b : keeps P (assert_that b).
Proof. by destruct b; intros s. Qed.
Lemma safe_guard P b : safe P (λ _, b = true) (guard b).
Proof. by destruct b; intros s. Qed.
Lemma safe_guard_any P b : keeps P (guard b).
Proof. by destruct b; intros s. Qed.
Lemma safe_bind {A B} P (Q : A → Prop) (R : B → Prop) (m : M S A) (k : A → M S B) :
  safe P Q m → (∀ a, Q a → safe P R (k a)) → safe P R (bind m k).
Proof.
  intros Hm Hk s HP. unfold bind. specialize (Hm s HP).
  destruct (m s) as [[a| | |] s1]; [by apply Hk; destruct Hm|done..].
Qed.
Lemma safe_weaken {A} P (Q R : A → Prop) (m : M S A) :
  safe P Q m → (∀ a, Q a → R a) → safe P R m.
Proof.
  intros Hm HQR s HP. specialize (Hm s HP).
  destruct (m s) as [[a| | |] s1]; [split; [|apply HQR]; by destruct Hm|done..].
Qed.
Lemma safe_keeps {A} P (Q : A → Prop) (m : M S A) : safe P Q m → keeps P m.
Proof. intros Hm. by apply (safe_weaken P Q). Qed.
(** The step before is used only for the invariant. *)
Lemma safe_seq {A B} P (R : B → Prop) (m : M S A) (k : A → M S B) :
  keeps P m → (∀ a, safe P R (k a)) → safe P R (bind m k).
Proof. intros Hm Hk. by eapply safe_bind; [exact Hm|intros a _; apply Hk]. Qed.
Lemma safe_attempt {A} P (m : M S A) : keeps P m → keeps P (attempt m).
Proof.
  intros Hm s HP. unfold attempt. specialize (Hm s HP).
  by destruct (m s) as [[a| | |] s1].
Qed.
Lemma safe_mfor {A} P (f : A → M S unit) l : (∀ a, keeps P (f a)) → keeps P (mfor f l).
Proof.
  intros Hf. induction l as [|a l IH]; cbn; [by apply safe_ret|by apply safe_seq].
Qed.
Lemma bind_ret_inv {A B} (m : M S A) (k : A → M S B) s b s' :
  bind m k s = (Ret b, s') → ∃ a s1, m s = (Ret a, s1) ∧ k a s1 = (Ret b, s').
Proof. unfold bind. destruct (m s) as [[a| | |] s1]; naive_solver. Qed.
End Safe.

(** [answers m]: the step ends with a result, or stops the application. *)
Definition answers {S A} (m : M S A) : Prop :=
  ∀ s, match fst (m s) with Ret _ | Abort => True | Fail | NoFuel => False end.

Create HintDb answers.

Section Answers.
Context {S : Type}.

Lemma answers_ret {A} (a : A) : answers (S := S) (ret a).
Proof. done. Qed.
Lemma answers_abort {A} : answers (S := S) (A := A) abort.
Proof. done. Qed.
Lemma answers_gets {A} (f : S → A) : answers (gets f).
Proof. done. Qed.
Lemma answers_get : answers (S := S) get.
Proof. done. Qed.
Lemma answers_modify (f : S → S) : answers (modify f).
Proof. done. Qed.
Lemma answers_assert b : answers (S := S) (assert_that b).
Proof. by destruct b. Qed.
Lemma answers_bind {A B} (m : M S A) (k : A → M S B) :
  answers m → (∀ a, answers (k a)) → answers (bind m k).
Proof.
  intros Hm Hk s. specialize (Hm s). unfold bind. destruct (m s) as [[a| | |] s1]; try done. apply Hk.
Qed.
Lemma answers_attempt {A} (m : M S A) : keeps (λ _, True) m → answers (attempt m).
Proof.
  intros Hm s. specialize (Hm s I). unfold attempt. by destruct (m s) as [[a| | |] s1].
Qed.
Lemma answers_mfor {A} (f : A → M S unit) l : (∀ a, answers (f a)) → answers (mfor f l).
Proof. intros Hf. induction l as [|a l IH]; cbn; [done|by apply answers_bind]. Qed.
End Answers.

#[export] Hint Resolve answers_ret answers_abort answers_gets answers_get answers_modify
  answers_assert answers_mfor : answers.
(** Goes through a step that answers, one sequenced step at a time. *)
Ltac answer_steps :=
  repeat first
    [ progress intros
    | match goal with
      | |- answers (if ?b then _ else _) => destruct b eqn:?
      | |- answers (match ?x with _ => _ end) => destruct x eqn:?
      end
    | solve [eauto with answers]
    | apply answers_mfor
    | apply answers_bind ].

#[export] Hint Resolve safe_fail safe_abort safe_gets safe_assert safe_guard_any
  safe_attempt safe_mfor : safe.
#[export] Hint Extern 1 (safe _ _ (ret _)) => apply safe_ret : safe.
#[export] Hint Extern 1 (safe _ _ (modify _)) => apply safe_modify : safe.

(** Goes through a step, one sequenced step at a time. *)
Ltac safe_steps :=
  repeat first
    [ progress intros
    | match goal with
      | |- safe _ _ (if ?b then _ else _) => destruct b eqn:?
      | |- safe _ _ (match ?x with pair _ _ => _ end) => destruct x
      end
    | solve [eauto with safe]
    | apply safe_seq ].

(** A goal left by [safe_steps] about a change of the state. *)
Ltac modified s Hs :=
  lazymatch goal with |- safe _ _ (modify _) => apply safe_modify; intros s Hs end.
