(* ===== verification/Constants.v ===== *)
(** * Constants and enumerations

    The sizes of [src/constants.h], the status words of [src/sw.h], the APDU parameters
    of [src/apdu/params.h] and the enumerations of [src/types.h] and [src/globals.h].
    [MAX_TRANSACTION_LEN] is the value used on every target but the Nano X. *)

From S2P Require Import Prelude.

(** ** Status words *)

Definition SW_OK : Z := 0x9000.
Definition SW_DENY : Z := 0x6985.
Definition SW_WRONG_P1P2 : Z := 0x6a86.
Definition SW_WRONG_DATA_LENGTH : Z := 0x6a87.
Definition SW_INS_NOT_SUPPORTED : Z := 0x6d00.
Definition SW_CLA_NOT_SUPPORTED : Z := 0x6e00.
Definition SW_WRONG_RESPONSE_LENGTH : Z := 0xb000.
Definition SW_DISPLAY_BIP32_PATH_FAIL : Z := 0xb001.
Definition SW_DISPLAY_ADDRESS_FAIL : Z := 0xb002.
Definition SW_DISPLAY_AMOUNT_FAIL : Z := 0xb003.
Definition SW_WRONG_TX_LENGTH : Z := 0xb004.
Definition SW_TX_PARSING_FAIL : Z := 0xb005.
Definition SW_TX_HASH_FAIL : Z := 0xb006.
Definition SW_BAD_STATE : Z := 0xb007.
Definition SW_SIGNATURE_FAIL : Z := 0xb008.
Definition SW_CHALLENGE_SIGNATURE_FAIL : Z := 0xb009.
Definition SW_TX_INVALID_NODE_TREE : Z := 0xb00a.
Definition SW_TOPOLOGY_MULTIPLE_NAMESPACE_DELEGATIONS : Z := 0xc101.
Definition SW_TOPOLOGY_NULL_NAMESPACE_DELEGATION : Z := 0xc102.
Definition SW_TOPOLOGY_MISSING_TARGET_KEY : Z := 0xc103.
Definition SW_TOPOLOGY_PARTY_KEY_MISMATCH : Z := 0xc104.
Definition SW_TOPOLOGY_PARTY_KEY_WRONG_FORMAT : Z := 0xc105.
Definition SW_TOPOLOGY_MISSING_PARTY_KEY : Z := 0xc106.
Definition SW_TOPOLOGY_PARTY_ID_MISMATCH : Z := 0xc201.
Definition SW_TOPOLOGY_UNEXPECTED_PARTY_TO_KEY_SIGNING_KEYS_COUNT : Z := 0xc202.
Definition SW_TOPOLOGY_UNEXPECTED_PARTY_TO_KEY_THRESHOLD_VALUE : Z := 0xc203.
Definition SW_TOPOLOGY_MULTIPLE_PARTY_TO_KEY_MAPPINGS : Z := 0xc204.
Definition SW_TOPOLOGY_MISSING_PARTY : Z := 0xc301.
Definition SW_TOPOLOGY_UNEXPECTED_NUMBER_OF_PARTICIPANTS : Z := 0xc302.
Definition SW_TOPOLOGY_UNEXPECTED_DUPLICATE_PARTICIPANT : Z := 0xc303.
Definition SW_TOPOLOGY_MISSING_PARTICIPANT_DATA : Z := 0xc304.
Definition SW_TOPOLOGY_UNEXPECTED_PARTICIPANT_ID : Z := 0xc305.
Definition SW_TOPOLOGY_UNEXPECTED_THRESHOLD_VALUE : Z := 0xc306.
Definition SW_TOPOLOGY_UNEXPECTED_PARTY_SIGNING_KEYS : Z := 0xc307.
Definition SW_TOPOLOGY_MULTIPLE_PARTY_TO_PARTICIPANTS : Z := 0xc308.
Definition SW_TOPOLOGY_UNKNOWN_MAPPING_TYPE : Z := 0xc401.
Definition SW_TOPOLOGY_UNSUPPORTED_OPERATION : Z := 0xc402.
Definition SW_TOPOLOGY_MANDATORY_FIELD_MISSING : Z := 0xc403.
Definition SW_TOPOLOGY_TOO_MANY_MESSAGES : Z := 0xc404.
(** [SWO_INCORRECT_DATA], of the SDK's status_words.h, is a parameter where it is used. *)

(** ** Sizes *)

Definition CLA : Z := 0xe0.
Definition APPVERSION_LEN : Z := 3.
Definition MAX_APPNAME_LEN : Z := 64.
Definition MAX_TRANSACTION_LEN : Z := 1024 * 12.
Definition MAX_NODE_CHILDREN : nat := 32.
Definition MAX_TX_NODES : Z := 256.
Definition MAX_USED_CONTRACTS : nat := 32.
Definition USED_CONTRACT_LEN : nat := 8.
Definition MAX_HOLDINGS : nat := 4.
Definition ED25519_SIG_LEN : nat := 64.
Definition ED25519_RAW_PUBLIC_KEY_LEN : nat := 32.
Definition MAX_CHAINCODE_LEN : nat := 32.
Definition SHA256_HASH_LEN : nat := 32.
Definition CANTON_HASH_LEN : nat := SHA256_HASH_LEN + 2.
Definition UINT32_T_LEN : Z := 4.
Definition UINT64_T_LEN : Z := 8.
Definition DEFAULT_DECODE_BUFFER_SIZE : nat := 64.
Definition PARTY_ID_LEN : nat := 74.

(** ** APDU parameters *)

Definition P1_NONE : Z := 0.
Definition P1_CONFIRM : Z := 1.
Definition P1_NON_CONFIRM : Z := 0.
Definition P2_NONE : Z := 0.
Definition P2_FIRST : Z := 1.
Definition P2_MORE : Z := 2.
Definition P2_MSG_END : Z := 4.
Definition P2_ADDR_FLAG_TESTNET : Z := 1.
Definition P2_ADDR_FLAG_MASTERCHAIN : Z := 2.
Definition P2_ADDR_FLAGS_MAX : Z := Z.lor P2_ADDR_FLAG_TESTNET P2_ADDR_FLAG_MASTERCHAIN.

(** ** Enumerations *)

Definition GET_VERSION : Z := 3.
Definition GET_APP_NAME : Z := 4.
Definition GET_PUBLIC_KEY : Z := 5.
Definition SIGN_TX : Z := 6.

Inductive state_e :=
  | STATE_NONE
  | STATE_EXPECTING_MORE
  | STATE_MSG_COMPLETE
  | STATE_PARSED
  | STATE_APPROVED.
#[export] Instance state_e_eq_dec : EqDecision state_e.
Proof. solve_decision. Defined.

Inductive request_type_e :=
  | CONFIRM_ADDRESS
  | CONFIRM_TRANSACTION.
#[export] Instance request_type_e_eq_dec : EqDecision request_type_e.
Proof. solve_decision. Defined.

Inductive signing_type_e :=
  | SIGN_HASH
  | SIGN_UNTYPED_VERSIONED_MESSAGE
  | SIGN_PREPARED_TRANSACTION.
#[export] Instance signing_type_e_eq_dec : EqDecision signing_type_e.
Proof. solve_decision. Defined.

(** The C enumerator values, as [(signing_type_e) cmd->p1] casts them. *)
Definition signing_type_of_p1 (p1 : Z) : option signing_type_e :=
  if p1 =? 0 then Some SIGN_HASH
  else if p1 =? 1 then Some SIGN_UNTYPED_VERSIONED_MESSAGE
  else if p1 =? 2 then Some SIGN_PREPARED_TRANSACTION
  else None.

Inductive BlindSign := BlindSignDisabled | BlindSignEnabled.
#[export] Instance BlindSign_eq_dec : EqDecision BlindSign.
Proof. solve_decision. Defined.

Inductive parser_status_e :=
  | PARSING_OK
  | VALUE_PARSING_ERROR.
#[export] Instance parser_status_e_eq_dec : EqDecision parser_status_e.
Proof. solve_decision. Defined.
