(* ===== verification/Utils.v ===== *)
(** * Helpers shared by the parsers

    [src/utils.c] ([is_digit], [atoint], [canton_hash]), [src/bytewriter.c] and
    [src/party_id.c].  SHA-256 is the device's crypto library: it is the class [Sha256],
    an argument of everything that hashes. *)

From S2P Require Import Prelude Constants.

(** The hash of the SDK ([cx_hash_sha256], [cx_hash_update], ...), as documented: a
    function of the bytes hashed, whose result is 32 bytes. *)
Class Sha256 := sha256 : bytes → bytes.
Class Sha256Len `{Sha256} : Prop :=
  sha256_length : ∀ m, length (sha256 m) = SHA256_HASH_LEN.

(** What the parsers ask of the device: the heap ([app_mem_alloc], [pb_realloc]) and the
    room left on the stack ([stack_has_room]).  Both may refuse at any time, so they are
    functions of a clock that ticks at every question. *)
Class Device := {
  heap_has : nat → Z → bool;
  stack_room : nat → bool
}.
(** A device that never refuses. *)
Definition roomy : Device := {| heap_has := λ _ _, true; stack_room := λ _, true |}.

(** ** utils.c *)

Definition is_digit (c : Z) : bool := (48 <=? c) && (c <=? 57).

(** [res = res * 10 + str[i] - '0'] on a 32-bit [int].  C leaves the overflow undefined;
    the wrapped value is what the compiled addition and multiplication give. *)
Fixpoint atoint_from (res : Z) (str : bytes) : Z :=
  match str with
  | [] => res
  | c :: rest => if is_digit c then atoint_from (i32 (res * 10 + c - 48)) rest else 0
  end.
Definition atoint (str : bytes) : Z := atoint_from 0 (c_str str).

Section CantonHash.
Context `{Sha256}.

Definition SHA256_ALGO_PREFIX : Z := 0x12.
Definition SHA256_ALGO_LENGTH : Z := 0x20.

Definition canton_hash (purpose : Z) (data : bytes) : bytes :=
  let purpose_be := [0; 0; 0; u8 purpose] in
  SHA256_ALGO_PREFIX :: SHA256_ALGO_LENGTH :: sha256 (purpose_be ++ data).
End CantonHash.

(** ** bytewriter.c

    The buffer is its capacity and what has been written, [ptr - base] bytes of it. *)

Record ByteWriter := { bw_cap : nat; bw_data : bytes; bw_overflow : bool }.
#[export] Instance eta_ByteWriter : Eta ByteWriter :=
  λ b, Build_ByteWriter (bw_cap b) (bw_data b) (bw_overflow b).

Definition bw_init (cap : nat) : ByteWriter :=
  {| bw_cap := cap; bw_data := []; bw_overflow := false |}.
Definition bw_size (bw : ByteWriter) : nat := length (bw_data bw).
Definition bw_put (bw : ByteWriter) (p : bytes) : ByteWriter :=
  if bw_overflow bw || (bw_cap bw <? bw_size bw + length p)%nat
  then bw <| bw_overflow := true |>
  else bw <| bw_data ::= λ d, d ++ p |>.
Definition bw_put_byte (bw : ByteWriter) (b : Z) : ByteWriter := bw_put bw [u8 b].
Definition bw_put_u32_be (bw : ByteWriter) (v : Z) : ByteWriter := bw_put bw (be32 v).
Definition bw_put_u64_be (bw : ByteWriter) (v : Z) : ByteWriter := bw_put bw (be64 v).

(** ** party_id.c *)

Definition hex_digit (n : Z) : Z := if n <? 10 then 48 + n else 87 + n.
(** The SDK's [%.*h]: two lowercase hexadecimal digits for each byte. *)
Definition hex_of (l : bytes) : bytes :=
  flat_map (λ b, [hex_digit (Z.shiftr b 4); hex_digit (Z.land b 15)]) l.

Section PartyId.
Context `{Sha256}.

(** [snprintf] writes at most [out_len - 1] characters and a terminator. *)
Definition party_id_from_pubkey (public_key : bytes) (out_len : nat) : option bytes :=
  if (out_len <? PARTY_ID_LEN)%nat then None
  else
    let tmp := canton_hash 0x0c (take ED25519_RAW_PUBLIC_KEY_LEN public_key) in
    Some (take (out_len - 1) (lit "ldg::" ++ hex_of tmp)).
End PartyId.

(** ** Lemmas *)

Lemma is_digit_spec c : is_digit c = true ↔ 48 ≤ c ≤ 57.
Proof. unfold is_digit. lia. Qed.

(** The decimal value of a digit string. *)
Definition decimal (str : bytes) : Z := fold_left (λ acc c, acc * 10 + (c - 48)) str 0.

Lemma decimal_from_bound str : ∀ acc, 0 ≤ acc →
  Forall (λ c, is_digit c = true) str →
  acc * 10 ^ Z.of_nat (length str)
    ≤ fold_left (λ acc c, acc * 10 + (c - 48)) str acc
    < (acc + 1) * 10 ^ Z.of_nat (length str).
Proof.
  induction str as [|c str IH]; intros acc Hacc Hd; [cbn; lia|].
  apply Forall_cons in Hd as [Hc Hd]. apply is_digit_spec in Hc.
  cbn [fold_left length]. specialize (IH (acc * 10 + (c - 48)) ltac:(lia) Hd).
  rewrite Nat2Z.inj_succ, Z.pow_succ_r by lia. nia.
Qed.

Lemma atoint_from_decimal str : ∀ acc, 0 ≤ acc →
  (acc + 1) * 10 ^ Z.of_nat (length str) ≤ 2 ^ 31 →
  Forall (λ c, is_digit c = true) str →
  atoint_from acc str = fold_left (λ acc c, acc * 10 + (c - 48)) str acc.
Proof.
  induction str as [|c str IH]; intros acc Hacc Hb Hd; [done|].
  apply Forall_cons in Hd as [Hc Hd]. cbn [atoint_from fold_left]. rewrite Hc.
  apply is_digit_spec in Hc. cbn [length] in Hb.
  rewrite Nat2Z.inj_succ, Z.pow_succ_r in Hb by lia.
  assert (0 < 10 ^ Z.of_nat (length str)) by (apply Z.pow_pos_nonneg; lia).
  replace (acc * 10 + c - 48) with (acc * 10 + (c - 48)) by lia.
  rewrite i32_id by (unfold is_i32; nia). apply IH; [lia|nia|done].
Qed.

(** Up to nine digits cannot overflow: the result is the decimal value. *)
Lemma atoint_decimal str :
  Forall (λ c, is_digit c = true) str → (length str ≤ 9)%nat →
  atoint str = decimal str.
Proof.
  intros Hd Hl. unfold atoint, decimal. rewrite c_str_id.
  - apply atoint_from_decimal; [lia| |done].
    assert (10 ^ Z.of_nat (length str) ≤ 10 ^ 9) by (apply Z.pow_le_mono_r; lia). lia.
  - eapply Forall_impl; [exact Hd|]. intros c Hc%is_digit_spec. lia.
Qed.

Lemma length_canton_hash `{Sha256Len} p d : length (canton_hash p d) = CANTON_HASH_LEN.
Proof. unfold canton_hash. cbn. by rewrite sha256_length. Qed.

Lemma bw_put_fits bw p : bw_overflow bw = false →
  (bw_size bw + length p ≤ bw_cap bw)%nat →
  bw_put bw p = {| bw_cap := bw_cap bw; bw_data := bw_data bw ++ p; bw_overflow := false |}.
Proof.
  intros Ho Hl. unfold bw_put. rewrite Ho. cbn [orb].
  destruct (Nat.ltb_spec (bw_cap bw) (bw_size bw + length p)); [lia|].
  destruct bw; cbn in *; by subst.
Qed.
