(* ===== verification/TreeCheck.v ===== *)
(** * Node tree check ([src/transaction/node_tree_check.c])

    The nodes of a prepared transaction must form one tree.  The state is the C
    [check_ctx]; every public function is a function on it.  The specification at the end
    is a run over the same events that keeps only which ids arrived and which were
    claimed; the check accepts exactly when that run does, and an accepted transaction in
    which children arrive before their parents is a tree rooted at the announced root. *)

From S2P Require Import Prelude Constants Utils.

(** ** State *)

Inductive tree_error_e :=
  | TREE_OK
  | TREE_ERR_NODE_ID_OUT_OF_RANGE
  | TREE_ERR_DUPLICATE_NODE
  | TREE_ERR_CHILD_OUT_OF_RANGE
  | TREE_ERR_SELF_CHILD
  | TREE_ERR_ROOT_CLAIMED
  | TREE_ERR_DUPLICATE_CLAIM
  | TREE_ERR_ROOT_COUNT
  | TREE_ERR_ORPHAN_NODE
  | TREE_ERR_MISSING_CHILD
  | TREE_ERR_TOO_MANY_NODES
  | TREE_ERR_NO_MEMORY.
#[export] Instance tree_error_e_eq_dec : EqDecision tree_error_e.
Proof. solve_decision. Defined.

Record node_check_t := { seen : bool; claimed : bool }.
#[export] Instance eta_node_check_t : Eta node_check_t :=
  λ n, Build_node_check_t (seen n) (claimed n).

(** [check_ctx.nodes] is [None] for the NULL pointer. *)
Record tree_check_context_t := {
  tc_nodes : option (list node_check_t);
  tc_root_id : Z;
  tc_nodes_count : Z;
  tc_err : tree_error_e
}.
#[export] Instance eta_tree_check_context_t : Eta tree_check_context_t :=
  λ c, Build_tree_check_context_t (tc_nodes c) (tc_root_id c) (tc_nodes_count c) (tc_err c).

(** ** Operations *)

Definition set_tree_error (err : tree_error_e) (c : tree_check_context_t)
  : tree_check_context_t :=
  if decide (tc_err c = TREE_OK) then c <| tc_err := err |> else c.

Definition node_id_from_str (str : option bytes) : Z :=
  match str with
  | None => -1
  | Some s =>
      if bool_decide (c_str s = []) || (3 <? strlen s) then -1
      else if forallb is_digit (c_str s) then atoint s
      else -1
  end.

(** [check_ctx.nodes[i]].  C leaves a NULL or out-of-range access undefined; the guards of
    the callers exclude it ([node_at_in_range]). *)
Definition node_at (c : tree_check_context_t) (i : Z) : node_check_t :=
  match tc_nodes c with
  | Some l => nth (Z.to_nat i) l {| seen := false; claimed := false |}
  | None => {| seen := false; claimed := false |}
  end.
Definition set_node_at (i : Z) (f : node_check_t → node_check_t)
    (c : tree_check_context_t) : tree_check_context_t :=
  c <| tc_nodes ::= λ o, match o with Some l => Some (alter f (Z.to_nat i) l) | None => None end |>.

(** After [memset] every field is zero, and the root id is set to unknown. *)
Definition tree_check_reset (c : tree_check_context_t) : tree_check_context_t :=
  {| tc_nodes := None; tc_root_id := -1; tc_nodes_count := 0; tc_err := TREE_OK |}.

(** [roots] is NULL when no root was decoded; [mem] tells whether the allocator can serve
    the tracking array. *)
Definition tree_check_init (mem : bool) (roots : list (option bytes)) (nodes_count : Z)
    (c : tree_check_context_t) : bool * tree_check_context_t :=
  let c := tree_check_reset c in
  if (nodes_count <? 0) || (MAX_TX_NODES <? nodes_count) then
    (false, set_tree_error TREE_ERR_TOO_MANY_NODES c)
  else match roots with
  | [root] =>
      if negb mem then (false, set_tree_error TREE_ERR_NO_MEMORY c)
      else
        let nodes :=
          if nodes_count =? 0 then None
          else Some (replicate (Z.to_nat nodes_count) {| seen := false; claimed := false |}) in
        let c := c <| tc_nodes := nodes |> <| tc_nodes_count := nodes_count |> in
        let root_id := node_id_from_str root in
        if (root_id <? 0) || (nodes_count <=? root_id) then
          (false, set_tree_error TREE_ERR_NODE_ID_OUT_OF_RANGE c)
        else
          (true, set_node_at root_id (λ n, n <| claimed := true |>) (c <| tc_root_id := root_id |>))
  | _ => (false, set_tree_error TREE_ERR_ROOT_COUNT c)
  end.

Definition tree_mark_seen (node_id : Z) (c : tree_check_context_t) : tree_check_context_t :=
  if (node_id <? 0) || (tc_nodes_count c <=? node_id) then
    set_tree_error TREE_ERR_NODE_ID_OUT_OF_RANGE c
  else if seen (node_at c node_id) then set_tree_error TREE_ERR_DUPLICATE_NODE c
  else set_node_at node_id (λ n, n <| seen := true |>) c.

(** The loop over the child ids; NULL children are the empty list. *)
Fixpoint tree_claim_children (parent_id : Z) (children : list (option bytes))
    (c : tree_check_context_t) : tree_check_context_t :=
  match children with
  | [] => c
  | child :: rest =>
      let child_id := node_id_from_str child in
      if (child_id <? 0) || (tc_nodes_count c <=? child_id) then
        set_tree_error TREE_ERR_CHILD_OUT_OF_RANGE c
      else if child_id =? parent_id then set_tree_error TREE_ERR_SELF_CHILD c
      else if child_id =? tc_root_id c then set_tree_error TREE_ERR_ROOT_CLAIMED c
      else if claimed (node_at c child_id) then set_tree_error TREE_ERR_DUPLICATE_CLAIM c
      else tree_claim_children parent_id rest
             (set_node_at child_id (λ n, n <| claimed := true |>) c)
  end.

(** The final sweep, stopping at the first node whose two flags differ. *)
Fixpoint tree_sweep (ids : list Z) (c : tree_check_context_t) : tree_check_context_t :=
  match ids with
  | [] => c
  | i :: rest =>
      let n := node_at c i in
      if seen n && negb (claimed n) then set_tree_error TREE_ERR_ORPHAN_NODE c
      else if negb (seen n) && claimed n then set_tree_error TREE_ERR_MISSING_CHILD c
      else tree_sweep rest c
  end.

Definition tree_verify_complete (c : tree_check_context_t)
  : tree_error_e * tree_check_context_t :=
  let c := tree_sweep (seqZ 0 (tc_nodes_count c)) c in
  let c := c <| tc_nodes := None |> <| tc_nodes_count := 0 |> in
  (tc_err c, c).

Definition tree_can_clear_sign (c : tree_check_context_t) : bool :=
  bool_decide (tc_err c = TREE_OK).

Definition tree_error_is_impossible (err : tree_error_e) : bool :=
  match err with
  | TREE_ERR_NODE_ID_OUT_OF_RANGE
  | TREE_ERR_DUPLICATE_NODE
  | TREE_ERR_CHILD_OUT_OF_RANGE
  | TREE_ERR_SELF_CHILD
  | TREE_ERR_ROOT_CLAIMED
  | TREE_ERR_DUPLICATE_CLAIM => true
  | _ => false
  end.

(** ** Specification

    One event for each node part: the children the node declared, claimed under the
    parent id known at that point, and the id the node arrived with. *)

Record node_event := { ev_parent : Z; ev_children : list (option bytes); ev_id : Z }.

Definition child_ids (ev : node_event) : list Z := map node_id_from_str (ev_children ev).
Definition all_claims (evs : list node_event) : list Z := flat_map child_ids evs.
Definition all_ids (evs : list node_event) : list Z := map ev_id evs.

(** What [proto_deserialize_node] does to the check, for one node part. *)
Definition node_arrives (c : tree_check_context_t) (ev : node_event) : tree_check_context_t :=
  tree_mark_seen (ev_id ev) (tree_claim_children (ev_parent ev) (ev_children ev) c).

Definition in_range (n i : Z) : Prop := 0 ≤ i < n.

Record tree_valid (n root : Z) (evs : list node_event) : Prop := {
  tv_root : in_range n root;
  tv_ids_range : Forall (in_range n) (all_ids evs);
  tv_ids_nodup : NoDup (all_ids evs);
  tv_claims_range : Forall (in_range n) (all_claims evs);
  tv_claims_nodup : NoDup (all_claims evs);
  tv_root_free : root ∉ all_claims evs;
  tv_no_self : Forall (λ ev, ev_parent ev ∉ child_ids ev) evs;
  tv_complete : ∀ i, i ∈ all_ids evs ↔ i = root ∨ i ∈ all_claims evs
}.

(** ** The concrete state tracks the ids that arrived and those that were claimed *)

Record tracks (n root : Z) (ids cl : list Z) (c : tree_check_context_t) : Prop := {
  tr_err : tc_err c = TREE_OK;
  tr_root : tc_root_id c = root;
  tr_count : tc_nodes_count c = n;
  tr_nodes : ∃ l, tc_nodes c = Some l ∧ Z.of_nat (length l) = n;
  tr_seen : ∀ i, in_range n i → seen (node_at c i) = true ↔ i ∈ ids;
  tr_claimed : ∀ i, in_range n i → claimed (node_at c i) = true ↔ i = root ∨ i ∈ cl
}.

Lemma set_tree_error_err e c : e ≠ TREE_OK → tc_err (set_tree_error e c) ≠ TREE_OK.
Proof. unfold set_tree_error. by case_decide. Qed.

Lemma node_at_set_node_at c i j f l :
  tc_nodes c = Some l → 0 ≤ i < Z.of_nat (length l) → 0 ≤ j →
  node_at (set_node_at i f c) j = if decide (i = j) then f (node_at c j) else node_at c j.
Proof.
  intros Hl Hi Hj. unfold node_at, set_node_at; cbn. rewrite Hl.
  rewrite !nth_lookup. case_decide as Heq.
  - subst. rewrite list_lookup_alter_eq.
    destruct (lookup_lt_is_Some_2 l (Z.to_nat j)) as [x Hx]; [lia|]. by rewrite Hx.
  - rewrite list_lookup_alter_ne by lia. done.
Qed.

Lemma tracks_set n root ids cl c i f ids' cl' :
  tracks n root ids cl c → in_range n i →
  (∀ j, in_range n j →
    let m := if decide (i = j) then f (node_at c j) else node_at c j in
    (seen m = true ↔ j ∈ ids') ∧ (claimed m = true ↔ j = root ∨ j ∈ cl')) →
  tracks n root ids' cl' (set_node_at i f c).
Proof.
  intros [He Hr Hc (l & Hl & Hlen) Hs Hcl] Hi H. unfold in_range in *.
  split; try done.
  - unfold set_node_at; cbn. rewrite Hl. eexists; split; [done|].
    by rewrite length_alter.
  - intros j Hj. rewrite (node_at_set_node_at _ _ _ _ l) by (unfold in_range in *; done || lia). by apply H.
  - intros j Hj. rewrite (node_at_set_node_at _ _ _ _ l) by (unfold in_range in *; done || lia). by apply H.
Qed.

Lemma tree_mark_seen_spec n root ids cl c id :
  tracks n root ids cl c →
  (in_range n id ∧ id ∉ ids ∧ tracks n root (ids ++ [id]) cl (tree_mark_seen id c)) ∨
  (¬ (in_range n id ∧ id ∉ ids) ∧ tc_err (tree_mark_seen id c) ≠ TREE_OK).
Proof.
  intros T. pose proof T as [He Hr Hc Hn Hs Hcl]. unfold tree_mark_seen. rewrite Hc.
  destruct (Z.ltb_spec id 0); cbn [orb];
    [right; split; [unfold in_range; lia|by apply set_tree_error_err]|].
  destruct (Z.leb_spec n id); cbn [orb];
    [right; split; [unfold in_range; lia|by apply set_tree_error_err]|].
  assert (in_range n id) as Hid by (unfold in_range; lia).
  destruct (seen (node_at c id)) eqn:Hseen.
  - right. apply Hs in Hseen; [|done]. split; [naive_solver|by apply set_tree_error_err].
  - left. assert (id ∉ ids) as Hni by (intros Hin%Hs; congruence).
    split_and!; [done..|]. eapply tracks_set; [done..|].
    intros j Hj; cbn. case_decide; subst; cbn.
    + split; [set_solver|by apply Hcl].
    + rewrite (Hs j Hj), (Hcl j Hj). set_solver.
Qed.

Lemma tree_claim_children_spec n root ids parent children : ∀ cl c,
  tracks n root ids cl c →
  let ch := map node_id_from_str children in
  let ok := Forall (in_range n) ch ∧ parent ∉ ch ∧ root ∉ ch ∧ NoDup ch ∧
            (∀ i, i ∈ ch → i ∉ cl) in
  (ok ∧ tracks n root ids (cl ++ ch) (tree_claim_children parent children c)) ∨
  (¬ ok ∧ tc_err (tree_claim_children parent children c) ≠ TREE_OK).
Proof.
  induction children as [|child children IH]; intros cl c T; cbn zeta.
  { left. split; [|cbn; by rewrite app_nil_r].
    split_and!; [constructor|apply not_elem_of_nil..|constructor|set_solver]. }
  pose proof T as [He Hr Hc Hn Hs Hcl]. cbn [tree_claim_children map].
  set (k := node_id_from_str child). rewrite Hc, Hr.
  destruct ((k <? 0) || (n <=? k)) eqn:Hk.
  { right. split; [|by apply set_tree_error_err].
    intros (Hf & _). apply Forall_cons in Hf as [Hf _]. unfold in_range in Hf. lia. }
  assert (in_range n k) as Hkr by (unfold in_range; lia).
  destruct (Z.eqb_spec k parent);
    [right; split; [set_solver|by apply set_tree_error_err]|].
  destruct (Z.eqb_spec k root);
    [right; split; [set_solver|by apply set_tree_error_err]|].
  destruct (claimed (node_at c k)) eqn:Hck.
  { right. split; [|by apply set_tree_error_err].
    apply Hcl in Hck; [|done]. set_solver. }
  assert (k ∉ cl) as Hkcl by (intros Hin; assert (claimed (node_at c k) = true) by
    (apply Hcl; [done|by right]); congruence).
  edestruct (IH (cl ++ [k]) (set_node_at k (λ m, m <| claimed := true |>) c)) as [[Hok HT]|[Hno HT]].
  - eapply tracks_set; [done..|]. intros j Hj; cbn. case_decide; subst; cbn.
    + split; [by apply Hs|set_solver].
    + rewrite (Hs j Hj), (Hcl j Hj). set_solver.
  - left. destruct Hok as (Hf & Hp & Hr' & Hnd & Hdis). split.
    + split_and!; [by constructor|set_solver..| |set_solver].
      constructor; [|done]. set_solver.
    + by rewrite <- app_assoc in HT.
  - right. split; [|done]. intros (Hf & Hp & Hr' & Hnd & Hdis). apply Hno.
    apply Forall_cons in Hf as [_ Hf]. apply NoDup_cons in Hnd as [Hnk Hnd].
    split_and!; [done|set_solver..|done|set_solver].
Qed.

(** An error, once set, stays. *)
Lemma set_tree_error_keeps e c : tc_err c ≠ TREE_OK → set_tree_error e c = c.
Proof. intros H. unfold set_tree_error. by case_decide. Qed.

Lemma tree_mark_seen_failed id c : tc_err c ≠ TREE_OK → tc_err (tree_mark_seen id c) = tc_err c.
Proof.
  intros H. unfold tree_mark_seen. repeat case_match; try done; by rewrite set_tree_error_keeps.
Qed.

Lemma tree_claim_children_failed parent children : ∀ c,
  tc_err c ≠ TREE_OK → tc_err (tree_claim_children parent children c) = tc_err c.
Proof.
  induction children as [|child children IH]; intros c H; cbn [tree_claim_children]; [done|].
  repeat case_match; try (by rewrite set_tree_error_keeps). by rewrite IH.
Qed.

Lemma tree_sweep_failed ids : ∀ c, tc_err c ≠ TREE_OK → tc_err (tree_sweep ids c) = tc_err c.
Proof.
  induction ids as [|i ids IH]; intros c H; cbn [tree_sweep]; [done|].
  repeat case_match; try (by rewrite set_tree_error_keeps). by apply IH.
Qed.

Lemma foldl_node_arrives_failed evs : ∀ c,
  tc_err c ≠ TREE_OK → tc_err (foldl node_arrives c evs) = tc_err c.
Proof.
  induction evs as [|ev evs IH]; intros c H; cbn [foldl]; [done|].
  assert (tc_err (node_arrives c ev) = tc_err c) as E.
  { unfold node_arrives. rewrite tree_mark_seen_failed; rewrite tree_claim_children_failed; done. }
  by rewrite IH; rewrite E.
Qed.

(** The sweep finds no error exactly when the flags of every node agree. *)
Lemma tree_sweep_spec n root ids cl c js :
  tracks n root ids cl c → Forall (in_range n) js →
  tc_err (tree_sweep js c) = TREE_OK ↔ ∀ i, i ∈ js → (i ∈ ids ↔ i = root ∨ i ∈ cl).
Proof.
  intros T Hr. pose proof T as [He _ _ _ Hs Hcl].
  induction Hr as [|i js Hi Hr IH]; cbn [tree_sweep]; [set_solver|].
  specialize (Hs i Hi). specialize (Hcl i Hi).
  destruct (seen (node_at c i)) eqn:E1, (claimed (node_at c i)) eqn:E2;
    cbn [andb negb]; rewrite ?IH.
  2, 3: split; [by intros ?%set_tree_error_err|intros H; specialize (H i ltac:(set_solver));
    naive_solver].
  all: setoid_rewrite elem_of_cons; split; [|by auto].
  all: intros H j [->|Hj]; [|by apply H].
  - by rewrite <- Hs, <- Hcl.
  - by rewrite <- Hs, <- Hcl.
Qed.

(** The checks on one event, relative to what came before. *)
Definition event_ok (n root : Z) (ids cl : list Z) (ev : node_event) : Prop :=
  Forall (in_range n) (child_ids ev) ∧ ev_parent ev ∉ child_ids ev ∧ root ∉ child_ids ev ∧
  NoDup (child_ids ev) ∧ (∀ i, i ∈ child_ids ev → i ∉ cl) ∧
  in_range n (ev_id ev) ∧ ev_id ev ∉ ids.

Fixpoint events_ok (n root : Z) (ids cl : list Z) (evs : list node_event) : Prop :=
  match evs with
  | [] => True
  | ev :: evs' => event_ok n root ids cl ev ∧
                  events_ok n root (ids ++ [ev_id ev]) (cl ++ child_ids ev) evs'
  end.

Lemma node_arrives_spec n root ids cl c ev :
  tracks n root ids cl c →
  (event_ok n root ids cl ev ∧
     tracks n root (ids ++ [ev_id ev]) (cl ++ child_ids ev) (node_arrives c ev)) ∨
  (¬ event_ok n root ids cl ev ∧ tc_err (node_arrives c ev) ≠ TREE_OK).
Proof.
  intros T. unfold node_arrives, event_ok.
  destruct (tree_claim_children_spec n root ids (ev_parent ev) (ev_children ev) cl c T)
    as [[Hok T']|[Hno E]]; fold (child_ids ev) in *.
  - destruct (tree_mark_seen_spec _ _ _ _ _ (ev_id ev) T') as [(H1 & H2 & H3)|[Hno E]];
      [left|right]; naive_solver.
  - right. rewrite tree_mark_seen_failed by done. naive_solver.
Qed.

Lemma foldl_node_arrives_spec n root evs : ∀ ids cl c,
  tracks n root ids cl c →
  (events_ok n root ids cl evs ∧
     tracks n root (ids ++ all_ids evs) (cl ++ all_claims evs) (foldl node_arrives c evs)) ∨
  (¬ events_ok n root ids cl evs ∧ tc_err (foldl node_arrives c evs) ≠ TREE_OK).
Proof.
  induction evs as [|ev evs IH]; intros ids cl c T; cbn.
  { left. by rewrite !app_nil_r. }
  destruct (node_arrives_spec _ _ _ _ _ ev T) as [[Hok T']|[Hno E]].
  - destruct (IH _ _ _ T') as [[H1 H2]|[H1 H2]]; [left|right; naive_solver].
    rewrite <- !app_assoc in H2. done.
  - right. rewrite foldl_node_arrives_failed by done. naive_solver.
Qed.

(** All the checks of a run, said at once. *)
Lemma events_ok_iff n root evs : ∀ ids cl,
  events_ok n root ids cl evs ↔
  Forall (in_range n) (all_ids evs) ∧ NoDup (all_ids evs) ∧
  (∀ i, i ∈ all_ids evs → i ∉ ids) ∧
  Forall (in_range n) (all_claims evs) ∧ NoDup (all_claims evs) ∧
  (∀ i, i ∈ all_claims evs → i ∉ cl) ∧ root ∉ all_claims evs ∧
  Forall (λ ev, ev_parent ev ∉ child_ids ev) evs.
Proof.
  induction evs as [|ev evs IH]; intros ids cl; cbn.
  { split; [|done]. intros _. split_and!; try constructor; set_solver. }
  rewrite IH. unfold event_ok. rewrite !Forall_cons, Forall_app, NoDup_cons, NoDup_app.
  setoid_rewrite elem_of_app. setoid_rewrite list_elem_of_singleton.
  setoid_rewrite elem_of_cons.
  split; intros; destruct_and?; split_and!; try done; naive_solver.
Qed.

Lemma nth_replicate_same {A} (x : A) n k : nth k (replicate n x) x = x.
Proof.
  rewrite nth_lookup. destruct (replicate n x !! k) eqn:E; [|done].
  by apply lookup_replicate in E as [-> _].
Qed.

(** A successful initialisation starts the tracking: nothing arrived, the root claimed. *)
Lemma tree_check_init_spec mem root n c :
  (fst (tree_check_init mem [root] n c) = true ∧ mem = true ∧ n ≤ MAX_TX_NODES ∧
     in_range n (node_id_from_str root) ∧
     tracks n (node_id_from_str root) [] [] (snd (tree_check_init mem [root] n c))) ∨
  (fst (tree_check_init mem [root] n c) = false ∧
     ¬ (mem = true ∧ n ≤ MAX_TX_NODES ∧ in_range n (node_id_from_str root)) ∧
     tc_err (snd (tree_check_init mem [root] n c)) ≠ TREE_OK).
Proof.
  unfold tree_check_init, in_range.
  set (r := node_id_from_str root). cbv zeta.
  destruct ((n <? 0) || (MAX_TX_NODES <? n)) eqn:Hn.
  { right. split_and!; [done|lia|by apply set_tree_error_err]. }
  destruct mem; cbn [negb].
  2: { right. split_and!; [done|naive_solver|by apply set_tree_error_err]. }
  destruct ((r <? 0) || (n <=? r)) eqn:Hr.
  { right. split_and!; [done|lia|by apply set_tree_error_err]. }
  left. split_and!; try done; [lia..|]. cbn [fst snd].
  destruct (Z.eqb_spec n 0); [lia|].
  unfold tree_check_reset; cbn -[set_node_at].
  set (l := replicate (Z.to_nat n) _).
  assert (Z.of_nat (length l) = n) as Hl by (unfold l; rewrite length_replicate; lia).
  split; try done; cbn -[set_node_at].
  - exists (alter (λ m, m <| claimed := true |>) (Z.to_nat r) l).
    by rewrite length_alter.
  - intros j Hj. rewrite (node_at_set_node_at _ _ _ _ l) by (unfold in_range in *; done || lia).
    unfold node_at, l; cbn. rewrite nth_replicate_same. case_decide; cbn; set_solver.
  - intros j Hj. rewrite (node_at_set_node_at _ _ _ _ l) by (unfold in_range in *; done || lia).
    unfold node_at, l; cbn. rewrite nth_replicate_same. case_decide; cbn; set_solver.
Qed.

(** The whole check, as the parsers drive it: the header initialises it, each node part
    claims its children and marks its id, and the last part closes it. *)
Definition tree_run (mem : bool) (roots : list (option bytes)) (n : Z)
    (evs : list node_event) (c : tree_check_context_t) : tree_check_context_t :=
  foldl node_arrives (snd (tree_check_init mem roots n c)) evs.

Lemma tree_check_accepts root n evs c :
  fst (tree_verify_complete (tree_run true [root] n evs c)) = TREE_OK ↔
  n ≤ MAX_TX_NODES ∧ tree_valid n (node_id_from_str root) evs.
Proof.
  unfold tree_verify_complete, tree_run; cbn [fst tc_err update_field].
  destruct (tree_check_init_spec true root n c) as [(_ & _ & Hn & Hr & T)|(_ & Hno & E)].
  2: { cbn. rewrite tree_sweep_failed, foldl_node_arrives_failed;
         rewrite ?foldl_node_arrives_failed; try done.
       split; [done|]. intros [? []]. naive_solver. }
  destruct (foldl_node_arrives_spec _ _ evs _ _ _ T) as [[Hok T']|[Hno E]]; cbn.
  2: { rewrite tree_sweep_failed by done. split; [done|]. intros [_ []].
       destruct Hno. apply events_ok_iff. split_and!; try done; set_solver. }
  rewrite events_ok_iff in Hok. destruct Hok as (H1 & H2 & _ & H3 & H4 & _ & H5 & H6).
  rewrite !app_nil_l in T'. rewrite (tr_count _ _ _ _ _ T'), (tree_sweep_spec _ _ _ _ _ _ T').
  2: { apply Forall_forall. intros i Hi%elem_of_seqZ. unfold in_range. lia. }
  split.
  - intros H. split; [done|]. split; try done. intros i. rewrite Forall_forall in H1, H3.
    split.
    + intros Hi. apply H; [|done]. specialize (H1 i Hi). unfold in_range in H1.
      apply elem_of_seqZ. lia.
    + intros Hi. apply H; [|done]. apply elem_of_seqZ.
      destruct Hi as [->|Hi]; [|specialize (H3 i Hi)]; unfold in_range in *; lia.
  - intros [_ []] i _. done.
Qed.

(** A check that could not start, for whatever reason, is never accepted. *)
Lemma tree_accepted_inv mem roots n evs c :
  fst (tree_verify_complete (tree_run mem roots n evs c)) = TREE_OK →
  ∃ root, roots = [root] ∧ n ≤ MAX_TX_NODES ∧ tree_valid n (node_id_from_str root) evs.
Proof.
  assert (Hfail : tc_err (snd (tree_check_init mem roots n c)) ≠ TREE_OK →
    fst (tree_verify_complete (tree_run mem roots n evs c)) ≠ TREE_OK).
  { intros Hno. unfold tree_verify_complete, tree_run. cbn [fst tc_err update_field].
    cbn. by rewrite tree_sweep_failed, foldl_node_arrives_failed;
      rewrite ?foldl_node_arrives_failed. }
  unfold tree_check_init in Hfail. destruct roots as [|root [|r roots]].
  - destruct ((n <? 0) || (MAX_TX_NODES <? n)); intros E; by destruct Hfail.
  - destruct mem.
    + intros E%tree_check_accepts. by exists root.
    + destruct ((n <? 0) || (MAX_TX_NODES <? n)); intros E; by destruct Hfail.
  - destruct ((n <? 0) || (MAX_TX_NODES <? n)); intros E; by destruct Hfail.
Qed.

Lemma flat_map_nodup_same {A B} (f : A → list B) l x y b :
  NoDup (flat_map f l) → x ∈ l → y ∈ l → b ∈ f x → b ∈ f y → x = y.
Proof.
  induction l as [|z l IH]; cbn; [set_solver|].
  rewrite NoDup_app. intros (Hz & Hd & Hl) Hx Hy Hbx Hby.
  assert (∀ w, w ∈ l → b ∈ f w → b ∈ flat_map f l) as HI.
  { intros w Hw Hbw. apply list_elem_of_In, in_flat_map. exists w.
    by rewrite <- !list_elem_of_In. }
  apply elem_of_cons in Hx as [->|Hx], Hy as [->|Hy]; [done|..|by apply IH].
  - exfalso. by apply (Hd b), (HI y).
  - exfalso. by apply (Hd b), (HI x).
Qed.


(** The announced tree: [child_of evs p i] when a part with id [p] declared [i]. *)
Definition child_of (evs : list node_event) (p i : Z) : Prop :=
  ∃ ev, ev ∈ evs ∧ ev_id ev = p ∧ i ∈ child_ids ev.

(** A part only declares children that arrived before it: the node hash of a parent is
    built from the stored hashes of its children, so hashing refuses anything else. *)
Definition children_first (evs : list node_event) : Prop :=
  ∀ j ev i, evs !! j = Some ev → i ∈ child_ids ev →
    ∃ k, (k < j)%nat ∧ all_ids evs !! k = Some i.

Lemma reaches_root n root evs : tree_valid n root evs → children_first evs →
  ∀ m k i, (m + k = length evs)%nat → all_ids evs !! k = Some i →
  rtc (child_of evs) root i.
Proof.
  intros V CF m. induction (lt_wf m) as [m _ IH]. intros k i Hmk Hi.
  destruct V as [_ _ Hnd _ _ _ _ Hcomp].
  destruct (proj1 (Hcomp i) (list_elem_of_lookup_2 _ _ _ Hi)) as [->|Hcl]; [done|].
  unfold all_claims in Hcl. apply list_elem_of_In, in_flat_map in Hcl as (ev & Hev & Hic).
  apply list_elem_of_In, list_elem_of_lookup in Hev as [j Hj]. apply list_elem_of_In in Hic.
  destruct (CF j ev i Hj Hic) as (k' & Hk' & Hi').
  assert (k' = k) as -> by (by eapply NoDup_lookup).
  pose proof (lookup_lt_Some _ _ _ Hj).
  apply rtc_r with (ev_id ev).
  - apply (IH (length evs - j)%nat) with j; [lia|lia|].
    unfold all_ids. rewrite list_lookup_fmap, Hj. done.
  - exists ev. split_and!; [by eapply list_elem_of_lookup_2|done|done].
Qed.

(** C21: An accepted transaction in which children come before their parents is one tree
    rooted at the announced root: every node that arrived is reached from the root by
    declared parent links, and no node has two parents. *)
Theorem accepted_is_rooted_tree root n evs c :
  fst (tree_verify_complete (tree_run true [root] n evs c)) = TREE_OK →
  children_first evs →
  (∀ i, i ∈ all_ids evs → rtc (child_of evs) (node_id_from_str root) i) ∧
  (∀ p q i, child_of evs p i → child_of evs q i → p = q).
Proof.
  intros H CF. apply tree_check_accepts in H as [_ V]. split.
  - intros i [k Hk]%list_elem_of_lookup. pose proof (lookup_lt_Some _ _ _ Hk) as Hl.
    unfold all_ids in Hl. rewrite length_map in Hl.
    eapply (reaches_root _ _ _ V CF (length evs - k)%nat k); [lia|done].
  - intros p q i (ev1 & H1 & <- & Hi1) (ev2 & H2 & <- & Hi2).
    f_equal. eapply flat_map_nodup_same; [exact (tv_claims_nodup _ _ _ V)|..]; done.
Qed.

Example sample_events : list node_event :=
  [{| ev_parent := 1; ev_children := []; ev_id := 1 |};
   {| ev_parent := 2; ev_children := [Some (lit "1")]; ev_id := 2 |};
   {| ev_parent := 0; ev_children := [Some (lit "2")]; ev_id := 0 |}].

Lemma accepted_is_rooted_tree_witness :
  rtc (child_of sample_events) 0 1.
Proof.
  apply (accepted_is_rooted_tree (Some (lit "0")) 3 sample_events
           (tree_check_reset {| tc_nodes := None; tc_root_id := 0; tc_nodes_count := 0;
                                tc_err := TREE_OK |})).
  - reflexivity.
  - intros [|[|[|j]]] ev i Hev Hi; cbn in Hev; simplify_eq; cbn in Hi.
    + by apply elem_of_nil in Hi.
    + apply list_elem_of_singleton in Hi as ->. exists 0%nat. split; [lia|reflexivity].
    + apply list_elem_of_singleton in Hi as ->. exists 1%nat. split; [lia|reflexivity].
  - cbn. set_solver.
Defined.

(** Pigeonhole: [n] distinct ids below [n] are all of them. *)
Lemma all_ids_present n ids :
  Forall (in_range n) ids → NoDup ids → Z.of_nat (length ids) = n →
  ∀ i, in_range n i → i ∈ ids.
Proof.
  intros Hr Hnd Hl i Hi.
  assert (Hincl : incl (seqZ 0 n) ids).
  { apply (NoDup_length_incl (l := ids) (l' := seqZ 0 n)).
    - by apply NoDup_ListNoDup.
    - rewrite length_seqZ. lia.
    - intros j Hj. rewrite <- list_elem_of_In in *. rewrite Forall_forall in Hr.
      specialize (Hr j Hj). unfold in_range in Hr. apply elem_of_seqZ. lia. }
  apply list_elem_of_In, Hincl, list_elem_of_In, elem_of_seqZ. unfold in_range in Hi. lia.
Qed.

Lemma tree_sweep_no_missing n root ids cl c js :
  tracks n root ids cl c → Forall (in_range n) js → Forall (.∈ ids) js →
  tc_err (tree_sweep js c) ≠ TREE_ERR_MISSING_CHILD.
Proof.
  intros T Hr Hin. induction Hr as [|i js Hi Hr IH]; cbn [tree_sweep].
  { by rewrite (tr_err _ _ _ _ _ T). }
  apply Forall_cons in Hin as [Hii Hin].
  rewrite (proj2 (tr_seen _ _ _ _ _ T i Hi) Hii). cbn [andb negb].
  case_match; [|by apply IH].
  unfold set_tree_error. rewrite decide_True by apply (tr_err _ _ _ _ _ T). done.
Qed.

(** No step other than the final sweep reports a missing child. *)
Lemma foldl_no_missing evs : ∀ c,
  tc_err c ≠ TREE_ERR_MISSING_CHILD →
  tc_err (foldl node_arrives c evs) ≠ TREE_ERR_MISSING_CHILD.
Proof.
  assert (S : ∀ e c, e ≠ TREE_ERR_MISSING_CHILD → tc_err c ≠ TREE_ERR_MISSING_CHILD →
    tc_err (set_tree_error e c) ≠ TREE_ERR_MISSING_CHILD).
  { intros e c He Hc. unfold set_tree_error. by case_decide. }
  assert (H1 : ∀ p ch c, tc_err c ≠ TREE_ERR_MISSING_CHILD →
    tc_err (tree_claim_children p ch c) ≠ TREE_ERR_MISSING_CHILD).
  { intros p ch. induction ch as [|x ch IH]; intros c Hc; cbn [tree_claim_children]; [done|].
    repeat case_match; try (by apply S). by apply IH. }
  induction evs as [|ev evs IH]; intros c Hc; cbn [foldl]; [done|].
  apply IH. unfold node_arrives, tree_mark_seen.
  repeat case_match; try apply S; try done; by apply H1.
Qed.

(** When as many node parts arrived as the header announced, the sweep never reports
    a missing child: a gap in the ids always shows up as an earlier error. *)
Theorem missing_child_cannot_happen mem roots n evs c :
  Z.of_nat (length evs) = n →
  fst (tree_verify_complete (tree_run mem roots n evs c)) ≠ TREE_ERR_MISSING_CHILD.
Proof.
  intros Hl. unfold tree_verify_complete, tree_run; cbn [fst tc_err update_field].
  set (c0 := snd (tree_check_init mem roots n c)).
  assert (H0 : tc_err c0 ≠ TREE_ERR_MISSING_CHILD).
  { subst c0. unfold tree_check_init. repeat case_match; cbn; done. }
  destruct (decide (tc_err (foldl node_arrives c0 evs) = TREE_OK)) as [Eok|Ebad]; cbn.
  2: { rewrite tree_sweep_failed by done. by apply foldl_no_missing. }
  assert (Ec0 : tc_err c0 = TREE_OK).
  { destruct (decide (tc_err c0 = TREE_OK)) as [|E]; [done|].
    by rewrite foldl_node_arrives_failed in Eok. }
  subst c0. destruct roots as [|root [|r2 roots]].
  1, 3: unfold tree_check_init in Ec0; by repeat case_match.
  destruct (tree_check_init_spec mem root n c) as [(_ & _ & _ & _ & T)|(_ & _ & E)]; [|done].
  destruct (foldl_node_arrives_spec _ _ evs _ _ _ T) as [[Hok T']|[_ E]]; [|done].
  apply events_ok_iff in Hok as (H1 & H2 & _).
  rewrite (tr_count _ _ _ _ _ T').
  assert (Hr : Forall (in_range n) (seqZ 0 n)).
  { apply Forall_forall. intros i Hi%elem_of_seqZ. unfold in_range. lia. }
  eapply tree_sweep_no_missing; [exact T'|done|].
  eapply Forall_impl; [exact Hr|]. cbn beta. intros i Hi.
  apply (all_ids_present n); try done. cbn. unfold all_ids. by rewrite length_map.
Qed.

Lemma missing_child_cannot_happen_witness :
  fst (tree_verify_complete (tree_run true [Some (lit "0")] 3 sample_events
    {| tc_nodes := None; tc_root_id := 0; tc_nodes_count := 0; tc_err := TREE_OK |}))
    ≠ TREE_ERR_MISSING_CHILD.
Proof. apply missing_child_cannot_happen. reflexivity. Defined.
