(* ===== verification/DisplayConfig.v ===== *)
(** * Display configuration ([src/transaction/pb_node_display_definitions.h] and
      [src/transaction/pb_node_display_config.c])

    The types the display parser and the value check share, and the tables: which record
    of which node picks a screen, which label paths the screen shows, and which instrument
    has a ticker.  A [const char *] of a table is the list of its bytes. *)

From S2P Require Import Prelude Constants Utils.

(** ** Types *)

Definition MAX_DISPLAY_FIELDS_NB : nat := 10.
Definition MAX_FIELD_PATH_LEN : nat := 128.
Definition MAX_FIELD_VALUE_LEN : nat := 1000.
Definition PREAPPROVAL_ASSET_FIELD_INDEX : nat := 1.
Definition NATIVE_COIN_TICKER : bytes := lit "CC".
Definition NATIVE_COIN_INSTRUMENT_ID : bytes := lit "Amulet".
Definition PREAPPROVAL_ASSET_FIELD_VALUE : bytes := lit "Canton Coin (CC)".

Definition STR_Review_Tx : string := "Review transaction".
Definition STR_Sign_Tx : string := "Sign transaction".
Definition STR_To_Send_Tokens : string := "to send tokens".
Definition STR_To_Accept_Transfer : string := "to accept incoming transfer".
Definition STR_To_Reject_Transfer : string := "to reject incoming transfer".
Definition STR_To_Withdraw_Offer : string := "to withdraw transfer offer".
Definition STR_To_Send_CC : string := "to send Canton Coin".
Definition STR_To_Preapprove : string := "to pre-approve incoming transfers".

Definition review_title_of (what : string) : bytes := lit (STR_Review_Tx +:+ " " +:+ what).
Definition review_finish_of (what : string) : bytes :=
  lit (STR_Sign_Tx +:+ " " +:+ what +:+ "?").

Definition TOKEN_TRANSFER_REVIEW_TITLE := review_title_of STR_To_Send_Tokens.
Definition TOKEN_TRANSFER_REVIEW_FINISH := review_finish_of STR_To_Send_Tokens.
Definition TOKEN_TRANSFER_ACCEPT_REVIEW_TITLE := review_title_of STR_To_Accept_Transfer.
Definition TOKEN_TRANSFER_ACCEPT_REVIEW_FINISH := review_finish_of STR_To_Accept_Transfer.
Definition TOKEN_TRANSFER_REJECT_REVIEW_TITLE := review_title_of STR_To_Reject_Transfer.
Definition TOKEN_TRANSFER_REJECT_REVIEW_FINISH := review_finish_of STR_To_Reject_Transfer.
Definition TOKEN_TRANSFER_WITHDRAW_REVIEW_TITLE := review_title_of STR_To_Withdraw_Offer.
Definition TOKEN_TRANSFER_WITHDRAW_REVIEW_FINISH := review_finish_of STR_To_Withdraw_Offer.
Definition NATIVE_COIN_TRANSFER_REVIEW_TITLE := review_title_of STR_To_Send_CC.
Definition NATIVE_COIN_TRANSFER_REVIEW_FINISH := review_finish_of STR_To_Send_CC.
Definition PREAPPROVAL_PROPOSAL_REVIEW_TITLE := review_title_of STR_To_Preapprove.
Definition PREAPPROVAL_PROPOSAL_REVIEW_FINISH := review_finish_of STR_To_Preapprove.

Record instrument_to_ticker_mapping_t := {
  itm_admin : bytes;
  itm_id : bytes;
  itm_ticker : bytes
}.

Record identifier_config_t := { idc_module : bytes; idc_entity : bytes }.
#[export] Instance identifier_config_t_eq_dec : EqDecision identifier_config_t.
Proof. solve_decision. Defined.

Inductive shown_as_e :=
  | SHOWN_AS_OTHER
  | SHOWN_AS_SENDER
  | SHOWN_AS_RECEIVER
  | SHOWN_AS_AMOUNT
  | SHOWN_AS_ADMIN
  | SHOWN_AS_INSTRUMENT.
#[export] Instance shown_as_e_eq_dec : EqDecision shown_as_e.
Proof. solve_decision. Defined.

Inductive destination_e := DEST_NONE | DEST_SENDER | DEST_RECEIVER.
#[export] Instance destination_e_eq_dec : EqDecision destination_e.
Proof. solve_decision. Defined.

Inductive amount_check_e := AMOUNT_NOT_COMPARABLE | AMOUNT_COMPARABLE.
#[export] Instance amount_check_e_eq_dec : EqDecision amount_check_e.
Proof. solve_decision. Defined.

(** [field_format_callback_t]: the tables use these three functions, or NULL. *)
Inductive field_format_callback_t :=
  | no_format
  | format_token_amount
  | format_native_amount
  | format_timestamp.

Record field_config_t := {
  fc_path : bytes;
  fc_item_name : option bytes;
  fc_format : field_format_callback_t;
  fc_mandatory : bool;
  fc_shown_as : shown_as_e
}.

(** [value] is [None] for the NULL pointer.  [value_len] counts the buffer, terminator
    included. *)
Record tx_field_t := {
  tf_value : option bytes;
  tf_value_len : Z;
  tf_config : option field_config_t;
  tf_matched : bool;
  tf_display : bool;
  tf_store_failed : bool
}.
#[export] Instance eta_tx_field_t : Eta tx_field_t :=
  λ f, Build_tx_field_t (tf_value f) (tf_value_len f) (tf_config f) (tf_matched f)
         (tf_display f) (tf_store_failed f).

(** A field of a [memset] array. *)
Definition tx_field_zero : tx_field_t :=
  {| tf_value := None; tf_value_len := 0; tf_config := None; tf_matched := false;
     tf_display := false; tf_store_failed := false |}.

Record display_config_t := {
  dc_identifier : identifier_config_t;
  dc_node_identifiers : list identifier_config_t;
  dc_fields : list field_config_t;
  dc_review_title : bytes;
  dc_review_finish : bytes;
  dc_metadata_contract_identifiers : list identifier_config_t;
  dc_destination : destination_e;
  dc_amount_check : amount_check_e
}.

(** ** Tables *)

Definition FLD (path : string) (name : option string) (f : field_format_callback_t)
    (mandatory : bool) (s : shown_as_e) : field_config_t :=
  {| fc_path := lit path; fc_item_name := option_map lit name; fc_format := f;
     fc_mandatory := mandatory; fc_shown_as := s |}.
Definition ID (m e : string) : identifier_config_t :=
  {| idc_module := lit m; idc_entity := lit e |}.
Definition TICKER (admin id : string) (ticker : bytes) : instrument_to_ticker_mapping_t :=
  {| itm_admin := lit admin; itm_id := lit id; itm_ticker := ticker |}.

Definition INSTRUMENT_TO_TICKER_MAPPINGS : list instrument_to_ticker_mapping_t :=
  [TICKER "DSO::1220be58c29e65de40bf273be1dc2b266d43a9a002ea5b18955aeef7aac881bb471a"
     "Amulet" NATIVE_COIN_TICKER;
   TICKER "DSO::1220be58c29e65de40bf273be1dc2b266d43a9a002ea5b18955aeef7aac881bb471a"
     "amulet" NATIVE_COIN_TICKER;
   TICKER "cbtc-network::12202a83c6f4082217c175e29bc53da5f2703ba2675778ab99217a5a881a949203ff"
     "CBTC" (lit "CBTC");
   TICKER "DSO::1220f22a8b8f2d813c25b9a684dc4dd52b532a0174d8e73a13cdf2baabfff7518337"
     "Amulet" NATIVE_COIN_TICKER;
   TICKER "DSO::1220f22a8b8f2d813c25b9a684dc4dd52b532a0174d8e73a13cdf2baabfff7518337"
     "amulet" NATIVE_COIN_TICKER;
   TICKER "cbtc-network::12201b1741b63e2494e4214cf0bedc3d5a224da53b3bf4d76dba468f8e97eb15508f"
     "CBTC" (lit "CBTC");
   TICKER "DSO::1220b1431ef217342db44d516bb9befde802be7d8899637d290895fa58880f19accc"
     "Amulet" NATIVE_COIN_TICKER;
   TICKER "DSO::1220b1431ef217342db44d516bb9befde802be7d8899637d290895fa58880f19accc"
     "amulet" NATIVE_COIN_TICKER;
   TICKER "cbtc-network::12205af3b949a04776fc48cdcc05a060f6bda2e470632935f375d1049a8546a3b262"
     "CBTC" (lit "CBTC");
   TICKER "party-28dc4516-b5ca-44ff-86c7-2107e90a6807::1220b8301e18aa8a401d6e34e6c20f8b0243183c514373bca8f1b6b9270246341a9e"
     "f29bdd7a-1469-498a-ba2a-796bf5387b31" (lit "SBC");
   TICKER "decentralized-usdc-interchain-rep::122049e2af8a725bd19759320fc83c638e7718973eac189d8f201309c512d1ffec61"
     "USDCx" (lit "USDCx");
   TICKER "decentralized-usdc-interchain-rep::12208115f1e168dd7e792320be9c4ca720c751a02a3053c7606e1c1cd3dad9bf60ef"
     "USDCx" (lit "USDCx");
   TICKER "party-28dc4516-b5ca-44ff-86c7-2107e90a6807::1220b8301e18aa8a401d6e34e6c20f8b0243183c514373bca8f1b6b9270246341a9e"
     "481871d4-ca56-42a8-b2d3-4b7d28742946" (lit "CUSD")].

Definition INSTRUMENT_ID_FIELD : field_config_t :=
  FLD "transfer.instrumentId.id" (Some "Token"%string) no_format true SHOWN_AS_INSTRUMENT.
Definition PROXY_INSTRUMENT_ID_FIELD : field_config_t :=
  FLD "proxyArg.choiceArg.transfer.instrumentId.id" (Some "Token"%string) no_format true
    SHOWN_AS_INSTRUMENT.
Definition INSTRUMENT_ID_ADMIN_FIELD : field_config_t :=
  FLD "transfer.instrumentId.admin" None no_format true SHOWN_AS_ADMIN.
Definition INSTRUMENT_ID_PROXY_ADMIN_FIELD : field_config_t :=
  FLD "proxyArg.choiceArg.transfer.instrumentId.admin" None no_format true SHOWN_AS_ADMIN.
Definition PREAPPROVAL_ASSET_FIELD : field_config_t :=
  FLD "asset" (Some "For asset"%string) no_format true SHOWN_AS_OTHER.

Definition META_ID_TRANSFER_INSTRUCTION : identifier_config_t :=
  ID "Splice.AmuletTransferInstruction" "AmuletTransferInstruction".
Definition META_ID_TRANSFER_OFFER : identifier_config_t :=
  ID "Utility.Registry.App.V0.Model.Transfer" "TransferOffer".

Definition memo_field : field_config_t :=
  FLD "transfer.meta.values.splice\.lfdecentralizedtrust\.org/reason" (Some "Memo"%string)
    no_format false SHOWN_AS_OTHER.
Definition transfer_token_field : field_config_t :=
  FLD "transfer.instrumentId.id" (Some "Token"%string) no_format true SHOWN_AS_INSTRUMENT.
Definition transfer_admin_field : field_config_t :=
  FLD "transfer.instrumentId.admin" None no_format true SHOWN_AS_ADMIN.
Definition transfer_amount_field : field_config_t :=
  FLD "transfer.amount" (Some "Amount"%string) format_token_amount true SHOWN_AS_AMOUNT.

Definition TOKEN_TRANSFER_FIELDS : list field_config_t :=
  [FLD "transfer.sender" (Some "From"%string) no_format true SHOWN_AS_SENDER;
   transfer_amount_field;
   FLD "transfer.receiver" (Some "To"%string) no_format true SHOWN_AS_RECEIVER;
   transfer_token_field;
   transfer_admin_field;
   memo_field].

Definition TOKEN_TRANSFER_V2_FIELDS : list field_config_t :=
  [FLD "transfer.sender.owner" (Some "From"%string) no_format true SHOWN_AS_SENDER;
   transfer_amount_field;
   FLD "transfer.receiver.owner" (Some "To"%string) no_format true SHOWN_AS_RECEIVER;
   transfer_token_field;
   transfer_admin_field;
   memo_field].

Definition TOKEN_TRANSFER_ACCEPT_FIELDS : list field_config_t :=
  [FLD "transfer.sender" (Some "From"%string) no_format true SHOWN_AS_SENDER;
   transfer_amount_field;
   FLD "transfer.receiver" (Some "To"%string) no_format true SHOWN_AS_RECEIVER;
   transfer_token_field;
   transfer_admin_field;
   FLD "transfer.executeBefore" (Some "Expiration time"%string) format_timestamp true
     SHOWN_AS_OTHER;
   memo_field].

Definition TOKEN_TRANSFER_WITHDRAW_FIELDS : list field_config_t :=
  [FLD "transfer.sender" (Some "Withdraw to"%string) no_format true SHOWN_AS_SENDER;
   transfer_amount_field;
   transfer_token_field;
   transfer_admin_field].

Definition NATIVE_COIN_TRANSFER_FIELDS : list field_config_t :=
  [FLD "sender" (Some "From"%string) no_format true SHOWN_AS_SENDER;
   FLD "amount" (Some "Amount"%string) format_native_amount true SHOWN_AS_AMOUNT;
   FLD "receiver" (Some "To"%string) no_format true SHOWN_AS_RECEIVER;
   FLD "description" (Some "Memo"%string) no_format false SHOWN_AS_OTHER].

Definition PREAPPROVAL_PROPOSAL_FIELDS : list field_config_t :=
  [FLD "receiver" (Some "Pre-approve for account"%string) no_format true SHOWN_AS_RECEIVER;
   FLD "asset" (Some "For asset"%string) no_format true SHOWN_AS_OTHER;
   FLD "provider" (Some "By validator"%string) no_format true SHOWN_AS_OTHER].

Definition TRANSFER_OFFER_META_ID_LIST : list identifier_config_t :=
  [META_ID_TRANSFER_INSTRUCTION; META_ID_TRANSFER_OFFER].
Definition META_EMPTY : list identifier_config_t := [].

Definition NODE_ID_EXTERNAL_PARTY_AMULET_RULES : identifier_config_t :=
  ID "Splice.ExternalPartyAmuletRules" "ExternalPartyAmuletRules".
Definition NODE_ID_REGISTRY_ALLOCATION_FACTORY : identifier_config_t :=
  ID "Utility.Registry.App.V0.Service.AllocationFactory" "AllocationFactory".
Definition AMULET_RULES_NODE_ID_LIST : list identifier_config_t :=
  [NODE_ID_EXTERNAL_PARTY_AMULET_RULES].
Definition TRANSFER_FACTORY_NODE_ID_LIST : list identifier_config_t :=
  [NODE_ID_EXTERNAL_PARTY_AMULET_RULES; NODE_ID_REGISTRY_ALLOCATION_FACTORY].
Definition NODE_ID_EMPTY : list identifier_config_t := [].

Definition transfer_v1 (choice : string) : identifier_config_t :=
  ID "Splice.Api.Token.TransferInstructionV1" choice.
Definition transfer_v2 (choice : string) : identifier_config_t :=
  ID "Splice.Api.Token.TransferInstructionV2" choice.

(** [CFG_ENTRY] lists its arguments in the order of the record. *)
Definition DISPLAY_CONFIGS : list display_config_t :=
  [Build_display_config_t (transfer_v1 "TransferFactory_Transfer")
     TRANSFER_FACTORY_NODE_ID_LIST TOKEN_TRANSFER_FIELDS
     TOKEN_TRANSFER_REVIEW_TITLE TOKEN_TRANSFER_REVIEW_FINISH META_EMPTY
     DEST_RECEIVER AMOUNT_COMPARABLE;
   Build_display_config_t (transfer_v2 "TransferFactory_Transfer")
     TRANSFER_FACTORY_NODE_ID_LIST TOKEN_TRANSFER_V2_FIELDS
     TOKEN_TRANSFER_REVIEW_TITLE TOKEN_TRANSFER_REVIEW_FINISH META_EMPTY
     DEST_RECEIVER AMOUNT_COMPARABLE;
   Build_display_config_t
     (ID "Splice.ExternalPartyAmuletRules" "ExternalPartyAmuletRules_CreateTransferCommand")
     AMULET_RULES_NODE_ID_LIST NATIVE_COIN_TRANSFER_FIELDS
     NATIVE_COIN_TRANSFER_REVIEW_TITLE NATIVE_COIN_TRANSFER_REVIEW_FINISH META_EMPTY
     DEST_RECEIVER AMOUNT_COMPARABLE;
   Build_display_config_t
     (ID "Splice.Wallet.TransferPreapproval" "TransferPreapprovalProposal")
     NODE_ID_EMPTY PREAPPROVAL_PROPOSAL_FIELDS
     PREAPPROVAL_PROPOSAL_REVIEW_TITLE PREAPPROVAL_PROPOSAL_REVIEW_FINISH META_EMPTY
     DEST_NONE AMOUNT_NOT_COMPARABLE;
   Build_display_config_t (transfer_v1 "TransferInstruction_Accept")
     TRANSFER_OFFER_META_ID_LIST TOKEN_TRANSFER_ACCEPT_FIELDS
     TOKEN_TRANSFER_ACCEPT_REVIEW_TITLE TOKEN_TRANSFER_ACCEPT_REVIEW_FINISH
     TRANSFER_OFFER_META_ID_LIST DEST_RECEIVER AMOUNT_COMPARABLE;
   Build_display_config_t (transfer_v2 "TransferInstruction_Accept")
     TRANSFER_OFFER_META_ID_LIST TOKEN_TRANSFER_ACCEPT_FIELDS
     TOKEN_TRANSFER_ACCEPT_REVIEW_TITLE TOKEN_TRANSFER_ACCEPT_REVIEW_FINISH
     TRANSFER_OFFER_META_ID_LIST DEST_RECEIVER AMOUNT_COMPARABLE;
   Build_display_config_t (transfer_v1 "TransferInstruction_Reject")
     TRANSFER_OFFER_META_ID_LIST TOKEN_TRANSFER_ACCEPT_FIELDS
     TOKEN_TRANSFER_REJECT_REVIEW_TITLE TOKEN_TRANSFER_REJECT_REVIEW_FINISH
     TRANSFER_OFFER_META_ID_LIST DEST_SENDER AMOUNT_NOT_COMPARABLE;
   Build_display_config_t (transfer_v2 "TransferInstruction_Reject")
     TRANSFER_OFFER_META_ID_LIST TOKEN_TRANSFER_ACCEPT_FIELDS
     TOKEN_TRANSFER_REJECT_REVIEW_TITLE TOKEN_TRANSFER_REJECT_REVIEW_FINISH
     TRANSFER_OFFER_META_ID_LIST DEST_SENDER AMOUNT_NOT_COMPARABLE;
   Build_display_config_t (transfer_v1 "TransferInstruction_Withdraw")
     TRANSFER_OFFER_META_ID_LIST TOKEN_TRANSFER_WITHDRAW_FIELDS
     TOKEN_TRANSFER_WITHDRAW_REVIEW_TITLE TOKEN_TRANSFER_WITHDRAW_REVIEW_FINISH
     TRANSFER_OFFER_META_ID_LIST DEST_SENDER AMOUNT_NOT_COMPARABLE;
   Build_display_config_t (transfer_v2 "TransferInstruction_Withdraw")
     TRANSFER_OFFER_META_ID_LIST TOKEN_TRANSFER_WITHDRAW_FIELDS
     TOKEN_TRANSFER_WITHDRAW_REVIEW_TITLE TOKEN_TRANSFER_WITHDRAW_REVIEW_FINISH
     TRANSFER_OFFER_META_ID_LIST DEST_SENDER AMOUNT_NOT_COMPARABLE].

(** ** The tables are well formed

    What the parser relies on without checking it at run time. *)

Definition shows_mandatory (k : shown_as_e) (c : display_config_t) : Prop :=
  Exists (λ f, fc_shown_as f = k ∧ fc_mandatory f = true) (dc_fields c).

(** At most one field of each kind: the value check keeps one value for each. *)
Definition shows_once (k : shown_as_e) (c : display_config_t) : Prop :=
  (length (filter (λ f, fc_shown_as f = k) (dc_fields c)) ≤ 1)%nat.

Definition destination_field (d : destination_e) : option shown_as_e :=
  match d with
  | DEST_NONE => None
  | DEST_SENDER => Some SHOWN_AS_SENDER
  | DEST_RECEIVER => Some SHOWN_AS_RECEIVER
  end.

Record config_wf (c : display_config_t) : Prop := {
  cw_few : (length (dc_fields c) ≤ MAX_DISPLAY_FIELDS_NB)%nat;
  cw_paths : NoDup (map fc_path (dc_fields c));
  cw_path_len : Forall (λ f, (length (fc_path f) < MAX_FIELD_PATH_LEN)%nat) (dc_fields c);
  cw_destination : ∀ k, destination_field (dc_destination c) = Some k → shows_mandatory k c;
  cw_amount : dc_amount_check c = AMOUNT_COMPARABLE → shows_mandatory SHOWN_AS_AMOUNT c;
  cw_once : Forall (λ k, shows_once k c)
    [SHOWN_AS_SENDER; SHOWN_AS_RECEIVER; SHOWN_AS_AMOUNT; SHOWN_AS_ADMIN; SHOWN_AS_INSTRUMENT];
  cw_value_holder : dc_destination c ≠ DEST_NONE → dc_node_identifiers c ≠ []
}.

Definition shows_mandatoryb (k : shown_as_e) (c : display_config_t) : bool :=
  existsb (λ f, bool_decide (fc_shown_as f = k) && fc_mandatory f) (dc_fields c).

Lemma shows_mandatoryb_spec k c : shows_mandatoryb k c = true ↔ shows_mandatory k c.
Proof.
  unfold shows_mandatoryb, shows_mandatory. rewrite existsb_exists, Exists_exists.
  split; intros (f & Hf & Hk); exists f; rewrite <- list_elem_of_In in *;
    rewrite andb_true_iff, bool_decide_eq_true in *; done.
Qed.

Definition config_wfb (c : display_config_t) : bool :=
  (length (dc_fields c) <=? MAX_DISPLAY_FIELDS_NB)%nat &&
  bool_decide (NoDup (map fc_path (dc_fields c))) &&
  forallb (λ f, length (fc_path f) <? MAX_FIELD_PATH_LEN)%nat (dc_fields c) &&
  match destination_field (dc_destination c) with
  | Some k => shows_mandatoryb k c
  | None => true
  end &&
  (bool_decide (dc_amount_check c = AMOUNT_NOT_COMPARABLE) || shows_mandatoryb SHOWN_AS_AMOUNT c) &&
  forallb (λ k, length (filter (λ f, fc_shown_as f = k) (dc_fields c)) <=? 1)%nat
    [SHOWN_AS_SENDER; SHOWN_AS_RECEIVER; SHOWN_AS_AMOUNT; SHOWN_AS_ADMIN; SHOWN_AS_INSTRUMENT] &&
  (bool_decide (dc_destination c = DEST_NONE) || (0 <? length (dc_node_identifiers c))%nat).

Lemma config_wfb_spec c : config_wfb c = true → config_wf c.
Proof.
  unfold config_wfb. rewrite !andb_true_iff, !orb_true_iff, Nat.leb_le, Nat.ltb_lt,
    !bool_decide_eq_true, !forallb_forall.
  intros ((((((H1 & H2) & H3) & H4) & H5) & H6) & H7). split; try done.
  - apply Forall_forall. intros f Hf%list_elem_of_In. by apply Nat.ltb_lt, H3.
  - intros k Hk. rewrite Hk in H4. by apply shows_mandatoryb_spec.
  - intros E. apply shows_mandatoryb_spec. destruct H5; congruence.
  - apply Forall_forall. intros k Hk%list_elem_of_In. by apply Nat.leb_le, H6.
  - intros Hd. destruct H7 as [|Hl]; [done|]. destruct (dc_node_identifiers c); cbn in *; [lia|done].
Qed.

(** C35: Every display configuration fits the arrays it is copied to, has distinct paths
    short enough for the path buffer, marks the field its destination names (and the
    amount, when it is compared) mandatory, shows each compared kind of value at most
    once, and, when value moves, names the templates it applies to; and no two
    configurations are chosen by the same record of the same choice. *)
Theorem display_configs_well_formed :
  Forall config_wf DISPLAY_CONFIGS ∧ NoDup (map dc_identifier DISPLAY_CONFIGS).
Proof.
  split.
  - assert (forallb config_wfb DISPLAY_CONFIGS = true) as HF by (vm_compute; reflexivity).
    rewrite forallb_forall in HF. apply Forall_forall. intros c Hc%list_elem_of_In.
    by apply config_wfb_spec, HF.
  - apply (bool_decide_unpack _). vm_compute. constructor.
Qed.
