(* ===== verification/DisplayFormat.v ===== *)
(** * Formatting of displayed values ([format_*_field] of
    [src/transaction/pb_node_display_parser.c])

    The text the screen shows for an amount and for a date.  [gmtime_r] is the C library's:
    the proleptic Gregorian calendar on a 64-bit [time_t]. *)

From S2P Require Import Prelude Constants Utils DisplayConfig.

Definition zero_char : Z := 48.
Definition dot_char : Z := 46.

(** ** Amounts *)

(** [strchr(value, '.')]: what is before the first dot, and after it. *)
Fixpoint split_dot (s : bytes) : bytes * option bytes :=
  match s with
  | [] => ([], None)
  | c :: s' =>
      if c =? dot_char then ([], Some s')
      else let '(a, b) := split_dot s' in (c :: a, b)
  end.

(** The [while] loop that cuts zeros from the end, down to the dot. *)
Fixpoint strip_zeros (s : bytes) : bytes :=
  match s with
  | [] => []
  | c :: s' =>
      match strip_zeros s' with
      | [] => if c =? zero_char then [] else [c]
      | r => c :: r
      end
  end.

(** [format_amount_field] on the value's text. *)
Definition format_amount (value : bytes) : bytes :=
  let value := c_str value in
  match split_dot value with
  | (_, None) => value
  | (whole, Some fraction) =>
      match strip_zeros fraction with
      | [] => whole
      | fraction => whole ++ dot_char :: fraction
      end
  end.

(** ["%s %s"] in a buffer of exactly that size. *)
Definition with_ticker (value ticker : bytes) : bytes := c_str value ++ lit " " ++ c_str ticker.

(** ** Decimal numbers *)

Fixpoint digits_at (fuel : nat) (n : Z) (acc : bytes) : bytes :=
  match fuel with
  | O => acc
  | S fuel =>
      let acc := (zero_char + n mod 10) :: acc in
      if n <? 10 then acc else digits_at fuel (n / 10) acc
  end.
(** ["%0wd"] of a number that is not negative and fits in an [int]. *)
Definition padded (w : nat) (n : Z) : bytes :=
  let d := digits_at 20 n [] in replicate (w - length d) zero_char ++ d.

(** ** Dates *)

Record tm := {
  tm_year : Z; tm_mon : Z; tm_mday : Z; tm_hour : Z; tm_min : Z; tm_sec : Z
}.

(** The Gregorian calendar one day at a time, from 1 January 1970. *)
Definition leap_year (y : Z) : bool :=
  (y mod 4 =? 0) && negb (y mod 100 =? 0) || (y mod 400 =? 0).
Definition month_length (y m : Z) : Z :=
  if m =? 2 then (if leap_year y then 29 else 28)
  else if (m =? 4) || (m =? 6) || (m =? 9) || (m =? 11) then 30 else 31.
Definition next_day (date : Z * Z * Z) : Z * Z * Z :=
  let '(y, m, d) := date in
  if d <? month_length y m then (y, m, d + 1)
  else if m <? 12 then (y, m + 1, 1) else (y + 1, 1, 1).
Definition calendar (days : nat) : Z * Z * Z := Nat.iter days next_day (1970, 1, 1).

(** [gmtime_r] of a time that is not negative; it fails on a year that is no [int]. *)
Definition gmtime (timestamp : Z) : option tm :=
  let '(y, m, d) := calendar (Z.to_nat (timestamp / 86400)) in
  let s := timestamp mod 86400 in
  if y - 1900 <? 2 ^ 31 then
    Some {| tm_year := y - 1900; tm_mon := m - 1; tm_mday := d;
            tm_hour := s / 3600; tm_min := s / 60 mod 60; tm_sec := s mod 60 |}
  else None.

(** [TIMESTAMP_FMT]: the screens differ in where the line breaks. *)
Definition timestamp_text (screen_size_wallet : bool) (t : tm) : bytes :=
  let hour := tm_hour t mod 12 in
  let hour := if hour =? 0 then 12 else hour in
  let am_pm := lit (if 12 <=? tm_hour t then "PM" else "AM") in
  let date := padded 4 (tm_year t + 1900) ++ lit "-" ++ padded 2 (tm_mon t + 1) ++ lit "-" ++
              padded 2 (tm_mday t) in
  let time := padded 2 hour ++ lit ":" ++ padded 2 (tm_min t) ++ lit ":" ++ padded 2 (tm_sec t) in
  if screen_size_wallet
  then date ++ lit " " ++ time ++ [10] ++ am_pm ++ lit " UTC"
  else date ++ [10] ++ time ++ lit " " ++ am_pm ++ lit " UTC".

(** [format_timestamp_field] on the eight bytes the value holds. *)
Definition format_timestamp_value (screen_size_wallet : bool) (value : bytes) : option bytes :=
  let ts_micros := be_value (take 8 value) in
  match gmtime (ts_micros / 1000000) with
  | Some t => Some (timestamp_text screen_size_wallet t)
  | None => None
  end.

(** ** An amount keeps its value

    The value of a decimal text: its whole part, and the digit at each decimal place. *)

Definition amount_value (s : bytes) : bytes * (nat → Z) :=
  match split_dot s with
  | (whole, None) => (whole, λ _, zero_char)
  | (whole, Some fraction) => (whole, λ i, nth i fraction zero_char)
  end.

Lemma split_dot_spec s : ∀ a b, split_dot s = (a, b) →
  dot_char ∉ a ∧ s = a ++ match b with Some b => dot_char :: b | None => [] end.
Proof.
  induction s as [|c s IH]; intros a b; cbn.
  - intros [= <- <-]. split; [apply not_elem_of_nil|done].
  - destruct (Z.eqb_spec c dot_char) as [->|Hc].
    + intros [= <- <-]. split; [apply not_elem_of_nil|done].
    + destruct (split_dot s) as [a' b'] eqn:E. intros [= <- <-].
      destruct (IH a' b' eq_refl) as [Hn ->]. split; [|done].
      apply not_elem_of_cons. split; [congruence|done].
Qed.

Lemma split_dot_app a b : dot_char ∉ a → split_dot (a ++ dot_char :: b) = (a, Some b).
Proof.
  induction a as [|c a IH]; intros Hn; cbn; [done|].
  apply not_elem_of_cons in Hn as [Hc Hn]. destruct (Z.eqb_spec c dot_char); [by subst|].
  by rewrite IH.
Qed.
Lemma split_dot_none a : dot_char ∉ a → split_dot a = (a, None).
Proof.
  induction a as [|c a IH]; intros Hn; cbn; [done|].
  apply not_elem_of_cons in Hn as [Hc Hn]. destruct (Z.eqb_spec c dot_char); [by subst|].
  by rewrite IH.
Qed.

Lemma strip_zeros_nth s : ∀ i, nth i (strip_zeros s) zero_char = nth i s zero_char.
Proof.
  induction s as [|c s IH]; intros i; cbn [strip_zeros]; [done|].
  destruct (strip_zeros s) as [|c' r] eqn:E.
  - destruct (Z.eqb_spec c zero_char) as [->|Hc].
    + destruct i; cbn [nth]; [done|]. rewrite <- IH. by destruct i.
    + destruct i; cbn [nth]; [done|]. rewrite <- IH. by destruct i.
  - destruct i; cbn [nth]; [done|]. apply IH.
Qed.

Lemma strip_zeros_last s : last (strip_zeros s) ≠ Some zero_char.
Proof.
  induction s as [|c s IH]; cbn [strip_zeros]; [done|].
  destruct (strip_zeros s) as [|c' r] eqn:E.
  - destruct (Z.eqb_spec c zero_char); cbn; congruence.
  - by rewrite last_cons_cons.
Qed.

(** C34: Formatting an amount never changes the amount: the whole part is the same text and
    every decimal place has the same digit.  What follows the dot of the result, if
    anything does, is not empty and does not end in a zero. *)
Theorem format_amount_keeps_value value :
  let text := format_amount value in
  (amount_value text).1 = (amount_value (c_str value)).1 ∧
  (∀ i, (amount_value text).2 i = (amount_value (c_str value)).2 i) ∧
  (∀ fraction, (split_dot text).2 = Some fraction →
     fraction ≠ [] ∧ last fraction ≠ Some zero_char).
Proof.
  unfold format_amount. destruct (split_dot (c_str value)) as [whole [fraction|]] eqn:E.
  - destruct (split_dot_spec _ _ _ E) as [Hn Hs].
    pose proof (strip_zeros_last fraction) as Hl. pose proof (strip_zeros_nth fraction) as Hz.
    destruct (strip_zeros fraction) as [|c r] eqn:Ez; cbn zeta.
    + unfold amount_value. rewrite E, split_dot_none by done. cbn. split_and!; [done| |done].
      intros i. rewrite <- Hz. by destruct i.
    + unfold amount_value. rewrite E, split_dot_app by done. cbn [fst snd]. split_and!; [done|done|].
      by intros f [= <-].
  - destruct (split_dot_spec _ _ _ E) as [Hn Hs]. cbn zeta. rewrite E. by split_and!.
Qed.

(** 2024-02-29 13:04:05 UTC, on both kinds of screen. *)
Example timestamp_on_wallet :
  format_timestamp_value true (be64 1709211845000000) =
    Some (lit "2024-02-29 01:04:05" ++ [10] ++ lit "PM UTC").
Proof. vm_compute. reflexivity. Qed.
Example timestamp_on_nano :
  format_timestamp_value false (be64 1709211845000000) =
    Some (lit "2024-02-29" ++ [10] ++ lit "01:04:05 PM UTC").
Proof. vm_compute. reflexivity. Qed.
