(* ===== verification/ValuesCheck.v ===== *)
(** * Value check ([src/transaction/node_values_check.c])

    What the nodes of a transaction write, against what the screen says.  The state is
    the C [store]: digests of the holdings written and of the values shown.  The C
    functions that return a verdict also change the store ([gives_up]), so they return both.

    The theorems say what a granted clear signing means: which holdings the transaction
    wrote, for whom, of what amount and of which instrument. *)

From S2P Require Import Prelude Constants Utils DisplayConfig.

(** ** State *)

Record holding_t := { h_owner : bytes; h_amount : bytes; h_admin : bytes }.
#[export] Instance holding_t_eq_dec : EqDecision holding_t.
Proof. solve_decision. Defined.

(** [holdings] and [used_contracts] hold the first [holdings_count] and
    [used_contracts_count] entries of the C arrays; [None] is a NULL [used_contracts]. *)
Record store_t := {
  st_holdings : list holding_t;
  st_used_contracts : option (list bytes);
  st_destination : bytes;
  st_amount : bytes;
  st_admin : bytes;
  st_instrument : bytes;
  st_holdings_instrument : bytes;
  st_sender : bytes;
  st_has_destination : bool;
  st_has_amount : bool;
  st_has_admin : bool;
  st_has_sender : bool;
  st_has_instrument : bool;
  st_has_holdings_instrument : bool;
  st_bound : bool;
  st_bound_destination : destination_e;
  st_ok : bool
}.
#[export] Instance eta_store_t : Eta store_t := λ s,
  Build_store_t (st_holdings s) (st_used_contracts s) (st_destination s) (st_amount s)
    (st_admin s) (st_instrument s) (st_holdings_instrument s) (st_sender s)
    (st_has_destination s) (st_has_amount s) (st_has_admin s) (st_has_sender s)
    (st_has_instrument s) (st_has_holdings_instrument s) (st_bound s)
    (st_bound_destination s) (st_ok s).

Definition gives_up (s : store_t) : store_t := if st_ok s then s <| st_ok := false |> else s.

Definition used_list (s : store_t) : list bytes := default [] (st_used_contracts s).

(** What the display configuration shows, while the fields are walked. *)
Record shown_t := {
  sh_destination : option bytes;
  sh_amount : option bytes;
  sh_admin : option bytes;
  sh_sender : option bytes;
  sh_instrument : option bytes
}.
#[export] Instance eta_shown_t : Eta shown_t := λ s,
  Build_shown_t (sh_destination s) (sh_amount s) (sh_admin s) (sh_sender s) (sh_instrument s).

Section Ops.
Context `{Sha256}.

Definition digest (text : bytes) : bytes := sha256 (c_str text).
Definition no_digest : bytes := replicate SHA256_HASH_LEN 0.

Definition values_release_used_contracts (s : store_t) : store_t :=
  s <| st_used_contracts := None |>.

Definition values_check_reset (s : store_t) : store_t :=
  {| st_holdings := []; st_used_contracts := None;
     st_destination := no_digest; st_amount := no_digest; st_admin := no_digest;
     st_instrument := no_digest; st_holdings_instrument := no_digest;
     st_sender := no_digest;
     st_has_destination := false; st_has_amount := false; st_has_admin := false;
     st_has_sender := false; st_has_instrument := false;
     st_has_holdings_instrument := false;
     st_bound := false; st_bound_destination := DEST_NONE; st_ok := true |}.

Definition contract_digest (contract_id : bytes) : bytes :=
  take USED_CONTRACT_LEN (sha256 (c_str contract_id)).

(** [mem]: the allocator can serve the list, on its first use. *)
Definition values_record_used_contract (mem : bool) (contract_id : option bytes)
    (s : store_t) : store_t :=
  match contract_id with
  | None => s
  | Some cid =>
      if negb (st_ok s) then s
      else if (match st_used_contracts s with None => true | Some _ => false end) && negb mem
      then gives_up s
      else
        let s := s <| st_used_contracts := Some (used_list s) |> in
        let d := contract_digest cid in
        if existsb (mem_eqb d) (used_list s) then s
        else if (MAX_USED_CONTRACTS <=? length (used_list s))%nat then gives_up s
        else s <| st_used_contracts := Some (used_list s ++ [d]) |>
  end.

Definition values_check_disclosed_contract (contract_id : option bytes) (s : store_t)
  : store_t :=
  match contract_id with
  | None => s
  | Some cid =>
      if negb (st_ok s) then s
      else if existsb (mem_eqb (contract_digest cid)) (used_list s) then s
      else gives_up s
  end.

Definition values_still_collecting (s : store_t) : bool := st_ok s.

Definition values_report_holding (owner amount admin : bytes) (instrument : option bytes)
    (s : store_t) : store_t :=
  if (MAX_HOLDINGS <=? length (st_holdings s))%nat then gives_up s
  else
    let s := s <| st_holdings ::= λ l,
      l ++ [{| h_owner := owner; h_amount := amount; h_admin := admin |}] |> in
    match instrument with
    | None => s
    | Some i =>
        if negb (st_has_holdings_instrument s) then
          s <| st_holdings_instrument := i |> <| st_has_holdings_instrument := true |>
        else if mem_eqb (st_holdings_instrument s) i then s
        else gives_up s
    end.

Definition values_report_unknown_template (s : store_t) : store_t := gives_up s.
Definition values_report_unreadable_holding (s : store_t) : store_t := gives_up s.
Definition values_report_parse_failure (s : store_t) : store_t := gives_up s.

(** One iteration of the loop over the displayed fields. *)
Definition bind_field (destination : destination_e) (amount_check : amount_check_e)
    (sh : shown_t) (field : tx_field_t) : shown_t :=
  match tf_value field, tf_config field with
  | Some v, Some config =>
      match fc_shown_as config with
      | SHOWN_AS_SENDER =>
          let sh := sh <| sh_sender := Some v |> in
          if decide (destination = DEST_SENDER) then sh <| sh_destination := Some v |> else sh
      | SHOWN_AS_RECEIVER =>
          if decide (destination = DEST_RECEIVER) then sh <| sh_destination := Some v |> else sh
      | SHOWN_AS_AMOUNT =>
          if decide (amount_check = AMOUNT_COMPARABLE) then sh <| sh_amount := Some v |> else sh
      | SHOWN_AS_ADMIN => sh <| sh_admin := Some v |>
      | SHOWN_AS_INSTRUMENT => sh <| sh_instrument := Some v |>
      | SHOWN_AS_OTHER => sh
      end
  | _, _ => sh
  end.

(** A digest slot after binding: the digest of the value shown, or what it held. *)
Definition slot (shown : option bytes) (old : bytes) : bytes :=
  match shown with Some v => digest v | None => old end.
Definition is_set {A} (o : option A) : bool := match o with Some _ => true | None => false end.

Definition values_bind_from_display (fields : list tx_field_t) (destination : destination_e)
    (amount_check : amount_check_e) (s : store_t) : store_t :=
  let sh := foldl (bind_field destination amount_check)
              (Build_shown_t None None None None None) fields in
  s <| st_destination := slot (sh_destination sh) (st_destination s) |>
    <| st_has_destination := is_set (sh_destination sh) |>
    <| st_amount := slot (sh_amount sh) (st_amount s) |>
    <| st_has_amount := is_set (sh_amount sh) |>
    <| st_admin := slot (sh_admin sh) (st_admin s) |>
    <| st_has_admin := is_set (sh_admin sh) |>
    <| st_sender := slot (sh_sender sh) (st_sender s) |>
    <| st_has_sender := is_set (sh_sender sh) |>
    <| st_instrument := slot (sh_instrument sh) (st_instrument s) |>
    <| st_has_instrument := is_set (sh_instrument sh) |>
    <| st_bound := true |>
    <| st_bound_destination := destination |>.
End Ops.

#[global] Arguments digest : simpl never.
#[global] Arguments contract_digest : simpl never.

(** ** The verdict *)

Definition is_transfer_to_self (s : store_t) : bool :=
  bool_decide (st_bound_destination s = DEST_RECEIVER) && st_has_sender s &&
  st_has_destination s && mem_eqb (st_sender s) (st_destination s).

(** The loop over the holdings: [None] when it returns early, else [owned] and
    [amount_seen]. *)
Fixpoint scan_holdings (s : store_t) (hs : list holding_t) (owned : nat) (amount_seen : bool)
  : option (nat * bool) :=
  match hs with
  | [] => Some (owned, amount_seen)
  | h :: rest =>
      if negb (mem_eqb (h_owner h) (st_destination s)) then
        if negb (st_has_sender s) || negb (mem_eqb (h_owner h) (st_sender s)) then None
        else scan_holdings s rest owned amount_seen
      else
        scan_holdings s rest (S owned)
          (amount_seen || (negb (st_has_amount s) || mem_eqb (h_amount h) (st_amount s)))
  end.

Definition destination_holds_value (s : store_t) : bool * store_t :=
  match scan_holdings s (st_holdings s) 0 false with
  | None => (false, gives_up s)
  | Some (owned, amount_seen) =>
      if (owned =? 0)%nat then (false, gives_up s)
      else if (1 <? owned)%nat && negb (is_transfer_to_self s) then (false, gives_up s)
      else if (1 <? owned)%nat && (2 <? owned)%nat then (false, gives_up s)
      else if negb amount_seen then (false, gives_up s)
      else (true, s)
  end.

Definition holdings_match_displayed_instrument (s : store_t) : bool * store_t :=
  if forallb (λ h, mem_eqb (h_admin h) (st_admin s)) (st_holdings s) then (true, s)
  else (false, gives_up s).

Definition holdings_match_displayed_id (s : store_t) : bool * store_t :=
  if st_has_holdings_instrument s && negb (st_has_instrument s) then (false, gives_up s)
  else if st_has_instrument s && st_has_holdings_instrument s &&
          negb (mem_eqb (st_holdings_instrument s) (st_instrument s)) then (false, gives_up s)
  else (true, s).

Definition values_can_clear_sign (s : store_t) : bool * store_t :=
  if negb (st_ok s) then (false, s)
  else if negb (st_bound s) then (false, s)
  else if decide (st_bound_destination s = DEST_NONE) then
    if (0 <? length (st_holdings s))%nat then (false, gives_up s) else (true, s)
  else if negb (st_has_destination s) then (false, gives_up s)
  else
    let '(held, s) := destination_holds_value s in
    if negb held then (false, s)
    else
      let '(admins, s) :=
        if st_has_admin s then holdings_match_displayed_instrument s else (true, s) in
      if negb admins then (false, s) else holdings_match_displayed_id s.

(** ** The verdict, said at once *)

Definition holdings_of_destination (s : store_t) : list holding_t :=
  filter (λ h, h_owner h = st_destination s) (st_holdings s).

Definition owner_is_shown (s : store_t) (h : holding_t) : Prop :=
  h_owner h = st_destination s ∨ (st_has_sender s = true ∧ h_owner h = st_sender s).
#[export] Instance owner_is_shown_dec s h : Decision (owner_is_shown s h).
Proof. unfold owner_is_shown. apply _. Qed.
#[export] Typeclasses Opaque owner_is_shown.

Record screen_matches (s : store_t) : Prop := {
  sm_destination : st_has_destination s = true;
  sm_owners : Forall (owner_is_shown s) (st_holdings s);
  sm_count : length (holdings_of_destination s) = 1%nat ∨
             (length (holdings_of_destination s) = 2%nat ∧ is_transfer_to_self s = true);
  sm_amount : st_has_amount s = true →
              ∃ h, h ∈ holdings_of_destination s ∧ h_amount h = st_amount s;
  sm_admin : st_has_admin s = true → Forall (λ h, h_admin h = st_admin s) (st_holdings s);
  sm_instrument : st_has_holdings_instrument s = true →
                  st_has_instrument s = true ∧ st_holdings_instrument s = st_instrument s
}.

Definition verdict (s : store_t) : Prop :=
  st_ok s = true ∧ st_bound s = true ∧
  match st_bound_destination s with
  | DEST_NONE => st_holdings s = []
  | _ => screen_matches s
  end.

(** The conclusion the amount loop reaches for one holding. *)
Definition amount_agrees (s : store_t) (h : holding_t) : bool :=
  negb (st_has_amount s) || mem_eqb (h_amount h) (st_amount s).

Lemma scan_holdings_spec s hs : ∀ n b,
  scan_holdings s hs n b =
    if decide (Forall (owner_is_shown s) hs) then
      let mine := filter (λ h, h_owner h = st_destination s) hs in
      Some ((n + length mine)%nat, b || existsb (amount_agrees s) mine)
    else None.
Proof.
  induction hs as [|h hs IH]; intros n b; cbn [scan_holdings].
  { rewrite decide_True by constructor. cbn. by rewrite Nat.add_0_r, orb_false_r. }
  destruct (mem_eqb (h_owner h) (st_destination s)) eqn:E; cbn [negb].
  - apply mem_eqb_spec in E. rewrite IH, filter_cons_True by done.
    destruct (decide (Forall (owner_is_shown s) hs)) as [F|F].
    + rewrite decide_True by (constructor; [by left|done]).
      cbn [length existsb]. rewrite Nat.add_succ_r. unfold amount_agrees at 2. by rewrite !orb_assoc.
    + rewrite decide_False; [done|]. by intros []%Forall_cons.
  - apply mem_eqb_neq in E. rewrite filter_cons_False by done.
    destruct (st_has_sender s) eqn:Es; cbn [negb orb].
    + destruct (mem_eqb (h_owner h) (st_sender s)) eqn:E2; cbn [negb].
      * apply mem_eqb_spec in E2. rewrite IH.
        destruct (decide (Forall (owner_is_shown s) hs)) as [F|F].
        -- rewrite decide_True; [done|]. constructor; [by right|done].
        -- rewrite decide_False; [done|]. by intros []%Forall_cons.
      * apply mem_eqb_neq in E2. rewrite decide_False; [done|].
        intros [[|[]] _]%Forall_cons; done.
    + rewrite decide_False; [done|]. intros [[|[]] _]%Forall_cons; congruence.
Qed.

Lemma amount_agrees_exists s l : length l ≠ 0%nat →
  existsb (amount_agrees s) l = true ↔
  (st_has_amount s = true → ∃ h, h ∈ l ∧ h_amount h = st_amount s).
Proof.
  intros Hl. unfold amount_agrees. rewrite existsb_exists.
  destruct (st_has_amount s); cbn [negb orb].
  - split.
    + intros (h & Hh & E%mem_eqb_spec) _. exists h. by rewrite list_elem_of_In.
    + intros H. destruct (H eq_refl) as (h & Hh & E). exists h.
      by rewrite <- list_elem_of_In, mem_eqb_spec.
  - split; [done|]. intros _. destruct l as [|h l]; [done|]. exists h. by split; [left|].
Qed.

Lemma destination_holds_value_spec s :
  let mine := length (holdings_of_destination s) in
  fst (destination_holds_value s) = true ↔
  Forall (owner_is_shown s) (st_holdings s) ∧
  (mine = 1%nat ∨ (mine = 2%nat ∧ is_transfer_to_self s = true)) ∧
  (st_has_amount s = true →
   ∃ h, h ∈ holdings_of_destination s ∧ h_amount h = st_amount s).
Proof.
  unfold destination_holds_value. rewrite scan_holdings_spec. cbn zeta.
  case_decide as F; [|cbn; naive_solver]. fold (holdings_of_destination s). cbn [Nat.add orb].
  pose proof (amount_agrees_exists s (holdings_of_destination s)) as A.
  destruct (length (holdings_of_destination s)) as [|[|[|n]]] eqn:El; cbn.
  - split; [done|]. intros (_ & [|[]] & _); lia.
  - rewrite <- A by done. destruct existsb; cbn; naive_solver.
  - rewrite <- A by done. destruct is_transfer_to_self, existsb; cbn; naive_solver lia.
  - destruct is_transfer_to_self; cbn; naive_solver lia.
Qed.

Lemma destination_holds_value_keeps s : fst (destination_holds_value s) = true →
  snd (destination_holds_value s) = s.
Proof. unfold destination_holds_value. by repeat case_match. Qed.

Lemma admins_match_spec s :
  forallb (λ h, mem_eqb (h_admin h) (st_admin s)) (st_holdings s) = true ↔
  Forall (λ h, h_admin h = st_admin s) (st_holdings s).
Proof.
  rewrite forallb_forall, Forall_forall. setoid_rewrite mem_eqb_spec.
  split; intros H h Hh; apply H; by apply list_elem_of_In.
Qed.

Lemma ids_match_spec s :
  fst (holdings_match_displayed_id s) = true ↔
  (st_has_holdings_instrument s = true →
   st_has_instrument s = true ∧ st_holdings_instrument s = st_instrument s).
Proof.
  unfold holdings_match_displayed_id.
  destruct (st_has_holdings_instrument s), (st_has_instrument s); cbn; try naive_solver.
  destruct (mem_eqb _ _) eqn:E; cbn.
  - apply mem_eqb_spec in E. naive_solver.
  - apply mem_eqb_neq in E. naive_solver.
Qed.

Lemma values_verdict_iff s : fst (values_can_clear_sign s) = true ↔ verdict s.
Proof.
  unfold values_can_clear_sign, verdict.
  destruct (st_ok s) eqn:Eok; cbn [negb]; [|cbn; naive_solver].
  destruct (st_bound s) eqn:Eb; cbn [negb]; [|cbn; naive_solver].
  case_decide as Ed.
  { rewrite Ed. destruct (st_holdings s); cbn; naive_solver. }
  transitivity (screen_matches s); [|by destruct (st_bound_destination s); [done|tauto..]].
  destruct (st_has_destination s) eqn:Eh; cbn [negb].
  2: { cbn. split; [done|]. intros []; congruence. }
  pose proof (destination_holds_value_spec s) as D. cbn zeta in D.
  pose proof (destination_holds_value_keeps s) as K.
  destruct (destination_holds_value s) as [[] s'] eqn:E; cbn [fst snd negb] in *.
  2: { split; [done|]. intros [? ? ? ? ? ?]. by apply D. }
  rewrite K by done. destruct D as [D _]. destruct (D eq_refl) as (D1 & D2 & D3).
  destruct (st_has_admin s) eqn:Ea.
  - unfold holdings_match_displayed_instrument.
    pose proof (admins_match_spec s) as A. destruct (forallb _ _) eqn:Ef; cbn [negb].
    + rewrite ids_match_spec. split; [|by intros []].
      intros I. split; try done. intros _. by apply A.
    + cbn. split; [done|]. intros [? ? ? ? Ha ?]. by apply A, Ha.
  - cbn [negb]. rewrite ids_match_spec. split; [|by intros []].
    intros I. split; try done. congruence.
Qed.

(** C19: The verdict is exact.  Clear signing is granted if and only if nothing gave up, a
    screen is bound, and either the screen moves nothing and no holding was written, or
    every holding belongs to an account on screen, exactly one (two when the sender is
    the receiver) to the destination, of the shown amount when that is comparable, all
    issued by the shown admin, and of the shown instrument. *)
Theorem values_verdict_exact s : fst (values_can_clear_sign s) = true ↔ verdict s.
Proof. apply values_verdict_iff. Qed.

(** ** Whole transactions

    The calls the parsers make on the store between two resets, with the texts they pass:
    the holding parser hands over digests of the texts it read. *)

Record written := { w_owner : bytes; w_amount : bytes; w_admin : bytes; w_instrument : option bytes }.

Inductive value_event :=
  | VHolding (w : written)
  | VUsed (mem : bool) (contract_id : option bytes)
  | VDisclosed (contract_id : option bytes)
  | VGaveUp
  | VRelease
  | VBind (fields : list tx_field_t) (destination : destination_e) (check : amount_check_e).

Section Runs.
Context `{Sha256}.

Definition value_step (s : store_t) (ev : value_event) : store_t :=
  match ev with
  | VHolding w => values_report_holding (digest (w_owner w)) (digest (w_amount w))
                    (digest (w_admin w)) (option_map digest (w_instrument w)) s
  | VUsed mem cid => values_record_used_contract mem cid s
  | VDisclosed cid => values_check_disclosed_contract cid s
  | VGaveUp => values_report_unknown_template s
  | VRelease => values_release_used_contracts s
  | VBind fields destination check => values_bind_from_display fields destination check s
  end.

Definition value_run (evs : list value_event) (s : store_t) : store_t :=
  foldl value_step (values_check_reset s) evs.

Definition holdings_written (evs : list value_event) : list written :=
  omap (λ ev, match ev with VHolding w => Some w | _ => None end) evs.
Definition contracts_used (evs : list value_event) : list bytes :=
  omap (λ ev, match ev with VUsed _ cid => cid | _ => None end) evs.
Definition last_bind (evs : list value_event)
  : option (list tx_field_t * destination_e * amount_check_e) :=
  last (omap (λ ev, match ev with VBind f d c => Some (f, d, c) | _ => None end) evs).

Definition digests (w : written) : holding_t :=
  {| h_owner := digest (w_owner w); h_amount := digest (w_amount w);
     h_admin := digest (w_admin w) |}.

(** The value a screen shows for one kind of field: the last field of that kind that
    resolved. *)
Definition field_value (k : shown_as_e) (f : tx_field_t) : option bytes :=
  match tf_value f, tf_config f with
  | Some v, Some c => if decide (fc_shown_as c = k) then Some v else None
  | _, _ => None
  end.
Definition shown_value (k : shown_as_e) (fields : list tx_field_t) : option bytes :=
  last (omap (field_value k) fields).

Definition shown_destination (d : destination_e) (fields : list tx_field_t) : option bytes :=
  match d with
  | DEST_NONE => None
  | DEST_SENDER => shown_value SHOWN_AS_SENDER fields
  | DEST_RECEIVER => shown_value SHOWN_AS_RECEIVER fields
  end.

Definition shown_amount (check : amount_check_e) (fields : list tx_field_t) : option bytes :=
  if decide (check = AMOUNT_COMPARABLE) then shown_value SHOWN_AS_AMOUNT fields else None.

Lemma shown_value_snoc k fields f :
  shown_value k (fields ++ [f]) =
    match field_value k f with Some v => Some v | None => shown_value k fields end.
Proof.
  unfold shown_value. rewrite omap_app. cbn.
  destruct (field_value k f); [apply last_snoc|by rewrite app_nil_r].
Qed.

Lemma bind_fields_spec d check fields :
  foldl (bind_field d check) (Build_shown_t None None None None None) fields =
  {| sh_destination := shown_destination d fields;
     sh_amount := shown_amount check fields;
     sh_admin := shown_value SHOWN_AS_ADMIN fields;
     sh_sender := shown_value SHOWN_AS_SENDER fields;
     sh_instrument := shown_value SHOWN_AS_INSTRUMENT fields |}.
Proof.
  induction fields as [|f fields IH] using rev_ind.
  { by destruct d, check. }
  rewrite foldl_app, IH. cbn [foldl].
  unfold bind_field, shown_destination, shown_amount. rewrite !shown_value_snoc.
  unfold field_value.
  destruct (tf_value f) as [v|]; [|done].
  destruct (tf_config f) as [c|]; [|done].
  by destruct (fc_shown_as c), d, check.
Qed.

Lemma value_step_ok_only_drops s ev : st_ok s = false → st_ok (value_step s ev) = false.
Proof.
  intros E. destruct ev as [w|mem [cid|]|[cid|]| | |]; cbn;
    unfold values_report_holding, values_report_unknown_template, gives_up; cbn;
    repeat case_match; cbn in *; congruence.
Qed.

Lemma value_run_ok_prefix evs1 evs2 s :
  st_ok (value_run (evs1 ++ evs2) s) = true → st_ok (value_run evs1 s) = true.
Proof.
  unfold value_run. rewrite foldl_app. generalize (foldl value_step (values_check_reset s) evs1).
  induction evs2 as [|ev evs2 IH]; cbn; [done|]. intros s' E. apply IH in E.
  destruct (st_ok s') eqn:Es; [done|]. by rewrite value_step_ok_only_drops in E.
Qed.

(** The store tracks the events as long as nothing gave up. *)
Record store_tracks (evs : list value_event) (s : store_t) : Prop := {
  rt_holdings : st_holdings s = map digests (holdings_written evs);
  rt_few : (length (st_holdings s) ≤ MAX_HOLDINGS)%nat;
  rt_instrument : st_has_holdings_instrument s = false →
    Forall (λ w, w_instrument w = None) (holdings_written evs);
  rt_same : st_has_holdings_instrument s = true →
    Forall (λ w, ∀ i, w_instrument w = Some i → digest i = st_holdings_instrument s)
      (holdings_written evs);
  rt_used : ∀ d, d ∈ used_list s → ∃ cid, cid ∈ contracts_used evs ∧ d = contract_digest cid;
  rt_bind : match last_bind evs with
    | None => st_bound s = false
    | Some (fields, d, check) =>
        st_bound s = true ∧ st_bound_destination s = d ∧
        (st_has_destination s = is_set (shown_destination d fields)) ∧
        (st_has_amount s = is_set (shown_amount check fields)) ∧
        (st_has_admin s = is_set (shown_value SHOWN_AS_ADMIN fields)) ∧
        (st_has_sender s = is_set (shown_value SHOWN_AS_SENDER fields)) ∧
        (st_has_instrument s = is_set (shown_value SHOWN_AS_INSTRUMENT fields)) ∧
        (∀ v, shown_destination d fields = Some v → st_destination s = digest v) ∧
        (∀ v, shown_amount check fields = Some v → st_amount s = digest v) ∧
        (∀ v, shown_value SHOWN_AS_ADMIN fields = Some v → st_admin s = digest v) ∧
        (∀ v, shown_value SHOWN_AS_SENDER fields = Some v → st_sender s = digest v) ∧
        (∀ v, shown_value SHOWN_AS_INSTRUMENT fields = Some v → st_instrument s = digest v)
    end
}.

(** What one step appends to each list of a run. *)
Lemma holdings_written_snoc evs ev : holdings_written (evs ++ [ev]) =
  holdings_written evs ++ match ev with VHolding w => [w] | _ => [] end.
Proof. unfold holdings_written. rewrite omap_app. by destruct ev. Qed.
Lemma contracts_used_snoc evs ev : contracts_used (evs ++ [ev]) =
  contracts_used evs ++ match ev with VUsed _ (Some cid) => [cid] | _ => [] end.
Proof. unfold contracts_used. rewrite omap_app. by destruct ev as [|? []| | | |]. Qed.
Lemma last_bind_snoc evs ev : last_bind (evs ++ [ev]) =
  match ev with VBind f d c => Some (f, d, c) | _ => last_bind evs end.
Proof.
  unfold last_bind. rewrite omap_app. destruct ev; cbn; rewrite ?app_nil_r; try done.
  apply last_snoc.
Qed.

Lemma give_up_ok s : st_ok (gives_up s) = false.
Proof. unfold gives_up. by destruct (st_ok s) eqn:E. Qed.

#[local] Ltac drop_give_up :=
  match goal with |- context [if ?b then gives_up _ else _] => destruct b end;
    [by rewrite give_up_ok|].

Lemma track_holding evs s w : store_tracks evs s →
  st_ok (value_step s (VHolding w)) = true →
  store_tracks (evs ++ [VHolding w]) (value_step s (VHolding w)).
Proof.
  intros [Hh Hf Hi Hs Hu Hb]. cbn. unfold values_report_holding.
  destruct (Nat.leb_spec MAX_HOLDINGS (length (st_holdings s))).
  { by rewrite give_up_ok. }
  assert (length (st_holdings s ++ [digests w]) ≤ MAX_HOLDINGS)%nat as Hf'
    by (rewrite length_app; cbn; lia).
  assert (st_holdings s ++ [digests w] = map digests (holdings_written evs ++ [w])) as Hh'
    by (by rewrite map_app, Hh).
  destruct (w_instrument w) as [i|] eqn:Ew; cbn.
  2: { intros _. split; cbn; rewrite ?holdings_written_snoc, ?last_bind_snoc,
         ?contracts_used_snoc, ?app_nil_r; try done.
       - intros E. apply Forall_app; split; [by apply Hi|by constructor].
       - intros E. apply Forall_app; split; [by apply Hs|]. constructor; [congruence|done]. }
  destruct (st_has_holdings_instrument s) eqn:Ei; cbn.
  - destruct (mem_eqb _ _) eqn:Em; [|by rewrite give_up_ok].
    apply mem_eqb_spec in Em. intros _.
    split; cbn; rewrite ?holdings_written_snoc, ?last_bind_snoc, ?contracts_used_snoc,
      ?app_nil_r; try done; try congruence.
    intros _. apply Forall_app; split; [by apply Hs|]. constructor; [congruence|done].
  - intros _. split; cbn; rewrite ?holdings_written_snoc, ?last_bind_snoc,
      ?contracts_used_snoc, ?app_nil_r; try done.
    intros _. apply Forall_app; split.
    + eapply Forall_impl; [by apply Hi|]. cbn. congruence.
    + constructor; [congruence|done].
Qed.

Lemma track_used evs s mem cid : store_tracks evs s →
  st_ok (value_step s (VUsed mem cid)) = true →
  store_tracks (evs ++ [VUsed mem cid]) (value_step s (VUsed mem cid)).
Proof.
  intros [Hh Hf Hi Hs Hu Hb] Hok. destruct cid as [cid|]; cbn in Hok |- *.
  2: { split; rewrite ?holdings_written_snoc, ?contracts_used_snoc, ?last_bind_snoc, ?app_nil_r;
         done. }
  assert (∀ d, d ∈ used_list s → ∃ cid', cid' ∈ contracts_used evs ++ [cid] ∧
            d = contract_digest cid') as Hu'.
  { intros d (c & Hc & ->)%Hu. exists c. set_solver. }
  revert Hok. unfold used_list in *; cbn.
  destruct (st_ok s) eqn:Eok; cbn [negb]; [|congruence].
  drop_give_up. destruct (existsb _ _); [|drop_give_up]; intros _;
    split; cbn; rewrite ?holdings_written_snoc, ?contracts_used_snoc, ?last_bind_snoc,
      ?app_nil_r; try done.
  intros d [Hd|[->|[]%elem_of_nil]%elem_of_cons]%elem_of_app; [by apply Hu'|].
  exists cid. set_solver.
Qed.

Lemma track_bind evs s fields d check : store_tracks evs s →
  store_tracks (evs ++ [VBind fields d check]) (value_step s (VBind fields d check)).
Proof.
  intros [Hh Hf Hi Hs Hu Hb]. cbn. unfold values_bind_from_display.
  rewrite bind_fields_spec. cbn.
  split; cbn; rewrite ?holdings_written_snoc, ?contracts_used_snoc, ?last_bind_snoc,
    ?app_nil_r; try done.
  split_and!; try done; by intros ? ->.
Qed.

Lemma value_run_tracks evs s : st_ok (value_run evs s) = true →
  store_tracks evs (value_run evs s).
Proof.
  induction evs as [|ev evs IH] using rev_ind; intros Hok.
  { unfold value_run, values_check_reset; cbn. split; cbn; try done; [lia|set_solver]. }
  specialize (IH (value_run_ok_prefix _ _ _ Hok)). revert Hok.
  unfold value_run in *. rewrite foldl_app. cbn [foldl].
  set (s' := foldl value_step (values_check_reset s) evs) in *. intros Hok.
  destruct ev as [w|mem cid|cid| | |fields d check].
  - by apply track_holding.
  - by apply track_used.
  - assert (value_step s' (VDisclosed cid) = s') as ->.
    { revert Hok. cbn. unfold values_check_disclosed_contract.
      repeat case_match; try done; by rewrite give_up_ok. }
    destruct IH. split; rewrite ?holdings_written_snoc, ?contracts_used_snoc, ?last_bind_snoc,
      ?app_nil_r; done.
  - exfalso. cbn in Hok. unfold values_report_unknown_template in Hok.
    by rewrite give_up_ok in Hok.
  - destruct IH. split; cbn; rewrite ?holdings_written_snoc, ?contracts_used_snoc,
      ?last_bind_snoc, ?app_nil_r; try done. set_solver.
  - by apply track_bind.
Qed.
End Runs.

(** ** What a granted clear signing means *)

Lemma length_filter_map {A B} (f : A → B) (P : B → Prop) (Q : A → Prop)
    `{!∀ x, Decision (P x), !∀ x, Decision (Q x)} l :
  (∀ x, x ∈ l → P (f x) ↔ Q x) → length (filter P (map f l)) = length (filter Q l).
Proof.
  induction l as [|x l IH]; intros HPQ; [done|]. cbn [map].
  specialize (IH ltac:(set_solver)). specialize (HPQ x ltac:(set_solver)).
  destruct (decide (Q x)).
  - rewrite !filter_cons_True by naive_solver. cbn. by rewrite IH.
  - rewrite !filter_cons_False by naive_solver. done.
Qed.

Definition same_text (a b : bytes) : Prop := c_str a = c_str b.
#[export] Instance same_text_dec a b : Decision (same_text a b).
Proof. unfold same_text. apply _. Defined.

Definition written_texts (w : written) : list bytes :=
  [w_owner w; w_amount w; w_admin w] ++ option_list (w_instrument w).
(** Every text the check of these holdings compares through its digest. *)
Definition compared_texts (ws : list written) (fields : list tx_field_t) : list bytes :=
  flat_map written_texts ws ++ omap tf_value fields.

Definition no_collision `{Sha256} (texts : list bytes) : Prop :=
  ∀ a b, a ∈ texts → b ∈ texts → digest a = digest b → same_text a b.

Lemma shown_value_in k fields v : shown_value k fields = Some v → v ∈ omap tf_value fields.
Proof.
  unfold shown_value. intros H. apply last_Some_elem_of in H.
  apply list_elem_of_omap in H as (f & Hf & Hv). apply list_elem_of_omap. exists f.
  split; [done|]. unfold field_value in Hv. by repeat case_match; simplify_eq.
Qed.

Lemma shown_destination_in d fields v :
  shown_destination d fields = Some v → v ∈ omap tf_value fields.
Proof. destruct d; [done|apply shown_value_in..]. Qed.

Lemma shown_amount_in check fields v :
  shown_amount check fields = Some v → v ∈ omap tf_value fields.
Proof. unfold shown_amount. case_decide; [apply shown_value_in|done]. Qed.

Section Meaning.
Context `{Sha256}.

Record screen_tells (ws : list written) (fields : list tx_field_t) (d : destination_e)
    (check : amount_check_e) (dest : bytes) : Prop := {
  tells_owners : ∀ w, w ∈ ws →
    same_text (w_owner w) dest ∨
    ∃ sender, shown_value SHOWN_AS_SENDER fields = Some sender ∧ same_text (w_owner w) sender;
  tells_count : let mine := filter (λ w, same_text (w_owner w) dest) ws in
    length mine = 1%nat ∨
    (length mine = 2%nat ∧ d = DEST_RECEIVER ∧
     ∃ sender, shown_value SHOWN_AS_SENDER fields = Some sender ∧ same_text sender dest);
  tells_amount : ∀ a, shown_amount check fields = Some a →
    ∃ w, w ∈ ws ∧ same_text (w_owner w) dest ∧ same_text (w_amount w) a;
  tells_admin : ∀ a, shown_value SHOWN_AS_ADMIN fields = Some a →
    ∀ w, w ∈ ws → same_text (w_admin w) a;
  tells_instrument : ∀ w i, w ∈ ws → w_instrument w = Some i →
    ∃ j, shown_value SHOWN_AS_INSTRUMENT fields = Some j ∧ same_text i j
}.

Lemma written_text_in evs fields w t : w ∈ holdings_written evs → t ∈ written_texts w →
  t ∈ compared_texts (holdings_written evs) fields.
Proof.
  intros Hw Ht. apply elem_of_app. left. apply list_elem_of_In, in_flat_map.
  exists w. by rewrite <- !list_elem_of_In.
Qed.

Lemma shown_text_in evs fields t : t ∈ omap tf_value fields → t ∈ compared_texts (holdings_written evs) fields.
Proof. intros Ht. apply elem_of_app. by right. Qed.

(** The holdings may be known from another run than the screen. *)
Lemma screen_matches_tells evs evs' s fields d check dest :
  store_tracks evs s → store_tracks evs' s → screen_matches s →
  last_bind evs' = Some (fields, d, check) →
  shown_destination d fields = Some dest → no_collision (compared_texts (holdings_written evs) fields) →
  screen_tells (holdings_written evs) fields d check dest.
Proof.
  intros [Hh Hf Hi Hs Hu _] [_ _ _ _ _ Hb] [M1 M2 M3 M4 M5 M6] HB HD NC. rewrite HB in Hb.
  destruct Hb as (_ & Hbd & E1 & E2 & E3 & E4 & E5 & D1 & D2 & D3 & D4 & D5).
  assert (W : ∀ w t v, w ∈ holdings_written evs → t ∈ written_texts w →
    v ∈ omap tf_value fields → digest t = digest v → same_text t v).
  { intros w t v Hw Ht Hv Hd. apply NC; [by eapply written_text_in|by apply shown_text_in|done]. }
  assert (Hin : dest ∈ omap tf_value fields) by (by eapply shown_destination_in).
  assert (Hmine : length (holdings_of_destination s) =
    length (filter (λ w, same_text (w_owner w) dest) (holdings_written evs))).
  { unfold holdings_of_destination. rewrite Hh, (D1 _ HD). apply length_filter_map.
    intros w Hw. cbn. split; [|by unfold digest; intros ->].
    apply (W w); [done|by left|done]. }
  rewrite Hmine, Hh in *. split.
  - intros w Hw. rewrite Forall_map, Forall_forall in M2. destruct (M2 w Hw) as [E|[Hsd E]].
    + left. apply (W w); [done|by left|done|]. cbn in E. by rewrite E, (D1 _ HD).
    + right. rewrite E4 in Hsd. destruct (shown_value SHOWN_AS_SENDER fields) as [sd|] eqn:Esd;
        [|done]. exists sd. split; [done|].
      apply (W w); [done|by left|by eapply shown_value_in|]. cbn in E. by rewrite E, (D4 _ eq_refl).
  - destruct M3 as [|[Hl Hself]]; [by left|right]. split; [done|].
    unfold is_transfer_to_self in Hself. rewrite !andb_true_iff, mem_eqb_spec in Hself.
    destruct Hself as [[[Hr%bool_decide_eq_true Hsd] _] E]. split; [congruence|].
    rewrite E4 in Hsd. destruct (shown_value SHOWN_AS_SENDER fields) as [sd|] eqn:Esd; [|done].
    exists sd. split; [done|]. apply NC; [by apply shown_text_in; eapply shown_value_in|
      by apply shown_text_in|]. by rewrite <- (D4 _ eq_refl), E, (D1 _ HD).
  - intros a Ha. rewrite E2, Ha in M4. destruct (M4 eq_refl) as (h & Hhm & Ea).
    unfold holdings_of_destination in Hhm. rewrite list_elem_of_filter, Hh in Hhm.
    destruct Hhm as [Eo Hw]. apply list_elem_of_In, in_map_iff in Hw as (w & <- & Hw).
    apply list_elem_of_In in Hw. exists w. cbn in *. split_and!; [done|..].
    + apply (W w); [done|by left|done|]. by rewrite Eo, (D1 _ HD).
    + apply (W w); [done|by right; left|by eapply shown_amount_in|]. by rewrite Ea, (D2 _ Ha).
  - intros a Ha w Hw. rewrite E3, Ha in M5. specialize (M5 eq_refl).
    rewrite Forall_map, Forall_forall in M5.
    apply (W w); [done|by right; right; left|by eapply shown_value_in|].
    specialize (M5 w Hw). cbn in M5. by rewrite M5, (D3 _ Ha).
  - intros w i Hw Hwi. destruct (st_has_holdings_instrument s) eqn:Eh.
    2: { specialize (Hi eq_refl). rewrite Forall_forall in Hi. specialize (Hi w Hw). congruence. }
    destruct (M6 eq_refl) as [Hj Ej]. rewrite E5 in Hj.
    destruct (shown_value SHOWN_AS_INSTRUMENT fields) as [j|] eqn:Esj; [|done].
    exists j. split; [done|]. specialize (Hs eq_refl). rewrite Forall_forall in Hs.
    apply (W w); [done| |by eapply shown_value_in|].
    + unfold written_texts. rewrite Hwi. set_solver.
    + by rewrite (Hs w Hw i Hwi), Ej, (D5 _ eq_refl).
Qed.
End Meaning.

(** What a screen of the fields [fields] says of the holdings [ws]. *)
Definition screen_says `{Sha256} (ws : list written) (fields : list tx_field_t) (d : destination_e)
    (check : amount_check_e) : Prop :=
  match d with
  | DEST_NONE => ws = []
  | _ => no_collision (compared_texts ws fields) →
      ∃ dest, shown_destination d fields = Some dest ∧ screen_tells ws fields d check dest
  end.
Lemma verdict_says `{Sha256} evs evs' s fields d check :
  fst (values_can_clear_sign (value_run evs s)) = true → value_run evs' s = value_run evs s →
  last_bind evs' = Some (fields, d, check) → screen_says (holdings_written evs) fields d check.
Proof.
  intros (Hok & _ & V)%values_verdict_iff Er HB. pose proof (value_run_tracks _ _ Hok) as T.
  assert (T' : store_tracks evs' (value_run evs s)) by (rewrite <- Er in *; by apply value_run_tracks).
  pose proof (rt_bind _ _ T') as B. rewrite HB in B. destruct B as (_ & Hbd & E1 & _). rewrite Hbd in V.
  assert (Hm : screen_matches (value_run evs s) → no_collision (compared_texts (holdings_written evs) fields) →
    ∃ dest, shown_destination d fields = Some dest ∧ screen_tells (holdings_written evs) fields d check dest).
  { intros M NC. pose proof (sm_destination _ M) as M1. rewrite E1 in M1.
    destruct (shown_destination d fields) as [dest|] eqn:HD; [|done].
    exists dest. split; [done|]. by eapply screen_matches_tells. }
  destruct d; [|exact (Hm V)..]. rewrite (rt_holdings _ _ T) in V. cbn. by destruct (holdings_written evs).
Qed.

(** C13: What the user may conclude from a clear-signing verdict on a screen that moves
    value, as long as SHA-256 does not collide on the texts involved: every holding the
    transaction wrote belongs to the destination or the sender on screen; exactly one
    belongs to the destination (two when sender and receiver are the same account); it
    carries the shown amount when the amount is comparable; every holding was issued by
    the shown admin and is of the shown instrument. *)
Theorem clear_signed_screen_tells_the_truth `{Sha256} evs s fields d check :
  fst (values_can_clear_sign (value_run evs s)) = true →
  last_bind evs = Some (fields, d, check) → d ≠ DEST_NONE →
  no_collision (compared_texts (holdings_written evs) fields) →
  ∃ dest, shown_destination d fields = Some dest ∧ screen_tells (holdings_written evs) fields d check dest.
Proof.
  intros Hv HB Hd. pose proof (verdict_says evs evs s _ _ _ Hv eq_refl HB). by destruct d.
Qed.

(** Behind a screen that moves nothing, a clear-signed transaction wrote no holding
    at all. *)
Theorem clear_signed_nothing_moved `{Sha256} evs s fields check :
  fst (values_can_clear_sign (value_run evs s)) = true →
  last_bind evs = Some (fields, DEST_NONE, check) →
  holdings_written evs = [].
Proof. intros Hv HB. exact (verdict_says evs evs s _ _ _ Hv eq_refl HB). Qed.

(** C27: In a clear-signed transaction every disclosed contract was acted on by a node
    that arrived before the disclosure: some earlier used contract has the same truncated
    digest. *)
Theorem disclosed_contracts_were_used `{Sha256} evs1 evs2 s cid :
  fst (values_can_clear_sign (value_run (evs1 ++ VDisclosed (Some cid) :: evs2) s)) = true →
  ∃ used, used ∈ contracts_used evs1 ∧ contract_digest used = contract_digest cid.
Proof.
  intros (Hok & _ & _)%values_verdict_iff.
  rewrite cons_middle, app_assoc in Hok. apply value_run_ok_prefix in Hok.
  pose proof (value_run_tracks _ _ (value_run_ok_prefix _ _ _ Hok)) as T.
  unfold value_run in *. rewrite foldl_app in Hok. cbn in Hok.
  set (s' := foldl value_step _ evs1) in *. revert Hok.
  unfold values_check_disclosed_contract.
  destruct (st_ok s') eqn:Eok; cbn [negb]; [|congruence].
  destruct (existsb _ _) eqn:Ee; [|by rewrite give_up_ok].
  intros _. apply existsb_exists in Ee as (x & Hx & E%mem_eqb_spec). subst x.
  apply list_elem_of_In in Hx. destruct (rt_used _ _ T _ Hx) as (used & Hu & E).
  by exists used.
Qed.

(** Once something gave up, clear signing stays off whatever follows, until the next
    reset. *)
Theorem give_up_is_final `{Sha256} evs1 evs2 s :
  st_ok (value_run evs1 s) = false →
  fst (values_can_clear_sign (value_run (evs1 ++ evs2) s)) = false.
Proof.
  intros E. destruct (fst (values_can_clear_sign _)) eqn:V; [|done].
  apply values_verdict_iff in V as (Hok & _). apply value_run_ok_prefix in Hok. congruence.
Qed.

(** Witnesses: a transfer of 10 from alice to bob, with 5 of change, on a hash that keeps
    short texts apart. *)
Definition toy_sha : Sha256 := λ m, take SHA256_HASH_LEN (m ++ replicate SHA256_HASH_LEN 0).
Definition sample_field (k : shown_as_e) (v : string) : tx_field_t :=
  {| tf_value := Some (lit v); tf_value_len := 0;
     tf_config := Some {| fc_path := []; fc_item_name := None; fc_format := no_format;
                          fc_mandatory := true; fc_shown_as := k |};
     tf_matched := true; tf_display := true; tf_store_failed := false |}.
Definition sample_screen : list tx_field_t :=
  [sample_field SHOWN_AS_SENDER "alice"; sample_field SHOWN_AS_AMOUNT "10";
   sample_field SHOWN_AS_RECEIVER "bob"; sample_field SHOWN_AS_INSTRUMENT "Amulet";
   sample_field SHOWN_AS_ADMIN "DSO"].
Definition sample_holding (o a : string) : value_event :=
  VHolding {| w_owner := lit o; w_amount := lit a; w_admin := lit "DSO"; w_instrument := None |}.
Definition sample_transfer : list value_event :=
  [sample_holding "alice" "5"; sample_holding "bob" "10"; VUsed true (Some (lit "c1"));
   VBind sample_screen DEST_RECEIVER AMOUNT_COMPARABLE; VDisclosed (Some (lit "c1")); VRelease].
Definition sample_store : store_t := @values_check_reset
  {| st_holdings := []; st_used_contracts := None; st_destination := []; st_amount := [];
     st_admin := []; st_instrument := []; st_holdings_instrument := []; st_sender := [];
     st_has_destination := false; st_has_amount := false; st_has_admin := false;
     st_has_sender := false; st_has_instrument := false; st_has_holdings_instrument := false;
     st_bound := false; st_bound_destination := DEST_NONE; st_ok := true |}.

(** A decidable form of [no_collision]. *)
Definition no_collisionb `{Sha256} (texts : list bytes) : bool :=
  forallb (λ a, forallb (λ b, negb (mem_eqb (digest a) (digest b)) ||
    bool_decide (same_text a b)) texts) texts.
Lemma no_collisionb_spec `{Sha256} texts : no_collisionb texts = true → no_collision texts.
Proof.
  unfold no_collisionb, no_collision. rewrite forallb_forall. intros HF a b Ha Hb E.
  apply list_elem_of_In in Ha, Hb. specialize (HF a Ha). rewrite forallb_forall in HF.
  specialize (HF b Hb). apply orb_true_iff in HF as [HF|HF%bool_decide_eq_true]; [|done].
  rewrite E in HF. assert (mem_eqb (digest b) (digest b) = true) as E'
    by (by apply mem_eqb_spec). by rewrite E' in HF.
Qed.

Lemma clear_signed_screen_tells_the_truth_witness :
  ∃ dest, shown_destination DEST_RECEIVER sample_screen = Some dest ∧
    @screen_tells (holdings_written sample_transfer) sample_screen DEST_RECEIVER AMOUNT_COMPARABLE dest.
Proof.
  apply (@clear_signed_screen_tells_the_truth toy_sha sample_transfer sample_store).
  - vm_compute. reflexivity.
  - reflexivity.
  - discriminate.
  - apply no_collisionb_spec. vm_compute. reflexivity.
Defined.

Lemma clear_signed_nothing_moved_witness :
  holdings_written [VBind sample_screen DEST_NONE AMOUNT_NOT_COMPARABLE] = [].
Proof.
  apply (@clear_signed_nothing_moved toy_sha _ sample_store sample_screen AMOUNT_NOT_COMPARABLE);
    vm_compute; reflexivity.
Defined.

Lemma disclosed_contracts_were_used_witness :
  ∃ used, used ∈ [lit "c1"] ∧
    @contract_digest toy_sha used = @contract_digest toy_sha (lit "c1").
Proof.
  apply (@disclosed_contracts_were_used toy_sha
    [sample_holding "alice" "5"; sample_holding "bob" "10"; VUsed true (Some (lit "c1"));
     VBind sample_screen DEST_RECEIVER AMOUNT_COMPARABLE] [VRelease] sample_store).
  vm_compute. reflexivity.
Defined.

Lemma give_up_is_final_witness :
  fst (values_can_clear_sign (@value_run toy_sha ([VGaveUp] ++ sample_transfer) sample_store))
    = false.
Proof. apply (@give_up_is_final toy_sha [VGaveUp]). vm_compute. reflexivity. Defined.
