(* ===== verification/Pb.v ===== *)
(** * The protobuf decoder ([vendor/nanopb/pb_decode.c])

    The parsers are callbacks of nanopb, so what they see and in which order is nanopb's
    doing: it is modelled to the byte.  A stream is the list of the bytes left to read; a
    substream is a prefix of it, and closing it drops what was not read, which is what the
    shared [state] pointer and the two [bytes_left] counters amount to.  Rewinding a
    stream is keeping its old value.

    A message type gives a handler for each of its tags ([field_handler]), built from the
    field decoders below the way the generated field lists say; an unknown tag is
    skipped.  A failed decode may leave any state behind and a released message, and no
    caller looks at either. *)

From S2P Require Import Prelude.

Definition istream : Type := bytes.

(** ** Reading *)

Definition pb_read (n : nat) (s : istream) : option (bytes * istream) :=
  if (length s <? n)%nat then None else Some (take n s, drop n s).

Definition pb_readbyte (s : istream) : option (Z * istream) :=
  match s with [] => None | b :: s' => Some (b, s') end.

(** The multibyte case of [pb_decode_varint32_eof]. *)
Fixpoint varint32_more (bitpos result : Z) (s : istream) : option (Z * istream) :=
  match s with
  | [] => None
  | byte :: s' =>
      let next r :=
        if Z.land byte 0x80 =? 0 then Some (r, s') else varint32_more (bitpos + 7) r s' in
      if 32 <=? bitpos then
        let sign_extension := if bitpos <? 63 then 0xff else 0x01 in
        let valid_extension :=
          (Z.land byte 0x7f =? 0) ||
          (negb (Z.shiftr result 31 =? 0) && (byte =? sign_extension)) in
        if (64 <=? bitpos) || negb valid_extension then None else next result
      else if bitpos =? 28 then
        if negb (Z.land byte 0x70 =? 0) && negb (Z.land byte 0x78 =? 0x78) then None
        else next (Z.lor result (u32 (Z.shiftl (Z.land byte 0x0f) bitpos)))
      else next (Z.lor result (u32 (Z.shiftl (Z.land byte 0x7f) bitpos)))
  end.

Definition pb_decode_varint32 (s : istream) : option (Z * istream) :=
  match s with
  | [] => None
  | byte :: s' =>
      if Z.land byte 0x80 =? 0 then Some (byte, s')
      else varint32_more 7 (Z.land byte 0x7f) s'
  end.

Fixpoint varint_from (bitpos result : Z) (s : istream) : option (Z * istream) :=
  match s with
  | [] => None
  | byte :: s' =>
      if (63 <=? bitpos) && negb (Z.land byte 0xfe =? 0) then None
      else
        let result := Z.lor result (u64 (Z.shiftl (Z.land byte 0x7f) bitpos)) in
        if Z.land byte 0x80 =? 0 then Some (result, s')
        else varint_from (bitpos + 7) result s'
  end.
Definition pb_decode_varint (s : istream) : option (Z * istream) := varint_from 0 0 s.

Fixpoint pb_skip_varint (s : istream) : option istream :=
  match s with
  | [] => None
  | byte :: s' => if Z.land byte 0x80 =? 0 then Some s' else pb_skip_varint s'
  end.

Definition pb_skip (n : nat) (s : istream) : option istream :=
  match pb_read n s with Some (_, s') => Some s' | None => None end.

(** [pb_skip_string] and [pb_make_string_substream] read the same length prefix; the
    first drops the string, the second gives it as a stream of its own. *)
Definition pb_make_string_substream (s : istream) : option (istream * istream) :=
  match pb_decode_varint32 s with
  | None => None
  | Some (size, s') => pb_read (Z.to_nat size) s'
  end.
Definition pb_skip_string (s : istream) : option istream :=
  match pb_decode_varint32 s with
  | None => None
  | Some (len, s') => pb_skip (Z.to_nat len) s'
  end.

Definition PB_WT_VARINT : Z := 0.
Definition PB_WT_64BIT : Z := 1.
Definition PB_WT_STRING : Z := 2.
Definition PB_WT_32BIT : Z := 5.
Definition PB_SIZE_MAX : Z := 65535.

(** The tag and the wire type.  The [eof] result is dropped: it is set only on an empty
    stream, and [pb_decode_inner] reads a tag only when bytes are left. *)
Definition pb_decode_tag (s : istream) : option (Z * Z * istream) :=
  match pb_decode_varint32 s with
  | None => None
  | Some (temp, s') => Some (Z.shiftr temp 3, Z.land temp 7, s')
  end.

Definition pb_skip_field (wire_type : Z) (s : istream) : option istream :=
  if wire_type =? PB_WT_VARINT then pb_skip_varint s
  else if wire_type =? PB_WT_64BIT then pb_skip 8 s
  else if wire_type =? PB_WT_STRING then pb_skip_string s
  else if wire_type =? PB_WT_32BIT then pb_skip 4 s
  else None.

(** [read_raw_value] with the buffer of ten bytes its caller gives it. *)
Fixpoint raw_varint (room : nat) (s : istream) : option (bytes * istream) :=
  match room, s with
  | 0%nat, _ => None
  | _, [] => None
  | S room, byte :: s' =>
      if Z.land byte 0x80 =? 0 then Some ([byte], s')
      else match raw_varint room s' with
           | Some (l, s'') => Some (byte :: l, s'')
           | None => None
           end
  end.
Definition read_raw_value (wire_type : Z) (s : istream) : option (bytes * istream) :=
  if wire_type =? PB_WT_VARINT then raw_varint 10 s
  else if wire_type =? PB_WT_64BIT then pb_read 8 s
  else if wire_type =? PB_WT_32BIT then pb_read 4 s
  else None.

(** Scalars. *)
Definition pb_decode_bool (s : istream) : option (bool * istream) :=
  match pb_decode_varint32 s with
  | Some (v, s') => Some (negb (v =? 0), s')
  | None => None
  end.
Definition pb_decode_svarint (s : istream) : option (Z * istream) :=
  match pb_decode_varint s with
  | Some (v, s') =>
      Some (if Z.testbit v 0 then i64 (Z.lxor (Z.shiftr v 1) (2 ^ 64 - 1))
            else Z.shiftr v 1, s')
  | None => None
  end.
(** Little-endian bytes. *)
Fixpoint le_value (l : bytes) : Z :=
  match l with [] => 0 | b :: l' => Z.lor b (Z.shiftl (le_value l') 8) end.
Definition pb_decode_sfixed64 (s : istream) : option (Z * istream) :=
  match pb_read 8 s with
  | Some (l, s') => Some (i64 (le_value l), s')
  | None => None
  end.
(** [pb_dec_varint] for the three kinds of field the messages have. *)
Definition pb_dec_int32 (s : istream) : option (Z * istream) :=
  match pb_decode_varint s with Some (v, s') => Some (i32 v, s') | None => None end.
Definition pb_dec_uint (bits : Z) (s : istream) : option (Z * istream) :=
  match pb_decode_varint s with
  | Some (v, s') => if v <? 2 ^ bits then Some (v, s') else None
  | None => None
  end.

(** ** Fields

    [R] is the C struct of the message, [S] the static state the callbacks share.
    [pb_realloc n] asks the heap for [n] bytes: it may fail. *)

Class Realloc (S : Type) := pb_realloc : Z → M S unit.

Section Fields.
Context {S : Type} `{!Realloc S}.

Definition field_handler (R : Type) : Type := Z → istream → R → M S (istream * R).

(** A scalar of the given wire type. *)
Definition h_scalar {R A} (wt : Z) (dec : istream → option (A * istream))
    (set : A → R → R) : field_handler R := λ wire_type s r,
  do* guard (wire_type =? wt) in
  let* (a, s') := of_option (dec s) in
  ret (s', set a r).

(** [pb_dec_string] into a pointer: [size + 1] bytes are allocated. *)
Definition pb_dec_string (s : istream) : M S (bytes * istream) :=
  let* (size, s') := of_option (pb_decode_varint32 s) in
  do* guard (negb (size =? 2 ^ 32 - 1)) in
  do* guard (Z.to_nat size <=? length s')%nat in
  do* pb_realloc (size + 1) in
  of_option (pb_read (Z.to_nat size) s').
Definition pb_dec_bytes (s : istream) : M S (bytes * istream) :=
  let* (size, s') := of_option (pb_decode_varint32 s) in
  do* guard (size <=? PB_SIZE_MAX) in
  do* guard (Z.to_nat size <=? length s')%nat in
  do* pb_realloc (size + 2) in
  of_option (pb_read (Z.to_nat size) s').

(** POINTER STRING, singular or oneof. *)
Definition h_string {R} (set : bytes → R → R) : field_handler R := λ wire_type s r,
  do* guard (wire_type =? PB_WT_STRING) in
  let* (b, s') := pb_dec_string s in
  ret (s', set b r).
Definition h_bytes {R} (set : bytes → R → R) : field_handler R := λ wire_type s r,
  do* guard (wire_type =? PB_WT_STRING) in
  let* (b, s') := pb_dec_bytes s in
  ret (s', set b r).

(** POINTER REPEATED STRING: the array grows by one pointer, NULL until its string is
    read. *)
Definition h_strings {R} (count : R → nat) (add : bytes → R → R) : field_handler R :=
  λ wire_type s r,
  do* guard (Z.of_nat (count r) <? PB_SIZE_MAX) in
  do* pb_realloc (4 * (Z.of_nat (count r) + 1)) in
  do* guard (wire_type =? PB_WT_STRING) in
  let* (b, s') := pb_dec_string s in
  ret (s', add b r).

(** The loop of [pb_decode_inner]: [handler] finds the field of a tag. *)
Fixpoint pb_fields {R} (fuel : nat) (handler : Z → option (field_handler R))
    (s : istream) (r : R) : M S R :=
  match s with
  | [] => ret r
  | _ :: _ =>
      match fuel with
      | O => nofuel
      | Datatypes.S fuel =>
          let* (tag, wire_type, s1) := of_option (pb_decode_tag s) in
          do* guard (negb (tag =? 0)) in
          match handler tag with
          | None =>
              let* s2 := of_option (pb_skip_field wire_type s1) in
              pb_fields fuel handler s2 r
          | Some h =>
              let* (s2, r') := h wire_type s1 r in
              pb_fields fuel handler s2 r'
          end
      end
  end.

(** [pb_decode_inner] on a stream it reads to its end: it keeps nothing of the stream. *)
Definition pb_decode_inner {R} (handler : Z → option (field_handler R)) (s : istream) (r : R)
  : M S R := pb_fields (length s) handler s r.

(** A submessage: its bytes, then what [dec] makes of them. *)
Definition h_submsg {R} (dec : istream → R → M S R) : field_handler R := λ wire_type s r,
  do* guard (wire_type =? PB_WT_STRING) in
  let* (sub, s') := of_option (pb_make_string_substream s) in
  let* r' := dec sub r in
  ret (s', r').

(** POINTER MESSAGE: the struct is allocated zeroed, whatever was there released. *)
Definition h_pointer_msg {R R'} (size : Z) (zero : R') (handler : Z → option (field_handler R'))
    (set : R' → R → R) : field_handler R := λ wire_type s r,
  do* pb_realloc size in
  h_submsg (λ sub r,
    let* m := pb_decode_inner handler sub zero in
    ret (set m r)) wire_type s r.

(** POINTER REPEATED MESSAGE. *)
Definition h_repeated_msg {R R'} (size : Z) (zero : R')
    (handler : Z → option (field_handler R')) (count : R → nat) (add : R' → R → R)
  : field_handler R := λ wire_type s r,
  do* guard (Z.of_nat (count r) <? PB_SIZE_MAX) in
  do* pb_realloc (size * (Z.of_nat (count r) + 1)) in
  h_submsg (λ sub r,
    let* m := pb_decode_inner handler sub zero in
    ret (add m r)) wire_type s r.

(** A submessage with a message callback ([PB_LTYPE_SUBMSG_W_CB]): the callback runs
    first, may change the enclosing struct, and the message is decoded unless the
    callback left nothing to read. *)
Definition dec_submsg_w_cb {R} (callback : R → option (istream → R → M S (istream * R)))
    (dec : istream → R → M S R) (sub : istream) (r : R) : M S R :=
  match callback r with
  | None => dec sub r
  | Some f =>
      let* (sub', r') := f sub r in
      match sub' with
      | [] => ret r'
      | _ => dec sub' r'
      end
  end.

(** A static submessage: decoded over what the struct holds. *)
Definition dec_static {R R'} (handler : Z → option (field_handler R'))
    (get : R → R') (set : R' → R → R) (sub : istream) (r : R) : M S R :=
  let* m := pb_decode_inner handler sub (get r) in
  ret (set m r).

(** The do-while loop of [decode_callback_field]. *)
Fixpoint callback_loop (fuel : nat) (f : istream → M S istream) (sub : istream) : M S unit :=
  match fuel with
  | O => nofuel
  | Datatypes.S fuel =>
      let* sub' := f sub in
      if (0 <? length sub')%nat && (length sub' <? length sub)%nat
      then callback_loop fuel f sub'
      else ret tt
  end.

(** [decode_callback_field] through [pb_default_field_callback], which calls the function
    the field holds, and succeeds when it holds none. *)
Definition h_callback {R} (callback : R → option (istream → M S istream)) : field_handler R :=
  λ wire_type s r,
  let f := match callback r with Some f => f | None => ret end in
  if wire_type =? PB_WT_STRING then
    let* (sub, s') := of_option (pb_make_string_substream s) in
    do* callback_loop (Datatypes.S (length sub)) f sub in
    ret (s', r)
  else
    let* (raw, s') := of_option (read_raw_value wire_type s) in
    do* f raw in
    ret (s', r).
End Fields.
#[global] Arguments field_handler S R : clear implicits.

(** ** The decoder terminates and keeps the invariants of its callbacks

    [h_safe n h]: on a stream of at most [n] bytes the handler keeps the invariant, does
    not run out of fuel and gives back no more bytes than it got. *)

Lemma pb_read_length n s a s' : pb_read n s = Some (a, s') →
  length a = n ∧ (length a + length s')%nat = length s.
Proof.
  unfold pb_read. destruct (Nat.ltb_spec (length s) n); [done|]. intros [= <- <-].
  rewrite length_take, length_drop. lia.
Qed.

Lemma varint32_more_length s : ∀ p r v s', varint32_more p r s = Some (v, s') →
  (length s' < length s)%nat.
Proof.
  induction s as [|b s IH]; intros p r v s'; cbn [varint32_more length]; [done|].
  repeat case_match; try done; first [intros [= _ <-]; lia|intros Hv; apply IH in Hv; lia].
Qed.
Lemma pb_decode_varint32_length s v s' : pb_decode_varint32 s = Some (v, s') →
  (length s' < length s)%nat.
Proof.
  destruct s as [|b s]; cbn; [done|]. case_match.
  - intros [= _ <-]. lia.
  - intros Hv. apply varint32_more_length in Hv. lia.
Qed.
Lemma varint_from_length s : ∀ p r v s', varint_from p r s = Some (v, s') →
  (length s' < length s)%nat.
Proof.
  induction s as [|b s IH]; intros p r v s'; cbn [varint_from length]; [done|].
  repeat case_match; try done; first [intros [= _ <-]; lia|intros Hv; apply IH in Hv; lia].
Qed.
Lemma pb_decode_tag_length s t w s' : pb_decode_tag s = Some (t, w, s') →
  (length s' < length s)%nat.
Proof.
  unfold pb_decode_tag. destruct (pb_decode_varint32 s) as [[v s1]|] eqn:E; [|done].
  intros [= _ _ <-]. by apply pb_decode_varint32_length in E.
Qed.
Lemma pb_skip_varint_length s s' : pb_skip_varint s = Some s' → (length s' ≤ length s)%nat.
Proof.
  induction s as [|b s IH]; cbn; [done|]. case_match; [intros [= <-]; lia|].
  intros Hs. apply IH in Hs. lia.
Qed.
Lemma pb_skip_length n s s' : pb_skip n s = Some s' → (length s' ≤ length s)%nat.
Proof.
  unfold pb_skip. destruct (pb_read n s) as [[a s1]|] eqn:E; [|done]. intros [= <-].
  apply pb_read_length in E. lia.
Qed.
Lemma pb_skip_string_length s s' : pb_skip_string s = Some s' → (length s' ≤ length s)%nat.
Proof.
  unfold pb_skip_string. destruct (pb_decode_varint32 s) as [[v s1]|] eqn:E; [|done].
  apply pb_decode_varint32_length in E. intros Hs%pb_skip_length. lia.
Qed.
Lemma pb_skip_field_length w s s' : pb_skip_field w s = Some s' → (length s' ≤ length s)%nat.
Proof.
  unfold pb_skip_field. repeat case_match; try done;
    eauto using pb_skip_varint_length, pb_skip_length, pb_skip_string_length.
Qed.
Lemma pb_make_string_substream_length s sub s' : pb_make_string_substream s = Some (sub, s') →
  (length sub + length s' < length s)%nat.
Proof.
  unfold pb_make_string_substream. destruct (pb_decode_varint32 s) as [[v s1]|] eqn:E; [|done].
  apply pb_decode_varint32_length in E. intros Hs%pb_read_length. lia.
Qed.
Lemma raw_varint_length n : ∀ s l s', raw_varint n s = Some (l, s') →
  (length l + length s' ≤ length s)%nat.
Proof.
  induction n as [|n IH]; intros s l s'; cbn; [done|]. destruct s as [|b s]; [done|].
  case_match; [intros [= <- <-]; cbn; lia|].
  destruct (raw_varint n s) as [[l1 s1]|] eqn:E; [|done]. intros [= <- <-].
  apply IH in E. cbn. lia.
Qed.
Lemma read_raw_value_length w s l s' : read_raw_value w s = Some (l, s') →
  (length l + length s' ≤ length s)%nat.
Proof.
  unfold read_raw_value. repeat case_match; try done; try apply raw_varint_length.
  all: intros Hs%pb_read_length; lia.
Qed.

Definition shrinks {A} (dec : istream → option (A * istream)) : Prop :=
  ∀ s a s', dec s = Some (a, s') → (length s' ≤ length s)%nat.

Lemma shrinks_bool : shrinks pb_decode_bool.
Proof.
  intros s a s'. unfold pb_decode_bool. destruct (pb_decode_varint32 s) as [[v s1]|] eqn:E; [|done].
  intros [= _ <-]. apply pb_decode_varint32_length in E. lia.
Qed.
Lemma shrinks_varint : shrinks pb_decode_varint.
Proof. intros s a s' Hs. apply varint_from_length in Hs. lia. Qed.
Lemma shrinks_svarint : shrinks pb_decode_svarint.
Proof.
  intros s a s'. unfold pb_decode_svarint. destruct (pb_decode_varint s) as [[v s1]|] eqn:E; [|done].
  intros [= _ <-]. by apply shrinks_varint in E.
Qed.
Lemma shrinks_sfixed64 : shrinks pb_decode_sfixed64.
Proof.
  intros s a s'. unfold pb_decode_sfixed64. destruct (pb_read 8 s) as [[v s1]|] eqn:E; [|done].
  intros [= _ <-]. apply pb_read_length in E. lia.
Qed.
Lemma shrinks_int32 : shrinks pb_dec_int32.
Proof.
  intros s a s'. unfold pb_dec_int32. destruct (pb_decode_varint s) as [[v s1]|] eqn:E; [|done].
  intros [= _ <-]. by apply shrinks_varint in E.
Qed.
Lemma shrinks_uint bits : shrinks (pb_dec_uint bits).
Proof.
  intros s a s'. unfold pb_dec_uint. destruct (pb_decode_varint s) as [[v s1]|] eqn:E; [|done].
  case_match; [|done]. intros [= _ <-]. by apply shrinks_varint in E.
Qed.

Create HintDb pb.
#[export] Hint Resolve shrinks_bool shrinks_svarint shrinks_sfixed64 shrinks_int32
  shrinks_uint : pb.

Section Safety.
Context {S : Type} `{!Realloc S}.
Variable P : S → Prop.

Definition h_safe {R} (n : nat) (h : field_handler S R) : Prop :=
  ∀ wt s r, (length s ≤ n)%nat → safe P (λ '(s', _), (length s' ≤ length s)%nat) (h wt s r).
Definition fields_safe {R} (n : nat) (handler : Z → option (field_handler S R)) : Prop :=
  ∀ tag h, handler tag = Some h → h_safe n h.

Lemma pb_fields_safe {R} (handler : Z → option (field_handler S R)) n : fields_safe n handler →
  ∀ fuel s r, (length s ≤ fuel)%nat → (length s ≤ Datatypes.S n)%nat →
  keeps P (pb_fields fuel handler s r).
Proof.
  intros Hh. induction fuel as [|fuel IH]; intros s r Hf Hn; (destruct s as [|b s]; cbn [pb_fields];
    [by apply safe_ret|cbn [length] in *]); [lia|].
  eapply safe_bind with (Q := λ '(_, _, s1), (length s1 ≤ length s)%nat).
  - apply safe_of_option. intros [[t w] s1] Ht. apply pb_decode_tag_length in Ht. cbn in Ht. lia.
  - intros [[t w] s1] Hs1. apply safe_seq; [apply safe_guard_any|intros _].
    destruct (handler t) as [h|] eqn:E.
    + eapply safe_bind; [apply (Hh t h E); lia|]. intros [s2 r'] Hs2. apply IH; lia.
    + eapply safe_bind with (Q := λ s2, (length s2 ≤ length s1)%nat).
      * apply safe_of_option. intros s2 Hs2. by apply pb_skip_field_length in Hs2.
      * intros s2 Hs2. apply IH; lia.
Qed.

Lemma pb_decode_inner_safe {R} (handler : Z → option (field_handler S R)) s r :
  (∀ n, length s = Datatypes.S n → fields_safe n handler) →
  keeps P (pb_decode_inner handler s r).
Proof.
  intros Hh. destruct s as [|b s]; [by apply safe_ret|].
  apply (pb_fields_safe _ (length s)); [by apply Hh|done|done].
Qed.

Lemma h_scalar_safe {R A} n wt (dec : istream → option (A * istream)) (set : A → R → R) :
  shrinks dec → h_safe n (h_scalar wt dec set).
Proof.
  intros Hd w s r _. unfold h_scalar. apply safe_seq; [apply safe_guard_any|intros _].
  eapply safe_bind with (Q := λ '(_, s'), (length s' ≤ length s)%nat).
  - apply safe_of_option. intros [a s'] E. by apply Hd in E.
  - intros [a s'] Hs. by apply safe_ret.
Qed.

Lemma h_submsg_safe {R} n (dec : istream → R → M S R) :
  (∀ sub r, (length sub < n)%nat → keeps P (dec sub r)) → h_safe n (h_submsg dec).
Proof.
  intros Hd w s r Hn. unfold h_submsg. apply safe_seq; [apply safe_guard_any|intros _].
  eapply safe_bind with (Q := λ '(sub, s'), (length sub + length s' < length s)%nat).
  - apply safe_of_option. intros [sub s'] E. by apply pb_make_string_substream_length in E.
  - intros [sub s'] Hs. apply safe_seq; [apply Hd; lia|]. intros r'. apply safe_ret. lia.
Qed.

Lemma dec_static_safe {R R'} n (handler : Z → option (field_handler S R')) (get : R → R')
    (set : R' → R → R) sub r :
  (∀ m, (m < n)%nat → fields_safe m handler) → (length sub < n)%nat →
  keeps P (dec_static handler get set sub r).
Proof.
  intros Hh Hn. unfold dec_static. apply safe_seq; [|intros ?; by apply safe_ret].
  apply pb_decode_inner_safe. intros m Hm. apply Hh. lia.
Qed.

Lemma dec_submsg_w_cb_safe {R} n (callback : R → option (istream → R → M S (istream * R)))
    (dec : istream → R → M S R) sub r :
  (∀ r f, callback r = Some f → ∀ sub r, (length sub < n)%nat →
     safe P (λ '(sub', _), (length sub' ≤ length sub)%nat) (f sub r)) →
  (∀ sub r, (length sub < n)%nat → keeps P (dec sub r)) → (length sub < n)%nat →
  keeps P (dec_submsg_w_cb callback dec sub r).
Proof.
  intros Hc Hd Hn. unfold dec_submsg_w_cb. destruct (callback r) as [f|] eqn:E; [|by apply Hd].
  eapply safe_bind; [by apply (Hc r f E)|]. intros [sub' r'] Hs.
  destruct sub' as [|b sub']; [by apply safe_ret|apply Hd; cbn [length] in *; lia].
Qed.

Lemma callback_loop_safe (f : istream → M S istream) n :
  (∀ sub, (length sub ≤ n)%nat → keeps P (f sub)) →
  ∀ fuel sub, (length sub ≤ n)%nat → (length sub < fuel)%nat →
  keeps P (callback_loop fuel f sub).
Proof.
  intros Hf. induction fuel as [|fuel IH]; intros sub Hn Hl; [lia|]. cbn [callback_loop].
  apply safe_seq; [by apply Hf|]. intros sub'.
  destruct (Nat.ltb_spec 0 (length sub')), (Nat.ltb_spec (length sub') (length sub)); cbn [andb];
    try (by apply safe_ret). apply IH; lia.
Qed.

Lemma h_callback_safe {R} n (callback : R → option (istream → M S istream)) :
  (∀ r f, callback r = Some f → ∀ sub, (length sub ≤ n)%nat → keeps P (f sub)) →
  h_safe n (h_callback callback).
Proof.
  intros Hc w s r Hn. unfold h_callback.
  set (f := match callback r with Some f => f | None => ret end).
  assert (Hf : ∀ sub, (length sub ≤ n)%nat → keeps P (f sub)).
  { intros sub Hs. unfold f. destruct (callback r) as [g|] eqn:E; [by apply (Hc r g)|by apply safe_ret]. }
  destruct (w =? PB_WT_STRING).
  - eapply safe_bind with (Q := λ '(sub, s'), (length sub + length s' < length s)%nat).
    + apply safe_of_option. intros [sub s'] E. by apply pb_make_string_substream_length in E.
    + intros [sub s'] Hs. apply safe_seq; [apply (callback_loop_safe f n); [done|lia..]|].
      intros _. apply safe_ret. lia.
  - eapply safe_bind with (Q := λ '(sub, s'), (length sub + length s' ≤ length s)%nat).
    + apply safe_of_option. intros [sub s'] E. by apply read_raw_value_length in E.
    + intros [sub s'] Hs. apply safe_seq; [apply Hf; lia|]. intros _. apply safe_ret. lia.
Qed.

Section Heap.
Hypothesis realloc_safe : ∀ n, keeps P (pb_realloc n).

Lemma pb_dec_string_safe s : safe P (λ '(_, s'), (length s' ≤ length s)%nat) (pb_dec_string s).
Proof.
  unfold pb_dec_string. eapply safe_bind with (Q := λ '(_, s'), (length s' < length s)%nat).
  - apply safe_of_option. intros [v s'] E. by apply pb_decode_varint32_length in E.
  - intros [v s'] Hs. do 3 (apply safe_seq; [auto using safe_guard_any|intros _]).
    apply safe_of_option. intros [a s''] E. apply pb_read_length in E. lia.
Qed.
Lemma pb_dec_bytes_safe s : safe P (λ '(_, s'), (length s' ≤ length s)%nat) (pb_dec_bytes s).
Proof.
  unfold pb_dec_bytes. eapply safe_bind with (Q := λ '(_, s'), (length s' < length s)%nat).
  - apply safe_of_option. intros [v s'] E. by apply pb_decode_varint32_length in E.
  - intros [v s'] Hs. do 3 (apply safe_seq; [auto using safe_guard_any|intros _]).
    apply safe_of_option. intros [a s''] E. apply pb_read_length in E. lia.
Qed.
Lemma h_string_safe {R} n (set : bytes → R → R) : h_safe n (h_string set).
Proof.
  intros w s r _. unfold h_string. apply safe_seq; [apply safe_guard_any|intros _].
  eapply safe_bind; [apply pb_dec_string_safe|]. intros [b s'] Hs. by apply safe_ret.
Qed.
Lemma h_bytes_safe {R} n (set : bytes → R → R) : h_safe n (h_bytes set).
Proof.
  intros w s r _. unfold h_bytes. apply safe_seq; [apply safe_guard_any|intros _].
  eapply safe_bind; [apply pb_dec_bytes_safe|]. intros [b s'] Hs. by apply safe_ret.
Qed.
Lemma h_strings_safe {R} n count (add : bytes → R → R) : h_safe n (h_strings count add).
Proof.
  intros w s r _. unfold h_strings. do 3 (apply safe_seq; [auto using safe_guard_any|intros _]).
  eapply safe_bind; [apply pb_dec_string_safe|]. intros [b s'] Hs. by apply safe_ret.
Qed.
Lemma h_pointer_msg_safe {R R'} n size zero (handler : Z → option (field_handler S R'))
    (set : R' → R → R) :
  (∀ m, (m < n)%nat → fields_safe m handler) → h_safe n (h_pointer_msg size zero handler set).
Proof.
  intros Hh w s r Hn. unfold h_pointer_msg. apply safe_seq; [done|intros _].
  apply (h_submsg_safe n); [|done]. intros sub r0 Hs.
  apply safe_seq; [|intros ?; by apply safe_ret].
  apply pb_decode_inner_safe. intros m Hm. apply Hh. lia.
Qed.
Lemma h_repeated_msg_safe {R R'} n size zero (handler : Z → option (field_handler S R')) count
    (add : R' → R → R) :
  (∀ m, (m < n)%nat → fields_safe m handler) →
  h_safe n (h_repeated_msg size zero handler count add).
Proof.
  intros Hh w s r Hn. unfold h_repeated_msg.
  do 2 (apply safe_seq; [auto using safe_guard_any|intros _]).
  apply (h_submsg_safe n); [|done]. intros sub r0 Hs.
  apply safe_seq; [|intros ?; by apply safe_ret].
  apply pb_decode_inner_safe. intros m Hm. apply Hh. lia.
Qed.
End Heap.
End Safety.

#[export] Hint Resolve h_scalar_safe h_callback_safe h_string_safe h_bytes_safe
  h_strings_safe h_pointer_msg_safe h_repeated_msg_safe : pb.

(** A field list is safe when the handler of each tag is. *)
Ltac field_cases :=
  let tag := fresh "tag" in let h := fresh "h" in
  intros tag h;
  lazymatch goal with |- ?l = _ → _ => let c := get_head l in unfold c end;
  repeat case_match; intros [= <-]; eauto with pb.
