(* ===== verification/Messages.v ===== *)
(** * The messages of a transaction ([src/proto/com/daml/ledger/api/v2/.../*.pb.h])

    The generated C structs as records, and for each message type the handler of its
    field list.  A [char *] is [option bytes], NULL being [None]; an array of [char *]
    is a list.  A callback field holds the name of a function, of a type [cb] that each
    parser gives: [run] calls it on a substream, and [run_sum] calls the message callback
    of a oneof, which may change the enclosing struct before the message is decoded. *)

From S2P Require Import Prelude Pb.

(** ** Structs without callbacks *)

Record Identifier := {
  package_id : option bytes;
  module_name : option bytes;
  entity_name : option bytes
}.
#[export] Instance eta_Identifier : Eta Identifier := λ i,
  Build_Identifier (package_id i) (module_name i) (entity_name i).
Definition Identifier_zero : Identifier :=
  {| package_id := None; module_name := None; entity_name := None |}.

Record cbEnum := { en_has_enum_id : bool; en_enum_id : Identifier; en_constructor : option bytes }.
#[export] Instance eta_cbEnum : Eta cbEnum := λ e,
  Build_cbEnum (en_has_enum_id e) (en_enum_id e) (en_constructor e).
Definition cbEnum_zero : cbEnum :=
  {| en_has_enum_id := false; en_enum_id := Identifier_zero; en_constructor := None |}.

Record Node_Fetch := {
  f_lf_version : option bytes;
  f_contract_id : option bytes;
  f_package_name : option bytes;
  f_has_template_id : bool;
  f_template_id : Identifier;
  f_signatories : list (option bytes);
  f_stakeholders : list (option bytes);
  f_acting_parties : list (option bytes);
  f_interface_id : option Identifier
}.
#[export] Instance eta_Node_Fetch : Eta Node_Fetch := λ f,
  Build_Node_Fetch (f_lf_version f) (f_contract_id f) (f_package_name f)
    (f_has_template_id f) (f_template_id f) (f_signatories f) (f_stakeholders f)
    (f_acting_parties f) (f_interface_id f).
Definition Node_Fetch_zero : Node_Fetch :=
  {| f_lf_version := None; f_contract_id := None; f_package_name := None;
     f_has_template_id := false; f_template_id := Identifier_zero; f_signatories := [];
     f_stakeholders := []; f_acting_parties := []; f_interface_id := None |}.

Record Node_Rollback := { r_children : list (option bytes) }.
#[export] Instance eta_Node_Rollback : Eta Node_Rollback := λ r, Build_Node_Rollback (r_children r).

Record NodeSeed := { ns_node_id : Z; ns_seed : option bytes }.
#[export] Instance eta_NodeSeed : Eta NodeSeed := λ n, Build_NodeSeed (ns_node_id n) (ns_seed n).

Record DamlTransaction := {
  tx_version : option bytes;
  tx_roots : list (option bytes);
  tx_nodes_count : Z;
  tx_node_seeds : list NodeSeed
}.
#[export] Instance eta_DamlTransaction : Eta DamlTransaction := λ t,
  Build_DamlTransaction (tx_version t) (tx_roots t) (tx_nodes_count t) (tx_node_seeds t).
Definition DamlTransaction_zero : DamlTransaction :=
  {| tx_version := None; tx_roots := []; tx_nodes_count := 0; tx_node_seeds := [] |}.

Record SubmitterInfo := { si_act_as : list (option bytes); si_command_id : option bytes }.
#[export] Instance eta_SubmitterInfo : Eta SubmitterInfo := λ i,
  Build_SubmitterInfo (si_act_as i) (si_command_id i).
Definition SubmitterInfo_zero : SubmitterInfo := {| si_act_as := []; si_command_id := None |}.

Record Metadata := {
  md_has_submitter_info : bool;
  md_submitter_info : SubmitterInfo;
  md_synchronizer_id : option bytes;
  md_mediator_group : Z;
  md_transaction_uuid : option bytes;
  md_preparation_time : Z;
  md_input_contracts_count : Z;
  md_has_min_ledger_effective_time : bool;
  md_min_ledger_effective_time : Z;
  md_has_max_ledger_effective_time : bool;
  md_max_ledger_effective_time : Z
}.
#[export] Instance eta_Metadata : Eta Metadata := λ m,
  Build_Metadata (md_has_submitter_info m) (md_submitter_info m) (md_synchronizer_id m)
    (md_mediator_group m) (md_transaction_uuid m) (md_preparation_time m)
    (md_input_contracts_count m) (md_has_min_ledger_effective_time m)
    (md_min_ledger_effective_time m) (md_has_max_ledger_effective_time m)
    (md_max_ledger_effective_time m).
Definition Metadata_zero : Metadata :=
  {| md_has_submitter_info := false; md_submitter_info := SubmitterInfo_zero;
     md_synchronizer_id := None; md_mediator_group := 0; md_transaction_uuid := None;
     md_preparation_time := 0; md_input_contracts_count := 0;
     md_has_min_ledger_effective_time := false; md_min_ledger_effective_time := 0;
     md_has_max_ledger_effective_time := false; md_max_ledger_effective_time := 0 |}.

(** ** Structs with callbacks *)

(** The union of [cb_Value]; a callback message is its callback fields. *)
Inductive value_union (cb : Type) :=
  | U_unit
  | U_bool (b : bool)
  | U_int (z : Z)
  | U_str (s : option bytes)
  | U_optional (value : option cb)
  | U_list (elements : option cb)
  | U_text_map (entries : option cb)
  | U_gen_map (entries : option cb)
  | U_record (record_id fields : option cb)
  | U_variant (variant_id constructor value : option cb)
  | U_enum (e : cbEnum).
#[global] Arguments U_unit {cb}.
#[global] Arguments U_bool {cb} b.
#[global] Arguments U_int {cb} z.
#[global] Arguments U_str {cb} s.
#[global] Arguments U_optional {cb} value.
#[global] Arguments U_list {cb} elements.
#[global] Arguments U_text_map {cb} entries.
#[global] Arguments U_gen_map {cb} entries.
#[global] Arguments U_record {cb} record_id fields.
#[global] Arguments U_variant {cb} variant_id constructor value.
#[global] Arguments U_enum {cb} e.

Record cbValue (cb : Type) := {
  cb_sum : option cb;
  which_sum : Z;
  v_union : value_union cb
}.
#[global] Arguments Build_cbValue {cb} cb_sum which_sum v_union.
#[global] Arguments cb_sum {cb} c.
#[global] Arguments which_sum {cb} c.
#[global] Arguments v_union {cb} c.
#[export] Instance eta_cbValue cb : Eta (cbValue cb) := λ v,
  Build_cbValue (cb_sum v) (which_sum v) (v_union v).
Definition cbValue_zero {cb} : cbValue cb := Build_cbValue None 0 U_unit.

(** Setting a value to its defaults only forgets which field of the oneof is set. *)
Definition cbValue_defaults {cb} (v : cbValue cb) : cbValue cb := v <| which_sum := 0 |>.

(** [cb_RecordField] and [TextMap_Entry] have the same shape: a string read by a callback
    and a value. *)
Record cbLabelled (cb : Type) := {
  lb_label : option cb;
  lb_has_value : bool;
  lb_value : cbValue cb
}.
#[global] Arguments Build_cbLabelled {cb} lb_label lb_has_value lb_value.
#[global] Arguments lb_label {cb} c.
#[global] Arguments lb_has_value {cb} c.
#[global] Arguments lb_value {cb} c.
#[export] Instance eta_cbLabelled cb : Eta (cbLabelled cb) := λ l,
  Build_cbLabelled (lb_label l) (lb_has_value l) (lb_value l).
Definition cbLabelled_zero {cb} : cbLabelled cb := Build_cbLabelled None false cbValue_zero.
Definition cbLabelled_defaults {cb} (l : cbLabelled cb) : cbLabelled cb :=
  l <| lb_has_value := false |> <| lb_value ::= cbValue_defaults |>.

Record cbGenMapEntry (cb : Type) := {
  gm_has_key : bool;
  gm_key : cbValue cb;
  gm_has_value : bool;
  gm_value : cbValue cb
}.
#[global] Arguments Build_cbGenMapEntry {cb} gm_has_key gm_key gm_has_value gm_value.
#[global] Arguments gm_has_key {cb} c.
#[global] Arguments gm_key {cb} c.
#[global] Arguments gm_has_value {cb} c.
#[global] Arguments gm_value {cb} c.
#[export] Instance eta_cbGenMapEntry cb : Eta (cbGenMapEntry cb) := λ e,
  Build_cbGenMapEntry (gm_has_key e) (gm_key e) (gm_has_value e) (gm_value e).
Definition cbGenMapEntry_zero {cb} : cbGenMapEntry cb :=
  Build_cbGenMapEntry false cbValue_zero false cbValue_zero.
Definition cbGenMapEntry_defaults {cb} (e : cbGenMapEntry cb) : cbGenMapEntry cb :=
  e <| gm_has_key := false |> <| gm_key ::= cbValue_defaults |>
    <| gm_has_value := false |> <| gm_value ::= cbValue_defaults |>.

Record Node_CreateCb (cb : Type) := {
  c_lf_version : option bytes;
  c_contract_id : option bytes;
  c_package_name : option bytes;
  c_has_template_id : bool;
  c_template_id : Identifier;
  c_argument : option cb;
  c_signatories : list (option bytes);
  c_stakeholders : list (option bytes)
}.
#[global] Arguments Build_Node_CreateCb {cb}.
#[global] Arguments c_lf_version {cb}.
#[global] Arguments c_contract_id {cb}.
#[global] Arguments c_package_name {cb}.
#[global] Arguments c_has_template_id {cb}.
#[global] Arguments c_template_id {cb}.
#[global] Arguments c_argument {cb}.
#[global] Arguments c_signatories {cb}.
#[global] Arguments c_stakeholders {cb}.
#[export] Instance eta_Node_CreateCb cb : Eta (Node_CreateCb cb) := λ c,
  Build_Node_CreateCb (c_lf_version c) (c_contract_id c) (c_package_name c)
    (c_has_template_id c) (c_template_id c) (c_argument c) (c_signatories c)
    (c_stakeholders c).
Definition Node_CreateCb_zero {cb} : Node_CreateCb cb :=
  Build_Node_CreateCb None None None false Identifier_zero None [] [].
Definition Node_CreateCb_defaults {cb} (c : Node_CreateCb cb) : Node_CreateCb cb :=
  Node_CreateCb_zero <| c_argument := c_argument c |>.

Record Node_ExerciseCb (cb : Type) := {
  e_lf_version : option bytes;
  e_contract_id : option bytes;
  e_package_name : option bytes;
  e_has_template_id : bool;
  e_template_id : Identifier;
  e_signatories : list (option bytes);
  e_stakeholders : list (option bytes);
  e_acting_parties : list (option bytes);
  e_interface_id : option Identifier;
  e_choice_id : option bytes;
  e_chosen_value : option cb;
  e_consuming : bool;
  e_children : list (option bytes);
  e_exercise_result : option cb;
  e_choice_observers : list (option bytes)
}.
#[global] Arguments Build_Node_ExerciseCb {cb}.
#[global] Arguments e_lf_version {cb}.
#[global] Arguments e_contract_id {cb}.
#[global] Arguments e_package_name {cb}.
#[global] Arguments e_has_template_id {cb}.
#[global] Arguments e_template_id {cb}.
#[global] Arguments e_signatories {cb}.
#[global] Arguments e_stakeholders {cb}.
#[global] Arguments e_acting_parties {cb}.
#[global] Arguments e_interface_id {cb}.
#[global] Arguments e_choice_id {cb}.
#[global] Arguments e_chosen_value {cb}.
#[global] Arguments e_consuming {cb}.
#[global] Arguments e_children {cb}.
#[global] Arguments e_exercise_result {cb}.
#[global] Arguments e_choice_observers {cb}.
#[export] Instance eta_Node_ExerciseCb cb : Eta (Node_ExerciseCb cb) := λ e,
  Build_Node_ExerciseCb (e_lf_version e) (e_contract_id e) (e_package_name e)
    (e_has_template_id e) (e_template_id e) (e_signatories e) (e_stakeholders e)
    (e_acting_parties e) (e_interface_id e) (e_choice_id e) (e_chosen_value e)
    (e_consuming e) (e_children e) (e_exercise_result e) (e_choice_observers e).
Definition Node_ExerciseCb_zero {cb} : Node_ExerciseCb cb :=
  Build_Node_ExerciseCb None None None false Identifier_zero [] [] [] None None None false []
    None [].
Definition Node_ExerciseCb_defaults {cb} (e : Node_ExerciseCb cb) : Node_ExerciseCb cb :=
  Node_ExerciseCb_zero <| e_chosen_value := e_chosen_value e |>
    <| e_exercise_result := e_exercise_result e |>.

Record Node_CreateDisplay (cb : Type) := {
  cd_contract_id : option bytes;
  cd_template_id : option Identifier;
  cd_has_argument : bool;
  cd_argument : cbValue cb
}.
#[global] Arguments Build_Node_CreateDisplay {cb}.
#[global] Arguments cd_contract_id {cb}.
#[global] Arguments cd_template_id {cb}.
#[global] Arguments cd_has_argument {cb}.
#[global] Arguments cd_argument {cb}.
#[export] Instance eta_Node_CreateDisplay cb : Eta (Node_CreateDisplay cb) := λ c,
  Build_Node_CreateDisplay (cd_contract_id c) (cd_template_id c) (cd_has_argument c)
    (cd_argument c).
Definition Node_CreateDisplay_zero {cb} : Node_CreateDisplay cb :=
  Build_Node_CreateDisplay None None false cbValue_zero.

Record Node_ExerciseDisplay (cb : Type) := {
  ed_contract_id : option bytes;
  ed_template_id : option Identifier;
  ed_choice_id : option bytes;
  ed_has_chosen_value : bool;
  ed_chosen_value : cbValue cb
}.
#[global] Arguments Build_Node_ExerciseDisplay {cb}.
#[global] Arguments ed_contract_id {cb}.
#[global] Arguments ed_template_id {cb}.
#[global] Arguments ed_choice_id {cb}.
#[global] Arguments ed_has_chosen_value {cb}.
#[global] Arguments ed_chosen_value {cb}.
#[export] Instance eta_Node_ExerciseDisplay cb : Eta (Node_ExerciseDisplay cb) := λ e,
  Build_Node_ExerciseDisplay (ed_contract_id e) (ed_template_id e) (ed_choice_id e)
    (ed_has_chosen_value e) (ed_chosen_value e).
Definition Node_ExerciseDisplay_zero {cb} : Node_ExerciseDisplay cb :=
  Build_Node_ExerciseDisplay None None None false cbValue_zero.

(** The v1 node as the display parser sees it: the union of [cb_NodeDisplay]. *)
Inductive node_display_union (cb : Type) :=
  | ND_create (c : Node_CreateDisplay cb)
  | ND_fetch (f : Node_Fetch)
  | ND_exercise (e : Node_ExerciseDisplay cb)
  | ND_rollback (r : Node_Rollback).
#[global] Arguments ND_create {cb}.
#[global] Arguments ND_fetch {cb}.
#[global] Arguments ND_exercise {cb}.
#[global] Arguments ND_rollback {cb}.

Record NodeDisplay (cb : Type) := {
  nd_cb_node_type : option cb;
  nd_which : Z;
  nd_union : node_display_union cb
}.
#[global] Arguments Build_NodeDisplay {cb}.
#[global] Arguments nd_cb_node_type {cb}.
#[global] Arguments nd_which {cb}.
#[global] Arguments nd_union {cb}.
#[export] Instance eta_NodeDisplay cb : Eta (NodeDisplay cb) := λ n,
  Build_NodeDisplay (nd_cb_node_type n) (nd_which n) (nd_union n).
Definition NodeDisplay_zero {cb} : NodeDisplay cb :=
  Build_NodeDisplay None 0 (ND_create Node_CreateDisplay_zero).

(** The v1 node as the hashing and holding parsers see it.  Their callbacks read every
    submessage to its end, so nanopb never decodes the union and it is not kept. *)
Record NodeV1 (cb : Type) := { n_cb_node_type : option cb; n_which : Z }.
#[global] Arguments Build_NodeV1 {cb}.
#[global] Arguments n_cb_node_type {cb}.
#[global] Arguments n_which {cb}.
#[export] Instance eta_NodeV1 cb : Eta (NodeV1 cb) := λ n, Build_NodeV1 (n_cb_node_type n) (n_which n).
Definition NodeV1_zero {cb} : NodeV1 cb := Build_NodeV1 None 0.

(** [DeviceDamlTransaction_Node]; [V1] is the view of its v1 node. *)
Record DeviceNode (cb V1 : Type) := {
  dn_node_id : option cb;
  dn_cb_versioned_node : option cb;
  dn_which : Z;
  dn_v1 : V1
}.
#[global] Arguments Build_DeviceNode {cb V1}.
#[global] Arguments dn_node_id {cb V1}.
#[global] Arguments dn_cb_versioned_node {cb V1}.
#[global] Arguments dn_which {cb V1}.
#[global] Arguments dn_v1 {cb V1}.
#[export] Instance eta_DeviceNode cb V1 : Eta (DeviceNode cb V1) := λ n,
  Build_DeviceNode (dn_node_id n) (dn_cb_versioned_node n) (dn_which n) (dn_v1 n).

(** [DeviceMetadata_InputContract]; the contract is read by its callback. *)
Record InputContract (cb : Type) := {
  ic_cb_contract : option cb;
  ic_which : Z;
  ic_created_at : Z
}.
#[global] Arguments Build_InputContract {cb}.
#[global] Arguments ic_cb_contract {cb}.
#[global] Arguments ic_which {cb}.
#[global] Arguments ic_created_at {cb}.
#[export] Instance eta_InputContract cb : Eta (InputContract cb) := λ i,
  Build_InputContract (ic_cb_contract i) (ic_which i) (ic_created_at i).

(** ** Tags *)

Definition VALUE_UNIT_TAG : Z := 1.
Definition VALUE_BOOL_TAG : Z := 2.
Definition VALUE_INT64_TAG : Z := 3.
Definition VALUE_DATE_TAG : Z := 4.
Definition VALUE_TIMESTAMP_TAG : Z := 5.
Definition VALUE_NUMERIC_TAG : Z := 6.
Definition VALUE_PARTY_TAG : Z := 7.
Definition VALUE_TEXT_TAG : Z := 8.
Definition VALUE_CONTRACT_ID_TAG : Z := 9.
Definition VALUE_OPTIONAL_TAG : Z := 10.
Definition VALUE_LIST_TAG : Z := 11.
Definition VALUE_TEXT_MAP_TAG : Z := 12.
Definition VALUE_GEN_MAP_TAG : Z := 13.
Definition VALUE_RECORD_TAG : Z := 14.
Definition VALUE_VARIANT_TAG : Z := 15.
Definition VALUE_ENUM_TAG : Z := 16.
Definition NODE_V1_TAG : Z := 1000.
Definition NODE_V1_CREATE_TAG : Z := 1.
Definition NODE_V1_FETCH_TAG : Z := 2.
Definition NODE_V1_EXERCISE_TAG : Z := 3.
Definition NODE_V1_ROLLBACK_TAG : Z := 4.
Definition NODE_V1_QUERY_BY_KEY_TAG : Z := 5.

(** ** Field lists without callbacks *)

Section Plain.
Context {S : Type} `{!Realloc S}.

Definition Identifier_fields (tag : Z) : option (field_handler S Identifier) :=
  if tag =? 1 then Some (h_string (λ b i, i <| package_id := Some b |>))
  else if tag =? 2 then Some (h_string (λ b i, i <| module_name := Some b |>))
  else if tag =? 3 then Some (h_string (λ b i, i <| entity_name := Some b |>))
  else None.

(** A static OPTIONAL identifier: the flag is set, then the message is decoded over what
    is there. *)
Definition h_identifier {R} (get : R → Identifier) (set : Identifier → R → R)
    (set_has : R → R) : field_handler S R := λ wt s r,
  h_submsg (dec_static Identifier_fields get set) wt s (set_has r).
(** A pointer to an identifier: two or three pointers of four bytes. *)
Definition h_identifier_ptr {R} (set : Identifier → R → R) : field_handler S R :=
  h_pointer_msg 12 Identifier_zero Identifier_fields set.

Definition cbEnum_fields (tag : Z) : option (field_handler S cbEnum) :=
  if tag =? 1 then
    Some (h_identifier en_enum_id (λ i e, e <| en_enum_id := i |>)
            (λ e, e <| en_has_enum_id := true |>))
  else if tag =? 2 then Some (h_string (λ b e, e <| en_constructor := Some b |>))
  else None.

(** The field list of the device's [Fetch], without the [key] and [by_key] fields that
    only [transaction_v1_Fetch] has: [cb_Fetch]. *)
Definition Fetch_fields (tag : Z) : option (field_handler S Node_Fetch) :=
  if tag =? 1 then Some (h_string (λ b f, f <| f_lf_version := Some b |>))
  else if tag =? 2 then Some (h_string (λ b f, f <| f_contract_id := Some b |>))
  else if tag =? 3 then Some (h_string (λ b f, f <| f_package_name := Some b |>))
  else if tag =? 4 then
    Some (h_identifier f_template_id (λ i f, f <| f_template_id := i |>)
            (λ f, f <| f_has_template_id := true |>))
  else if tag =? 5 then
    Some (h_strings (λ f, length (f_signatories f))
            (λ b f, f <| f_signatories ::= λ l, l ++ [Some b] |>))
  else if tag =? 6 then
    Some (h_strings (λ f, length (f_stakeholders f))
            (λ b f, f <| f_stakeholders ::= λ l, l ++ [Some b] |>))
  else if tag =? 7 then
    Some (h_strings (λ f, length (f_acting_parties f))
            (λ b f, f <| f_acting_parties ::= λ l, l ++ [Some b] |>))
  else if tag =? 8 then Some (h_identifier_ptr (λ i f, f <| f_interface_id := Some i |>))
  else None.

Definition Rollback_fields (tag : Z) : option (field_handler S Node_Rollback) :=
  if tag =? 1 then
    Some (h_strings (λ r, length (r_children r))
            (λ b r, r <| r_children ::= λ l, l ++ [Some b] |>))
  else None.

Definition NodeSeed_fields (tag : Z) : option (field_handler S NodeSeed) :=
  if tag =? 1 then Some (h_scalar PB_WT_VARINT pb_dec_int32 (λ z n, n <| ns_node_id := z |>))
  else if tag =? 2 then Some (h_bytes (λ b n, n <| ns_seed := Some b |>))
  else None.

Definition DamlTransaction_fields (tag : Z) : option (field_handler S DamlTransaction) :=
  if tag =? 1 then Some (h_string (λ b t, t <| tx_version := Some b |>))
  else if tag =? 2 then
    Some (h_strings (λ t, length (tx_roots t)) (λ b t, t <| tx_roots ::= λ l, l ++ [Some b] |>))
  else if tag =? 3 then
    Some (h_scalar PB_WT_VARINT pb_dec_int32 (λ z t, t <| tx_nodes_count := z |>))
  else if tag =? 4 then
    Some (h_repeated_msg 8 {| ns_node_id := 0; ns_seed := None |} NodeSeed_fields
            (λ t, length (tx_node_seeds t)) (λ n t, t <| tx_node_seeds ::= λ l, l ++ [n] |>))
  else None.

Definition SubmitterInfo_fields (tag : Z) : option (field_handler S SubmitterInfo) :=
  if tag =? 1 then
    Some (h_strings (λ i, length (si_act_as i)) (λ b i, i <| si_act_as ::= λ l, l ++ [Some b] |>))
  else if tag =? 2 then Some (h_string (λ b i, i <| si_command_id := Some b |>))
  else None.

Definition Metadata_fields (tag : Z) : option (field_handler S Metadata) :=
  if tag =? 2 then
    Some (λ wt s m, h_submsg (dec_static SubmitterInfo_fields md_submitter_info
            (λ i m, m <| md_submitter_info := i |>)) wt s (m <| md_has_submitter_info := true |>))
  else if tag =? 3 then Some (h_string (λ b m, m <| md_synchronizer_id := Some b |>))
  else if tag =? 4 then
    Some (h_scalar PB_WT_VARINT (pb_dec_uint 32) (λ z m, m <| md_mediator_group := z |>))
  else if tag =? 5 then Some (h_string (λ b m, m <| md_transaction_uuid := Some b |>))
  else if tag =? 6 then
    Some (h_scalar PB_WT_VARINT (pb_dec_uint 64) (λ z m, m <| md_preparation_time := z |>))
  else if tag =? 7 then
    Some (h_scalar PB_WT_VARINT pb_dec_int32 (λ z m, m <| md_input_contracts_count := z |>))
  else if tag =? 9 then
    Some (h_scalar PB_WT_VARINT (pb_dec_uint 64)
            (λ z m, m <| md_has_min_ledger_effective_time := true |>
                      <| md_min_ledger_effective_time := z |>))
  else if tag =? 10 then
    Some (h_scalar PB_WT_VARINT (pb_dec_uint 64)
            (λ z m, m <| md_has_max_ledger_effective_time := true |>
                      <| md_max_ledger_effective_time := z |>))
  else None.
End Plain.

(** ** The contract key of a fetch

    [transaction_v1_Fetch] carries a key whose value is a tree of plain structs.  Nothing
    reads it, so only whether it can be decoded is modelled: the structs are [unit].  The
    array counts are not kept either; an array of more than 65535 entries does not fit a
    part of [MAX_TRANSACTION_LEN] bytes.  [fuel] bounds the nesting of messages, each of
    which takes at least one byte of the one around it. *)

Inductive plain_msg :=
  | P_Value | P_Record | P_RecordField | P_Variant | P_Optional | P_Repeated_Value
  | P_TextMap | P_GenMap | P_GenMapEntry | P_GlobalKey | P_Key.

Section PlainKey.
Context {S : Type} `{!Realloc S}.

Definition drop_string : field_handler S unit := h_string (λ _ u, u).
Definition drop_static {R} (zero : R) (fields : Z → option (field_handler S R))
  : field_handler S unit := h_submsg (dec_static fields (λ _, zero) (λ _ u, u)).
Definition drop_pointer {R} (zero : R) (fields : Z → option (field_handler S R))
  : field_handler S unit := h_pointer_msg 24 zero fields (λ _ u, u).
Definition Empty_fields (tag : Z) : option (field_handler S unit) := None.

Fixpoint plain_fields (fuel : nat) (m : plain_msg) (tag : Z) : option (field_handler S unit) :=
  match fuel with
  | O => Some (λ _ _ _, nofuel)
  | Datatypes.S fuel =>
      let msg k := drop_static tt (plain_fields fuel k) in
      let ptr k := drop_pointer tt (plain_fields fuel k) in
      let ident := drop_static Identifier_zero Identifier_fields in
      match m with
      | P_Value =>
          if tag =? 1 then Some (drop_static tt Empty_fields)
          else if tag =? 2 then Some (h_scalar PB_WT_VARINT pb_decode_bool (λ _ u, u))
          else if tag =? 3 then Some (h_scalar PB_WT_VARINT pb_decode_svarint (λ _ u, u))
          else if tag =? 4 then Some (h_scalar PB_WT_VARINT pb_dec_int32 (λ _ u, u))
          else if tag =? 5 then Some (h_scalar PB_WT_64BIT pb_decode_sfixed64 (λ _ u, u))
          else if (6 <=? tag) && (tag <=? 9) then Some drop_string
          else if tag =? 10 then Some (msg P_Optional)
          else if tag =? 11 then Some (msg P_Repeated_Value)
          else if tag =? 12 then Some (msg P_TextMap)
          else if tag =? 13 then Some (msg P_GenMap)
          else if tag =? 14 then Some (msg P_Record)
          else if tag =? 15 then Some (msg P_Variant)
          else if tag =? 16 then Some (drop_static cbEnum_zero cbEnum_fields)
          else None
      | P_Record =>
          if tag =? 1 then Some ident
          else if tag =? 2 then Some (ptr P_RecordField)
          else None
      | P_RecordField =>
          if tag =? 1 then Some drop_string
          else if tag =? 2 then Some (ptr P_Value)
          else None
      | P_Variant =>
          if tag =? 1 then Some ident
          else if tag =? 2 then Some drop_string
          else if tag =? 3 then Some (ptr P_Value)
          else None
      | P_Optional | P_Repeated_Value => if tag =? 1 then Some (ptr P_Value) else None
      | P_TextMap => if tag =? 1 then Some (ptr P_RecordField) else None
      | P_GenMap => if tag =? 1 then Some (ptr P_GenMapEntry) else None
      | P_GenMapEntry => if (1 <=? tag) && (tag <=? 2) then Some (ptr P_Value) else None
      | P_GlobalKey =>
          if tag =? 1 then Some ident
          else if tag =? 2 then Some drop_string
          else if tag =? 3 then Some (msg P_Value)
          else if tag =? 4 then Some (h_bytes (λ _ u, u))
          else None
      | P_Key =>
          if tag =? 1 then Some (msg P_GlobalKey)
          else if tag =? 2 then Some (h_callback (λ _, None))
          else None
      end
  end.

(** [transaction_v1_Fetch]: the fields above, the key and the [by_key] flag. *)
Definition V1_Fetch_fields (tag : Z) : option (field_handler S Node_Fetch) :=
  if tag =? 9 then
    Some (λ wt s f, h_submsg (λ sub f,
      do* pb_decode_inner (plain_fields (Datatypes.S (length sub)) P_Key) sub tt in
      ret f) wt s f)
  else if tag =? 10 then Some (h_scalar PB_WT_VARINT pb_decode_bool (λ _ f, f))
  else Fetch_fields tag.
End PlainKey.

(** ** Field lists with callbacks *)

Section Callbacks.
Context {S : Type} `{!Realloc S} {cb : Type}.
(** [run c sub]: what calling [c] on the substream [sub] does. *)
Variable run : cb → istream → M S istream.
(** [run_sum c tag sub v]: what calling the message callback [c] for the field [tag] of
    the oneof of [v] does. *)
Variable run_sum : cb → Z → istream → cbValue cb → M S (istream * cbValue cb).

Definition call {R} (get : R → option cb) : R → option (istream → M S istream) :=
  λ r, option_map run (get r).

(** The callback fields of the submessages of a value. *)
Definition one_cb_fields (tag : Z) : option (field_handler S (option cb)) :=
  if tag =? 1 then Some (h_callback (call id)) else None.
Definition record_fields (tag : Z) : option (field_handler S (option cb * option cb)) :=
  if tag =? 1 then Some (h_callback (call fst))
  else if tag =? 2 then Some (h_callback (call snd))
  else None.
Definition variant_fields (tag : Z)
  : option (field_handler S (option cb * option cb * option cb)) :=
  if tag =? 1 then Some (h_callback (call (λ r, fst (fst r))))
  else if tag =? 2 then Some (h_callback (call (λ r, snd (fst r))))
  else if tag =? 3 then Some (h_callback (call snd))
  else None.

Definition set_union (tag : Z) (u : value_union cb) (v : cbValue cb) : cbValue cb :=
  v <| which_sum := tag |> <| v_union := u |>.

(** A submessage of the oneof: zeroed when the oneof held something else, then its
    message callback, then its fields over what the struct holds. *)
Definition h_sum_msg {R} (tag : Z) (zero : value_union cb)
    (fields : Z → option (field_handler S R)) (get : value_union cb → R)
    (put : R → value_union cb) : field_handler S (cbValue cb) := λ wt s v,
  let v := if which_sum v =? tag then v else set_union tag zero v in
  h_submsg (dec_submsg_w_cb
    (λ v, option_map (λ c, run_sum c tag) (cb_sum v))
    (dec_static fields (λ v, get (v_union v)) (λ r v, v <| v_union := put r |>))) wt s v.

Definition h_sum_one (tag : Z) (put : option cb → value_union cb)
    (get : value_union cb → option cb) : field_handler S (cbValue cb) :=
  h_sum_msg tag (put None) one_cb_fields get put.

Definition Value_fields (tag : Z) : option (field_handler S (cbValue cb)) :=
  if tag =? 1 then Some (h_sum_msg 1 U_unit Empty_fields (λ _, tt) (λ _, U_unit))
  else if tag =? 2 then
    Some (h_scalar PB_WT_VARINT pb_decode_bool (λ b, set_union 2 (U_bool b)))
  else if tag =? 3 then
    Some (h_scalar PB_WT_VARINT pb_decode_svarint (λ z, set_union 3 (U_int z)))
  else if tag =? 4 then
    Some (h_scalar PB_WT_VARINT pb_dec_int32 (λ z, set_union 4 (U_int z)))
  else if tag =? 5 then
    Some (h_scalar PB_WT_64BIT pb_decode_sfixed64 (λ z, set_union 5 (U_int z)))
  else if (6 <=? tag) && (tag <=? 9) then Some (h_string (λ b, set_union tag (U_str (Some b))))
  else if tag =? 10 then
    Some (h_sum_one 10 U_optional (λ u, match u with U_optional c => c | _ => None end))
  else if tag =? 11 then
    Some (h_sum_one 11 U_list (λ u, match u with U_list c => c | _ => None end))
  else if tag =? 12 then
    Some (h_sum_one 12 U_text_map (λ u, match u with U_text_map c => c | _ => None end))
  else if tag =? 13 then
    Some (h_sum_one 13 U_gen_map (λ u, match u with U_gen_map c => c | _ => None end))
  else if tag =? 14 then
    Some (h_sum_msg 14 (U_record None None) record_fields
      (λ u, match u with U_record i f => (i, f) | _ => (None, None) end)
      (λ r, U_record (fst r) (snd r)))
  else if tag =? 15 then
    Some (h_sum_msg 15 (U_variant None None None) variant_fields
      (λ u, match u with U_variant i c v => (i, c, v) | _ => (None, None, None) end)
      (λ r, U_variant (fst (fst r)) (snd (fst r)) (snd r)))
  else if tag =? 16 then
    Some (h_sum_msg 16 (U_enum cbEnum_zero) cbEnum_fields
      (λ u, match u with U_enum e => e | _ => cbEnum_zero end) U_enum)
  else None.

Definition h_value {R} (get : R → cbValue cb) (set : cbValue cb → R → R) (set_has : R → R)
  : field_handler S R := λ wt s r, h_submsg (dec_static Value_fields get set) wt s (set_has r).

(** [cb_RecordField] and [cb_TextMap_Entry]. *)
Definition Labelled_fields (tag : Z) : option (field_handler S (cbLabelled cb)) :=
  if tag =? 1 then Some (h_callback (call lb_label))
  else if tag =? 2 then
    Some (h_value lb_value (λ v l, l <| lb_value := v |>) (λ l, l <| lb_has_value := true |>))
  else None.

Definition GenMapEntry_fields (tag : Z) : option (field_handler S (cbGenMapEntry cb)) :=
  if tag =? 1 then
    Some (h_value gm_key (λ v e, e <| gm_key := v |>) (λ e, e <| gm_has_key := true |>))
  else if tag =? 2 then
    Some (h_value gm_value (λ v e, e <| gm_value := v |>) (λ e, e <| gm_has_value := true |>))
  else None.

Definition Create_fields (tag : Z) : option (field_handler S (Node_CreateCb cb)) :=
  if tag =? 1 then Some (h_string (λ b c, c <| c_lf_version := Some b |>))
  else if tag =? 2 then Some (h_string (λ b c, c <| c_contract_id := Some b |>))
  else if tag =? 3 then Some (h_string (λ b c, c <| c_package_name := Some b |>))
  else if tag =? 4 then
    Some (h_identifier c_template_id (λ i c, c <| c_template_id := i |>)
            (λ c, c <| c_has_template_id := true |>))
  else if tag =? 5 then Some (h_callback (call c_argument))
  else if tag =? 6 then
    Some (h_strings (λ c, length (c_signatories c))
            (λ b c, c <| c_signatories ::= λ l, l ++ [Some b] |>))
  else if tag =? 7 then
    Some (h_strings (λ c, length (c_stakeholders c))
            (λ b c, c <| c_stakeholders ::= λ l, l ++ [Some b] |>))
  else None.

Definition Exercise_fields (tag : Z) : option (field_handler S (Node_ExerciseCb cb)) :=
  if tag =? 1 then Some (h_string (λ b e, e <| e_lf_version := Some b |>))
  else if tag =? 2 then Some (h_string (λ b e, e <| e_contract_id := Some b |>))
  else if tag =? 3 then Some (h_string (λ b e, e <| e_package_name := Some b |>))
  else if tag =? 4 then
    Some (h_identifier e_template_id (λ i e, e <| e_template_id := i |>)
            (λ e, e <| e_has_template_id := true |>))
  else if tag =? 5 then
    Some (h_strings (λ e, length (e_signatories e))
            (λ b e, e <| e_signatories ::= λ l, l ++ [Some b] |>))
  else if tag =? 6 then
    Some (h_strings (λ e, length (e_stakeholders e))
            (λ b e, e <| e_stakeholders ::= λ l, l ++ [Some b] |>))
  else if tag =? 7 then
    Some (h_strings (λ e, length (e_acting_parties e))
            (λ b e, e <| e_acting_parties ::= λ l, l ++ [Some b] |>))
  else if tag =? 8 then Some (h_identifier_ptr (λ i e, e <| e_interface_id := Some i |>))
  else if tag =? 9 then Some (h_string (λ b e, e <| e_choice_id := Some b |>))
  else if tag =? 10 then Some (h_callback (call e_chosen_value))
  else if tag =? 11 then
    Some (h_scalar PB_WT_VARINT pb_decode_bool (λ b e, e <| e_consuming := b |>))
  else if tag =? 12 then
    Some (h_strings (λ e, length (e_children e))
            (λ b e, e <| e_children ::= λ l, l ++ [Some b] |>))
  else if tag =? 13 then Some (h_callback (call e_exercise_result))
  else if tag =? 14 then
    Some (h_strings (λ e, length (e_choice_observers e))
            (λ b e, e <| e_choice_observers ::= λ l, l ++ [Some b] |>))
  else None.

Definition CreateDisplay_fields (tag : Z) : option (field_handler S (Node_CreateDisplay cb)) :=
  if tag =? 2 then Some (h_string (λ b c, c <| cd_contract_id := Some b |>))
  else if tag =? 4 then Some (h_identifier_ptr (λ i c, c <| cd_template_id := Some i |>))
  else if tag =? 5 then
    Some (h_value cd_argument (λ v c, c <| cd_argument := v |>)
            (λ c, c <| cd_has_argument := true |>))
  else None.

Definition ExerciseDisplay_fields (tag : Z)
  : option (field_handler S (Node_ExerciseDisplay cb)) :=
  if tag =? 2 then Some (h_string (λ b e, e <| ed_contract_id := Some b |>))
  else if tag =? 4 then Some (h_identifier_ptr (λ i e, e <| ed_template_id := Some i |>))
  else if tag =? 9 then Some (h_string (λ b e, e <| ed_choice_id := Some b |>))
  else if tag =? 10 then
    Some (h_value ed_chosen_value (λ v e, e <| ed_chosen_value := v |>)
            (λ e, e <| ed_has_chosen_value := true |>))
  else None.

(** The v1 node of the display parser.  [run_node] is its message callback. *)
Section NodeDisplay.
Variable run_node : cb → Z → istream → NodeDisplay cb → M S (istream * NodeDisplay cb).

Definition h_node_msg {R} (tag : Z) (zero : R) (fields : Z → option (field_handler S R))
    (get : node_display_union cb → R) (put : R → node_display_union cb)
  : field_handler S (NodeDisplay cb) := λ wt s n,
  let n := if nd_which n =? tag then n
           else n <| nd_which := tag |> <| nd_union := put zero |> in
  h_submsg (dec_submsg_w_cb
    (λ n, option_map (λ c, run_node c tag) (nd_cb_node_type n))
    (dec_static fields (λ n, get (nd_union n)) (λ r n, n <| nd_union := put r |>))) wt s n.

Definition NodeDisplay_fields (tag : Z) : option (field_handler S (NodeDisplay cb)) :=
  if tag =? NODE_V1_CREATE_TAG then
    Some (h_node_msg tag Node_CreateDisplay_zero CreateDisplay_fields
      (λ u, match u with ND_create c => c | _ => Node_CreateDisplay_zero end) ND_create)
  else if tag =? NODE_V1_FETCH_TAG then
    Some (h_node_msg tag Node_Fetch_zero Fetch_fields
      (λ u, match u with ND_fetch f => f | _ => Node_Fetch_zero end) ND_fetch)
  else if tag =? NODE_V1_EXERCISE_TAG then
    Some (h_node_msg tag Node_ExerciseDisplay_zero ExerciseDisplay_fields
      (λ u, match u with ND_exercise e => e | _ => Node_ExerciseDisplay_zero end) ND_exercise)
  else if tag =? NODE_V1_ROLLBACK_TAG then
    Some (h_node_msg tag {| r_children := [] |} Rollback_fields
      (λ u, match u with ND_rollback r => r | _ => {| r_children := [] |} end) ND_rollback)
  else None.
End NodeDisplay.

(** The v1 node of the hashing and holding parsers: [run_node] reads each submessage to
    its end, so decoding a submessage it left bytes of is not modelled and fails here. *)
Section NodeV1.
Variable run_node : cb → Z → istream → M S istream.

Definition NodeV1_fields (tag : Z) : option (field_handler S (NodeV1 cb)) :=
  if (1 <=? tag) && (tag <=? 5) then
    Some (λ wt s n, h_submsg (dec_submsg_w_cb
      (λ n, option_map (λ c sub n, let* sub' := run_node c tag sub in ret (sub', n))
              (n_cb_node_type n))
      (λ _ _, fail)) wt s (n <| n_which := tag |>))
  else None.
End NodeV1.

(** [DeviceDamlTransaction_Node]. *)
Section DeviceNode.
Context {V1 : Type}.
Variable run_versioned : cb → istream → DeviceNode cb V1 → M S (istream * DeviceNode cb V1).
Variable v1_zero : V1.
Variable v1_fields : Z → option (field_handler S V1).

Definition DeviceNode_fields (tag : Z) : option (field_handler S (DeviceNode cb V1)) :=
  if tag =? 1 then Some (h_callback (call dn_node_id))
  else if tag =? NODE_V1_TAG then
    Some (λ wt s n,
      let n := if dn_which n =? NODE_V1_TAG then n
               else n <| dn_which := NODE_V1_TAG |> <| dn_v1 := v1_zero |> in
      h_submsg (dec_submsg_w_cb
        (λ n, option_map run_versioned (dn_cb_versioned_node n))
        (dec_static v1_fields dn_v1 (λ v n, n <| dn_v1 := v |>))) wt s n)
  else None.
End DeviceNode.

(** [DeviceMetadata_InputContract].  [run_contract] reads the contract to its end. *)
Section InputContract.
Variable run_contract : cb → istream → M S istream.

Definition InputContract_fields (tag : Z) : option (field_handler S (InputContract cb)) :=
  if tag =? 1 then
    Some (λ wt s i, h_submsg (dec_submsg_w_cb
      (λ i, option_map (λ c sub i, let* sub' := run_contract c sub in ret (sub', i))
              (ic_cb_contract i))
      (λ _ _, fail)) wt s (i <| ic_which := 1 |>))
  else if tag =? 1000 then
    Some (h_scalar PB_WT_VARINT (pb_dec_uint 64) (λ z i, i <| ic_created_at := z |>))
  else None.
End InputContract.
End Callbacks.

(** ** Every field list is safe when its callbacks are *)

Section Safety.
Context {S : Type} `{!Realloc S}.
Variable P : S → Prop.
Hypothesis realloc_safe : ∀ n, keeps P (pb_realloc n).

#[local] Hint Resolve realloc_safe : pb.

Lemma Identifier_fields_safe n : fields_safe P n Identifier_fields.
Proof. field_cases. Qed.

Lemma h_identifier_safe {R} n (get : R → Identifier) set set_has :
  h_safe P n (h_identifier get set set_has).
Proof.
  intros w s r Hn. apply (h_submsg_safe P n); [|done]. intros sub r0 Hs.
  apply (dec_static_safe P n); [|done]. intros m _. apply Identifier_fields_safe.
Qed.
Lemma h_identifier_ptr_safe {R} n (set : Identifier → R → R) : h_safe P n (h_identifier_ptr set).
Proof. apply h_pointer_msg_safe; [done|]. intros m _. apply Identifier_fields_safe. Qed.
#[local] Hint Resolve h_identifier_safe h_identifier_ptr_safe : pb.

Lemma cbEnum_fields_safe n : fields_safe P n cbEnum_fields.
Proof. field_cases. Qed.
Lemma Fetch_fields_safe n : fields_safe P n Fetch_fields.
Proof. field_cases. Qed.
Lemma Rollback_fields_safe n : fields_safe P n Rollback_fields.
Proof. field_cases. Qed.
Lemma NodeSeed_fields_safe n : fields_safe P n NodeSeed_fields.
Proof. field_cases. Qed.
#[local] Hint Resolve NodeSeed_fields_safe : pb.
Lemma DamlTransaction_fields_safe n : fields_safe P n DamlTransaction_fields.
Proof. field_cases. Qed.
Lemma SubmitterInfo_fields_safe n : fields_safe P n SubmitterInfo_fields.
Proof. field_cases. Qed.
Lemma Metadata_fields_safe n : fields_safe P n Metadata_fields.
Proof.
  field_cases. intros w s r Hn. apply (h_submsg_safe P n); [|done]. intros sub r0 Hs.
  apply (dec_static_safe P n); [|done]. intros m _. apply SubmitterInfo_fields_safe.
Qed.

(** The key of a [Fetch] nests messages: its fuel is more than its length. *)
Lemma drop_static_safe {R} n (zero : R) fields :
  (∀ m, (m < n)%nat → fields_safe P m fields) → h_safe P n (drop_static zero fields).
Proof.
  intros Hf w s r Hn. apply (h_submsg_safe P n); [|done]. intros sub r0 Hs.
  by apply (dec_static_safe P n).
Qed.
Lemma drop_pointer_safe {R} n (zero : R) fields :
  (∀ m, (m < n)%nat → fields_safe P m fields) → h_safe P n (drop_pointer zero fields).
Proof. intros Hf. by apply h_pointer_msg_safe. Qed.
Lemma drop_string_safe n : h_safe P n drop_string.
Proof. by apply h_string_safe. Qed.
#[local] Hint Resolve drop_string_safe : pb.

Lemma plain_fields_safe fuel : ∀ m n, (n < fuel)%nat → fields_safe P n (plain_fields fuel m).
Proof.
  induction fuel as [|fuel IH]; intros m n Hn; [lia|].
  assert (Hm : ∀ k, h_safe P n (drop_static tt (plain_fields fuel k))).
  { intros k. apply drop_static_safe. intros i Hi. apply IH. lia. }
  assert (Hp : ∀ k, h_safe P n (drop_pointer tt (plain_fields fuel k))).
  { intros k. apply drop_pointer_safe. intros i Hi. apply IH. lia. }
  assert (Hi : h_safe P n (drop_static Identifier_zero Identifier_fields)).
  { apply drop_static_safe. intros. apply Identifier_fields_safe. }
  assert (Hu : h_safe P n (drop_static tt Empty_fields)) by (by apply drop_static_safe).
  assert (He : h_safe P n (drop_static cbEnum_zero cbEnum_fields)).
  { apply drop_static_safe. intros. apply cbEnum_fields_safe. }
  intros tag h. cbn [plain_fields]. destruct m; repeat case_match; intros [= <-]; eauto with pb.
  apply h_callback_safe. done.
Qed.

Lemma V1_Fetch_fields_safe n : fields_safe P n V1_Fetch_fields.
Proof.
  intros tag h. unfold V1_Fetch_fields. case_match.
  - intros [= <-] w s f Hn. apply (h_submsg_safe P n); [|done]. intros sub r Hs.
    apply safe_seq; [|intros _; by apply safe_ret]. apply pb_decode_inner_safe.
    intros m Hm. apply (plain_fields_safe (Datatypes.S (length sub)) P_Key). lia.
  - case_match; [intros [= <-]; eauto with pb|apply Fetch_fields_safe].
Qed.

(** *** Callbacks *)

Context {cb : Type}.
Variable run : cb → istream → M S istream.
Variable run_sum : cb → Z → istream → cbValue cb → M S (istream * cbValue cb).

(** The callbacks are safe on streams of at most [n] bytes. *)
Definition run_safe (n : nat) : Prop :=
  ∀ c s, (length s ≤ n)%nat → keeps P (run c s).
Definition run_sum_safe (n : nat) : Prop := ∀ c tag s v, (length s ≤ n)%nat →
  safe P (λ '(s', _), (length s' ≤ length s)%nat) (run_sum c tag s v).

Lemma run_safe_le n m : run_safe n → (m ≤ n)%nat → run_safe m.
Proof. intros Hn Hm c s Hs. apply Hn. lia. Qed.
Lemma run_sum_safe_le n m : run_sum_safe n → (m ≤ n)%nat → run_sum_safe m.
Proof. intros Hn Hm c tag s v Hs. apply Hn. lia. Qed.

Lemma call_safe {R} n (get : R → option cb) : run_safe n → h_safe P n (h_callback (call run get)).
Proof.
  intros Hr. apply h_callback_safe. intros r f Hf sub Hs. unfold call in Hf.
  destruct (get r); cbn in Hf; [|done]. injection Hf as <-. by apply Hr.
Qed.
#[local] Hint Resolve call_safe : pb.

Lemma h_sum_msg_safe {R} n tag zero (fields : Z → option (field_handler S R)) get put :
  run_sum_safe n → (∀ m, (m < n)%nat → fields_safe P m fields) →
  h_safe P n (h_sum_msg run_sum tag zero fields get put).
Proof.
  intros Hs0 Hf w s v Hn. unfold h_sum_msg. apply (h_submsg_safe P n); [|done]. intros sub r Hs.
  apply (dec_submsg_w_cb_safe P n); [|intros; by apply (dec_static_safe P n)|done].
  intros r0 f E sub0 r1 Hs1. destruct (cb_sum r0); cbn in E; [|done]. injection E as <-.
  apply Hs0. lia.
Qed.

Lemma Value_fields_safe n : run_safe n → run_sum_safe n → fields_safe P n (Value_fields run run_sum).
Proof.
  intros Hr Hs.
  assert (Hr' : ∀ m, (m < n)%nat → run_safe m) by (intros m Hm; apply (run_safe_le n); [done|lia]).
  intros tag h. unfold Value_fields, h_sum_one. repeat case_match; intros [= <-];
    eauto with pb; (apply h_sum_msg_safe; [done|]; intros m Hm; specialize (Hr' m Hm)).
  all: try apply cbEnum_fields_safe.
  all: field_cases.
Qed.

Lemma h_value_safe {R} n (get : R → cbValue cb) set set_has : run_safe n → run_sum_safe n →
  h_safe P n (h_value run run_sum get set set_has).
Proof.
  intros Hr Hrs w s r Hn. apply (h_submsg_safe P n); [|done]. intros sub r0 Hs.
  apply (dec_static_safe P n); [|done]. intros m Hm. apply Value_fields_safe.
  - apply (run_safe_le n); [done|lia].
  - apply (run_sum_safe_le n); [done|lia].
Qed.
#[local] Hint Resolve h_value_safe : pb.

Lemma Labelled_fields_safe n : run_safe n → run_sum_safe n →
  fields_safe P n (Labelled_fields run run_sum).
Proof. intros Hr Hs. field_cases. Qed.
Lemma GenMapEntry_fields_safe n : run_safe n → run_sum_safe n →
  fields_safe P n (GenMapEntry_fields run run_sum).
Proof. intros Hr Hs. field_cases. Qed.
Lemma Create_fields_safe n : run_safe n → fields_safe P n (Create_fields run).
Proof. intros Hr. field_cases. Qed.
Lemma Exercise_fields_safe n : run_safe n → fields_safe P n (Exercise_fields run).
Proof. intros Hr. field_cases. Qed.
Lemma CreateDisplay_fields_safe n : run_safe n → run_sum_safe n →
  fields_safe P n (CreateDisplay_fields run run_sum).
Proof. intros Hr Hs. field_cases. Qed.
Lemma ExerciseDisplay_fields_safe n : run_safe n → run_sum_safe n →
  fields_safe P n (ExerciseDisplay_fields run run_sum).
Proof. intros Hr Hs. field_cases. Qed.

Section Nodes.
Variable run_node_display : cb → Z → istream → NodeDisplay cb → M S (istream * NodeDisplay cb).
Definition run_node_display_safe (n : nat) : Prop := ∀ c tag s v, (length s ≤ n)%nat →
  safe P (λ '(s', _), (length s' ≤ length s)%nat) (run_node_display c tag s v).

Lemma h_node_msg_safe {R} n tag (zero : R) fields get put :
  run_node_display_safe n → (∀ m, (m < n)%nat → fields_safe P m fields) →
  h_safe P n (h_node_msg run_node_display tag zero fields get put).
Proof.
  intros Hs0 Hf w s v Hn. unfold h_node_msg. apply (h_submsg_safe P n); [|done]. intros sub r Hs.
  apply (dec_submsg_w_cb_safe P n); [|intros; by apply (dec_static_safe P n)|done].
  intros r0 f E sub0 r1 Hs1. destruct (nd_cb_node_type r0); cbn in E; [|done]. injection E as <-.
  apply Hs0. lia.
Qed.

Lemma NodeDisplay_fields_safe n : run_safe n → run_sum_safe n → run_node_display_safe n →
  fields_safe P n (NodeDisplay_fields run run_sum run_node_display).
Proof.
  intros Hr Hrs Hd tag h. unfold NodeDisplay_fields.
  repeat case_match; intros [= <-]; (apply h_node_msg_safe; [done|]; intros m Hm).
  - apply CreateDisplay_fields_safe; [apply (run_safe_le n)|apply (run_sum_safe_le n)]; done || lia.
  - apply Fetch_fields_safe.
  - apply ExerciseDisplay_fields_safe; [apply (run_safe_le n)|apply (run_sum_safe_le n)]; done || lia.
  - apply Rollback_fields_safe.
Qed.

Variable run_node : cb → Z → istream → M S istream.

Lemma NodeV1_fields_safe n :
  (∀ c tag s, (length s < n)%nat → keeps P (run_node c tag s)) →
  fields_safe P n (NodeV1_fields run_node).
Proof.
  intros Hr tag h. unfold NodeV1_fields. case_match; [|done]. intros [= <-] w s v Hn.
  unfold h_submsg. apply safe_seq; [apply safe_guard_any|intros _].
  eapply safe_bind with (Q := λ '(sub, s'), (length sub + length s' < length s)%nat).
  { apply safe_of_option. intros [sub s'] E. by apply pb_make_string_substream_length in E. }
  intros [sub s'] Hs. apply safe_seq; [|intros r'; apply safe_ret; lia].
  unfold dec_submsg_w_cb. destruct (n_cb_node_type _); cbn; [|apply safe_fail].
  intros st HP. pose proof (Hr c tag sub ltac:(lia) st HP) as HQ.
  unfold bind. destruct (run_node c tag sub st) as [[sub'| | |] st']; cbn in *; try done.
  by destruct sub'; destruct HQ.
Qed.

Context {V1 : Type}.
Variable run_versioned : cb → istream → DeviceNode cb V1 → M S (istream * DeviceNode cb V1).
Hypothesis run_versioned_safe : ∀ c s v,
  safe P (λ '(s', _), (length s' ≤ length s)%nat) (run_versioned c s v).

Lemma DeviceNode_fields_safe n zero fields : run_safe n →
  (∀ m, (m < n)%nat → fields_safe P m fields) →
  fields_safe P n (DeviceNode_fields run run_versioned zero fields).
Proof.
  intros Hr Hf tag h. unfold DeviceNode_fields. repeat case_match; intros [= <-]; eauto with pb.
  intros w s v Hn. apply (h_submsg_safe P n); [|done]. intros sub r Hs.
  apply (dec_submsg_w_cb_safe P n); [|intros; by apply (dec_static_safe P n)|done].
  intros r0 f E sub0 r1 _. destruct (dn_cb_versioned_node r0); cbn in E; [|done].
  injection E as <-. apply run_versioned_safe.
Qed.

Variable run_contract : cb → istream → M S istream.

Lemma InputContract_fields_safe n :
  (∀ c s, (length s < n)%nat → keeps P (run_contract c s)) →
  fields_safe P n (InputContract_fields run_contract).
Proof.
  intros Hr tag h. unfold InputContract_fields. case_match.
  - intros [= <-] w s v Hn. unfold h_submsg. apply safe_seq; [apply safe_guard_any|intros _].
    eapply safe_bind with (Q := λ '(sub, s'), (length sub + length s' < length s)%nat).
    { apply safe_of_option. intros [sub s'] E. by apply pb_make_string_substream_length in E. }
    intros [sub s'] Hs. apply safe_seq; [|intros r'; apply safe_ret; lia].
    unfold dec_submsg_w_cb. destruct (ic_cb_contract _); cbn; [|apply safe_fail].
    intros st HP. pose proof (Hr c sub ltac:(lia) st HP) as HQ.
    unfold bind. destruct (run_contract c sub st) as [[sub'| | |] st']; cbn in *; try done.
    by destruct sub'; destruct HQ.
  - case_match; [|done]. intros [= <-]. eauto with pb.
Qed.
End Nodes.
End Safety.

#[export] Hint Resolve Identifier_fields_safe cbEnum_fields_safe Fetch_fields_safe
  Rollback_fields_safe DamlTransaction_fields_safe Metadata_fields_safe V1_Fetch_fields_safe
  Value_fields_safe Labelled_fields_safe GenMapEntry_fields_safe Create_fields_safe
  Exercise_fields_safe : pb.
