(* ===== verification/Wire.v ===== *)
(** * The protobuf wire format, written

    What a host sends: varints, keys and length-delimited fields as bytes.  The decoder of
    [Pb.v] reads each of them back, which the proofs about the parsers use to follow them
    over a well-formed message. *)

From S2P Require Import Prelude Pb Messages.

Fixpoint enc_varint_at (fuel : nat) (n : Z) : bytes :=
  match fuel with
  | O => []
  | S fuel => if n <? 128 then [n] else (128 + n mod 128) :: enc_varint_at fuel (n / 128)
  end.
(** Ten bytes hold 64 bits. *)
Definition enc_varint (n : Z) : bytes := enc_varint_at 10 n.

Definition wire_key (tag wt : Z) : bytes := enc_varint (tag * 8 + wt).
Definition wire_varint (tag n : Z) : bytes := wire_key tag PB_WT_VARINT ++ enc_varint n.
Definition wire_bytes (tag : Z) (b : bytes) : bytes :=
  wire_key tag PB_WT_STRING ++ enc_varint (Z.of_nat (length b)) ++ b.
Definition wire_string (tag : Z) (s : string) : bytes := wire_bytes tag (lit s).

(** ** Bits *)

Lemma byte_cases (Q : Z → bool) : forallb Q (seqZ 0 256) = true → ∀ b, 0 ≤ b < 256 → Q b = true.
Proof.
  intros HQ b Hb. rewrite forallb_forall in HQ. apply HQ. apply list_elem_of_In, elem_of_seqZ. lia.
Qed.

Lemma land_128 b : 0 ≤ b < 256 → (Z.land b 0x80 =? 0) = (b <? 128).
Proof.
  intros Hb. apply eqb_prop.
  by apply (byte_cases (λ b, eqb (Z.land b 0x80 =? 0) (b <? 128))); [vm_compute|].
Qed.
Lemma nibble b : 0 ≤ b < 16 → Z.land b 0x70 = 0 ∧ Z.land b 0x0f = b.
Proof.
  intros Hb.
  assert (Q : (16 <=? b) || (Z.land b 0x70 =? 0) && (Z.land b 0x0f =? b) = true).
  { by apply (byte_cases (λ b, (16 <=? b) || (Z.land b 0x70 =? 0) && (Z.land b 0x0f =? b)));
      [vm_compute|lia]. }
  lia.
Qed.
Lemma land_127 b : 0 ≤ b → Z.land b 0x7f = b mod 128.
Proof. intros. change 0x7f with (Z.ones 7). by rewrite Z.land_ones. Qed.

Lemma lor_shiftl_add a m k : 0 ≤ k → 0 ≤ a < 2 ^ k → 0 ≤ m → Z.lor a (Z.shiftl m k) = a + m * 2 ^ k.
Proof.
  intros Hk Ha Hm. assert (Hl : Z.land a (Z.shiftl m k) = 0).
  { apply Z.bits_inj'. intros n Hn. rewrite Z.land_spec, Z.bits_0.
    destruct (Z.ltb_spec n k).
    - by rewrite Z.shiftl_spec_low, andb_false_r.
    - rewrite <- (Z.mod_small a (2 ^ k)), Z.mod_pow2_bits_high by lia. done. }
  rewrite <- Z.lxor_lor, <- Z.add_nocarry_lxor, Z.shiftl_mul_pow2 by done. done.
Qed.

(** ** Reading a varint back *)

Lemma varint_from_enc fuel : ∀ n p r s, 0 ≤ p → p ≤ 63 → 0 ≤ r < 2 ^ p →
  0 ≤ n < 2 ^ (64 - p) → n < 2 ^ (7 * Z.of_nat fuel) → (0 < fuel)%nat →
  varint_from p r (enc_varint_at fuel n ++ s) = Some (r + n * 2 ^ p, s).
Proof.
  induction fuel as [|fuel IH]; intros n p r s Hp Hp' Hr Hn Hf Hpos; [lia|].
  cbn [enc_varint_at].
  assert (Hpow : 2 ^ (64 - p) * 2 ^ p = 2 ^ 64) by (rewrite <- Z.pow_add_r by lia; f_equal; lia).
  assert (0 < 2 ^ p) by (apply Z.pow_pos_nonneg; lia).
  assert (Hlast : (63 <=? p) = true → n < 2).
  { intros. replace p with 63 in Hn by lia. change (2 ^ (64 - 63)) with 2 in Hn. lia. }
  destruct (Z.ltb_spec n 128) as [Hs|Hs]; cbn [app varint_from].
  - assert (Hg : (63 <=? p) && negb (Z.land n 0xfe =? 0) = false).
    { destruct (63 <=? p); [cbn|done]. assert (n = 0 ∨ n = 1) as [->| ->] by lia; done. }
    rewrite Hg, land_127, Z.mod_small, land_128 by lia.
    rewrite u64_id by (rewrite Z.shiftl_mul_pow2 by lia; unfold is_u64; nia).
    destruct (Z.ltb_spec n 128); [|lia]. rewrite lor_shiftl_add by lia. done.
  - assert (Hm : 0 ≤ n mod 128 < 128) by (apply Z.mod_pos_bound; lia).
    assert (Hd : n = 128 * (n / 128) + n mod 128) by (apply Z.div_mod; lia).
    assert (p + 7 ≤ 63).
    { destruct (Z.le_gt_cases (p + 7) 63); [done|].
      assert (2 ^ (64 - p) ≤ 2 ^ 7) by (apply Z.pow_le_mono_r; lia). lia. }
    replace (63 <=? p) with false by lia. cbn [andb].
    rewrite land_127, land_128 by lia.
    destruct (Z.ltb_spec (128 + n mod 128) 128); [lia|].
    replace ((128 + n mod 128) mod 128) with (n mod 128) by (Z.to_euclidean_division_equations; lia).
    assert (Hp7 : 2 ^ (p + 7) = 2 ^ p * 128) by (rewrite Z.pow_add_r by lia; lia).
    assert (2 ^ p ≤ 2 ^ 56) by (apply Z.pow_le_mono_r; lia).
    rewrite u64_id by (rewrite Z.shiftl_mul_pow2 by lia; unfold is_u64; nia).
    rewrite lor_shiftl_add by lia.
    assert (H64 : 2 ^ (64 - p) = 2 ^ (64 - (p + 7)) * 128).
    { replace (64 - p) with (64 - (p + 7) + 7) by lia. rewrite Z.pow_add_r by lia. lia. }
    rewrite Nat2Z.inj_succ, Z.mul_succ_r, Z.pow_add_r in Hf by lia. change (2 ^ 7) with 128 in Hf.
    assert (0 < fuel)%nat by (destruct fuel; [cbn in Hf; lia|lia]).
    rewrite IH; [f_equal; f_equal; nia|lia|lia|nia| | |done]; Z.to_euclidean_division_equations; nia.
Qed.

Lemma pb_decode_varint_enc n s : is_u64 n → pb_decode_varint (enc_varint n ++ s) = Some (n, s).
Proof.
  intros Hn. unfold is_u64 in Hn. unfold pb_decode_varint, enc_varint.
  rewrite varint_from_enc by (cbn; lia). f_equal. f_equal. lia.
Qed.

(** ** The 32-bit decoder is the 64-bit one, truncated *)

Lemma u32_land z : u32 z = Z.land z (Z.ones 32).
Proof. by rewrite Z.land_ones. Qed.
Lemma u32_lor a b : u32 (Z.lor a b) = Z.lor (u32 a) (u32 b).
Proof. rewrite !u32_land. apply Z.land_lor_distr_l. Qed.
Lemma u32_u64 z : u32 (u64 z) = u32 z.
Proof.
  unfold u32, u64. change (2 ^ 64) with (2 ^ 32 * 2 ^ 32). Z.to_euclidean_division_equations. lia.
Qed.
Lemma u32_shiftl_high m p : 32 ≤ p → u32 (Z.shiftl m p) = 0.
Proof.
  intros Hp. rewrite u32_land. apply Z.bits_inj'. intros n Hn. rewrite Z.land_spec, Z.bits_0.
  destruct (Z.ltb_spec n 32); [by rewrite Z.shiftl_spec_low by lia|].
  by rewrite Z.ones_spec_high, andb_false_r by lia.
Qed.
(** The fifth byte: four of its seven bits count. *)
Lemma u32_shiftl_28 b : u32 (Z.shiftl (Z.land b 0x7f) 28) = u32 (Z.shiftl (Z.land b 0x0f) 28).
Proof.
  rewrite !u32_land. apply Z.bits_inj'. intros n Hn. rewrite !(Z.land_spec _ (Z.ones 32)).
  destruct (Z.ltb_spec n 28); [by rewrite !Z.shiftl_spec_low by lia|].
  rewrite !Z.shiftl_spec_high, !Z.land_spec by lia.
  destruct (Z.ltb_spec n 32); [|by rewrite Z.ones_spec_high, !andb_false_r by lia].
  assert (n - 28 = 0 ∨ n - 28 = 1 ∨ n - 28 = 2 ∨ n - 28 = 3) as [-> |[-> |[-> | ->]]] by lia; reflexivity.
Qed.

Lemma varint32_more_end p r s : 64 ≤ p → varint32_more p r s = None.
Proof.
  intros Hp. destruct s as [|b s]; [done|]. cbn [varint32_more].
  by replace (32 <=? p) with true by lia; replace (64 <=? p) with true by lia.
Qed.

Lemma varint32_more_varint s : ∀ p r R v s', wf_bytes s → 7 ≤ p ≤ 63 → p mod 7 = 0 → r = u32 R →
  varint32_more p r s = Some (v, s') →
  ∃ w, varint_from p R s = Some (w, s') ∧ v = u32 w.
Proof.
  induction s as [|b s IH]; intros p r R v s' Hwf Hp H7 -> E; [done|].
  apply Forall_cons in Hwf as [Hb Hwf]. cbn [varint32_more varint_from] in *.
  assert (Hnext : ∀ r', r' = u32 (Z.lor R (u64 (Z.shiftl (Z.land b 0x7f) p))) →
    (p = 63 → Z.land b 0xfe = 0) →
    (if Z.land b 0x80 =? 0 then Some (r', s) else varint32_more (p + 7) r' s) = Some (v, s') →
    ∃ w, (if (63 <=? p) && negb (Z.land b 0xfe =? 0) then None
          else if Z.land b 0x80 =? 0 then Some (Z.lor R (u64 (Z.shiftl (Z.land b 0x7f) p)), s)
          else varint_from (p + 7) (Z.lor R (u64 (Z.shiftl (Z.land b 0x7f) p))) s) = Some (w, s') ∧
      v = u32 w).
  { intros r' Hr' H63 E'. replace ((63 <=? p) && negb (Z.land b 0xfe =? 0)) with false.
    2: { destruct (Z.leb_spec 63 p); [|done]. by rewrite H63 by lia. }
    destruct (Z.land b 0x80 =? 0).
    - injection E' as <- <-. by eexists.
    - destruct (Z.le_gt_cases (p + 7) 63).
      + apply (IH _ r'); [done|lia| |done|done]. Z.to_euclidean_division_equations. lia.
      + rewrite varint32_more_end in E' by lia. done. }
  destruct (Z.leb_spec 32 p) as [Hp32|Hp32].
  - destruct ((64 <=? p) || _) eqn:Hv; [done|]. apply orb_false_iff in Hv as [_ Hv].
    apply Hnext in E; [done| |].
    + by rewrite u32_lor, u32_u64, u32_shiftl_high, Z.lor_0_r.
    + intros ->. change (63 <? 63) with false in Hv. cbn [negb] in Hv.
      destruct (Z.eqb_spec (Z.land b 0x7f) 0) as [E0|_].
      * destruct (Z.eqb_spec (Z.land b 0x80) 0) as [E1|E1].
        -- change 0xfe with (Z.lor 0x80 0x7e). rewrite Z.land_lor_distr_r, E1, Z.lor_0_l.
           change 0x7e with (Z.land 0x7f 0x7e). by rewrite Z.land_assoc, E0.
        -- exfalso. revert E. destruct (Z.eqb_spec (Z.land b 0x80) 0); [done|].
           by rewrite varint32_more_end by lia.
      * destruct (Z.eqb_spec b 1) as [->|]; [done|]. by rewrite andb_false_r in Hv.
  - destruct (Z.eqb_spec p 28) as [->|].
    + destruct (negb (Z.land b 0x70 =? 0) && _); [done|]. apply Hnext in E; [done| |lia].
      by rewrite u32_lor, u32_u64, u32_shiftl_28.
    + apply Hnext in E; [done| |lia]. by rewrite u32_lor, u32_u64.
Qed.

(** The two varint decoders agree: whatever [pb_decode_varint32] reads, [pb_decode_varint]
    reads from the same bytes, up to the same place, and the 32-bit value is the 64-bit one
    truncated.  Lengths and tags are read with the first, values with the second. *)
Theorem varint32_is_varint s v s' : wf_bytes s → pb_decode_varint32 s = Some (v, s') →
  ∃ w, pb_decode_varint s = Some (w, s') ∧ v = u32 w.
Proof.
  intros Hwf E. destruct s as [|b s]; [done|]. apply Forall_cons in Hwf as [Hb Hwf].
  unfold is_u8 in Hb. change (2 ^ 8) with 256 in Hb. unfold pb_decode_varint32 in E.
  unfold pb_decode_varint. cbn [varint_from]. change (63 <=? 0) with false. cbn [andb].
  rewrite Z.shiftl_0_r, Z.lor_0_l.
  assert (H7 : u64 (Z.land b 0x7f) = Z.land b 0x7f ∧ u32 (Z.land b 0x7f) = Z.land b 0x7f).
  { rewrite land_127 by lia. assert (0 ≤ b mod 128 < 128) by (apply Z.mod_pos_bound; lia).
    split; [apply u64_id|apply u32_id]; unfold is_u64, is_u32; lia. }
  destruct H7 as [E64 E32]. rewrite E64. destruct (Z.land b 0x80 =? 0) eqn:E80.
  - injection E as <- <-. eexists. split; [reflexivity|]. rewrite E32, land_127 by lia.
    rewrite land_128 in E80 by lia. symmetry. apply Z.mod_small. lia.
  - by apply (varint32_more_varint s 7 (Z.land b 0x7f)).
Qed.
Lemma varint32_is_varint_witness :
  pb_decode_varint32 [0xff; 0xff; 0xff; 0xff; 0xff; 0xff; 0xff; 0xff; 0xff; 0x01; 5] =
    Some (2 ^ 32 - 1, [5]) ∧
  ∃ w, pb_decode_varint [0xff; 0xff; 0xff; 0xff; 0xff; 0xff; 0xff; 0xff; 0xff; 0x01; 5] =
    Some (w, [5]) ∧ 2 ^ 32 - 1 = u32 w.
Proof.
  split; [vm_compute; reflexivity|]. apply varint32_is_varint; [|vm_compute; reflexivity].
  repeat constructor; done.
Defined.

Lemma varint32_more_enc fuel : ∀ n p r s, 7 ≤ p ≤ 28 → p mod 7 = 0 → 0 ≤ r < 2 ^ p →
  0 ≤ n < 2 ^ (32 - p) → n < 2 ^ (7 * Z.of_nat fuel) → (0 < fuel)%nat →
  varint32_more p r (enc_varint_at fuel n ++ s) = Some (r + n * 2 ^ p, s).
Proof.
  induction fuel as [|fuel IH]; intros n p r s Hp H7 Hr Hn Hf Hpos; [lia|].
  cbn [enc_varint_at].
  assert (Hpow : 2 ^ (32 - p) * 2 ^ p = 2 ^ 32) by (rewrite <- Z.pow_add_r by lia; f_equal; lia).
  assert (0 < 2 ^ p) by (apply Z.pow_pos_nonneg; lia).
  assert (Hlast : p = 28 → n < 16).
  { intros ->. change (2 ^ (32 - 28)) with 16 in Hn. lia. }
  destruct (Z.ltb_spec n 128) as [Hs|Hs]; cbn [app varint32_more];
    replace (32 <=? p) with false by lia.
  - rewrite land_128 by lia. destruct (Z.ltb_spec n 128); [|lia].
    destruct (Z.eqb_spec p 28) as [E|E].
    + specialize (Hlast E).
      assert (Hg : Z.land n 0x70 = 0 ∧ Z.land n 0x0f = n).
      { apply nibble. lia. }
      destruct Hg as [-> ->]. cbn [Z.eqb negb andb].
      rewrite u32_id by (rewrite Z.shiftl_mul_pow2 by lia; unfold is_u32; nia).
      rewrite lor_shiftl_add by lia. done.
    + rewrite land_127, Z.mod_small by lia.
      rewrite u32_id by (rewrite Z.shiftl_mul_pow2 by lia; unfold is_u32; nia).
      rewrite lor_shiftl_add by lia. done.
  - assert (Hm : 0 ≤ n mod 128 < 128) by (apply Z.mod_pos_bound; lia).
    assert (Hd : n = 128 * (n / 128) + n mod 128) by (apply Z.div_mod; lia).
    destruct (Z.eqb_spec p 28); [lia|].
    assert (p + 7 ≤ 28) by (Z.to_euclidean_division_equations; lia).
    rewrite land_127, land_128 by lia.
    destruct (Z.ltb_spec (128 + n mod 128) 128); [lia|].
    replace ((128 + n mod 128) mod 128) with (n mod 128) by (Z.to_euclidean_division_equations; lia).
    assert (Hp7 : 2 ^ (p + 7) = 2 ^ p * 128) by (rewrite Z.pow_add_r by lia; lia).
    assert (2 ^ p ≤ 2 ^ 21) by (apply Z.pow_le_mono_r; lia).
    rewrite u32_id by (rewrite Z.shiftl_mul_pow2 by lia; unfold is_u32; nia).
    rewrite lor_shiftl_add by lia.
    assert (H32 : 2 ^ (32 - p) = 2 ^ (32 - (p + 7)) * 128).
    { replace (32 - p) with (32 - (p + 7) + 7) by lia. rewrite Z.pow_add_r by lia. lia. }
    rewrite Nat2Z.inj_succ, Z.mul_succ_r, Z.pow_add_r in Hf by lia. change (2 ^ 7) with 128 in Hf.
    assert (0 < fuel)%nat by (destruct fuel; [cbn in Hf; lia|lia]).
    rewrite IH; [f_equal; f_equal; nia|lia| |nia| | |done]; Z.to_euclidean_division_equations; nia.
Qed.

Lemma pb_decode_varint32_enc n s : is_u32 n → pb_decode_varint32 (enc_varint n ++ s) = Some (n, s).
Proof.
  intros Hn. unfold is_u32 in Hn. unfold pb_decode_varint32.
  change (enc_varint n) with
    (if n <? 128 then [n] else (128 + n mod 128) :: enc_varint_at 9 (n / 128)).
  destruct (Z.ltb_spec n 128); cbn [app]; rewrite land_128.
  - by destruct (Z.ltb_spec n 128); [|lia].
  - lia.
  - assert (Hm : 0 ≤ n mod 128 < 128) by (apply Z.mod_pos_bound; lia).
    destruct (Z.ltb_spec (128 + n mod 128) 128); [lia|]. rewrite land_127 by lia.
    replace ((128 + n mod 128) mod 128) with (n mod 128) by (Z.to_euclidean_division_equations; lia).
    rewrite (varint32_more_enc 9); [f_equal; f_equal; Z.to_euclidean_division_equations; lia|..].
    all: cbn; Z.to_euclidean_division_equations; lia.
  - assert (Hm : 0 ≤ n mod 128 < 128) by (apply Z.mod_pos_bound; lia). lia.
Qed.

Lemma pb_decode_tag_enc tag wt s : 0 ≤ tag < 2 ^ 29 → 0 ≤ wt < 8 →
  pb_decode_tag (wire_key tag wt ++ s) = Some (tag, wt, s).
Proof.
  intros Ht Hw. unfold pb_decode_tag, wire_key.
  rewrite pb_decode_varint32_enc by (unfold is_u32; lia).
  change 7 with (Z.ones 3). rewrite Z.land_ones, Z.shiftr_div_pow2 by lia.
  change (2 ^ 3) with 8. repeat f_equal; Z.to_euclidean_division_equations; lia.
Qed.

Lemma pb_read_app b s : pb_read (length b) (b ++ s) = Some (b, s).
Proof.
  unfold pb_read. rewrite length_app. destruct (Nat.ltb_spec (length b + length s) (length b)); [lia|].
  by rewrite take_app_length, drop_app_length.
Qed.

Lemma pb_make_string_substream_enc b s : Z.of_nat (length b) < 2 ^ 32 →
  pb_make_string_substream (enc_varint (Z.of_nat (length b)) ++ b ++ s) = Some (b, s).
Proof.
  intros Hb. unfold pb_make_string_substream.
  rewrite pb_decode_varint32_enc by (unfold is_u32; lia). by rewrite Nat2Z.id, pb_read_app.
Qed.

Lemma pb_skip_varint_enc fuel : ∀ n s, 0 ≤ n < 2 ^ (7 * Z.of_nat fuel) → (0 < fuel)%nat →
  pb_skip_varint (enc_varint_at fuel n ++ s) = Some s.
Proof.
  induction fuel as [|fuel IH]; intros n s Hn Hpos; [lia|]. cbn [enc_varint_at].
  assert (Hm : 0 ≤ n mod 128 < 128) by (apply Z.mod_pos_bound; lia).
  destruct (Z.ltb_spec n 128); cbn [app pb_skip_varint]; rewrite land_128 by lia.
  - by destruct (Z.ltb_spec n 128); [|lia].
  - destruct (Z.ltb_spec (128 + n mod 128) 128); [lia|].
    rewrite Nat2Z.inj_succ, Z.mul_succ_r, Z.pow_add_r in Hn by lia. change (2 ^ 7) with 128 in Hn.
    apply IH; [|destruct fuel; [cbn in Hn; lia|lia]]. Z.to_euclidean_division_equations. lia.
Qed.

(** A field is skipped to the field after it. *)
Lemma skip_varint_field n s : is_u64 n → pb_skip_field PB_WT_VARINT (enc_varint n ++ s) = Some s.
Proof. intros Hn. apply (pb_skip_varint_enc 10); [|lia]. unfold is_u64 in Hn. cbn. lia. Qed.
Lemma skip_bytes_field b s : Z.of_nat (length b) < 2 ^ 32 →
  pb_skip_field PB_WT_STRING (enc_varint (Z.of_nat (length b)) ++ b ++ s) = Some s.
Proof.
  intros Hb. change (pb_skip_field PB_WT_STRING) with pb_skip_string. unfold pb_skip_string, pb_skip.
  rewrite pb_decode_varint32_enc by (unfold is_u32; lia). by rewrite Nat2Z.id, pb_read_app.
Qed.

(** C37: What is written is read back: the key of a field gives its tag and wire type, and
    what follows gives the 64-bit value, or the bytes as a stream of their own, and the stream
    after the field; skipping the field instead leads to the same place. *)
Theorem wire_round_trip tag n b s : 0 ≤ tag < 2 ^ 29 → is_u64 n → Z.of_nat (length b) < 2 ^ 32 →
  pb_decode_tag (wire_varint tag n ++ s) = Some (tag, PB_WT_VARINT, enc_varint n ++ s) ∧
  pb_decode_varint (enc_varint n ++ s) = Some (n, s) ∧
  pb_skip_field PB_WT_VARINT (enc_varint n ++ s) = Some s ∧
  pb_decode_tag (wire_bytes tag b ++ s) =
    Some (tag, PB_WT_STRING, enc_varint (Z.of_nat (length b)) ++ b ++ s) ∧
  pb_make_string_substream (enc_varint (Z.of_nat (length b)) ++ b ++ s) = Some (b, s) ∧
  pb_skip_field PB_WT_STRING (enc_varint (Z.of_nat (length b)) ++ b ++ s) = Some s.
Proof.
  intros Ht Hn Hb. unfold wire_varint, wire_bytes. rewrite <- !app_assoc.
  rewrite !pb_decode_tag_enc, pb_decode_varint_enc by done.
  split_and!; [done|done|by apply skip_varint_field|done|by apply pb_make_string_substream_enc
  |by apply skip_bytes_field].
Qed.
Lemma wire_round_trip_witness :
  pb_decode_varint (enc_varint 300 ++ [7]) = Some (300, [7]) ∧
  pb_make_string_substream (enc_varint 2 ++ [1; 2] ++ [7]) = Some ([1; 2], [7]).
Proof.
  destruct (wire_round_trip 5 300 [1; 2] [7] ltac:(done) ltac:(done) ltac:(done))
    as (_ & E1 & _ & _ & E2 & _). split; [exact E1|exact E2].
Defined.

(** ** Values

    Of a record field the label and the value; of a value its oneof. *)

Definition wire_field (label : string) (value : bytes) : bytes :=
  wire_bytes 2 (wire_string 1 label ++ wire_bytes 2 value).
Definition wire_party (p : string) : bytes := wire_string VALUE_PARTY_TAG p.
Definition wire_numeric (n : string) : bytes := wire_string VALUE_NUMERIC_TAG n.
Definition wire_record (fields : bytes) : bytes := wire_bytes VALUE_RECORD_TAG fields.
