(* ===== verification/WireLogic.v ===== *)
(** * Following the decoder over what was written

    The length that a written field may have, steps of a parser with their result ([step_to]),
    and the rules that lead a step over the fields of a written message. *)

From S2P Require Import Prelude Pb Wire.

(** ** Optional and repeated fields *)

Definition wire_opt (tag : Z) (s : option bytes) : bytes :=
  match s with Some s => wire_bytes tag s | None => [] end.
Definition wire_strings (tag : Z) (l : list (option bytes)) : bytes := flat_map (wire_opt tag) l.
Definition wire_flag (tag : Z) (b : bool) : bytes := if b then wire_varint tag 1 else [].

(** ** Lengths *)

Lemma enc_varint_cons n : (1 ≤ length (enc_varint n))%nat.
Proof. unfold enc_varint. cbn [enc_varint_at]. case_match; cbn [length]; lia. Qed.
(** A length that a 32-bit varint and a size of the device hold. *)
Definition measured (b : bytes) : Prop := Z.of_nat (length b) < 2 ^ 31 - 1.
Lemma wire_bytes_length tag b : (length b + 2 ≤ length (wire_bytes tag b))%nat.
Proof.
  unfold wire_bytes, wire_key. rewrite !length_app.
  pose proof (enc_varint_cons (tag * 8 + PB_WT_STRING)).
  pose proof (enc_varint_cons (Z.of_nat (length b))). lia.
Qed.
Lemma measured_bytes tag b : measured (wire_bytes tag b) → measured b.
Proof. unfold measured. pose proof (wire_bytes_length tag b). lia. Qed.
Lemma measured_app a b : measured (a ++ b) → measured a ∧ measured b.
Proof. unfold measured. rewrite length_app. lia. Qed.
Lemma measured_opt tag s b : measured (wire_opt tag s) → s = Some b → measured b.
Proof. intros Hm ->. by apply measured_bytes in Hm. Qed.
Lemma measured_flat tag bs : measured (flat_map (wire_bytes tag) bs) → Forall measured bs.
Proof.
  induction bs as [|b bs IH]; cbn [flat_map]; [done|].
  intros [Hb%measured_bytes Hbs]%measured_app. constructor; auto.
Qed.

(** ** Steps

    [step_to F s m Q]: from [s] the step ends with a result and a state in [Q], or it fails
    for the reason [F]. *)

Section Steps.
Context {S : Type} (F : Prop).

Lemma bind_fails {A B} (m : M S A) (k : A → M S B) s : fst (m s) = Fail → fst (bind m k s) = Fail.
Proof. unfold bind. destruct (m s) as [[]]; by intros [= ]. Qed.
Definition step_to {A} (s : S) (m : M S A) (Q : A → S → Prop) : Prop :=
  (F ∧ fst (m s) = Fail) ∨ ∃ a s', m s = (Ret a, s') ∧ Q a s'.

Lemma step_bind {A B} s (m : M S A) (k : A → M S B) Q R :
  step_to s m Q → (∀ a s', Q a s' → step_to s' (k a) R) → step_to s (bind m k) R.
Proof.
  intros [[Hf Ef]|(a & s' & E & Ha)] Hk; [left; split; [done|by apply bind_fails]|].
  unfold step_to, bind. rewrite E. by apply Hk.
Qed.
Lemma step_ret {A} s (a : A) (Q : A → S → Prop) : Q a s → step_to s (ret a) Q.
Proof. intros HQ. right. eauto. Qed.
(** Steps that only read. *)
Lemma step_pure {A B} s (a : A) (k : A → M S B) Q : step_to s (k a) Q → step_to s (bind (ret a) k) Q.
Proof. done. Qed.
Lemma step_guard {B} s b (k : unit → M S B) Q : b = true → step_to s (k tt) Q →
  step_to s (bind (guard b) k) Q.
Proof. by intros ->. Qed.
Lemma step_of_option {A B} s (o : option A) a (k : A → M S B) Q : o = Some a → step_to s (k a) Q →
  step_to s (bind (of_option o) k) Q.
Proof. by intros ->. Qed.
Lemma step_modify s f (Q : unit → S → Prop) : Q tt (f s) → step_to s (modify f) Q.
Proof. intros HQ. right. by exists tt, (f s). Qed.
(** Reading or changing the state. *)
Lemma step_gets {A B} s (f : S → A) (k : A → M S B) Q : step_to s (k (f s)) Q →
  step_to s (bind (gets f) k) Q.
Proof. done. Qed.
Lemma step_set {B} s f (k : unit → M S B) Q : step_to (f s) (k tt) Q →
  step_to s (bind (modify f) k) Q.
Proof. done. Qed.
(** A step whose failure is only reported later. *)
Lemma step_attempt {A B} s (m : M S A) (k : option A → M S B) Q R :
  step_to s m Q → (∀ a s', Q a s' → step_to s' (k (Some a)) R) → (∀ s', fst (k None s') = Fail) →
  step_to s (bind (attempt m) k) R.
Proof.
  intros [[Hf Ef]|(a & s' & E & Ha)] Hk Hn.
  - left. split; [done|]. unfold bind, attempt. by destruct (m s) as [[] s'].
  - unfold step_to, bind, attempt. rewrite E. by apply Hk.
Qed.
Lemma step_weaken {A} s (m : M S A) (Q R : A → S → Prop) :
  step_to s m Q → (∀ a s', Q a s' → R a s') → step_to s m R.
Proof. intros [?|(a & s' & E & Ha)] HR; [by left|right; eauto]. Qed.

(** ** Fields *)

(** Every step of a parser on the rest of a stream, whatever the fuel beyond its length. *)
Definition fields_to {R} s (handler : Z → option (field_handler S R)) (b : bytes) (r : R)
    (Q : R → S → Prop) : Prop :=
  ∀ fuel, (length b ≤ fuel)%nat → step_to s (pb_fields fuel handler b r) Q.
Lemma fields_to_nil {R} s (handler : Z → option (field_handler S R)) r
    (Q : R → S → Prop) : Q r s → fields_to s handler [] r Q.
Proof. intros Hr fl _. destruct fl; by apply step_ret. Qed.
Lemma fields_to_key {R} s (handler : Z → option (field_handler S R)) tag wt h body rest r P Q :
  0 < tag < 2 ^ 29 → 0 ≤ wt < 8 → handler tag = Some h →
  step_to s (h wt (body ++ rest) r) (λ p s', fst p = rest ∧ P (snd p) s') →
  (∀ r' s', P r' s' → fields_to s' handler rest r' Q) →
  fields_to s handler (wire_key tag wt ++ body ++ rest) r Q.
Proof.
  intros Ht Hw Eh Hh Hrest fl Hf. rewrite !length_app in Hf.
  pose proof (enc_varint_cons (tag * 8 + wt)) as Hk. unfold wire_key in *.
  destruct fl as [|fl]; [lia|]. cbn [pb_fields].
  destruct (enc_varint (tag * 8 + wt)) as [|b0 k] eqn:Ek; [cbn in Hk; lia|]. cbn [app].
  rewrite app_comm_cons, <- Ek. change (enc_varint (tag * 8 + wt)) with (wire_key tag wt).
  eapply step_of_option; [apply pb_decode_tag_enc; lia|].
  apply step_guard; [lia|]. rewrite Eh.
  eapply step_bind; [exact Hh|]. intros [s' r'] s1 [Es Hr']. cbn in Es. subst s'.
  apply (Hrest r' s1 Hr'). cbn [length] in Hf. lia.
Qed.
(** A field the message does not have. *)
Lemma fields_to_unknown {R} s (handler : Z → option (field_handler S R)) tag wt body rest r Q :
  0 < tag < 2 ^ 29 → 0 ≤ wt < 8 → handler tag = None → pb_skip_field wt (body ++ rest) = Some rest →
  fields_to s handler rest r Q → fields_to s handler (wire_key tag wt ++ body ++ rest) r Q.
Proof.
  intros Ht Hw Eh Hs Hrest fl Hf. rewrite !length_app in Hf.
  pose proof (enc_varint_cons (tag * 8 + wt)) as Hk. unfold wire_key in *.
  destruct fl as [|fl]; [lia|]. cbn [pb_fields].
  destruct (enc_varint (tag * 8 + wt)) as [|b0 k] eqn:Ek; [cbn in Hk; lia|]. cbn [app].
  rewrite app_comm_cons, <- Ek. change (enc_varint (tag * 8 + wt)) with (wire_key tag wt).
  eapply step_of_option; [apply pb_decode_tag_enc; lia|].
  apply step_guard; [lia|]. rewrite Eh. eapply step_of_option; [exact Hs|].
  apply Hrest. cbn [length] in Hf. lia.
Qed.
Lemma fields_to_bytes {R} s (handler : Z → option (field_handler S R)) tag h b rest r P Q :
  0 < tag < 2 ^ 29 → handler tag = Some h →
  step_to s (h PB_WT_STRING (enc_varint (Z.of_nat (length b)) ++ b ++ rest) r)
    (λ p s', fst p = rest ∧ P (snd p) s') →
  (∀ r' s', P r' s' → fields_to s' handler rest r' Q) →
  fields_to s handler (wire_bytes tag b ++ rest) r Q.
Proof.
  intros Ht Eh Hh Hrest. unfold wire_bytes. rewrite <- !app_assoc, (app_assoc (enc_varint _) b).
  rewrite app_assoc in Hh. by eapply fields_to_key.
Qed.
Lemma fields_to_last {R} s (handler : Z → option (field_handler S R)) tag h b r Q :
  0 < tag < 2 ^ 29 → handler tag = Some h →
  step_to s (h PB_WT_STRING (enc_varint (Z.of_nat (length b)) ++ b ++ []) r)
    (λ p s', fst p = [] ∧ Q (snd p) s') →
  fields_to s handler (wire_bytes tag b) r Q.
Proof.
  intros Ht Eh Hh. rewrite <- (app_nil_r (wire_bytes tag b)).
  eapply fields_to_bytes; [done|exact Eh|exact Hh|]. intros r' s'. apply fields_to_nil.
Qed.
Lemma step_submsg {R} s (dec : istream → R → M S R) b rest r Q : measured b →
  step_to s (dec b r) Q →
  step_to s (h_submsg dec PB_WT_STRING (enc_varint (Z.of_nat (length b)) ++ b ++ rest) r)
    (λ p s', fst p = rest ∧ Q (snd p) s').
Proof.
  intros Hb Hd. unfold measured in Hb. unfold h_submsg. apply step_guard; [done|].
  eapply step_of_option; [apply pb_make_string_substream_enc; lia|].
  eapply step_bind; [exact Hd|]. intros r' s' Hr. by apply step_ret.
Qed.
(** A callback that reads its stream to the end, or not at all. *)
Lemma step_callback {R} s (callback : R → option (istream → M S istream)) f b rest r Q :
  measured b → callback r = Some f →
  step_to s (f b) (λ s' s1, (s' = [] ∨ s' = b) ∧ Q r s1) →
  step_to s (h_callback callback PB_WT_STRING (enc_varint (Z.of_nat (length b)) ++ b ++ rest) r)
    (λ p s', fst p = rest ∧ Q (snd p) s').
Proof.
  intros Hb Ec Hf. unfold measured in Hb. unfold h_callback. rewrite Ec, Z.eqb_refl.
  eapply step_of_option; [apply pb_make_string_substream_enc; lia|].
  eapply (step_bind _ _ _ (λ _ s1, Q r s1)).
  - cbn [callback_loop]. eapply step_bind; [exact Hf|]. intros s' s1 [Es Hs].
    assert (E : (0 <? length s')%nat && (length s' <? length b)%nat = false).
    { destruct Es as [-> | ->]; [done|]. by rewrite Nat.ltb_irrefl, andb_false_r. }
    rewrite E. by apply step_ret.
  - intros _ s1 Hs. by apply step_ret.
Qed.
(** The struct of a callback field is left alone. *)
Lemma step_called {R} s (callback : R → option (istream → M S istream)) f b rest r P :
  measured b → callback r = Some f → step_to s (f b) (λ s' s1, s' = [] ∧ P s1) →
  step_to s (h_callback callback PB_WT_STRING (enc_varint (Z.of_nat (length b)) ++ b ++ rest) r)
    (λ p s', fst p = rest ∧ snd p = r ∧ P s').
Proof.
  intros Hb Ec Hf. apply (step_callback s callback f b rest r (λ r' s', r' = r ∧ P s')); [done..|].
  eapply step_weaken; [exact Hf|]. intros ? s1 [-> Hs1]. split; [by left|done].
Qed.
Lemma step_left {R} s (callback : R → option (istream → M S istream)) f b rest r P :
  measured b → callback r = Some f → step_to s (f b) (λ s' s1, s' = b ∧ P s1) →
  step_to s (h_callback callback PB_WT_STRING (enc_varint (Z.of_nat (length b)) ++ b ++ rest) r)
    (λ p s', fst p = rest ∧ snd p = r ∧ P s').
Proof.
  intros Hb Ec Hf. apply (step_callback s callback f b rest r (λ r' s', r' = r ∧ P s')); [done..|].
  eapply step_weaken; [exact Hf|]. intros ? s1 [-> Hs1]. split; [by right|done].
Qed.

End Steps.
