(* ===== verification/CanonicalHash.v ===== *)
(** * Canonical hash ([src/transaction/canonical_hash.c])

    The encoders that feed a SHA-256 context, the first error they meet, and the store
    of the hashes of recent nodes.  A [HashWriter] is the bytes put in it since its
    initialisation: finalising it applies SHA-256 to them.

    The second half gives the encodings as functions from the decoded structs to bytes,
    shows that the encoders write exactly these, and that they are unambiguous: two
    different inputs never give the same bytes, whatever follows them. *)

From S2P Require Import Prelude Constants Utils Pb Messages.

(** ** State *)

Inductive HashError :=
  | HASH_OK
  | HASH_ERROR_BUFFER_OVERFLOW
  | HASH_ERROR_INVALID_HASH_STRING
  | HASH_ERROR_UNSUPPORTED_VALUE
  | HASH_ERROR_UNKNOWN_NODE_VERSION
  | HASH_ERROR_UNKNOWN_NODE_TYPE
  | HASH_ERROR_FAILED_TO_STORE_NODE_HASH
  | HASH_ERROR_FAILED_TO_LOAD_NODE_HASH
  | HASH_ERROR_MAX_NODE_CHILDREN_EXCEEDED
  | HASH_ERROR_MISSING_FIELD.
#[export] Instance HashError_eq_dec : EqDecision HashError.
Proof. solve_decision. Defined.

Record PrecomputedNodeHash := { pn_id : Z; pn_hash : bytes }.

(** [HASH_ERR_INFO] (its message is only printed) and the store with its cursor. *)
Record hash_state := {
  hs_err : HashError;
  hs_store : list PrecomputedNodeHash;
  hs_count : nat
}.
#[export] Instance eta_hash_state : Eta hash_state := λ h,
  Build_hash_state (hs_err h) (hs_store h) (hs_count h).

(** What an encoder works on: the bytes of its [HashWriter] and the shared state. *)
Record enc := { e_hw : bytes; e_hs : hash_state }.
#[export] Instance eta_enc : Eta enc := λ e, Build_enc (e_hw e) (e_hs e).

Definition encoder : Type := enc → enc.

(** One encoder after another; in the C code, the next statement. *)
Notation "f ;+ g" := (λ c : enc, g (f c)) (at level 61, left associativity) : enc_scope.
Delimit Scope enc_scope with enc.
Bind Scope enc_scope with encoder.

(** ** Errors *)

Definition clear_hash_error (h : hash_state) : hash_state := h <| hs_err := HASH_OK |>.
Definition get_hash_error (h : hash_state) : HashError := hs_err h.
Definition set_hash_error (err : HashError) : encoder := λ c,
  if decide (hs_err (e_hs c) = HASH_OK) then c <| e_hs ::= λ h, h <| hs_err := err |> |> else c.

(** ** Node hash store *)

Definition init_node_hash_store (h : hash_state) : hash_state :=
  h <| hs_store := replicate MAX_NODE_CHILDREN
         {| pn_id := -1; pn_hash := replicate SHA256_HASH_LEN 0 |} |>.
Definition set_node_hash (node_id : Z) (hash : bytes) (h : hash_state) : hash_state :=
  h <| hs_store ::= λ l, <[hs_count h := {| pn_id := node_id; pn_hash := hash |}]> l |>
    <| hs_count := ((hs_count h + 1) mod MAX_NODE_CHILDREN)%nat |>.

Fixpoint find_node_hash (id : Z) (l : list PrecomputedNodeHash) : option bytes :=
  match l with
  | [] => None
  | p :: l' => if pn_id p =? id then Some (pn_hash p) else find_node_hash id l'
  end.
Definition get_node_hash (node_id : option bytes) (h : hash_state) : option bytes :=
  match node_id with
  | None => None
  | Some s => find_node_hash (atoint s) (hs_store h)
  end.

(** ** HashWriter *)

Definition hw_init : encoder := λ c, c <| e_hw := [] |>.
Definition hw_put (p : bytes) : encoder := λ c, c <| e_hw ::= λ w, w ++ p |>.
Definition hw_put_byte (b : Z) : encoder := hw_put [u8 b].
Definition hw_put_u32_be (v : Z) : encoder := hw_put (be32 v).
Definition hw_put_u64_be (v : Z) : encoder := hw_put (be64 v).
Definition hw_finalize `{Sha256} (w : bytes) : bytes := sha256 w.

(** ** Encoders *)

Definition encode_bool (v : bool) : encoder := hw_put_byte (if v then 1 else 0).
Definition encode_int32 (v : Z) : encoder := hw_put_u32_be (u32 v).
Definition encode_int64 (v : Z) : encoder := hw_put_u64_be (u64 v).
Definition encode_int64_by_ptr (v : Z) : encoder := hw_put_u64_be (u64 v).
Definition encode_bytes (data : bytes) (len : Z) : encoder :=
  (encode_int32 len ;+ hw_put (take (Z.to_nat len) data))%enc.

(** [if (!require_field(p, ...)) return;] and what follows when the pointer is set. *)
Definition require_field {A} (p : option A) (k : A → encoder) : encoder :=
  match p with
  | None => set_hash_error HASH_ERROR_MISSING_FIELD
  | Some a => k a
  end.

Definition encode_string (s : option bytes) : encoder :=
  require_field s (λ s, encode_bytes (c_str s) (i32 (strlen s))).
Definition encode_hash (h : option bytes) : encoder :=
  require_field h (λ h, hw_put (take SHA256_HASH_LEN h)).

Definition hex_val (c : Z) : Z :=
  u8 (if (48 <=? c) && (c <=? 57) then c - 48
      else if (97 <=? c) && (c <=? 102) then 10 + c - 97
      else 10 + c - 65).

(** The loop over the pairs of characters. *)
Fixpoint put_hex_pairs (hex : bytes) : encoder :=
  match hex with
  | a :: b :: rest =>
      (hw_put_byte (Z.lor (u8 (Z.shiftl (hex_val a) 4)) (hex_val b)) ;+ put_hex_pairs rest)%enc
  | _ => λ c, c
  end.
Definition encode_hex_string (hex : option bytes) : encoder :=
  require_field hex (λ hex,
    let len := strlen hex in
    if negb (len mod 2 =? 0) then set_hash_error HASH_ERROR_INVALID_HASH_STRING
    else (encode_int32 (i32 (len / 2)) ;+ put_hex_pairs (c_str hex))%enc).

Definition encode_optional {A} (fn : A → encoder) (v : option A) : encoder :=
  match v with
  | Some a => (hw_put_byte 1 ;+ fn a)%enc
  | None => hw_put_byte 0
  end.

Fixpoint encode_each {A} (fn : A → encoder) (l : list A) : encoder :=
  match l with
  | [] => λ c, c
  | a :: l' => (fn a ;+ encode_each fn l')%enc
  end.
Definition encode_repeated {A} (fn : A → encoder) (l : list A) : encoder :=
  (encode_int32 (i32 (Z.of_nat (length l))) ;+ encode_each fn l)%enc.

Definition dot : Z := 46.
Definition count_parts (s : bytes) : Z :=
  fold_left (λ n c, if c =? dot then n + 1 else n) s 1.
(** [strchr(start, '.')]: the part before the first dot, and what follows it. *)
Fixpoint split_at_dot (s : bytes) : bytes * option bytes :=
  match s with
  | [] => ([], None)
  | c :: s' =>
      if c =? dot then ([], Some s')
      else let '(part, rest) := split_at_dot s' in (c :: part, rest)
  end.
(** The [while (true)] loop; each turn past the first drops a dot, so the length of the
    string is fuel enough. *)
Fixpoint put_parts (fuel : nat) (start : bytes) : encoder :=
  match fuel with
  | O => λ c, c
  | S fuel =>
      let '(part, rest) := split_at_dot start in
      let put := (encode_int32 (i32 (Z.of_nat (length part))) ;+ hw_put part)%enc in
      match rest with
      | None => put
      | Some rest => (put ;+ put_parts fuel rest)%enc
      end
  end.
Definition split_dot_and_encode (dotstr : option bytes) : encoder :=
  require_field dotstr (λ s,
    (encode_int32 (i32 (count_parts (c_str s))) ;+ put_parts (S (length (c_str s))) (c_str s))%enc).

Definition encode_identifier (id : Identifier) : encoder :=
  (encode_string (package_id id) ;+ split_dot_and_encode (module_name id) ;+
   split_dot_and_encode (entity_name id))%enc.

(** The loop stops at the first id whose hash is not in the store. *)
Fixpoint encode_node_ids (ids : list (option bytes)) : encoder :=
  match ids with
  | [] => λ c, c
  | id :: ids' => λ c,
      match get_node_hash id (e_hs c) with
      | None => set_hash_error HASH_ERROR_FAILED_TO_LOAD_NODE_HASH c
      | Some hash => encode_node_ids ids' (hw_put (take SHA256_HASH_LEN hash) c)
      end
  end.
Definition encode_repeated_node_ids (ids : list (option bytes)) : encoder :=
  (encode_int32 (i32 (Z.of_nat (length ids))) ;+ encode_node_ids ids)%enc.

Definition PREPARED_TRANSACTION_HASH_PURPOSE : bytes := [0x00; 0x00; 0x00; 0x30].
Definition HASHING_SCHEME_VERSION : Z := 2.
Definition NODE_ENCODING_VERSION : Z := 1.

Section Nodes.
Context {cb : Type}.

Definition encode_create_start (c : Node_CreateCb cb) (seed : option bytes) : encoder :=
  (hw_put_byte NODE_ENCODING_VERSION ;+
   encode_string (c_lf_version c) ;+
   hw_put_byte 0x00 ;+
   encode_optional (λ s, encode_hash (Some s)) seed ;+
   encode_hex_string (c_contract_id c) ;+
   encode_string (c_package_name c) ;+
   encode_identifier (c_template_id c))%enc.

Definition encode_create_end (c : Node_CreateCb cb) : encoder :=
  (encode_repeated encode_string (c_signatories c) ;+
   encode_repeated encode_string (c_stakeholders c))%enc.

Definition encode_exercise_start (e : Node_ExerciseCb cb) (seed : option bytes) : encoder :=
  (hw_put_byte NODE_ENCODING_VERSION ;+
   encode_string (e_lf_version e) ;+
   hw_put_byte 0x01 ;+
   encode_hash seed ;+
   encode_hex_string (e_contract_id e) ;+
   encode_string (e_package_name e) ;+
   encode_identifier (e_template_id e) ;+
   encode_repeated encode_string (e_signatories e) ;+
   encode_repeated encode_string (e_stakeholders e) ;+
   encode_repeated encode_string (e_acting_parties e) ;+
   encode_optional encode_identifier (e_interface_id e) ;+
   encode_string (e_choice_id e))%enc.

Definition encode_exercise_middle (e : Node_ExerciseCb cb) : encoder :=
  encode_bool (e_consuming e).

Definition encode_exercise_end (e : Node_ExerciseCb cb) : encoder := λ c,
  let c := encode_repeated encode_string (e_choice_observers e) c in
  if (MAX_NODE_CHILDREN <? length (e_children e))%nat
  then set_hash_error HASH_ERROR_MAX_NODE_CHILDREN_EXCEEDED c
  else encode_repeated_node_ids (e_children e) c.
End Nodes.

Definition encode_fetch (f : Node_Fetch) : encoder :=
  (hw_put_byte NODE_ENCODING_VERSION ;+
   encode_string (f_lf_version f) ;+
   hw_put_byte 0x02 ;+
   encode_hex_string (f_contract_id f) ;+
   encode_string (f_package_name f) ;+
   encode_identifier (f_template_id f) ;+
   encode_repeated encode_string (f_signatories f) ;+
   encode_repeated encode_string (f_stakeholders f) ;+
   encode_optional encode_identifier (f_interface_id f) ;+
   encode_repeated encode_string (f_acting_parties f))%enc.

Definition encode_rollback (r : Node_Rollback) : encoder := λ c,
  let c := hw_put_byte 0x03 (hw_put_byte NODE_ENCODING_VERSION c) in
  if (MAX_NODE_CHILDREN <? length (r_children r))%nat
  then set_hash_error HASH_ERROR_MAX_NODE_CHILDREN_EXCEEDED c
  else encode_repeated_node_ids (r_children r) c.

Definition has {A} (b : bool) (a : A) : option A := if b then Some a else None.

Definition encode_metadata (m : Metadata) : encoder :=
  (hw_put_byte 0x01 ;+
   encode_repeated encode_string (si_act_as (md_submitter_info m)) ;+
   encode_string (si_command_id (md_submitter_info m)) ;+
   encode_string (md_transaction_uuid m) ;+
   encode_int32 (md_mediator_group m) ;+
   encode_string (md_synchronizer_id m) ;+
   encode_optional encode_int64_by_ptr
     (has (md_has_min_ledger_effective_time m) (md_min_ledger_effective_time m)) ;+
   encode_optional encode_int64_by_ptr
     (has (md_has_max_ledger_effective_time m) (md_max_ledger_effective_time m)) ;+
   encode_int64 (md_preparation_time m) ;+
   encode_int32 (md_input_contracts_count m))%enc.

(** ** The three hashes *)

Definition hash_transaction (tx : DamlTransaction) : encoder :=
  ((λ c, c <| e_hs := init_node_hash_store (clear_hash_error (e_hs c)) |>) ;+
   hw_init ;+
   hw_put PREPARED_TRANSACTION_HASH_PURPOSE ;+
   encode_string (tx_version tx) ;+
   encode_int32 (i32 (Z.of_nat (length (tx_roots tx)))))%enc.

Definition hash_metadata (md : Metadata) : encoder :=
  (hw_init ;+ hw_put PREPARED_TRANSACTION_HASH_PURPOSE ;+ encode_metadata md)%enc.

Section Finalize.
Context `{Sha256}.

Definition finalize_hash_transaction (w : bytes) : bytes := hw_finalize w.
Definition finalize_hash_metadata (w : bytes) : bytes := hw_finalize w.
Definition finalize_hash (tx_hash md_hash : bytes) : bytes :=
  hw_finalize (PREPARED_TRANSACTION_HASH_PURPOSE ++ [HASHING_SCHEME_VERSION] ++
               take SHA256_HASH_LEN tx_hash ++ take SHA256_HASH_LEN md_hash).
End Finalize.

(** ** The encodings as functions

    [None] when the code records an error. *)

Definition cat2 (a b : option bytes) : option bytes :=
  match a, b with Some x, Some y => Some (x ++ y) | _, _ => None end.
Notation "a ⊕ b" := (cat2 a b) (at level 61, left associativity).

Definition enc_int32 (v : Z) : bytes := be32 (u32 v).
Definition enc_int64 (v : Z) : bytes := be64 (u64 v).
Definition enc_string (s : bytes) : bytes := enc_int32 (Z.of_nat (length s)) ++ s.

#[global] Arguments enc_int32 : simpl never.
#[global] Arguments enc_int64 : simpl never.
#[global] Arguments enc_string : simpl never.

Definition spec_string (s : option bytes) : option bytes :=
  option_map (λ s, enc_string (c_str s)) s.

Fixpoint hex_bytes (hex : bytes) : bytes :=
  match hex with
  | a :: b :: rest => u8 (Z.lor (u8 (Z.shiftl (hex_val a) 4)) (hex_val b)) :: hex_bytes rest
  | _ => []
  end.
Definition spec_hex_string (hex : option bytes) : option bytes :=
  match hex with
  | Some h => if strlen h mod 2 =? 0 then Some (enc_string (hex_bytes (c_str h))) else None
  | None => None
  end.

Fixpoint split_dots (fuel : nat) (s : bytes) : list bytes :=
  match fuel with
  | O => []
  | S fuel =>
      match split_at_dot s with
      | (part, None) => [part]
      | (part, Some rest) => part :: split_dots fuel rest
      end
  end.
Definition name_parts (s : bytes) : list bytes := split_dots (S (length s)) s.

Definition enc_list {A} (f : A → bytes) (l : list A) : bytes :=
  enc_int32 (Z.of_nat (length l)) ++ flat_map f l.
Definition spec_dotted (s : option bytes) : option bytes :=
  option_map (λ s, enc_list enc_string (name_parts (c_str s))) s.

Definition spec_identifier (i : Identifier) : option bytes :=
  spec_string (package_id i) ⊕ spec_dotted (module_name i) ⊕ spec_dotted (entity_name i).

Fixpoint spec_each {A} (f : A → option bytes) (l : list A) : option bytes :=
  match l with
  | [] => Some []
  | a :: l' => f a ⊕ spec_each f l'
  end.
Definition spec_repeated {A} (f : A → option bytes) (l : list A) : option bytes :=
  Some (enc_int32 (Z.of_nat (length l))) ⊕ spec_each f l.
Definition spec_optional {A} (f : A → option bytes) (o : option A) : option bytes :=
  match o with Some a => Some [1] ⊕ f a | None => Some [0] end.
Definition spec_hash (h : option bytes) : option bytes := option_map (take SHA256_HASH_LEN) h.
Definition spec_node_id (st : list PrecomputedNodeHash) (id : option bytes) : option bytes :=
  match id with
  | Some s => spec_hash (find_node_hash (atoint s) st)
  | None => None
  end.
Definition spec_children (st : list PrecomputedNodeHash) (ids : list (option bytes))
  : option bytes :=
  if (MAX_NODE_CHILDREN <? length ids)%nat then None else spec_repeated (spec_node_id st) ids.

Definition spec_metadata (m : Metadata) : option bytes :=
  Some [1] ⊕ spec_repeated spec_string (si_act_as (md_submitter_info m)) ⊕
  spec_string (si_command_id (md_submitter_info m)) ⊕
  spec_string (md_transaction_uuid m) ⊕ Some (enc_int32 (md_mediator_group m)) ⊕
  spec_string (md_synchronizer_id m) ⊕
  spec_optional (λ v, Some (enc_int64 v))
    (has (md_has_min_ledger_effective_time m) (md_min_ledger_effective_time m)) ⊕
  spec_optional (λ v, Some (enc_int64 v))
    (has (md_has_max_ledger_effective_time m) (md_max_ledger_effective_time m)) ⊕
  Some (enc_int64 (md_preparation_time m)) ⊕
  Some (enc_int32 (md_input_contracts_count m)).

Definition spec_fetch (f : Node_Fetch) : option bytes :=
  Some [1] ⊕ spec_string (f_lf_version f) ⊕ Some [2] ⊕
  spec_hex_string (f_contract_id f) ⊕ spec_string (f_package_name f) ⊕
  spec_identifier (f_template_id f) ⊕ spec_repeated spec_string (f_signatories f) ⊕
  spec_repeated spec_string (f_stakeholders f) ⊕
  spec_optional spec_identifier (f_interface_id f) ⊕
  spec_repeated spec_string (f_acting_parties f).

Definition spec_rollback (st : list PrecomputedNodeHash) (r : Node_Rollback) : option bytes :=
  Some [1; 3] ⊕ spec_children st (r_children r).

Section SpecNodes.
Context {cb : Type}.

Definition spec_create_start (c : Node_CreateCb cb) (seed : option bytes) : option bytes :=
  Some [1] ⊕ spec_string (c_lf_version c) ⊕ Some [0] ⊕
  spec_optional (λ s, spec_hash (Some s)) seed ⊕ spec_hex_string (c_contract_id c) ⊕
  spec_string (c_package_name c) ⊕ spec_identifier (c_template_id c).
Definition spec_create_end (c : Node_CreateCb cb) : option bytes :=
  spec_repeated spec_string (c_signatories c) ⊕ spec_repeated spec_string (c_stakeholders c).

Definition spec_exercise_start (e : Node_ExerciseCb cb) (seed : option bytes) : option bytes :=
  Some [1] ⊕ spec_string (e_lf_version e) ⊕ Some [1] ⊕ spec_hash seed ⊕
  spec_hex_string (e_contract_id e) ⊕ spec_string (e_package_name e) ⊕
  spec_identifier (e_template_id e) ⊕ spec_repeated spec_string (e_signatories e) ⊕
  spec_repeated spec_string (e_stakeholders e) ⊕
  spec_repeated spec_string (e_acting_parties e) ⊕
  spec_optional spec_identifier (e_interface_id e) ⊕ spec_string (e_choice_id e).
Definition spec_exercise_end (st : list PrecomputedNodeHash) (e : Node_ExerciseCb cb)
  : option bytes :=
  spec_repeated spec_string (e_choice_observers e) ⊕ spec_children st (e_children e).
End SpecNodes.

(** ** The encoders refine them

    An encoder refines a result when it appends it, or records an error when there is
    none; it keeps an earlier error and never touches the store. *)

Record refines (st : list PrecomputedNodeHash) (e : encoder) (r : option bytes) : Prop := {
  rf_result : ∀ c, hs_store (e_hs c) = st →
    match r with
    | Some w => e c = hw_put w c
    | None => hs_err (e_hs (e c)) ≠ HASH_OK
    end;
  rf_sticky : ∀ c, hs_err (e_hs c) ≠ HASH_OK → hs_err (e_hs (e c)) ≠ HASH_OK;
  rf_store : ∀ c, hs_store (e_hs (e c)) = hs_store (e_hs c)
}.

Create HintDb encoder.

Section Refines.
Context (st : list PrecomputedNodeHash).

Lemma refines_put w : refines st (hw_put w) (Some w).
Proof. by split. Qed.

Lemma set_hash_error_sets err c : err ≠ HASH_OK → hs_err (e_hs (set_hash_error err c)) ≠ HASH_OK.
Proof. intros H. unfold set_hash_error. by case_decide. Qed.

Lemma refines_error err : err ≠ HASH_OK → refines st (set_hash_error err) None.
Proof.
  intros H. split.
  - intros c _. by apply set_hash_error_sets.
  - intros c _. by apply set_hash_error_sets.
  - intros c. unfold set_hash_error. by case_decide.
Qed.

Lemma hw_put_app u w c : hw_put w (hw_put u c) = hw_put (u ++ w) c.
Proof. unfold hw_put; cbn. by rewrite app_assoc. Qed.

Lemma refines_seq e1 e2 r1 r2 :
  refines st e1 r1 → refines st e2 r2 → refines st (e1 ;+ e2)%enc (r1 ⊕ r2).
Proof.
  intros [R1 S1 T1] [R2 S2 T2]. split.
  - intros c Hc. specialize (R1 c Hc). destruct r1 as [w1|]; cbn.
    + specialize (R2 (e1 c)). rewrite T1 in R2. specialize (R2 Hc).
      destruct r2 as [w2|]; [|done]. by rewrite R2, R1, hw_put_app.
    + by apply S2.
  - intros c Hc. by apply S2, S1.
  - intros c. by rewrite T2, T1.
Qed.

Lemma refines_id : refines st (λ c, c) (Some []).
Proof.
  split; [|done|done]. intros [w h] _. unfold hw_put; cbn. by rewrite app_nil_r.
Qed.

Definition short (s : bytes) : Prop := strlen s < 2 ^ 31 - 1.
Definition short_opt (o : option bytes) : Prop := ∀ s, o = Some s → short s.

Lemma refines_bytes s : short s →
  refines st (encode_bytes (c_str s) (i32 (strlen s))) (Some (enc_string (c_str s))).
Proof.
  unfold short. intros Hs. pose proof (strlen_nonneg s).
  rewrite i32_id by (unfold is_i32; lia). unfold encode_bytes, enc_string.
  rewrite take_ge by (unfold strlen; lia).
  apply (refines_seq _ _ (Some _) (Some _)); apply refines_put.
Qed.

Lemma refines_string s : short_opt s → refines st (encode_string s) (spec_string s).
Proof.
  intros Hs. destruct s as [s|]; cbn; [by apply refines_bytes, Hs|by apply refines_error].
Qed.

Lemma refines_hash h : refines st (encode_hash h) (spec_hash h).
Proof. destruct h; cbn; [apply refines_put|by apply refines_error]. Qed.

Lemma refines_hex_pairs l : ∀ n, (length l ≤ n)%nat →
  refines st (put_hex_pairs l) (Some (hex_bytes l)).
Proof.
  intros n. revert l. induction n as [|n IH]; intros [|a [|b l]] Hl; cbn in Hl;
    try lia; try apply refines_id.
  cbn [put_hex_pairs hex_bytes].
  apply (refines_seq _ _ (Some [_]) (Some _)); [apply refines_put|apply IH; lia].
Qed.

Lemma length_hex_bytes l : ∀ n, (length l ≤ n)%nat → (length l mod 2 = 0)%nat →
  (length (hex_bytes l) = length l / 2)%nat.
Proof.
  intros n. revert l. induction n as [|n IH]; intros [|a [|b l]] Hl Hm; cbn in Hl;
    try lia; try done.
  cbn [hex_bytes length]. rewrite IH; [|lia|].
  - replace (S (S (length l))) with (length l + 1 * 2)%nat by lia.
    rewrite Nat.div_add by lia. lia.
  - cbn [length] in Hm. replace (S (S (length l))) with (length l + 1 * 2)%nat in Hm by lia.
    by rewrite Nat.Div0.mod_add in Hm.
Qed.

Lemma refines_hex_string h : short_opt h → refines st (encode_hex_string h) (spec_hex_string h).
Proof.
  intros Hs. destruct h as [h|]; cbn [encode_hex_string require_field spec_hex_string];
    [|by apply refines_error].
  specialize (Hs h eq_refl). unfold short in Hs. pose proof (strlen_nonneg h).
  destruct (strlen h mod 2 =? 0) eqn:E; cbn [negb]; [|by apply refines_error].
  assert (Hm : (length (c_str h) mod 2 = 0)%nat).
  { apply Nat2Z.inj. rewrite Nat2Z.inj_mod. unfold strlen in E. lia. }
  rewrite i32_id by (unfold is_i32; Z.to_euclidean_division_equations; lia).
  unfold enc_string. rewrite (length_hex_bytes _ _ (Nat.le_refl _) Hm), Nat2Z.inj_div.
  apply (refines_seq _ _ (Some _) (Some _)); [apply refines_put|by eapply refines_hex_pairs].
Qed.

(** Dotted names: what [split_at_dot] leaves is shorter, and its parts are short. *)
Lemma split_at_dot_length s :
  let '(part, rest) := split_at_dot s in
  (length part ≤ length s)%nat ∧
  match rest with
  | Some r => (length part + S (length r) = length s)%nat
  | None => part = s
  end.
Proof.
  induction s as [|c s IH]; cbn; [done|].
  destruct (c =? dot); cbn; [lia|].
  destruct (split_at_dot s) as [part [r|]]; cbn in *; [lia|]. destruct IH as [? ->]. split; [lia|done].
Qed.

Lemma refines_parts fuel : ∀ s, (length s < fuel)%nat → Z.of_nat (length s) < 2 ^ 31 →
  refines st (put_parts fuel s) (Some (flat_map enc_string (split_dots fuel s))).
Proof.
  induction fuel as [|fuel IH]; intros s Hf Hs; [lia|]. cbn [put_parts split_dots].
  pose proof (split_at_dot_length s) as L. destruct (split_at_dot s) as [part rest].
  destruct L as [L1 L2]. rewrite i32_id by (unfold is_i32; lia).
  assert (refines st (encode_int32 (Z.of_nat (length part)) ;+ hw_put part)%enc
            (Some (enc_string part))) as R.
  { apply (refines_seq _ _ (Some _) (Some _)); apply refines_put. }
  destruct rest as [r|].
  - apply (refines_seq _ _ (Some _) (Some _)); [done|apply IH; lia].
  - cbn. by rewrite app_nil_r.
Qed.

Lemma count_parts_acc s : ∀ n,
  fold_left (λ n c, if c =? dot then n + 1 else n) s n = n - 1 + count_parts s.
Proof.
  unfold count_parts. induction s as [|c s IH]; intros n; cbn; [lia|].
  rewrite IH, (IH (if c =? dot then 1 + 1 else 1)). destruct (c =? dot); lia.
Qed.

Lemma count_parts_split s :
  count_parts s = match split_at_dot s with
                  | (_, Some r) => 1 + count_parts r
                  | (_, None) => 1
                  end.
Proof.
  induction s as [|c s IH]; [done|]. unfold count_parts at 1; cbn [fold_left split_at_dot].
  rewrite count_parts_acc. destruct (c =? dot); [lia|].
  destruct (split_at_dot s) as [part [r|]]; lia.
Qed.

Lemma count_parts_length fuel : ∀ s, (length s < fuel)%nat →
  count_parts s = Z.of_nat (length (split_dots fuel s)).
Proof.
  induction fuel as [|fuel IH]; intros s Hf; [lia|]. cbn [split_dots].
  rewrite count_parts_split. pose proof (split_at_dot_length s) as L.
  destruct (split_at_dot s) as [part [r|]]; [|done]. cbn [length].
  rewrite (IH r) by lia. lia.
Qed.

Lemma count_parts_bound s : 1 ≤ count_parts s ≤ Z.of_nat (length s) + 1.
Proof.
  induction s as [|c s IH]; [done|]. unfold count_parts; cbn [fold_left length].
  rewrite count_parts_acc. destruct (c =? dot); lia.
Qed.

Lemma refines_dotted s : short_opt s → refines st (split_dot_and_encode s) (spec_dotted s).
Proof.
  intros Hs. destruct s as [s|];
    cbn [split_dot_and_encode require_field spec_dotted option_map]; [|by apply refines_error].
  specialize (Hs s eq_refl). unfold short in Hs.
  pose proof (count_parts_bound (c_str s)). unfold strlen in Hs.
  rewrite i32_id by (unfold is_i32; lia). unfold enc_list, name_parts.
  rewrite <- count_parts_length by lia.
  apply (refines_seq _ _ (Some _) (Some _)); [apply refines_put|apply refines_parts; lia].
Qed.

Definition short_identifier (i : Identifier) : Prop :=
  short_opt (package_id i) ∧ short_opt (module_name i) ∧ short_opt (entity_name i).

Lemma refines_identifier i : short_identifier i →
  refines st (encode_identifier i) (spec_identifier i).
Proof.
  intros (H1 & H2 & H3). unfold encode_identifier, spec_identifier.
  apply refines_seq; [apply refines_seq|]; [by apply refines_string|by apply refines_dotted..].
Qed.

Lemma refines_each {A} (fn : A → encoder) (f : A → option bytes) l :
  (∀ a, a ∈ l → refines st (fn a) (f a)) → refines st (encode_each fn l) (spec_each f l).
Proof.
  induction l as [|a l IH]; intros H; cbn; [apply refines_id|].
  apply (refines_seq (fn a) (encode_each fn l)); [apply H|apply IH]; set_solver.
Qed.

Definition few {A} (l : list A) : Prop := Z.of_nat (length l) < 2 ^ 31.

Lemma refines_repeated {A} (fn : A → encoder) (f : A → option bytes) l : few l →
  (∀ a, a ∈ l → refines st (fn a) (f a)) →
  refines st (encode_repeated fn l) (spec_repeated f l).
Proof.
  unfold few. intros Hl H. unfold encode_repeated, spec_repeated.
  rewrite i32_id by (unfold is_i32; lia).
  apply refines_seq; [apply refines_put|by apply refines_each].
Qed.

Lemma refines_strings l : few l → (∀ s, s ∈ l → short_opt s) →
  refines st (encode_repeated encode_string l) (spec_repeated spec_string l).
Proof. intros Hl H. apply refines_repeated; [done|]. intros s Hs. by apply refines_string, H. Qed.

Lemma refines_optional {A} (fn : A → encoder) (f : A → option bytes) o :
  (∀ a, o = Some a → refines st (fn a) (f a)) →
  refines st (encode_optional fn o) (spec_optional f o).
Proof.
  intros H. destruct o as [a|]; [|apply refines_put].
  apply (refines_seq (hw_put_byte 1) (fn a) (Some [1])); [apply refines_put|by apply H].
Qed.

Lemma refines_node_ids ids : refines st (encode_node_ids ids) (spec_each (spec_node_id st) ids).
Proof.
  induction ids as [|id ids [R S T]]; [apply refines_id|].
  cbn [encode_node_ids spec_each]. split.
  - intros c Hc. destruct id as [s|]; cbn [get_node_hash spec_node_id spec_hash cat2];
      [|by apply set_hash_error_sets].
    rewrite Hc. destruct (find_node_hash (atoint s) st) as [h|]; cbn [option_map cat2];
      [|by apply set_hash_error_sets].
    specialize (R (hw_put (take SHA256_HASH_LEN h) c) Hc).
    destruct (spec_each (spec_node_id st) ids) as [w|]; [|done].
    rewrite R. apply hw_put_app.
  - intros c Hc. destruct (get_node_hash id (e_hs c)); [by apply S|].
    by apply set_hash_error_sets.
  - intros c. destruct (get_node_hash id (e_hs c)); [by rewrite T|].
    unfold set_hash_error. by case_decide.
Qed.

Lemma refines_children ids :
  refines st (λ c, if (MAX_NODE_CHILDREN <? length ids)%nat
                   then set_hash_error HASH_ERROR_MAX_NODE_CHILDREN_EXCEEDED c
                   else encode_repeated_node_ids ids c) (spec_children st ids).
Proof.
  unfold spec_children. destruct (Nat.ltb_spec MAX_NODE_CHILDREN (length ids)).
  - by apply refines_error.
  - unfold encode_repeated_node_ids, spec_repeated. unfold MAX_NODE_CHILDREN in *.
    rewrite i32_id by (unfold is_i32; lia).
    apply (refines_seq (encode_int32 _) (encode_node_ids ids) (Some _));
      [apply refines_put|apply refines_node_ids].
Qed.

Lemma refines_end ids e r : refines st e r →
  refines st (λ c, let c' := e c in
    if (MAX_NODE_CHILDREN <? length ids)%nat
    then set_hash_error HASH_ERROR_MAX_NODE_CHILDREN_EXCEEDED c'
    else encode_repeated_node_ids ids c') (r ⊕ spec_children st ids).
Proof. intros H. exact (refines_seq _ _ _ _ H (refines_children ids)). Qed.
End Refines.

(** The constant and integer encoders, in the form the structs use them. *)
Lemma refines_version st : refines st (hw_put_byte NODE_ENCODING_VERSION) (Some [1]).
Proof. apply refines_put. Qed.
Lemma refines_byte0 st : refines st (hw_put_byte 0x00) (Some [0]).
Proof. apply refines_put. Qed.
Lemma refines_byte1 st : refines st (hw_put_byte 0x01) (Some [1]).
Proof. apply refines_put. Qed.
Lemma refines_byte2 st : refines st (hw_put_byte 0x02) (Some [2]).
Proof. apply refines_put. Qed.
Lemma refines_int32 st v : refines st (encode_int32 v) (Some (enc_int32 v)).
Proof. apply refines_put. Qed.
Lemma refines_int64 st v : refines st (encode_int64 v) (Some (enc_int64 v)).
Proof. apply refines_put. Qed.
Lemma refines_int64_ptr st v : refines st (encode_int64_by_ptr v) (Some (enc_int64 v)).
Proof. apply refines_put. Qed.

#[export] Hint Resolve refines_version refines_byte0 refines_byte1 refines_byte2
  refines_int32 refines_int64 refines_int64_ptr : encoder.
#[export] Hint Resolve refines_string refines_hash refines_hex_string
  refines_dotted refines_identifier refines_strings : encoder.

(** Split a sequence of encoders and prove each piece from the hint database. *)
Ltac refine_encoder :=
  repeat first
    [ solve [eauto with encoder]
    | apply refines_seq
    | apply refines_optional; intros ];
  try solve [eauto with encoder].

(** Every string a struct holds fits in an [int32_t], and so do the counts. *)
Definition short_list (l : list (option bytes)) : Prop := few l ∧ ∀ s, s ∈ l → short_opt s.

Record metadata_short (m : Metadata) : Prop := {
  ms_act_as : short_list (si_act_as (md_submitter_info m));
  ms_command : short_opt (si_command_id (md_submitter_info m));
  ms_uuid : short_opt (md_transaction_uuid m);
  ms_synchronizer : short_opt (md_synchronizer_id m)
}.

Lemma refines_metadata st m : metadata_short m →
  refines st (encode_metadata m) (spec_metadata m).
Proof.
  intros [[A1 A2] B C D]. unfold encode_metadata, spec_metadata. refine_encoder.
Qed.

Record fetch_short (f : Node_Fetch) : Prop := {
  fs_lf : short_opt (f_lf_version f);
  fs_cid : short_opt (f_contract_id f);
  fs_pkg : short_opt (f_package_name f);
  fs_tid : short_identifier (f_template_id f);
  fs_sig : short_list (f_signatories f);
  fs_stk : short_list (f_stakeholders f);
  fs_iid : ∀ i, f_interface_id f = Some i → short_identifier i;
  fs_act : short_list (f_acting_parties f)
}.

Lemma refines_fetch st f : fetch_short f → refines st (encode_fetch f) (spec_fetch f).
Proof.
  intros [? ? ? ? [] [] ? []]. unfold encode_fetch, spec_fetch. refine_encoder.
Qed.

Lemma refines_rollback st r : refines st (encode_rollback r) (spec_rollback st r).
Proof.
  pose proof (refines_seq st _ _ (Some [1]) (Some [3]) (refines_version st)
    (refines_put st [3])) as R.
  exact (refines_end st (r_children r) _ _ R).
Qed.

Section RefineNodes.
Context {cb : Type}.

Record create_short (c : Node_CreateCb cb) : Prop := {
  cs_lf : short_opt (c_lf_version c);
  cs_cid : short_opt (c_contract_id c);
  cs_pkg : short_opt (c_package_name c);
  cs_tid : short_identifier (c_template_id c);
  cs_sig : short_list (c_signatories c);
  cs_stk : short_list (c_stakeholders c)
}.

Lemma refines_create_start st (c : Node_CreateCb cb) seed : create_short c →
  refines st (encode_create_start c seed) (spec_create_start c seed).
Proof.
  intros [? ? ? ? [] []]. unfold encode_create_start, spec_create_start. refine_encoder.
Qed.
Lemma refines_create_end st (c : Node_CreateCb cb) : create_short c →
  refines st (encode_create_end c) (spec_create_end c).
Proof.
  intros [? ? ? ? [] []]. unfold encode_create_end, spec_create_end. refine_encoder.
Qed.

Record exercise_short (e : Node_ExerciseCb cb) : Prop := {
  es_lf : short_opt (e_lf_version e);
  es_cid : short_opt (e_contract_id e);
  es_pkg : short_opt (e_package_name e);
  es_tid : short_identifier (e_template_id e);
  es_sig : short_list (e_signatories e);
  es_stk : short_list (e_stakeholders e);
  es_act : short_list (e_acting_parties e);
  es_iid : ∀ i, e_interface_id e = Some i → short_identifier i;
  es_choice : short_opt (e_choice_id e);
  es_obs : short_list (e_choice_observers e)
}.

Lemma refines_exercise_start st (e : Node_ExerciseCb cb) seed : exercise_short e →
  refines st (encode_exercise_start e seed) (spec_exercise_start e seed).
Proof.
  intros [? ? ? ? [] [] [] ? ? []]. unfold encode_exercise_start, spec_exercise_start.
  refine_encoder.
Qed.
Lemma refines_exercise_end st (e : Node_ExerciseCb cb) : exercise_short e →
  refines st (encode_exercise_end e) (spec_exercise_end st e).
Proof.
  intros [? ? ? ? ? ? ? ? ? []]. apply refines_end. by apply refines_strings.
Qed.
End RefineNodes.

(** ** The encodings are unambiguous

    [f] is unambiguous for [view] when its bytes, whatever follows them, determine the
    view of the input and where the rest starts.  [view] forgets only what the encoding
    is meant to forget: bytes after a NUL, and the letter case of hexadecimal digits. *)

Definition unambiguous {A B} (P : A → Prop) (view : A → B) (f : A → option bytes) : Prop :=
  ∀ a b u v x y, P a → P b → f a = Some u → f b = Some v → u ++ x = v ++ y →
    view a = view b ∧ x = y.

Lemma cat2_Some a b w : a ⊕ b = Some w → ∃ u v, a = Some u ∧ b = Some v ∧ w = u ++ v.
Proof. destruct a, b; naive_solver. Qed.

Create HintDb codec.

Lemma enc_string_inj s t x y :
  is_u32 (Z.of_nat (length s)) → is_u32 (Z.of_nat (length t)) →
  enc_string s ++ x = enc_string t ++ y → s = t ∧ x = y.
Proof.
  intros Hs Ht E. unfold enc_string, enc_int32 in E.
  rewrite !u32_id, <- !app_assoc in E by done.
  apply app_inj_1 in E as [El E]; [|done]. apply be32_inj in El; [|done..].
  apply app_inj_1 in E as [-> ->]; [done|lia].
Qed.

Section Unambiguous.
Context {A : Type} (P : A → Prop).

Lemma unamb_seq {B C} (v1 : A → B) (v2 : A → C) f1 f2 :
  unambiguous P v1 f1 → unambiguous P v2 f2 →
  unambiguous P (λ a, (v1 a, v2 a)) (λ a, f1 a ⊕ f2 a).
Proof.
  intros H1 H2 a b u v x y Ha Hb (u1 & u2 & Hu1 & Hu2 & ->)%cat2_Some
    (w1 & w2 & Hw1 & Hw2 & ->)%cat2_Some E.
  rewrite <- !app_assoc in E.
  destruct (H1 _ _ _ _ _ _ Ha Hb Hu1 Hw1 E) as [E1 E'].
  destruct (H2 _ _ _ _ _ _ Ha Hb Hu2 Hw2 E') as [E2 E'']. by rewrite E1, E2.
Qed.

Lemma unamb_const_l {B} (v : A → B) w f :
  unambiguous P v f → unambiguous P v (λ a, Some w ⊕ f a).
Proof.
  intros H a b u u' x y Ha Hb (u1 & u2 & [= <-] & Hu2 & ->)%cat2_Some
    (w1 & w2 & [= <-] & Hw2 & ->)%cat2_Some E.
  rewrite <- !app_assoc in E. apply app_inv_head in E. by eapply H.
Qed.

Lemma unamb_const_r {B} (v : A → B) w f :
  unambiguous P v f → unambiguous P v (λ a, f a ⊕ Some w).
Proof.
  intros H a b u u' x y Ha Hb (u1 & u2 & Hu1 & [= <-] & ->)%cat2_Some
    (w1 & w2 & Hw1 & [= <-] & ->)%cat2_Some E.
  rewrite <- !app_assoc in E. destruct (H _ _ _ _ _ _ Ha Hb Hu1 Hw1 E) as [E1 E2].
  split; [done|]. by apply app_inv_head in E2.
Qed.

(** A fixed-length field. *)
Lemma unamb_fixed {B} (view : A → B) (f : A → option bytes) n :
  (∀ a w, P a → f a = Some w → length w = n) →
  (∀ a b w, P a → P b → f a = Some w → f b = Some w → view a = view b) →
  unambiguous P view f.
Proof.
  intros Hl Hi a b u v x y Ha Hb Hu Hv E.
  assert (u = v ∧ x = y) as [-> ->].
  { apply app_inj_1 in E; [done|]. by rewrite (Hl _ _ Ha Hu), (Hl _ _ Hb Hv). }
  split; [by eapply Hi|done].
Qed.

Lemma unamb_int32 (g : A → Z) :
  (∀ a, P a → is_u32 (g a)) ∨ (∀ a, P a → is_i32 (g a)) →
  unambiguous P g (λ a, Some (enc_int32 (g a))).
Proof.
  intros H. apply (unamb_fixed _ _ 4); [by intros a w _ [= <-]|].
  intros a b w Ha Hb Ea Eb.
  assert (E : enc_int32 (g a) = enc_int32 (g b)) by congruence.
  unfold enc_int32 in E. apply be32_inj in E; [|apply is_u32_u32..].
  destruct H as [H|H].
  - by rewrite !u32_id in E by (by apply H).
  - rewrite <- (i32_id (g a)), <- (i32_id (g b)), <- (i32_u32 (g a)), <- (i32_u32 (g b))
      by (by apply H). by rewrite E.
Qed.

Lemma unamb_int64 (g : A → Z) :
  (∀ a, P a → is_u64 (g a)) → unambiguous P g (λ a, Some (enc_int64 (g a))).
Proof.
  intros H. apply (unamb_fixed _ _ 8); [by intros a w _ [= <-]|].
  intros a b w Ha Hb Ea Eb.
  assert (E : enc_int64 (g a) = enc_int64 (g b)) by congruence.
  unfold enc_int64 in E. apply be64_inj in E; [|apply is_u64_u64..].
  rewrite !u64_id in E; [done|by apply H..].
Qed.

Lemma unamb_string (g : A → option bytes) :
  (∀ a, P a → short_opt (g a)) →
  unambiguous P (λ a, option_map c_str (g a)) (λ a, spec_string (g a)).
Proof.
  intros H a b u v x y Ha Hb Hu Hv E. specialize (H a Ha) as Sa. specialize (H b Hb) as Sb.
  destruct (g a) as [s|], (g b) as [t|]; try done. cbn in *.
  injection Hu as <-. injection Hv as <-.
  specialize (Sa s eq_refl). specialize (Sb t eq_refl). unfold short, strlen in *.
  apply enc_string_inj in E as [-> ->]; [done|unfold is_u32; lia..].
Qed.

Lemma unamb_hex (g : A → option bytes) :
  (∀ a, P a → short_opt (g a)) →
  unambiguous P (λ a, option_map (λ s, hex_bytes (c_str s)) (g a)) (λ a, spec_hex_string (g a)).
Proof.
  intros H a b u v x y Ha Hb Hu Hv E. specialize (H a Ha) as Sa. specialize (H b Hb) as Sb.
  destruct (g a) as [s|], (g b) as [t|]; try done. cbn in *.
  assert (L : ∀ s, short s → strlen s mod 2 = 0 →
    is_u32 (Z.of_nat (length (hex_bytes (c_str s))))).
  { intros s' Hs' Hm. unfold short, strlen in *. pose proof (Zle_0_nat (length (c_str s'))).
    rewrite (length_hex_bytes _ _ (Nat.le_refl _)).
    - rewrite Nat2Z.inj_div. unfold is_u32. Z.to_euclidean_division_equations; lia.
    - apply Nat2Z.inj. rewrite Nat2Z.inj_mod. lia. }
  destruct (Z.eqb_spec (strlen s mod 2) 0) as [Es|]; [|done].
  destruct (Z.eqb_spec (strlen t mod 2) 0) as [Et|]; [|done].
  injection Hu as <-. injection Hv as <-.
  apply enc_string_inj in E as [-> ->]; [done|by apply L; [apply Sa|]|by apply L; [apply Sb|]].
Qed.
End Unambiguous.

(** Lists: the elements one after another, once their number is known. *)
Lemma unamb_each {A B} (P : A → Prop) (view : A → B) f n :
  unambiguous P view f →
  unambiguous (λ l, length l = n ∧ Forall P l) (map view) (spec_each f).
Proof.
  intros H. induction n as [|n IH]; intros [|a l] [|b m] u v x y [La Pa] [Lb Pb];
    try done; cbn [spec_each map].
  { by intros [= <-] [= <-]. }
  apply Forall_cons in Pa as [Pa Pl], Pb as [Pb Pm].
  intros (u1 & u2 & Hu1 & Hu2 & ->)%cat2_Some (w1 & w2 & Hw1 & Hw2 & ->)%cat2_Some E.
  rewrite <- !app_assoc in E. cbn in La, Lb.
  destruct (H _ _ _ _ _ _ Pa Pb Hu1 Hw1 E) as [-> E'].
  destruct (IH l m _ _ _ _ ltac:(split; [lia|done]) ltac:(split; [lia|done]) Hu2 Hw2 E')
    as [-> ->]. done.
Qed.

Lemma unamb_repeated {A B} (P : A → Prop) (view : A → B) f :
  unambiguous P view f →
  unambiguous (λ l, few l ∧ Forall P l) (map view) (spec_repeated f).
Proof.
  unfold spec_repeated. intros H l m u v x y [Fl Pl] [Fm Pm] (u1 & u2 & [= <-] & Hu2 & ->)%cat2_Some
    (w1 & w2 & [= <-] & Hw2 & ->)%cat2_Some E.
  rewrite <- !app_assoc in E. apply app_inj_1 in E as [El E]; [|done].
  unfold few, enc_int32 in *. rewrite !u32_id in El by (unfold is_u32; lia).
  apply be32_inj in El; [|unfold is_u32; lia..].
  eapply (unamb_each P view f (length l) H l m); [done|split; [lia|done]|done..].
Qed.

Lemma unamb_optional {A B} (P : A → Prop) (view : A → B) f :
  unambiguous P view f →
  unambiguous (λ o, ∀ a, o = Some a → P a) (option_map view) (spec_optional f).
Proof.
  intros H [a|] [b|] u v x y Pa Pb; cbn [spec_optional option_map].
  - intros (u1 & u2 & [= <-] & Hu2 & ->)%cat2_Some (w1 & w2 & [= <-] & Hw2 & ->)%cat2_Some E.
    cbn in E. injection E as E.
    destruct (H _ _ _ _ _ _ (Pa _ eq_refl) (Pb _ eq_refl) Hu2 Hw2 E) as [-> ->]. done.
  - intros (u1 & u2 & [= <-] & Hu2 & ->)%cat2_Some [= <-]. done.
  - intros [= <-] (u1 & u2 & [= <-] & Hu2 & ->)%cat2_Some. done.
  - intros [= <-] [= <-] E. cbn in E. by injection E as ->.
Qed.

(** The same encoding of a projection of a struct. *)
Lemma unamb_at {A B C} (P : A → Prop) (Q : B → Prop) (g : A → B) (view : B → C) f :
  unambiguous Q view f → (∀ a, P a → Q (g a)) →
  unambiguous P (λ a, view (g a)) (λ a, f (g a)).
Proof. intros H HQ a b u v x y Ha Hb. apply H; by apply HQ. Qed.

(** Dotted names: the parts determine the name. *)
Fixpoint join_dots (l : list bytes) : bytes :=
  match l with
  | [] => []
  | [p] => p
  | p :: l' => p ++ dot :: join_dots l'
  end.

Lemma split_at_dot_join s :
  s = match split_at_dot s with (part, Some r) => part ++ dot :: r | (part, None) => part end.
Proof.
  induction s as [|c s IH]; [done|]. cbn [split_at_dot].
  destruct (Z.eqb_spec c dot) as [->|]; [done|].
  destruct (split_at_dot s) as [part [r|]]; cbn in *; congruence.
Qed.

Lemma join_split_dots fuel : ∀ s, (length s < fuel)%nat →
  split_dots fuel s ≠ [] ∧ join_dots (split_dots fuel s) = s.
Proof.
  induction fuel as [|fuel IH]; intros s Hf; [lia|]. cbn [split_dots].
  pose proof (split_at_dot_length s) as L. pose proof (split_at_dot_join s) as J.
  destruct (split_at_dot s) as [part [r|]]; [|done]. split; [done|].
  destruct (IH r) as [Hne Hj]; [lia|]. rewrite J. cbn [join_dots].
  destruct (split_dots fuel r); [done|]. by rewrite Hj.
Qed.

Lemma name_parts_inj s t : name_parts s = name_parts t → s = t.
Proof.
  unfold name_parts. intros E.
  destruct (join_split_dots (S (length s)) s) as [_ <-]; [lia|].
  destruct (join_split_dots (S (length t)) t) as [_ <-]; [lia|]. by rewrite E.
Qed.

Lemma split_dots_bounds fuel : ∀ s, (length s < fuel)%nat →
  Forall (λ p, (length p ≤ length s)%nat) (split_dots fuel s).
Proof.
  induction fuel as [|fuel IH]; intros s Hf; [lia|]. cbn [split_dots].
  pose proof (split_at_dot_length s) as L. destruct (split_at_dot s) as [part [r|]].
  - constructor; [lia|]. eapply Forall_impl; [apply IH; lia|]. cbn. lia.
  - repeat constructor. lia.
Qed.

Lemma spec_each_total {A} (f : A → bytes) l :
  spec_each (λ a, Some (f a)) l = Some (flat_map f l).
Proof. induction l as [|a l IH]; [done|]. cbn. by rewrite IH. Qed.

Lemma unamb_parts :
  unambiguous (λ l, few l ∧ Forall (λ p, is_u32 (Z.of_nat (length p))) l) (λ l : list bytes, l)
    (λ l, Some (enc_list enc_string l)).
Proof.
  intros l m u v x y Hl Hm Hu Hv E.
  destruct (unamb_repeated (λ p : bytes, is_u32 (Z.of_nat (length p))) (λ p, p)
    (λ p, Some (enc_string p))) with (a := l) (b := m) (u := u) (v := v) (x := x) (y := y)
    as [E1 E2]; try done.
  - intros a b u' v' x' y' Ha Hb [= <-] [= <-] E'. by apply enc_string_inj.
  - unfold spec_repeated. by rewrite spec_each_total.
  - unfold spec_repeated. by rewrite spec_each_total.
  - by rewrite !map_id in E1.
Qed.

Lemma name_parts_ok s : short s →
  few (name_parts (c_str s)) ∧
  Forall (λ p, is_u32 (Z.of_nat (length p))) (name_parts (c_str s)).
Proof.
  unfold short, strlen, few, name_parts. intros Hs. split.
  - rewrite <- count_parts_length by lia. pose proof (count_parts_bound (c_str s)). lia.
  - eapply Forall_impl; [apply split_dots_bounds; lia|]. cbn. unfold is_u32. lia.
Qed.

Section StructViews.
Context {A : Type} (P : A → Prop).

Lemma unamb_dotted (g : A → option bytes) :
  (∀ a, P a → short_opt (g a)) →
  unambiguous P (λ a, option_map c_str (g a)) (λ a, spec_dotted (g a)).
Proof.
  intros H a b u v x y Ha Hb Hu Hv E. specialize (H a Ha) as Sa. specialize (H b Hb) as Sb.
  destruct (g a) as [s|], (g b) as [t|]; try done. cbn in Hu, Hv |- *.
  destruct (unamb_parts (name_parts (c_str s)) (name_parts (c_str t)) u v x y) as [E1 ->];
    try done; [by apply name_parts_ok, Sa|by apply name_parts_ok, Sb|].
  by rewrite (name_parts_inj _ _ E1).
Qed.

Definition identifier_view (i : Identifier) : option bytes * option bytes * option bytes :=
  (option_map c_str (package_id i), option_map c_str (module_name i),
   option_map c_str (entity_name i)).

Lemma unamb_identifier (g : A → Identifier) :
  (∀ a, P a → short_identifier (g a)) →
  unambiguous P (λ a, identifier_view (g a)) (λ a, spec_identifier (g a)).
Proof.
  intros H. unfold identifier_view, spec_identifier.
  apply unamb_seq; [apply unamb_seq|];
    [apply unamb_string|apply unamb_dotted..]; intros a Ha; by apply H.
Qed.

Lemma unamb_strings (g : A → list (option bytes)) :
  (∀ a, P a → short_list (g a)) →
  unambiguous P (λ a, map (option_map c_str) (g a)) (λ a, spec_repeated spec_string (g a)).
Proof.
  intros H.
  apply (unamb_at P (λ l, few l ∧ Forall short_opt l) g (map (option_map c_str))).
  - apply unamb_repeated. by apply (unamb_string _ id).
  - intros a Ha. destruct (H a Ha) as [H1 H2]. split; [done|by apply Forall_forall].
Qed.

End StructViews.

Lemma unamb_optional_identifier {A} (P : A → Prop) (g : A → option Identifier) :
  (∀ a, P a → ∀ i, g a = Some i → short_identifier i) →
  unambiguous P (λ a, option_map identifier_view (g a))
    (λ a, spec_optional spec_identifier (g a)).
Proof.
  intros H. refine (unamb_at P _ g _ _ (unamb_optional _ _ _
    (unamb_identifier short_identifier (λ i, i) (λ _ H, H))) _). exact H.
Qed.

Lemma unamb_optional_int64 {A} (P : A → Prop) (g : A → option Z) :
  (∀ a, P a → ∀ z, g a = Some z → is_u64 z) →
  unambiguous P (λ a, option_map (λ z, z) (g a))
    (λ a, spec_optional (λ z, Some (enc_int64 z)) (g a)).
Proof.
  intros H. refine (unamb_at P _ g _ _ (unamb_optional _ _ _
    (unamb_int64 is_u64 (λ z, z) (λ _ H, H))) _). exact H.
Qed.

Lemma unamb_hash {A} (P : A → Prop) (g : A → option bytes) :
  (∀ a, P a → ∀ h, g a = Some h → length h = SHA256_HASH_LEN) →
  unambiguous P g (λ a, spec_hash (g a)).
Proof.
  intros H. apply (unamb_fixed _ _ _ SHA256_HASH_LEN).
  - intros a w Ha Hw. destruct (g a) as [h|] eqn:E; [|done]. injection Hw as <-.
    rewrite length_take, (H a Ha h E). done.
  - intros a b w Ha Hb Hu Hv. destruct (g a) as [h|] eqn:Ea, (g b) as [k|] eqn:Eb; try done.
    cbn in Hu, Hv. rewrite take_ge in Hu by (by rewrite (H a Ha h Ea)).
    rewrite take_ge in Hv by (by rewrite (H b Hb k Eb)). congruence.
Qed.

(** What an encoded struct shows: its strings up to their NUL, its contract id as the
    bytes its digits say. *)
Definition hex_view (o : option bytes) : option bytes := option_map (λ s, hex_bytes (c_str s)) o.

Definition metadata_view (m : Metadata) :=
  (map (option_map c_str) (si_act_as (md_submitter_info m)),
   option_map c_str (si_command_id (md_submitter_info m)),
   option_map c_str (md_transaction_uuid m),
   md_mediator_group m,
   option_map c_str (md_synchronizer_id m),
   option_map (λ z, z)
     (has (md_has_min_ledger_effective_time m) (md_min_ledger_effective_time m)),
   option_map (λ z, z)
     (has (md_has_max_ledger_effective_time m) (md_max_ledger_effective_time m)),
   md_preparation_time m,
   md_input_contracts_count m).

(** The ranges of the C fields. *)
Record metadata_ranges (m : Metadata) : Prop := {
  mr_short : metadata_short m;
  mr_group : is_u32 (md_mediator_group m);
  mr_min : is_u64 (md_min_ledger_effective_time m);
  mr_max : is_u64 (md_max_ledger_effective_time m);
  mr_prep : is_u64 (md_preparation_time m);
  mr_count : is_i32 (md_input_contracts_count m)
}.

Lemma unamb_metadata : unambiguous metadata_ranges metadata_view spec_metadata.
Proof.
  unfold metadata_view, spec_metadata.
  apply unamb_seq; [|apply unamb_int32; right; by intros a []].
  apply unamb_seq; [|apply unamb_int64; by intros a []].
  apply unamb_seq; [|apply unamb_optional_int64; unfold has; intros a [] z ?; by case_match; simplify_eq].
  apply unamb_seq; [|apply unamb_optional_int64; unfold has; intros a [] z ?; by case_match; simplify_eq].
  apply unamb_seq; [|apply unamb_string; by intros a [[]]].
  apply unamb_seq; [|apply unamb_int32; left; by intros a []].
  apply unamb_seq; [|apply unamb_string; by intros a [[]]].
  apply unamb_seq; [|apply unamb_string; by intros a [[]]].
  apply unamb_const_l, unamb_strings. by intros a [[]].
Qed.

Definition fetch_view (f : Node_Fetch) :=
  (option_map c_str (f_lf_version f), hex_view (f_contract_id f),
   option_map c_str (f_package_name f), identifier_view (f_template_id f),
   map (option_map c_str) (f_signatories f), map (option_map c_str) (f_stakeholders f),
   option_map identifier_view (f_interface_id f), map (option_map c_str) (f_acting_parties f)).

Lemma unamb_fetch : unambiguous fetch_short fetch_view spec_fetch.
Proof.
  unfold fetch_view, spec_fetch, hex_view.
  apply unamb_seq; [|apply unamb_strings; by intros a []].
  apply unamb_seq; [|apply unamb_optional_identifier; by intros a []].
  apply unamb_seq; [|apply unamb_strings; by intros a []].
  apply unamb_seq; [|apply unamb_strings; by intros a []].
  apply unamb_seq; [|apply unamb_identifier; by intros a []].
  apply unamb_seq; [|apply unamb_string; by intros a []].
  apply unamb_seq; [|apply unamb_hex; by intros a []].
  apply unamb_const_r, unamb_const_l, unamb_string. by intros a [].
Qed.

Section ExerciseView.
Context {cb : Type}.

Definition exercise_view (e : Node_ExerciseCb cb) (seed : option bytes) :=
  (option_map c_str (e_lf_version e), seed, hex_view (e_contract_id e),
   option_map c_str (e_package_name e), identifier_view (e_template_id e),
   map (option_map c_str) (e_signatories e), map (option_map c_str) (e_stakeholders e),
   map (option_map c_str) (e_acting_parties e),
   option_map identifier_view (e_interface_id e), option_map c_str (e_choice_id e)).

Record exercise_ok (p : Node_ExerciseCb cb * option bytes) : Prop := {
  eo_short : exercise_short (fst p);
  eo_seed : ∀ h, snd p = Some h → length h = SHA256_HASH_LEN
}.

Lemma unamb_exercise : unambiguous exercise_ok (λ p, exercise_view (fst p) (snd p))
  (λ p, spec_exercise_start (fst p) (snd p)).
Proof.
  unfold exercise_view, spec_exercise_start, hex_view.
  apply unamb_seq; [|apply unamb_string; by intros a [[]]].
  apply unamb_seq; [|apply unamb_optional_identifier; by intros a [[]]].
  apply unamb_seq; [|apply unamb_strings; by intros a [[]]].
  apply unamb_seq; [|apply unamb_strings; by intros a [[]]].
  apply unamb_seq; [|apply unamb_strings; by intros a [[]]].
  apply unamb_seq; [|apply unamb_identifier; by intros a [[]]].
  apply unamb_seq; [|apply unamb_string; by intros a [[]]].
  apply unamb_seq; [|apply unamb_hex; by intros a [[]]].
  apply unamb_seq; [|apply unamb_hash; by intros a []].
  apply unamb_const_r, unamb_const_l, unamb_string. by intros a [[]].
Qed.
End ExerciseView.

(** ** Properties *)

Lemma refines_ok st e r c : refines st e r → hs_store (e_hs c) = st →
  hs_err (e_hs (e c)) = HASH_OK → ∃ w, r = Some w ∧ e_hw (e c) = e_hw c ++ w.
Proof.
  intros [R _ _] Hst Hok. specialize (R c Hst). destruct r as [w|]; [|done].
  exists w. split; [done|]. by rewrite R.
Qed.

(** The metadata hash covers every field of the metadata.  When no error is recorded,
    the bytes hashed for the metadata, whatever follows them, determine every encoded
    field: two metadata with the same bytes agree on the acting parties, the command, the
    transaction uuid, the mediator group, the synchronizer, both time bounds, the
    preparation time and the number of input contracts. *)
Theorem metadata_hash_covers_fields m1 m2 c1 c2 x y :
  metadata_ranges m1 → metadata_ranges m2 →
  get_hash_error (e_hs (hash_metadata m1 c1)) = HASH_OK →
  get_hash_error (e_hs (hash_metadata m2 c2)) = HASH_OK →
  e_hw (hash_metadata m1 c1) ++ x = e_hw (hash_metadata m2 c2) ++ y →
  metadata_view m1 = metadata_view m2 ∧ x = y.
Proof.
  intros R1 R2 E1 E2 E.
  destruct (refines_ok _ _ _ _ (refines_metadata _ m1 (mr_short _ R1)) eq_refl E1) as (w1 & S1 & W1).
  destruct (refines_ok _ _ _ _ (refines_metadata _ m2 (mr_short _ R2)) eq_refl E2) as (w2 & S2 & W2).
  unfold hash_metadata in E. rewrite W1, W2, <- !app_assoc in E. apply app_inv_head in E.
  by eapply unamb_metadata.
Qed.

(** The hash of a fetch node covers every field that is hashed: two fetch nodes whose
    encodings agree, whatever follows, agree on all of them. *)
Theorem fetch_hash_covers_fields f1 f2 c1 c2 x y :
  fetch_short f1 → fetch_short f2 →
  get_hash_error (e_hs (encode_fetch f1 (hw_init c1))) = HASH_OK →
  get_hash_error (e_hs (encode_fetch f2 (hw_init c2))) = HASH_OK →
  e_hw (encode_fetch f1 (hw_init c1)) ++ x = e_hw (encode_fetch f2 (hw_init c2)) ++ y →
  fetch_view f1 = fetch_view f2 ∧ x = y.
Proof.
  intros R1 R2 E1 E2 E.
  destruct (refines_ok _ _ _ _ (refines_fetch _ f1 R1) eq_refl E1) as (w1 & S1 & W1).
  destruct (refines_ok _ _ _ _ (refines_fetch _ f2 R2) eq_refl E2) as (w2 & S2 & W2).
  rewrite W1, W2 in E. by eapply unamb_fetch.
Qed.

(** The part of an exercise node hashed before its argument covers the node seed and
    every field of that part, the choice and the template among them. *)
Theorem exercise_hash_covers_fields {cb} (x1 x2 : Node_ExerciseCb cb) s1 s2 c1 c2 x y :
  exercise_ok (x1, s1) → exercise_ok (x2, s2) →
  get_hash_error (e_hs (encode_exercise_start x1 s1 (hw_init c1))) = HASH_OK →
  get_hash_error (e_hs (encode_exercise_start x2 s2 (hw_init c2))) = HASH_OK →
  e_hw (encode_exercise_start x1 s1 (hw_init c1)) ++ x =
    e_hw (encode_exercise_start x2 s2 (hw_init c2)) ++ y →
  exercise_view x1 s1 = exercise_view x2 s2 ∧ x = y.
Proof.
  intros R1 R2 E1 E2 E.
  destruct (refines_ok _ _ _ _ (refines_exercise_start _ x1 s1 (eo_short _ R1)) eq_refl E1)
    as (w1 & S1 & W1).
  destruct (refines_ok _ _ _ _ (refines_exercise_start _ x2 s2 (eo_short _ R2)) eq_refl E2)
    as (w2 & S2 & W2).
  rewrite W1, W2 in E. by eapply (unamb_exercise (x1, s1) (x2, s2)).
Qed.

(** ** What every encoder leaves alone

    No encoder writes the node hash store, and none overwrites an error. *)

Record steady (e : encoder) : Prop := {
  sd_store : ∀ c, hs_store (e_hs (e c)) = hs_store (e_hs c);
  sd_count : ∀ c, hs_count (e_hs (e c)) = hs_count (e_hs c);
  sd_err : ∀ c, get_hash_error (e_hs c) ≠ HASH_OK →
    get_hash_error (e_hs (e c)) = get_hash_error (e_hs c)
}.

Create HintDb steady.

Lemma steady_put w : steady (hw_put w).
Proof. by split. Qed.
Lemma steady_id : steady (λ c, c).
Proof. by split. Qed.
Lemma steady_error err : steady (set_hash_error err).
Proof.
  split; intros c; unfold set_hash_error; case_decide as E; try done.
Qed.
Lemma steady_seq e1 e2 : steady e1 → steady e2 → steady (e1 ;+ e2)%enc.
Proof.
  intros [S1 C1 E1] [S2 C2 E2]. split; intros c.
  - by rewrite S2, S1.
  - by rewrite C2, C1.
  - intros Hc. rewrite E2; [by apply E1|by rewrite E1].
Qed.
Lemma steady_branch (e : encoder) (f : enc → encoder) :
  (∀ c, steady (f c)) → steady (λ c, f c c).
Proof. intros Hf. split; intros c; apply (Hf c). Qed.

(** Goes through the statements of an encoder. *)
Ltac steady_steps :=
  repeat first
    [ progress intros
    | apply steady_put | apply steady_id | apply steady_error
    | solve [auto with steady nocore]
    | lazymatch goal with
      | |- steady (λ c, ?g (@?f c)) => apply (steady_seq f g)
      | |- steady (if ?b then _ else _) => destruct b
      | |- steady (let _ := _ in _) => cbv zeta
      end ].

Lemma steady_require {A} (p : option A) k : (∀ a, steady (k a)) → steady (require_field p k).
Proof. intros Hk. destruct p; cbn; [done|apply steady_error]. Qed.
Lemma steady_string s : steady (encode_string s).
Proof. apply steady_require. unfold encode_bytes. steady_steps. Qed.
Lemma steady_hash h : steady (encode_hash h).
Proof. apply steady_require. steady_steps. Qed.
Lemma steady_hex_pairs hex : steady (put_hex_pairs hex).
Proof.
  enough (∀ n hex, (length hex < n)%nat → steady (put_hex_pairs hex)) by eauto.
  clear. induction n as [|n IH]; intros hex Hn; [lia|].
  destruct hex as [|a [|b rest]]; cbn [put_hex_pairs length] in *; try apply steady_id.
  apply steady_seq; [apply steady_put|apply IH; lia].
Qed.
#[export] Hint Resolve steady_string steady_hash steady_hex_pairs : steady.
Lemma steady_hex_string s : steady (encode_hex_string s).
Proof. apply steady_require. steady_steps. Qed.
Lemma steady_optional {A} (fn : A → encoder) v : (∀ a, steady (fn a)) → steady (encode_optional fn v).
Proof. intros Hf. destruct v; cbn [encode_optional]; steady_steps. Qed.
Lemma steady_repeated {A} (fn : A → encoder) l :
  (∀ a, steady (fn a)) → steady (encode_repeated fn l).
Proof.
  intros Hf. unfold encode_repeated. apply steady_seq; [apply steady_put|].
  induction l; cbn [encode_each]; steady_steps.
Qed.
Lemma steady_put_parts fuel : ∀ s, steady (put_parts fuel s).
Proof.
  induction fuel as [|fuel IH]; intros s; cbn [put_parts]; [apply steady_id|].
  destruct (split_at_dot s) as [part [rest|]]; steady_steps.
Qed.
Lemma steady_dotted s : steady (split_dot_and_encode s).
Proof. apply steady_require. intros a. apply steady_seq; [apply steady_put|apply steady_put_parts]. Qed.
#[export] Hint Resolve steady_hex_string steady_optional steady_repeated steady_dotted : steady.
Lemma steady_identifier i : steady (encode_identifier i).
Proof. unfold encode_identifier. steady_steps. Qed.
Lemma steady_node_ids ids : steady (encode_node_ids ids).
Proof.
  induction ids as [|id ids IH]; cbn [encode_node_ids]; [apply steady_id|].
  split; intros c; case_match; try apply steady_error.
  all: apply (steady_seq (hw_put (take SHA256_HASH_LEN _)) _ (steady_put _) IH).
Qed.
#[export] Hint Resolve steady_identifier steady_node_ids : steady.

Section SteadyNodes.
Context {cb : Type}.
Lemma steady_create_start (c : Node_CreateCb cb) seed : steady (encode_create_start c seed).
Proof. unfold encode_create_start. steady_steps. Qed.
Lemma steady_create_end (c : Node_CreateCb cb) : steady (encode_create_end c).
Proof. unfold encode_create_end. steady_steps. Qed.
Lemma steady_exercise_start (e : Node_ExerciseCb cb) seed : steady (encode_exercise_start e seed).
Proof. unfold encode_exercise_start. steady_steps. Qed.
Lemma steady_exercise_middle (e : Node_ExerciseCb cb) : steady (encode_exercise_middle e).
Proof. apply steady_put. Qed.
Lemma steady_children n ids : steady (if (MAX_NODE_CHILDREN <? n)%nat
  then set_hash_error HASH_ERROR_MAX_NODE_CHILDREN_EXCEEDED else encode_repeated_node_ids ids).
Proof. case_match; [apply steady_error|]. unfold encode_repeated_node_ids. steady_steps. Qed.
Lemma steady_exercise_end (e : Node_ExerciseCb cb) : steady (encode_exercise_end e).
Proof.
  pose proof (steady_seq (encode_repeated encode_string (e_choice_observers e)) _
    ltac:(auto with steady) (steady_children (length (e_children e)) (e_children e))) as [S C E].
  split; intros c; [specialize (S c)|specialize (C c)|specialize (E c)];
    unfold encode_exercise_end; by case_match.
Qed.
End SteadyNodes.
Lemma steady_fetch f : steady (encode_fetch f).
Proof. unfold encode_fetch. steady_steps. Qed.
Lemma steady_rollback r : steady (encode_rollback r).
Proof.
  pose proof (steady_seq (λ c, hw_put_byte 0x03 (hw_put_byte NODE_ENCODING_VERSION c)) _
    ltac:(steady_steps) (steady_children (length (r_children r)) (r_children r))) as [S C E].
  split; intros c; [specialize (S c)|specialize (C c)|specialize (E c)];
    unfold encode_rollback; by case_match.
Qed.
Lemma steady_metadata m : steady (encode_metadata m).
Proof.
  unfold encode_metadata. steady_steps; apply steady_optional; intros; apply steady_put.
Qed.
#[export] Hint Resolve steady_create_start steady_create_end steady_exercise_start
  steady_exercise_middle steady_exercise_end steady_fetch steady_rollback steady_metadata : steady.

(** ** The node hash store *)

Definition store_node (h : hash_state) (p : Z * bytes) : hash_state :=
  set_node_hash (fst p) (snd p) h.

(** The store after the nodes [H], from a cursor at [c0]: the last [MAX_NODE_CHILDREN]
    entries of [H], each in its slot, and empty slots. *)
Record store_window (c0 : nat) (H : list (Z * bytes)) (h : hash_state) : Prop := {
  sw_length : length (hs_store h) = MAX_NODE_CHILDREN;
  sw_cursor : hs_count h = ((c0 + length H) mod MAX_NODE_CHILDREN)%nat;
  sw_kept : ∀ i p, (length H ≤ i + MAX_NODE_CHILDREN)%nat → H !! i = Some p →
    hs_store h !! ((c0 + i) mod MAX_NODE_CHILDREN)%nat =
      Some {| pn_id := fst p; pn_hash := snd p |};
  sw_only : ∀ k e, hs_store h !! k = Some e →
    pn_id e = -1 ∨ ∃ i, (length H ≤ i + MAX_NODE_CHILDREN)%nat ∧
      H !! i = Some (pn_id e, pn_hash e) ∧ k = ((c0 + i) mod MAX_NODE_CHILDREN)%nat
}.

Lemma mod_distinct a b m : (a < b < a + m)%nat → (a mod m ≠ b mod m)%nat.
Proof.
  intros H E. pose proof (Nat.div_mod_eq a m). pose proof (Nat.div_mod_eq b m).
  assert (b / m = a / m ∨ b / m ≥ a / m + 1 ∨ b / m + 1 ≤ a / m)%nat as [?|[?|?]] by lia; nia.
Qed.

Lemma store_window_step c0 H h p : store_window c0 H h → store_window c0 (H ++ [p]) (store_node h p).
Proof.
  intros [L C K O]. unfold store_node, set_node_hash.
  assert (Hlt : (hs_count h < MAX_NODE_CHILDREN)%nat).
  { rewrite C. by apply Nat.mod_upper_bound. }
  split; cbn -[MAX_NODE_CHILDREN Nat.modulo].
  - by rewrite length_insert.
  - rewrite C, length_app, Nat.Div0.add_mod_idemp_l. f_equal. cbn. lia.
  - intros i q Hi Hq. rewrite length_app in Hi; cbn in Hi.
    destruct (decide (i = length H)) as [->|Hne].
    + rewrite <- C, list_lookup_insert_eq by lia.
      rewrite lookup_app_r, Nat.sub_diag in Hq by lia. cbn in Hq. by injection Hq as <-.
    + assert (i < length H)%nat.
      { apply lookup_lt_Some in Hq. rewrite length_app in Hq. cbn in Hq. lia. }
      rewrite lookup_app_l in Hq by lia. rewrite list_lookup_insert_ne.
      * apply K; [lia|done].
      * rewrite C. apply not_eq_sym, mod_distinct. lia.
  - intros k e He. apply list_lookup_insert_Some in He as [(<- & <- & _)|(Hne & He)].
    + right. exists (length H). rewrite length_app; cbn.
      rewrite lookup_app_r, Nat.sub_diag by lia. cbn. split_and!; [lia|by destruct p|done].
    + destruct (O _ _ He) as [?|(i & Hi & HH & ->)]; [by left|right].
      pose proof (lookup_lt_Some _ _ _ HH).
      exists i. rewrite length_app, lookup_app_l by lia. cbn. split_and!; [|done|done].
      destruct (decide (i + MAX_NODE_CHILDREN = length H)%nat) as [Hi'|]; [|lia].
      destruct Hne. rewrite C, <- Hi'.
      replace (c0 + (i + MAX_NODE_CHILDREN))%nat with (c0 + i + 1 * MAX_NODE_CHILDREN)%nat by lia.
      by rewrite Nat.Div0.mod_add.
Qed.

Lemma store_window_run h0 H : (hs_count h0 < MAX_NODE_CHILDREN)%nat →
  store_window (hs_count h0) H (foldl store_node (init_node_hash_store h0) H).
Proof.
  intros Hc. induction H as [|p H IH] using rev_ind.
  - split; cbn -[MAX_NODE_CHILDREN Nat.modulo].
    + done.
    + by rewrite Nat.add_0_r, Nat.mod_small.
    + intros i p _ Hp. by rewrite lookup_nil in Hp.
    + intros k e He. apply (lookup_replicate (A := PrecomputedNodeHash) MAX_NODE_CHILDREN) in He
        as [-> _]. by left.
  - rewrite foldl_app. by apply store_window_step.
Qed.

Lemma find_node_hash_spec id l h : find_node_hash id l = Some h →
  ∃ k e, l !! k = Some e ∧ pn_id e = id ∧ pn_hash e = h.
Proof.
  induction l as [|e l IH]; cbn; [done|]. destruct (Z.eqb_spec (pn_id e) id).
  - intros [= <-]. by exists 0%nat, e.
  - intros (k & e' & ?)%IH. by exists (S k), e'.
Qed.

Lemma find_node_hash_present id l k e : l !! k = Some e → pn_id e = id →
  find_node_hash id l ≠ None.
Proof.
  revert k. induction l as [|e' l IH]; intros [|k]; cbn; try done.
  - intros [= ->] ->. by rewrite Z.eqb_refl.
  - intros He Hid. destruct (pn_id e' =? id); [done|by eapply IH].
Qed.

(** C23: The node hash store is a window, never a wrong answer.  After any nodes with
    distinct ids, none of them negative, were stored, from any position of the cursor, looking
    up an id that is not negative gives the hash stored for it when it is among the last 32
    nodes, and fails otherwise. *)
Theorem node_hash_store_is_a_window h0 H id hash :
  (hs_count h0 < MAX_NODE_CHILDREN)%nat → NoDup (map fst H) →
  Forall (λ p, 0 ≤ fst p) H → 0 ≤ id →
  find_node_hash id (hs_store (foldl store_node (init_node_hash_store h0) H)) = Some hash ↔
  (id, hash) ∈ drop (length H - MAX_NODE_CHILDREN) H.
Proof.
  intros Hc Hnd Hpos Hid. pose proof (store_window_run h0 H Hc) as [L C K O].
  set (h := foldl store_node _ H) in *. split.
  - intros (k & e & He & <- & <-)%find_node_hash_spec.
    destruct (O _ _ He) as [?|(i & Hi & HH & _)]; [lia|].
    apply list_elem_of_lookup. exists (i - (length H - MAX_NODE_CHILDREN))%nat.
    rewrite lookup_drop. rewrite <- HH. f_equal. lia.
  - intros [j Hj]%list_elem_of_lookup. rewrite lookup_drop in Hj.
    pose proof (lookup_lt_Some _ _ _ Hj).
    assert (F : find_node_hash id (hs_store h) ≠ None).
    { eapply find_node_hash_present; [eapply K; [|exact Hj]; lia|done]. }
    destruct (find_node_hash id (hs_store h)) as [h'|] eqn:E; [|done].
    apply find_node_hash_spec in E as (k & e & He & Hide & <-).
    destruct (O _ _ He) as [?|(i & Hi & HH & _)]; [lia|].
    assert (i = (length H - MAX_NODE_CHILDREN + j)%nat) as ->.
    { eapply (NoDup_lookup (map fst H)); [done|rewrite list_lookup_fmap, HH; reflexivity|].
      by rewrite list_lookup_fmap, Hj, Hide. }
    rewrite Hj in HH. by injection HH as _ ->.
Qed.

(** An error is never overwritten: once the hashing of a transaction met one, every
    later encoding of its nodes and metadata leaves that same error in place. *)
Theorem first_hash_error_stays {cb} (x : Node_ExerciseCb cb) (c : Node_CreateCb cb) f r m e s :
  get_hash_error (e_hs e) ≠ HASH_OK →
  Forall (λ enc, get_hash_error (e_hs (enc e)) = get_hash_error (e_hs e))
    [encode_exercise_start x s; encode_exercise_end x; encode_create_start c s;
     encode_create_end c; encode_fetch f; encode_rollback r; encode_metadata m].
Proof. intros He. repeat constructor; apply sd_err; auto with steady. Qed.

(** ** Witnesses *)

Definition short_optb (o : option bytes) : bool :=
  match o with Some s => strlen s <? 2 ^ 31 - 1 | None => true end.
Lemma short_optb_spec o : short_optb o = true → short_opt o.
Proof. destruct o as [s|]; [|done]. intros H t [= <-]. unfold short. cbn in H. lia. Qed.

Definition short_listb (l : list (option bytes)) : bool :=
  (Z.of_nat (length l) <? 2 ^ 31) && forallb short_optb l.
Lemma short_listb_spec l : short_listb l = true → short_list l.
Proof.
  unfold short_listb, short_list, few. rewrite andb_true_iff, forallb_forall. intros [H1 H2].
  split; [lia|]. intros s Hs. apply short_optb_spec, H2. by apply list_elem_of_In.
Qed.

Definition short_identifierb (i : Identifier) : bool :=
  short_optb (package_id i) && short_optb (module_name i) && short_optb (entity_name i).
Lemma short_identifierb_spec i : short_identifierb i = true → short_identifier i.
Proof.
  unfold short_identifierb. rewrite !andb_true_iff. intros [[H1 H2] H3].
  split_and!; by apply short_optb_spec.
Qed.

#[local] Ltac short_sample :=
  first [apply short_optb_spec; reflexivity | apply short_listb_spec; reflexivity
        |apply short_identifierb_spec; reflexivity
        |intros i [= <-]; apply short_identifierb_spec; reflexivity].

Definition sample_identifier : Identifier :=
  {| package_id := Some (lit "pkg"); module_name := Some (lit "Splice.Amulet");
     entity_name := Some (lit "Amulet") |}.
Definition sample_metadata : Metadata :=
  {| md_has_submitter_info := true;
     md_submitter_info := {| si_act_as := [Some (lit "alice")]; si_command_id := Some (lit "c") |};
     md_synchronizer_id := Some (lit "sync"); md_mediator_group := 0;
     md_transaction_uuid := Some (lit "uuid"); md_preparation_time := 7;
     md_input_contracts_count := 1;
     md_has_min_ledger_effective_time := true; md_min_ledger_effective_time := 5;
     md_has_max_ledger_effective_time := false; md_max_ledger_effective_time := 0 |}.
Definition sample_fetch : Node_Fetch :=
  {| f_lf_version := Some (lit "2.1"); f_contract_id := Some (lit "00ab");
     f_package_name := Some (lit "splice"); f_has_template_id := true;
     f_template_id := sample_identifier; f_signatories := [Some (lit "alice")];
     f_stakeholders := [Some (lit "alice"); Some (lit "bob")]; f_acting_parties := [];
     f_interface_id := Some sample_identifier |}.
Definition sample_exercise : Node_ExerciseCb unit :=
  {| e_lf_version := Some (lit "2.1"); e_contract_id := Some (lit "00ab");
     e_package_name := Some (lit "splice"); e_has_template_id := true;
     e_template_id := sample_identifier; e_signatories := [Some (lit "alice")];
     e_stakeholders := []; e_acting_parties := [Some (lit "alice")]; e_interface_id := None;
     e_choice_id := Some (lit "Transfer"); e_chosen_value := None; e_consuming := true;
     e_children := []; e_exercise_result := None; e_choice_observers := [] |}.
Definition sample_create : Node_CreateCb unit :=
  {| c_lf_version := Some (lit "2.1"); c_contract_id := Some (lit "00ab");
     c_package_name := Some (lit "splice"); c_has_template_id := true;
     c_template_id := sample_identifier; c_argument := None;
     c_signatories := [Some (lit "alice")]; c_stakeholders := [] |}.
Definition sample_enc (err : HashError) : enc :=
  {| e_hw := []; e_hs := {| hs_err := err; hs_store := []; hs_count := 0 |} |}.
Definition sample_seed : option bytes := Some (replicate SHA256_HASH_LEN 7).

Lemma sample_metadata_ranges : metadata_ranges sample_metadata.
Proof.
  split; [split; short_sample|unfold is_u32, is_u64, is_i32; cbn; lia..].
Qed.
Lemma sample_fetch_short : fetch_short sample_fetch.
Proof. split; short_sample. Qed.
Lemma sample_exercise_short : exercise_short sample_exercise.
Proof. split; by try short_sample. Qed.
Lemma sample_create_short : create_short sample_create.
Proof. split; short_sample. Qed.

Lemma metadata_hash_covers_fields_witness :
  metadata_view sample_metadata = metadata_view sample_metadata ∧ [1] = [1].
Proof.
  apply (metadata_hash_covers_fields sample_metadata sample_metadata
           (sample_enc HASH_OK) (sample_enc HASH_OK) [1] [1]);
    [exact sample_metadata_ranges|exact sample_metadata_ranges|vm_compute; reflexivity..].
Defined.

Lemma fetch_hash_covers_fields_witness :
  fetch_view sample_fetch = fetch_view sample_fetch ∧ [1] = [1].
Proof.
  apply (fetch_hash_covers_fields sample_fetch sample_fetch
           (sample_enc HASH_OK) (sample_enc HASH_OK) [1] [1]);
    [exact sample_fetch_short|exact sample_fetch_short|vm_compute; reflexivity..].
Defined.

Lemma exercise_hash_covers_fields_witness :
  exercise_view sample_exercise sample_seed = exercise_view sample_exercise sample_seed ∧ [1] = [1].
Proof.
  apply (exercise_hash_covers_fields sample_exercise sample_exercise sample_seed sample_seed
           (sample_enc HASH_OK) (sample_enc HASH_OK) [1] [1]);
    [split; [exact sample_exercise_short|by intros h [= <-]]..|vm_compute; reflexivity|
     vm_compute; reflexivity|vm_compute; reflexivity].
Defined.

Lemma node_hash_store_is_a_window_witness :
  find_node_hash 3 (hs_store (foldl store_node
    (init_node_hash_store (e_hs (sample_enc HASH_OK))) [(2, [9]); (3, [8])])) = Some [8] ↔
  (3, [8]) ∈ [(2, [9]); (3, [8])].
Proof.
  apply (node_hash_store_is_a_window (e_hs (sample_enc HASH_OK)) [(2, [9]); (3, [8])] 3 [8]).
  - cbn. unfold MAX_NODE_CHILDREN. lia.
  - apply (bool_decide_unpack _). vm_compute. constructor.
  - repeat constructor; cbn; lia.
  - lia.
Defined.

Lemma first_hash_error_stays_witness :
  Forall (λ enc, get_hash_error (e_hs (enc (sample_enc HASH_ERROR_MISSING_FIELD))) =
                 HASH_ERROR_MISSING_FIELD)
    [encode_exercise_start sample_exercise sample_seed; encode_exercise_end sample_exercise;
     encode_create_start sample_create sample_seed; encode_create_end sample_create;
     encode_fetch sample_fetch; encode_rollback {| r_children := [] |};
     encode_metadata sample_metadata].
Proof.
  apply (first_hash_error_stays sample_exercise sample_create sample_fetch {| r_children := [] |}
           sample_metadata (sample_enc HASH_ERROR_MISSING_FIELD) sample_seed).
  discriminate.
Defined.
