(* ===== verification/HashingParser.v ===== *)
(** * Hashing parser ([src/transaction/pb_hashing_parser.c])

    One pass over the protobuf of a node or of an input contract, which hashes it as it
    is read.  A callback of nanopb is a constructor of [hcb], and [run] is the function
    pointer call: it gives each constructor the C function it names.  A callback only
    starts callbacks on substreams shorter than its own stream, so the fuel of [run] is
    the length of the buffer ([parse_fuel]).

    The parser keeps its static [ctx], reports to the node tree check and to the values
    check, and writes the transaction hasher of its caller. *)

From S2P Require Import Prelude Constants Utils Pb Wire Messages CanonicalHash TreeCheck ValuesCheck.

Definition VALUE_ELEM_COUNT_NONE : Z := -1.

(** The decode functions that callback fields point to. *)
Inductive hcb :=
  | count_identifier_cb
  | count_record_field_cb
  | count_list_elem_cb
  | count_text_map_entry_cb
  | count_gen_map_entry_cb
  | count_value_cb
  | decode_record_field_label_cb
  | decode_variant_constructor_cb
  | decode_textmap_key_cb
  | decode_node_id_field_cb
  | decode_record_field_cb
  | decode_list_elem_cb
  | decode_value_cb
  | decode_text_map_entry_cb
  | decode_gen_map_entry_cb
  | decode_identifier_cb
  | decode_record_id_cb
  | decode_value_variant_cb
  | decode_value_field_cb
  | node_decode_callback_cb
  | versioned_node_decode_callback_cb
  | decode_create_cb.

(** The static [ctx]; the part of [tx_info] the parser reads (the announced transaction)
    and writes (the hasher); the modules it reports to; the clock of the device. *)
Record hp_state := {
  hp_clock : nat;
  hp_tx : DamlTransaction;
  hp_hasher : bytes;
  hp_node_id : Z;
  hp_is_root_node : bool;
  hp_is_input_contract : bool;
  hp_children_claimed : bool;
  hp_elem_count : Z;
  hp_node_hw : bytes;
  hp_hash : hash_state;
  hp_tree : tree_check_context_t;
  hp_store : store_t
}.
#[export] Instance eta_hp_state : Eta hp_state := λ s,
  Build_hp_state (hp_clock s) (hp_tx s) (hp_hasher s) (hp_node_id s) (hp_is_root_node s)
    (hp_is_input_contract s) (hp_children_claimed s) (hp_elem_count s) (hp_node_hw s)
    (hp_hash s) (hp_tree s) (hp_store s).

Section Parser.
Context `{Sha256} `{Device}.

Definition HM : Type → Type := M hp_state.

#[export] Instance hp_realloc : Realloc hp_state := λ n s,
  let s' := s <| hp_clock ::= S |> in
  if heap_has (hp_clock s) n then (Ret tt, s') else (Fail, s').

(** [stack_has_room], and the allocation of the used-contract list. *)
Definition stack_has_room : HM unit := λ s,
  let s' := s <| hp_clock ::= S |> in
  if stack_room (hp_clock s) then (Ret tt, s') else (Fail, s').

(** An encoder applied to [ctx.node_hw]. *)
Definition hw_node (f : encoder) : HM unit := modify (λ s,
  let e := f {| e_hw := hp_node_hw s; e_hs := hp_hash s |} in
  s <| hp_node_hw := e_hw e |> <| hp_hash := e_hs e |>).
(** An encoder applied to [tx_ctx->hasher]. *)
Definition hw_hasher (f : encoder) : HM unit := modify (λ s,
  let e := f {| e_hw := hp_hasher s; e_hs := hp_hash s |} in
  s <| hp_hasher := e_hw e |> <| hp_hash := e_hs e |>).

Definition record_used_contract (contract_id : option bytes) : HM unit := modify (λ s,
  s <| hp_clock ::= S |>
    <| hp_store ::= values_record_used_contract
         (heap_has (hp_clock s) (Z.of_nat (MAX_USED_CONTRACTS * USED_CONTRACT_LEN)))
         contract_id |>).

Definition count_one : HM unit := modify (λ s, s <| hp_elem_count ::= λ n, n + 1 |>).

(** ** Setting the callbacks of a value's submessage *)

Definition set_record_fields (c : hcb) (u : value_union hcb) : value_union hcb :=
  match u with U_record i _ => U_record i (Some c) | _ => U_record None (Some c) end.
Definition set_variant_id (c : hcb) (u : value_union hcb) : value_union hcb :=
  match u with U_variant _ k v => U_variant (Some c) k v | _ => U_variant (Some c) None None end.

(** ** Counting *)

Definition count_value (tag : Z) (stream : istream) (v : cbValue hcb)
  : HM (istream * cbValue hcb) :=
  do* modify (λ s, s <| hp_elem_count := 0 |>) in
  if (1 <=? tag) && (tag <=? 9) then ret (stream, v)
  else if tag =? VALUE_OPTIONAL_TAG then
    ret (stream, v <| v_union := U_optional (Some count_list_elem_cb) |>)
  else if tag =? VALUE_LIST_TAG then
    ret (stream, v <| v_union := U_list (Some count_list_elem_cb) |>)
  else if tag =? VALUE_TEXT_MAP_TAG then
    ret (stream, v <| v_union := U_text_map (Some count_text_map_entry_cb) |>)
  else if tag =? VALUE_GEN_MAP_TAG then
    ret (stream, v <| v_union := U_gen_map (Some count_gen_map_entry_cb) |>)
  else if tag =? VALUE_RECORD_TAG then
    ret (stream, v <| v_union ::= set_record_fields count_record_field_cb |>)
  else if tag =? VALUE_VARIANT_TAG then
    ret (stream, v <| v_union ::= set_variant_id count_identifier_cb |>)
  else if tag =? VALUE_ENUM_TAG then ret (stream, v)
  else abort.

Definition decode_enum (stream : istream) : HM istream :=
  let* e := pb_decode_inner cbEnum_fields stream cbEnum_zero in
  do* hw_node (if en_has_enum_id e then (hw_put_byte 0x01 ;+ encode_identifier (en_enum_id e))%enc
               else hw_put_byte 0x00) in
  do* hw_node (encode_string (en_constructor e)) in
  ret [].

Definition decode_value_variant (tag : Z) (stream : istream) (v : cbValue hcb)
  : HM (istream * cbValue hcb) :=
  let* count := gets hp_elem_count in
  let presence := if count =? 0 then 0x00 else 0x01 in
  let count_used := modify (λ s, s <| hp_elem_count := VALUE_ELEM_COUNT_NONE |>) in
  if (1 <=? tag) && (tag <=? 9) then ret (stream, v)
  else if tag =? VALUE_OPTIONAL_TAG then
    do* hw_node (hw_put_byte 0x09) in
    do* hw_node (hw_put_byte presence) in
    do* count_used in
    ret (stream, v <| v_union := U_optional (Some decode_value_cb) |>)
  else if tag =? VALUE_LIST_TAG then
    do* hw_node (hw_put_byte 0x0a) in
    do* hw_node (encode_int32 count) in
    do* count_used in
    ret (stream, v <| v_union := U_list (Some decode_list_elem_cb) |>)
  else if tag =? VALUE_TEXT_MAP_TAG then
    do* hw_node (hw_put_byte 0x0b) in
    do* hw_node (encode_int32 count) in
    do* count_used in
    ret (stream, v <| v_union := U_text_map (Some decode_text_map_entry_cb) |>)
  else if tag =? VALUE_GEN_MAP_TAG then
    do* hw_node (hw_put_byte 0x0f) in
    do* hw_node (encode_int32 count) in
    do* count_used in
    ret (stream, v <| v_union := U_gen_map (Some decode_gen_map_entry_cb) |>)
  else if tag =? VALUE_RECORD_TAG then
    do* hw_node (hw_put_byte 0x0c) in
    ret (stream, v <| v_union := U_record (Some decode_record_id_cb) (Some decode_record_field_cb) |>)
  else if tag =? VALUE_VARIANT_TAG then
    do* hw_node (hw_put_byte 0x0d) in
    do* hw_node (hw_put_byte presence) in
    do* count_used in
    ret (stream, v <| v_union := U_variant (Some decode_identifier_cb)
                        (Some decode_variant_constructor_cb) (Some decode_value_cb) |>)
  else if tag =? VALUE_ENUM_TAG then
    do* hw_node (hw_put_byte 0x0e) in
    let* rest := decode_enum stream in
    ret (rest, v)
  else abort.

(** The call through [cb_sum.funcs.decode]. *)
Definition run_sum (c : hcb) (tag : Z) (stream : istream) (v : cbValue hcb)
  : HM (istream * cbValue hcb) :=
  match c with
  | count_value_cb => count_value tag stream v
  | decode_value_variant_cb => decode_value_variant tag stream v
  | _ => abort
  end.

(** ** Leaves *)

Definition decode_value_primitive_variants (v : cbValue hcb) : HM unit :=
  let z := match v_union v with U_int z => z | _ => 0 end in
  let str := match v_union v with U_str s => s | _ => None end in
  let b := match v_union v with U_bool b => b | _ => false end in
  if which_sum v =? VALUE_UNIT_TAG then hw_node (hw_put_byte 0x00)
  else if which_sum v =? VALUE_BOOL_TAG then
    hw_node (hw_put_byte 0x01 ;+ encode_bool b)%enc
  else if which_sum v =? VALUE_INT64_TAG then
    hw_node (hw_put_byte 0x02 ;+ encode_int64 z)%enc
  else if which_sum v =? VALUE_DATE_TAG then
    hw_node (hw_put_byte 0x05 ;+ encode_int32 z)%enc
  else if which_sum v =? VALUE_TIMESTAMP_TAG then
    hw_node (hw_put_byte 0x04 ;+ encode_int64 z)%enc
  else if which_sum v =? VALUE_NUMERIC_TAG then
    hw_node (hw_put_byte 0x03 ;+ encode_string str)%enc
  else if which_sum v =? VALUE_PARTY_TAG then
    hw_node (hw_put_byte 0x06 ;+ encode_string str)%enc
  else if which_sum v =? VALUE_TEXT_TAG then
    hw_node (hw_put_byte 0x07 ;+ encode_string str)%enc
  else if which_sum v =? VALUE_CONTRACT_ID_TAG then
    hw_node (hw_put_byte 0x08 ;+ encode_hex_string str)%enc
  else ret tt.

(** What a buffer of [DEFAULT_DECODE_BUFFER_SIZE] takes of a stream: all of it when it is
    shorter, else all but the terminator. *)
Definition buffer_read (stream : istream) : nat :=
  if (length stream <? DEFAULT_DECODE_BUFFER_SIZE)%nat then length stream
  else (DEFAULT_DECODE_BUFFER_SIZE - 1)%nat.

Definition decode_record_field_label (stream : istream) : HM istream :=
  let* (label_buffer, stream) := of_option (pb_read (buffer_read stream) stream) in
  do* hw_node (hw_put_byte 0x01) in
  do* hw_node (encode_string (Some label_buffer)) in
  ret stream.

Definition decode_variant_constructor (stream : istream) : HM istream :=
  let* (constructor_buffer, stream) := of_option (pb_read (buffer_read stream) stream) in
  do* hw_node (encode_string (Some constructor_buffer)) in
  ret stream.

Definition decode_textmap_key (stream : istream) : HM istream :=
  let* (key_buffer, stream) := of_option (pb_read (buffer_read stream) stream) in
  do* hw_node (encode_string (Some key_buffer)) in
  ret stream.

Definition decode_node_id_field (stream : istream) : HM istream :=
  do* guard (length stream <? 4)%nat in
  let* (node_id_str, stream) := of_option (pb_read (length stream) stream) in
  let* tx := gets hp_tx in
  do* modify (λ s,
    if existsb (λ root, opt_str_eqb root node_id_str) (tx_roots tx)
    then s <| hp_is_root_node := true |> else s) in
  do* modify (λ s, s <| hp_node_id := atoint node_id_str |>) in
  ret stream.

Definition decode_identifier (stream : istream) : HM istream :=
  let* id := pb_decode_inner Identifier_fields stream Identifier_zero in
  do* hw_node (encode_identifier id) in
  ret [].

Definition decode_record_id (stream : istream) : HM istream :=
  do* hw_node (hw_put_byte 0x01) in
  let* res := attempt (decode_identifier stream) in
  let* count := gets hp_elem_count in
  do* (if count =? VALUE_ELEM_COUNT_NONE then ret tt
       else
         do* hw_node (encode_int32 count) in
         modify (λ s, s <| hp_elem_count := VALUE_ELEM_COUNT_NONE |>)) in
  of_option res.

Definition count_identifier (stream : istream) : HM istream :=
  do* pb_decode_inner Identifier_fields stream Identifier_zero in
  do* count_one in
  ret [].

(** ** The callbacks that decode a message with callbacks of its own *)

Section Open.
Variable run : hcb → istream → HM istream.

Abbreviation value_msg := (Value_fields run run_sum).
Abbreviation labelled_msg := (Labelled_fields run run_sum).
Abbreviation gen_map_entry_msg := (GenMapEntry_fields run run_sum).

Definition with_sum (c : option hcb) (v : cbValue hcb) : cbValue hcb := v <| cb_sum := c |>.

Definition count_record_field (stream : istream) : HM istream :=
  do* pb_decode_inner labelled_msg stream cbLabelled_zero in
  do* count_one in
  ret [].
Definition count_list_elem (stream : istream) : HM istream :=
  do* pb_decode_inner value_msg stream cbValue_zero in
  do* count_one in
  ret [].
Definition count_text_map_entry (stream : istream) : HM istream :=
  do* pb_decode_inner labelled_msg stream cbLabelled_zero in
  do* count_one in
  ret [].
Definition count_gen_map_entry (stream : istream) : HM istream :=
  do* pb_decode_inner gen_map_entry_msg stream cbGenMapEntry_zero in
  do* count_one in
  ret [].

(** The helpers read the stream and rewind it: they keep only the count. *)
Definition count_value_helper (stream : istream) : HM unit :=
  do* pb_decode_inner value_msg stream (with_sum (Some count_value_cb) cbValue_zero) in
  ret tt.
Definition count_gen_map_helper (stream : istream) : HM unit :=
  do* pb_decode_inner gen_map_entry_msg stream
        (cbGenMapEntry_zero <| gm_value ::= with_sum (Some count_value_cb) |>) in
  ret tt.
Definition count_text_map_helper (stream : istream) : HM unit :=
  do* pb_decode_inner labelled_msg stream
        (cbLabelled_zero <| lb_value ::= with_sum (Some count_value_cb) |>) in
  ret tt.
Definition count_record_field_helper (stream : istream) : HM unit :=
  do* pb_decode_inner labelled_msg stream
        (cbLabelled_zero <| lb_value ::= with_sum (Some count_value_cb) |>) in
  ret tt.

Definition decode_record_field (stream : istream) : HM istream :=
  do* stack_has_room in
  do* count_record_field_helper stream in
  let* rf := pb_decode_inner labelled_msg stream
    (cbLabelled_zero <| lb_value ::= with_sum (Some decode_value_variant_cb) |>
                     <| lb_label := Some decode_record_field_label_cb |>) in
  do* decode_value_primitive_variants (lb_value rf) in
  ret [].

Definition decode_list_elem (stream : istream) : HM istream :=
  do* stack_has_room in
  do* count_value_helper stream in
  let* v := pb_decode_inner value_msg stream
    (with_sum (Some decode_value_variant_cb) cbValue_zero) in
  do* decode_value_primitive_variants v in
  ret [].

Definition decode_value (stream : istream) : HM istream :=
  do* stack_has_room in
  do* count_value_helper stream in
  let* v := pb_decode_inner value_msg stream
    (with_sum (Some decode_value_variant_cb) cbValue_zero) in
  do* decode_value_primitive_variants v in
  ret [].

Definition decode_text_map_entry (stream : istream) : HM istream :=
  do* stack_has_room in
  do* count_text_map_helper stream in
  let* entry := pb_decode_inner labelled_msg stream
    (cbLabelled_zero <| lb_label := Some decode_textmap_key_cb |>
                     <| lb_value ::= with_sum (Some decode_value_variant_cb) |>) in
  do* decode_value_primitive_variants (lb_value entry) in
  ret [].

Definition decode_gen_map_entry (stream : istream) : HM istream :=
  do* stack_has_room in
  do* count_gen_map_helper stream in
  let* entry := pb_decode_inner gen_map_entry_msg stream
    (cbGenMapEntry_zero <| gm_key ::= with_sum (Some decode_value_variant_cb) |>) in
  do* decode_value_primitive_variants (gm_key entry) in
  let entry := entry <| gm_key ::= with_sum None |>
                     <| gm_value ::= with_sum (Some decode_value_variant_cb) |> in
  let* entry := pb_decode_inner gen_map_entry_msg stream (cbGenMapEntry_defaults entry) in
  do* decode_value_primitive_variants (gm_value entry) in
  ret [].

Definition decode_value_field (stream : istream) : HM istream :=
  do* count_value_helper stream in
  let* v := pb_decode_inner value_msg stream
    (with_sum (Some decode_value_variant_cb) cbValue_zero) in
  do* decode_value_primitive_variants v in
  ret [].

(** ** Presence checks on a decoded node

    An array of strings is a list, so the test that the array itself is not NULL always
    passes. *)

Definition require_present {A} (p : option A) : bool := is_set p.
Definition require_strings (values : list (option bytes)) : bool := forallb require_present values.
Definition require_identifier (has_id : bool) (id : Identifier) : bool :=
  if negb has_id then false
  else require_present (package_id id) && require_present (module_name id) &&
       require_present (entity_name id).

Definition create_is_complete (c : Node_CreateCb hcb) : bool :=
  require_present (c_lf_version c) && require_present (c_contract_id c) &&
  require_present (c_package_name c) &&
  require_identifier (c_has_template_id c) (c_template_id c) &&
  require_strings (c_signatories c) && require_strings (c_stakeholders c).

Definition exercise_is_complete (e : Node_ExerciseCb hcb) : bool :=
  require_present (e_lf_version e) && require_present (e_contract_id e) &&
  require_present (e_package_name e) && require_present (e_choice_id e) &&
  require_identifier (e_has_template_id e) (e_template_id e) &&
  require_strings (e_signatories e) && require_strings (e_stakeholders e) &&
  require_strings (e_acting_parties e) && require_strings (e_choice_observers e) &&
  require_strings (e_children e).

Definition fetch_is_complete (f : Node_Fetch) : bool :=
  require_present (f_lf_version f) && require_present (f_contract_id f) &&
  require_present (f_package_name f) &&
  require_identifier (f_has_template_id f) (f_template_id f) &&
  require_strings (f_signatories f) && require_strings (f_stakeholders f) &&
  require_strings (f_acting_parties f).

Definition optional_interface_is_complete (interface_id : option Identifier) : bool :=
  match interface_id with None => true | Some id => require_identifier true id end.

(** ** Nodes *)

(** The loop over [node_seeds], which only a node id that was read enters: [Fail] is a
    seed of the wrong length. *)
Fixpoint find_seed (node_id : Z) (seeds : list NodeSeed) : HM (option bytes) :=
  match seeds with
  | [] => ret None
  | s :: rest =>
      if ns_node_id s =? node_id then
        match ns_seed s with
        | Some b => if (length b =? SHA256_HASH_LEN)%nat then ret (Some b) else fail
        | None => fail
        end
      else find_seed node_id rest
  end.
Definition node_seed : HM (option bytes) :=
  let* s := get in
  if 0 <=? hp_node_id s then find_seed (hp_node_id s) (tx_node_seeds (hp_tx s)) else ret None.

(** A node claims its children once for each node part. *)
Definition claim_children (children : list (option bytes)) : HM unit := modify (λ s,
  if hp_children_claimed s then s
  else s <| hp_tree ::= tree_claim_children (hp_node_id s) children |>
         <| hp_children_claimed := true |>).

(** A disclosed contract must have been used by a node; a created one counts as used. *)
Definition contract_seen (contract_id : option bytes) : HM unit := λ s,
  if hp_is_input_contract s
  then (Ret tt, s <| hp_store ::= values_check_disclosed_contract contract_id |>)
  else record_used_contract contract_id s.

Definition decode_create (stream : istream) : HM istream :=
  let* c_cb := pb_decode_inner (Create_fields run) stream Node_CreateCb_zero in
  do* guard (create_is_complete c_cb) in
  do* contract_seen (c_contract_id c_cb) in
  let* seed := node_seed in
  do* hw_node (encode_create_start c_cb seed) in
  let c_cb := Node_CreateCb_defaults c_cb <| c_argument := Some decode_value_field_cb |> in
  let* c_cb := pb_decode_inner (Create_fields run) stream c_cb in
  do* hw_node (encode_create_end c_cb) in
  ret [].

Definition decode_exercise (stream : istream) : HM istream :=
  let* e := pb_decode_inner (Exercise_fields run) stream Node_ExerciseCb_zero in
  do* guard (exercise_is_complete e && optional_interface_is_complete (e_interface_id e)) in
  do* record_used_contract (e_contract_id e) in
  do* claim_children (e_children e) in
  let* seed := node_seed in
  do* guard (is_set seed) in
  do* hw_node (encode_exercise_start e seed) in
  let e := Node_ExerciseCb_defaults e <| e_chosen_value := Some decode_value_field_cb |>
                                      <| e_exercise_result := None |> in
  let* e := pb_decode_inner (Exercise_fields run) stream e in
  do* hw_node (encode_exercise_middle e) in
  do* hw_node (hw_put_byte 0x01) in
  let e := Node_ExerciseCb_defaults e <| e_chosen_value := None |>
                                      <| e_exercise_result := Some decode_value_field_cb |> in
  let* e := pb_decode_inner (Exercise_fields run) stream e in
  do* hw_node (encode_exercise_end e) in
  ret [].

Definition decode_fetch (stream : istream) : HM istream :=
  let* f := pb_decode_inner V1_Fetch_fields stream Node_Fetch_zero in
  do* guard (fetch_is_complete f && optional_interface_is_complete (f_interface_id f)) in
  do* record_used_contract (f_contract_id f) in
  do* hw_node (encode_fetch f) in
  ret [].

Definition decode_rollback (stream : istream) : HM istream :=
  let* r := pb_decode_inner Rollback_fields stream {| r_children := [] |} in
  do* guard (require_strings (r_children r)) in
  do* claim_children (r_children r) in
  do* hw_node (encode_rollback r) in
  ret [].

Definition node_decode_callback (tag : Z) (stream : istream) : HM istream :=
  if tag =? NODE_V1_EXERCISE_TAG then decode_exercise stream
  else if tag =? NODE_V1_CREATE_TAG then decode_create stream
  else if tag =? NODE_V1_FETCH_TAG then decode_fetch stream
  else if tag =? NODE_V1_ROLLBACK_TAG then decode_rollback stream
  else fail.
End Open.

(** The callback does not look at the stream. *)
Definition versioned_node_decode_callback (stream : istream) (node : DeviceNode hcb (NodeV1 hcb))
  : HM (istream * DeviceNode hcb (NodeV1 hcb)) :=
  ret (stream,
    if dn_which node =? NODE_V1_TAG
    then node <| dn_v1 ::= λ n, n <| n_cb_node_type := Some node_decode_callback_cb |> |>
    else node).

(** ** The function pointer call *)

Fixpoint run (fuel : nat) (c : hcb) (stream : istream) : HM istream :=
  match fuel with
  | O => nofuel
  | Datatypes.S fuel =>
      match c with
      | count_identifier_cb => count_identifier stream
      | count_record_field_cb => count_record_field (run fuel) stream
      | count_list_elem_cb => count_list_elem (run fuel) stream
      | count_text_map_entry_cb => count_text_map_entry (run fuel) stream
      | count_gen_map_entry_cb => count_gen_map_entry (run fuel) stream
      | decode_record_field_label_cb => decode_record_field_label stream
      | decode_variant_constructor_cb => decode_variant_constructor stream
      | decode_textmap_key_cb => decode_textmap_key stream
      | decode_node_id_field_cb => decode_node_id_field stream
      | decode_record_field_cb => decode_record_field (run fuel) stream
      | decode_list_elem_cb => decode_list_elem (run fuel) stream
      | decode_value_cb => decode_value (run fuel) stream
      | decode_text_map_entry_cb => decode_text_map_entry (run fuel) stream
      | decode_gen_map_entry_cb => decode_gen_map_entry (run fuel) stream
      | decode_identifier_cb => decode_identifier stream
      | decode_record_id_cb => decode_record_id stream
      | decode_value_field_cb => decode_value_field (run fuel) stream
      | decode_create_cb => decode_create (run fuel) stream
      | count_value_cb | decode_value_variant_cb | node_decode_callback_cb
      | versioned_node_decode_callback_cb => abort
      end
  end.

(** The fuel of a buffer: callbacks nest at most once for each of its bytes. *)
Definition parse_fuel (buf : bytes) : nat := S (length buf).

Definition run_node (fuel : nat) (c : hcb) (tag : Z) (stream : istream) : HM istream :=
  match c with
  | node_decode_callback_cb => node_decode_callback (run fuel) tag stream
  | _ => abort
  end.
Definition run_versioned (c : hcb) (stream : istream) (node : DeviceNode hcb (NodeV1 hcb))
  : HM (istream * DeviceNode hcb (NodeV1 hcb)) :=
  match c with
  | versioned_node_decode_callback_cb => versioned_node_decode_callback stream node
  | _ => abort
  end.

(** ** Entry points *)

Definition init_ctx (is_input_contract : bool) : HM unit := modify (λ s,
  s <| hp_node_id := -1 |> <| hp_is_root_node := false |>
    <| hp_is_input_contract := is_input_contract |> <| hp_children_claimed := false |>
    <| hp_elem_count := VALUE_ELEM_COUNT_NONE |> <| hp_node_hw := [] |>).

Definition node_msg (fuel : nat) := DeviceNode_fields (run fuel) run_versioned NodeV1_zero
  (NodeV1_fields (run_node fuel)).
Definition input_contract_msg (fuel : nat) := InputContract_fields (run fuel).

(** [tx_parts_ctx.node] keeps what the previous part left in it, but its oneof is cleared
    by [pb_decode], so that only the callbacks set here are seen. *)
Definition proto_deserialize_node (buf : bytes) : HM unit :=
  let fuel := parse_fuel buf in
  do* init_ctx false in
  do* pb_decode_inner (node_msg fuel) buf
    (Build_DeviceNode (Some decode_node_id_field_cb) (Some versioned_node_decode_callback_cb)
       0 NodeV1_zero) in
  let* node_hash := gets (λ s, hw_finalize (hp_node_hw s)) in
  do* modify (λ s, s <| hp_tree ::= tree_mark_seen (hp_node_id s) |>) in
  let* s := get in
  if hp_is_root_node s then hw_hasher (encode_hash (Some node_hash))
  else modify (λ s, s <| hp_hash ::= set_node_hash (hp_node_id s) node_hash |>).

Definition proto_deserialize_input_contract (buf : bytes) : HM unit :=
  let fuel := parse_fuel buf in
  do* init_ctx true in
  let* ic := pb_decode_inner (input_contract_msg fuel) buf
    (Build_InputContract (Some decode_create_cb) 0 0) in
  let* node_hash := gets (λ s, hw_finalize (hp_node_hw s)) in
  do* hw_hasher (encode_int64 (ic_created_at ic)) in
  hw_hasher (encode_hash (Some node_hash)).

(** ** Termination and invariants

    An invariant of the parser is a property of its state that each of its basic effects
    keeps. *)

Record parser_inv (P : hp_state → Prop) : Prop := {
  pi_clock : ∀ s, P s → P (s <| hp_clock ::= S |>);
  pi_hw : ∀ s f, steady f → P s → P (snd (hw_node f s));
  pi_count : ∀ s n, P s → P (s <| hp_elem_count := n |>);
  pi_root : ∀ s, P s → P (s <| hp_is_root_node := true |>);
  pi_node : ∀ s n, P s → P (s <| hp_node_id := n |>);
  pi_used : ∀ s mem cid, hp_is_input_contract s = false → P s →
    P (s <| hp_store ::= values_record_used_contract mem cid |>);
  pi_disclosed : ∀ s cid, hp_is_input_contract s = true → P s →
    P (s <| hp_store ::= values_check_disclosed_contract cid |>)
}.

(** What only the nodes of the tree do. *)
Record node_inv (P : hp_state → Prop) : Prop := {
  ni_used : ∀ s mem cid, P s →
    P (s <| hp_store ::= values_record_used_contract mem cid |>);
  ni_claim : ∀ s children, hp_children_claimed s = false → P s →
    P (s <| hp_tree ::= tree_claim_children (hp_node_id s) children |>
         <| hp_children_claimed := true |>)
}.

Section Invariant.
Variable P : hp_state → Prop.
Hypothesis HP : parser_inv P.

Lemma hp_realloc_safe n : keeps P (pb_realloc n).
Proof. intros s Hs. unfold pb_realloc, hp_realloc. destruct (heap_has _ _); try (split; [|done]); by apply (pi_clock P HP). Qed.
Lemma hp_stack_has_room_safe : keeps P stack_has_room.
Proof. intros s Hs. unfold stack_has_room. destruct (stack_room _); try (split; [|done]); by apply (pi_clock P HP). Qed.
Lemma hw_node_safe f : steady f → keeps P (hw_node f).
Proof. intros Hf s Hs. split; [by apply (pi_hw P HP)|done]. Qed.
Lemma set_count_safe n : keeps P (modify (λ s, s <| hp_elem_count := n |>)).
Proof. apply safe_modify. intros s Hs. by apply (pi_count P HP). Qed.
Lemma count_one_safe : keeps P count_one.
Proof. apply safe_modify. intros s Hs. by apply (pi_count P HP). Qed.
Lemma contract_seen_safe cid : keeps P (contract_seen cid).
Proof.
  intros s Hs. unfold contract_seen. destruct (hp_is_input_contract s) eqn:E.
  - split; [by apply (pi_disclosed P HP)|done].
  - split; [|done]. by apply (pi_used P HP (s <| hp_clock ::= S |>)), (pi_clock P HP).
Qed.
Lemma find_seed_safe id seeds : keeps P (find_seed id seeds).
Proof. induction seeds as [|sd l IH]; cbn; repeat case_match; eauto using @safe_ret with safe. Qed.
Lemma node_seed_safe : keeps P node_seed.
Proof.
  unfold node_seed. eapply safe_bind; [apply safe_get|]. intros s _.
  case_match; [apply find_seed_safe|by apply safe_ret].
Qed.
#[local] Hint Extern 1 (safe _ _ (hw_node _)) => apply hw_node_safe; solve [steady_steps] : safe.
#[local] Hint Resolve hp_realloc_safe hp_stack_has_room_safe set_count_safe
  count_one_safe contract_seen_safe node_seed_safe : safe pb.

Lemma decode_enum_safe stream : safe P (λ s', length s' = 0%nat) (decode_enum stream).
Proof.
  unfold decode_enum. apply safe_seq; [|safe_steps].
  apply pb_decode_inner_safe. eauto with pb.
Qed.

Lemma run_sum_keeps c tag stream v :
  safe P (λ '(s', _), (length s' ≤ length stream)%nat) (run_sum c tag stream v).
Proof.
  destruct c; cbn [run_sum]; try apply safe_abort.
  - unfold count_value. safe_steps; try (by apply safe_ret).
  - unfold decode_value_variant. apply safe_seq; [apply safe_gets|intros count].
    repeat match goal with |- safe _ _ (if ?b then _ else _) => destruct b end;
      try (safe_steps; by apply safe_ret).
    apply safe_seq; [eauto with safe|intros _].
    eapply safe_bind; [apply decode_enum_safe|]. intros rest Hr. apply safe_ret. cbn in Hr. lia.
Qed.

Lemma decode_value_primitive_variants_safe v : keeps P (decode_value_primitive_variants v).
Proof. unfold decode_value_primitive_variants. safe_steps. Qed.
Lemma decode_identifier_safe stream : keeps P (decode_identifier stream).
Proof.
  unfold decode_identifier. apply safe_seq; [apply pb_decode_inner_safe; eauto with pb|safe_steps].
Qed.
Lemma decode_record_id_safe stream : keeps P (decode_record_id stream).
Proof.
  unfold decode_record_id. pose proof (decode_identifier_safe stream). safe_steps.
  apply safe_of_option. done.
Qed.
Lemma decode_node_id_field_safe stream : keeps P (decode_node_id_field stream).
Proof.
  unfold decode_node_id_field. safe_steps; [by apply safe_of_option|..].
  - apply safe_modify. intros s Hs. case_match; [by apply (pi_root P HP)|done].
  - apply safe_modify. intros s Hs. by apply (pi_node P HP).
Qed.
Lemma read_buffer_safe n stream (k : bytes → HM unit) :
  (∀ b, keeps P (k b)) →
  keeps P (let* (b, rest) := of_option (pb_read n stream) in do* k b in ret rest).
Proof. intros Hk. safe_steps; by apply safe_of_option. Qed.

Lemma run_sum_is_safe n : run_sum_safe P run_sum n.
Proof. intros c tag s v _. apply run_sum_keeps. Qed.

Section Callbacks.
Variable run : hcb → istream → HM istream.
Variable stream : istream.
Hypothesis Hrun : ∀ n, length stream = Datatypes.S n → run_safe P run n.

Lemma hp_value_msg_safe v : keeps P (pb_decode_inner (Value_fields run run_sum) stream v).
Proof.
  apply pb_decode_inner_safe. intros n Hn.
  apply Value_fields_safe; eauto using run_sum_is_safe, hp_realloc_safe.
Qed.
Lemma hp_labelled_msg_safe v : keeps P (pb_decode_inner (Labelled_fields run run_sum) stream v).
Proof.
  apply pb_decode_inner_safe. intros n Hn.
  apply Labelled_fields_safe; eauto using run_sum_is_safe, hp_realloc_safe.
Qed.
Lemma gen_map_entry_msg_safe v :
  keeps P (pb_decode_inner (GenMapEntry_fields run run_sum) stream v).
Proof.
  apply pb_decode_inner_safe. intros n Hn.
  apply GenMapEntry_fields_safe; eauto using run_sum_is_safe, hp_realloc_safe.
Qed.
Lemma hp_create_msg_safe v : keeps P (pb_decode_inner (Create_fields run) stream v).
Proof.
  apply pb_decode_inner_safe. intros n Hn. apply Create_fields_safe; eauto using hp_realloc_safe.
Qed.
Lemma exercise_msg_safe v : keeps P (pb_decode_inner (Exercise_fields run) stream v).
Proof.
  apply pb_decode_inner_safe. intros n Hn. apply Exercise_fields_safe; eauto using hp_realloc_safe.
Qed.
#[local] Hint Resolve hp_value_msg_safe hp_labelled_msg_safe gen_map_entry_msg_safe hp_create_msg_safe
  exercise_msg_safe decode_value_primitive_variants_safe : safe.

Lemma count_value_helper_safe : keeps P (count_value_helper run stream).
Proof. unfold count_value_helper. safe_steps. Qed.
Lemma count_gen_map_helper_safe : keeps P (count_gen_map_helper run stream).
Proof. unfold count_gen_map_helper. safe_steps. Qed.
Lemma count_text_map_helper_safe : keeps P (count_text_map_helper run stream).
Proof. unfold count_text_map_helper. safe_steps. Qed.
Lemma count_record_field_helper_safe : keeps P (count_record_field_helper run stream).
Proof. unfold count_record_field_helper. safe_steps. Qed.
#[local] Hint Resolve count_value_helper_safe count_gen_map_helper_safe
  count_text_map_helper_safe count_record_field_helper_safe : safe.

Lemma hp_decode_create_safe : keeps P (decode_create run stream).
Proof.
  unfold decode_create. safe_steps.
Qed.
(** Only nodes, and no input contract, are exercises or fetches. *)
Section Nodes.
Hypothesis Hnode : node_inv P.

Lemma record_used_contract_safe cid : keeps P (record_used_contract cid).
Proof.
  apply safe_modify. intros s Hs.
  by apply (ni_used P Hnode (s <| hp_clock ::= S |>)), (pi_clock P HP).
Qed.
Lemma claim_children_safe children : keeps P (claim_children children).
Proof.
  apply safe_modify. intros s Hs. destruct (hp_children_claimed s) eqn:E; [done|].
  by apply (ni_claim P Hnode).
Qed.
#[local] Hint Resolve record_used_contract_safe claim_children_safe : safe.

Lemma decode_exercise_safe : keeps P (decode_exercise run stream).
Proof. unfold decode_exercise. safe_steps. Qed.
Lemma decode_fetch_safe : keeps P (decode_fetch stream).
Proof.
  unfold decode_fetch. apply safe_seq; [apply pb_decode_inner_safe; eauto with pb|safe_steps].
Qed.
Lemma decode_rollback_safe : keeps P (decode_rollback stream).
Proof.
  unfold decode_rollback. apply safe_seq; [apply pb_decode_inner_safe; eauto with pb|safe_steps].
Qed.
Lemma node_decode_callback_safe tag : keeps P (node_decode_callback run tag stream).
Proof.
  unfold node_decode_callback. pose proof hp_decode_create_safe. pose proof decode_exercise_safe.
  pose proof decode_fetch_safe. pose proof decode_rollback_safe. safe_steps.
Qed.
End Nodes.

#[local] Hint Resolve hp_decode_create_safe decode_identifier_safe decode_record_id_safe
  decode_node_id_field_safe : safe.

(** One call: the callbacks it starts are on shorter streams. *)
Lemma count_record_field_safe : keeps P (count_record_field run stream).
Proof. unfold count_record_field. safe_steps. Qed.
Lemma count_list_elem_safe : keeps P (count_list_elem run stream).
Proof. unfold count_list_elem. safe_steps. Qed.
Lemma count_text_map_entry_safe : keeps P (count_text_map_entry run stream).
Proof. unfold count_text_map_entry. safe_steps. Qed.
Lemma count_gen_map_entry_safe : keeps P (count_gen_map_entry run stream).
Proof. unfold count_gen_map_entry. safe_steps. Qed.
Lemma hp_decode_record_field_safe : keeps P (decode_record_field run stream).
Proof. unfold decode_record_field. safe_steps. Qed.
Lemma decode_list_elem_safe : keeps P (decode_list_elem run stream).
Proof. unfold decode_list_elem. safe_steps. Qed.
Lemma hp_decode_value_safe : keeps P (decode_value run stream).
Proof. unfold decode_value. safe_steps. Qed.
Lemma decode_text_map_entry_safe : keeps P (decode_text_map_entry run stream).
Proof. unfold decode_text_map_entry. safe_steps. Qed.
Lemma decode_gen_map_entry_safe : keeps P (decode_gen_map_entry run stream).
Proof. unfold decode_gen_map_entry. safe_steps. Qed.
Lemma decode_value_field_safe : keeps P (decode_value_field run stream).
Proof. unfold decode_value_field. safe_steps. Qed.
End Callbacks.

#[local] Hint Resolve hp_decode_create_safe decode_identifier_safe decode_record_id_safe
  decode_node_id_field_safe count_record_field_safe count_list_elem_safe
  count_text_map_entry_safe count_gen_map_entry_safe hp_decode_record_field_safe
  decode_list_elem_safe hp_decode_value_safe decode_text_map_entry_safe
  decode_gen_map_entry_safe decode_value_field_safe : safe.

Lemma run_is_safe fuel : ∀ c stream, (length stream < fuel)%nat → keeps P (run fuel c stream).
Proof.
  induction fuel as [|fuel IH]; intros c stream Hl; [lia|].
  assert (Hrun : ∀ n, length stream = Datatypes.S n → run_safe P (run fuel) n).
  { intros n Hn c' s' Hs'. apply IH. lia. }
  destruct c; cbn [run]; eauto with safe.
  - unfold count_identifier. apply safe_seq; [apply pb_decode_inner_safe; eauto with pb|safe_steps].
  - unfold decode_record_field_label. safe_steps; by apply safe_of_option.
  - unfold decode_variant_constructor. safe_steps; by apply safe_of_option.
  - unfold decode_textmap_key. safe_steps; by apply safe_of_option.
Qed.

Lemma run_safe_parse_fuel buf n : length buf = Datatypes.S n → run_safe P (run (parse_fuel buf)) n.
Proof. intros Hn c s Hs. apply run_is_safe. unfold parse_fuel. lia. Qed.

Lemma hp_node_msg_safe buf node :
  node_inv P → keeps P (pb_decode_inner (node_msg (parse_fuel buf)) buf node).
Proof.
  intros Hnode. apply pb_decode_inner_safe. intros n Hn.
  apply DeviceNode_fields_safe; [|by apply run_safe_parse_fuel|].
  - intros c s v. destruct c; cbn; try apply safe_abort. by apply safe_ret.
  - intros m Hm. apply NodeV1_fields_safe. intros c tag s Hs.
    destruct c; cbn [run_node]; try apply safe_abort. apply node_decode_callback_safe; try done.
    intros k Hk c' s' Hs'. apply run_is_safe. unfold parse_fuel. lia.
Qed.

Lemma hp_input_contract_msg_safe buf ic :
  keeps P (pb_decode_inner (input_contract_msg (parse_fuel buf)) buf ic).
Proof.
  apply pb_decode_inner_safe. intros n Hn. apply InputContract_fields_safe.
  intros c s Hs. apply run_is_safe. unfold parse_fuel. lia.
Qed.
End Invariant.

(** ** What a part does to the modules the parser reports to *)

(** The reports of a node part are contracts used, those of an input contract part are
    disclosed contracts. *)
Definition reported (input_contract : bool) (ev : value_event) : Prop :=
  match ev with
  | VUsed _ _ => input_contract = false
  | VDisclosed _ => input_contract = true
  | _ => False
  end.

(** The invariant of a part that starts in [s0]. *)
Record parsing (s0 s : hp_state) : Prop := {
  pg_tx : hp_tx s = hp_tx s0;
  pg_hasher : hp_hasher s = hp_hasher s0;
  pg_kind : hp_is_input_contract s = hp_is_input_contract s0;
  pg_hash_store : hs_store (hp_hash s) = hs_store (hp_hash s0);
  pg_hash_count : hs_count (hp_hash s) = hs_count (hp_hash s0);
  pg_hash_error : get_hash_error (hp_hash s0) ≠ HASH_OK →
    get_hash_error (hp_hash s) = get_hash_error (hp_hash s0);
  pg_tree : if hp_is_input_contract s0 then hp_tree s = hp_tree s0
    else if hp_children_claimed s
    then ∃ parent children, hp_tree s = tree_claim_children parent children (hp_tree s0)
    else hp_tree s = hp_tree s0;
  pg_store : ∃ evs, Forall (reported (hp_is_input_contract s0)) evs ∧
    hp_store s = foldl value_step (hp_store s0) evs
}.

Lemma pg_report s0 s ev : parsing s0 s → reported (hp_is_input_contract s0) ev →
  ∃ evs, Forall (reported (hp_is_input_contract s0)) evs ∧
    value_step (hp_store s) ev = foldl value_step (hp_store s0) evs.
Proof.
  intros [_ _ _ _ _ _ _ (evs & Hev & ->)] Hr. exists (evs ++ [ev]).
  rewrite foldl_app. split; [|done]. by apply Forall_app_2; [|constructor].
Qed.

Lemma parsing_inv s0 : parser_inv (parsing s0).
Proof.
  split; try (intros s; intros; match goal with G : parsing _ _ |- _ => destruct G end; by split).
  - intros s f [Sf Cf Ef] [T H1 K S1 C1 E1 Tr St]. split; try done.
    + cbn. by rewrite Sf.
    + cbn. by rewrite Cf.
    + intros Herr. specialize (E1 Herr).
      cbn. rewrite Ef; [done|]. cbn. by rewrite E1.
  - intros s mem cid K G. destruct (pg_report s0 s (VUsed mem cid) G) as (evs & Hev & Hst).
    { cbn. by rewrite <- (pg_kind _ _ G). }
    destruct G; split; try done. by exists evs.
  - intros s cid K G. destruct (pg_report s0 s (VDisclosed cid) G) as (evs & Hev & Hst).
    { cbn. by rewrite <- (pg_kind _ _ G). }
    destruct G; split; try done. by exists evs.
Qed.

Lemma parsing_node_inv s0 : hp_is_input_contract s0 = false → node_inv (parsing s0).
Proof.
  intros K. split.
  - intros s mem cid G. apply (pi_used _ (parsing_inv s0)); [|done]. by rewrite (pg_kind _ _ G).
  - intros s children Hc G. destruct G as [T H1 K1 S1 C1 E1 Tr St]. split; try done.
    rewrite K in *. cbn. rewrite Hc in Tr. rewrite Tr. eauto.
Qed.

Lemma parsing_start s0 : hp_children_claimed s0 = false → parsing s0 s0.
Proof.
  intros Hc. split; try done; [|by exists []]. rewrite Hc. by destruct (hp_is_input_contract s0).
Qed.

Lemma node_deserialize_safe buf : keeps (λ _ : hp_state, True) (proto_deserialize_node buf).
Proof.
  assert (HN : node_inv (λ _, True)) by (by split).
  unfold proto_deserialize_node, init_ctx, hw_hasher.
  safe_steps; try (by apply safe_modify). by apply hp_node_msg_safe.
Qed.
Lemma contract_deserialize_safe buf :
  keeps (λ _ : hp_state, True) (proto_deserialize_input_contract buf).
Proof.
  assert (HT : parser_inv (λ _, True)) by (by split).
  unfold proto_deserialize_input_contract, init_ctx, hw_hasher.
  safe_steps; try (by apply safe_modify). by apply hp_input_contract_msg_safe.
Qed.

(** C26: Whatever bytes the host sends and whatever the heap and the stack refuse, parsing
    a node or an input contract terminates: callbacks nest at most as deep as the buffer
    is long. *)
Theorem hashing_parser_terminates buf s :
  fst (proto_deserialize_node buf s) ≠ NoFuel ∧
  fst (proto_deserialize_input_contract buf s) ≠ NoFuel.
Proof.
  pose proof (node_deserialize_safe buf s I) as Hn.
  pose proof (contract_deserialize_safe buf s I) as Hc.
  split; [by destruct (proto_deserialize_node buf s) as [[]]|
    by destruct (proto_deserialize_input_contract buf s) as [[]]].
Qed.

(** The state of a part after its callbacks are set. *)
Definition started (input_contract : bool) (s : hp_state) : hp_state :=
  snd (init_ctx input_contract s).

Lemma safe_result {S A} (P : S → Prop) (Q : A → Prop) (m : M S A) s a s' :
  safe P Q m → P s → m s = (Ret a, s') → P s' ∧ Q a.
Proof. intros Hm HP E. specialize (Hm s HP). by rewrite E in Hm. Qed.

Lemma node_part_parsed buf s s' : proto_deserialize_node buf s = (Ret tt, s') →
  ∃ s1, parsing (started false s) s1 ∧
    let h := hw_finalize (hp_node_hw s1) in
    let s2 := s1 <| hp_tree ::= tree_mark_seen (hp_node_id s1) |> in
    s' = if hp_is_root_node s1 then snd (hw_hasher (encode_hash (Some h)) s2)
         else s2 <| hp_hash ::= set_node_hash (hp_node_id s1) h |>.
Proof.
  unfold proto_deserialize_node. intros (u & s0 & E0 & E)%bind_ret_inv.
  injection E0 as _ E0. fold (init_ctx false s) in E0.
  apply bind_ret_inv in E as (node & s1 & E1 & E). exists s1. split.
  - replace s0 with (started false s) in E1 by (by rewrite <- E0).
    refine (proj1 (safe_result (parsing (started false s)) (λ _, True) _ _ _ _ _ _ E1));
      [|by apply parsing_start].
    apply hp_node_msg_safe; [apply parsing_inv|by apply parsing_node_inv].
  - cbn in E. destruct (hp_is_root_node s1) eqn:R; injection E as <-; cbn; by rewrite R.
Qed.

Lemma input_contract_part_parsed buf s s' :
  proto_deserialize_input_contract buf s = (Ret tt, s') →
  ∃ s1 created_at, parsing (started true s) s1 ∧
    s' = snd (hw_hasher (encode_hash (Some (hw_finalize (hp_node_hw s1))))
                (snd (hw_hasher (encode_int64 created_at) s1))).
Proof.
  unfold proto_deserialize_input_contract. intros (u & s0 & E0 & E)%bind_ret_inv.
  injection E0 as _ E0. fold (init_ctx true s) in E0.
  apply bind_ret_inv in E as (ic & s1 & E1 & E). exists s1, (ic_created_at ic). split.
  - replace s0 with (started true s) in E1 by (by rewrite <- E0).
    refine (proj1 (safe_result (parsing (started true s)) (λ _, True) _ _ _ _ _ _ E1));
      [|by apply parsing_start].
    apply hp_input_contract_msg_safe, parsing_inv.
  - cbn in E. by injection E as <-.
Qed.

Lemma node_part_effect buf s s' : proto_deserialize_node buf s = (Ret tt, s') →
  let h := hw_finalize (hp_node_hw s') in
  (∃ parent children, hp_tree s' = node_arrives (hp_tree s)
     {| ev_parent := parent; ev_children := children; ev_id := hp_node_id s' |}) ∧
  (∃ evs, Forall (reported false) evs ∧ hp_store s' = foldl value_step (hp_store s) evs) ∧
  hp_tx s' = hp_tx s ∧
  (if hp_is_root_node s'
   then hp_hasher s' = hp_hasher s ++ take SHA256_HASH_LEN h ∧
        hs_store (hp_hash s') = hs_store (hp_hash s)
   else hp_hasher s' = hp_hasher s ∧
        hs_store (hp_hash s') = hs_store (store_node (hp_hash s) (hp_node_id s', h))).
Proof.
  intros (s1 & [T H1 K S1 C1 E1 Tr St] & ->)%node_part_parsed.
  set (h := hw_finalize (hp_node_hw s1)). cbn in K, Tr.
  assert (Htree : ∃ parent children, hp_tree s1 = tree_claim_children parent children (hp_tree s)).
  { destruct (hp_children_claimed s1); [done|]. by exists 0, []. }
  destruct Htree as (parent & children & Htree).
  destruct (hp_is_root_node s1) eqn:R; cbn; rewrite R, Htree, T, H1, S1; split_and!; try done;
    try (by exists parent, children).
  by rewrite C1.
Qed.

Lemma input_contract_effect buf s s' :
  proto_deserialize_input_contract buf s = (Ret tt, s') →
  hp_tree s' = hp_tree s ∧ hs_store (hp_hash s') = hs_store (hp_hash s) ∧
  (∃ evs, Forall (reported true) evs ∧ hp_store s' = foldl value_step (hp_store s) evs) ∧
  ∃ created_at, hp_hasher s' = hp_hasher s ++ be64 (u64 created_at) ++
    take SHA256_HASH_LEN (hw_finalize (hp_node_hw s')).
Proof.
  intros (s1 & t & [T H1 K S1 C1 E1 Tr St] & ->)%input_contract_part_parsed.
  cbn -[be64 u64] in *. rewrite Tr, H1, S1. split_and!; try done.
  exists t. by rewrite <- app_assoc.
Qed.

(** C24: A node part that is accepted reports one event to the tree check (the children it
    declares, once, then its own id) and only used contracts to the values check.  Its
    hash goes to the transaction hasher when the node is a root and into the node hash
    store otherwise, and to no other place. *)
Theorem node_part_reports buf s s' : proto_deserialize_node buf s = (Ret tt, s') →
  let h := hw_finalize (hp_node_hw s') in
  (∃ parent children, hp_tree s' = node_arrives (hp_tree s)
     {| ev_parent := parent; ev_children := children; ev_id := hp_node_id s' |}) ∧
  (∃ evs, Forall (reported false) evs ∧ hp_store s' = foldl value_step (hp_store s) evs) ∧
  hp_tx s' = hp_tx s ∧
  (if hp_is_root_node s'
   then hp_hasher s' = hp_hasher s ++ take SHA256_HASH_LEN h ∧
        hs_store (hp_hash s') = hs_store (hp_hash s)
   else hp_hasher s' = hp_hasher s ∧
        hs_store (hp_hash s') = hs_store (store_node (hp_hash s) (hp_node_id s', h))).
Proof. apply node_part_effect. Qed.

(** C25: An input contract part that is accepted leaves the tree check and the node hash
    store alone and reports only disclosed contracts to the values check; it appends its
    creation time and the hash of its contract to the hasher. *)
Theorem input_contract_reports buf s s' :
  proto_deserialize_input_contract buf s = (Ret tt, s') →
  hp_tree s' = hp_tree s ∧ hs_store (hp_hash s') = hs_store (hp_hash s) ∧
  (∃ evs, Forall (reported true) evs ∧ hp_store s' = foldl value_step (hp_store s) evs) ∧
  ∃ created_at, hp_hasher s' = hp_hasher s ++ be64 (u64 created_at) ++
    take SHA256_HASH_LEN (hw_finalize (hp_node_hw s')).
Proof. apply input_contract_effect. Qed.
End Parser.

(** ** Witnesses *)

Definition wire_identifier : bytes :=
  wire_string 1 "pkg" ++ wire_string 2 "Splice.Amulet" ++ wire_string 3 "Amulet".
(** A create of a contract whose argument is a record with one text field. *)
Definition wire_create : bytes :=
  wire_string 1 "2.1" ++ wire_string 2 "00ab" ++ wire_string 3 "splice" ++
  wire_bytes 4 wire_identifier ++
  wire_bytes 5 (wire_bytes VALUE_RECORD_TAG
    (wire_bytes 1 wire_identifier ++
     wire_bytes 2 (wire_string 1 "owner" ++ wire_bytes 2 (wire_string VALUE_PARTY_TAG "alice")))) ++
  wire_string 6 "alice" ++ wire_string 7 "alice".
Definition wire_exercise : bytes :=
  wire_string 1 "2.1" ++ wire_string 2 "00ab" ++ wire_string 3 "splice" ++
  wire_bytes 4 wire_identifier ++ wire_string 9 "Transfer" ++
  wire_bytes 10 (wire_bytes VALUE_UNIT_TAG []) ++ wire_string 12 "1" ++
  wire_bytes 13 (wire_bytes VALUE_UNIT_TAG []).
(** Node 1, the created contract, then node 0, the root that created it. *)
Definition wire_node_1 : bytes :=
  wire_string 1 "1" ++ wire_bytes NODE_V1_TAG (wire_bytes NODE_V1_CREATE_TAG wire_create).
Definition wire_node_0 : bytes :=
  wire_string 1 "0" ++ wire_bytes NODE_V1_TAG (wire_bytes NODE_V1_EXERCISE_TAG wire_exercise).
Definition wire_contract : bytes := wire_bytes 1 wire_create ++ wire_varint 1000 7.

Definition sample_state : hp_state :=
  {| hp_clock := 0; hp_tx := {| tx_version := Some (lit "2.1"); tx_roots := [Some (lit "0")];
       tx_nodes_count := 2;
       tx_node_seeds := [{| ns_node_id := 0; ns_seed := Some (replicate SHA256_HASH_LEN 5) |}] |};
     hp_hasher := []; hp_node_id := 0; hp_is_root_node := false; hp_is_input_contract := false;
     hp_children_claimed := false; hp_elem_count := 0; hp_node_hw := [];
     hp_hash := init_node_hash_store {| hs_err := HASH_OK; hs_store := []; hs_count := 0 |};
     hp_tree := snd (tree_check_init true [Some (lit "0")] 2
                       (tree_check_reset {| tc_nodes := None; tc_root_id := 0;
                                            tc_nodes_count := 0; tc_err := TREE_OK |}));
     hp_store := sample_store |}.

Abbreviation toy_node := (@proto_deserialize_node toy_sha roomy).
Abbreviation toy_contract := (@proto_deserialize_input_contract toy_sha roomy).
Definition after_node_1 : hp_state := snd (toy_node wire_node_1 sample_state).

Lemma after_node_1_ok : toy_node wire_node_1 sample_state = (Ret tt, after_node_1).
Proof. vm_compute. reflexivity. Qed.

Lemma node_part_reports_witness :
  ∃ parent children, hp_tree after_node_1 = node_arrives (hp_tree sample_state)
     {| ev_parent := parent; ev_children := children; ev_id := hp_node_id after_node_1 |}.
Proof.
  exact (proj1 (@node_part_reports toy_sha roomy wire_node_1 sample_state after_node_1
                  after_node_1_ok)).
Defined.

Definition after_contract : hp_state := snd (toy_contract wire_contract after_node_1).
Lemma after_contract_ok : toy_contract wire_contract after_node_1 = (Ret tt, after_contract).
Proof. vm_compute. reflexivity. Qed.

Lemma input_contract_reports_witness :
  hp_tree after_contract = hp_tree after_node_1.
Proof.
  exact (proj1 (@input_contract_reports toy_sha roomy wire_contract after_node_1 after_contract
                  after_contract_ok)).
Defined.

(** Node 0, the root, declares node 1 as its child: its hash goes to the hasher. *)
Example root_after_child :
  let r := toy_node wire_node_0 after_node_1 in
  fst r = Ret tt ∧ length (hp_hasher (snd r)) = SHA256_HASH_LEN ∧
  fst (tree_verify_complete (hp_tree (snd r))) = TREE_OK ∧
  get_hash_error (hp_hash (snd r)) = HASH_OK.
Proof. vm_compute. auto. Qed.

(** ** Values that are not hashed as they are written *)

Definition hash_of_value (value : bytes) : bytes :=
  hp_node_hw (snd (@decode_value roomy (@run toy_sha roomy (parse_fuel value)) value sample_state)).
Definition wire_list (values : list bytes) : bytes :=
  wire_bytes VALUE_LIST_TAG (flat_map (wire_bytes 1) values).
Definition wire_gen_map (entries : list (bytes * bytes)) : bytes :=
  wire_bytes VALUE_GEN_MAP_TAG
    (flat_map (λ '(k, v), wire_bytes 1 (wire_bytes 1 k ++ wire_bytes 2 v)) entries).
Definition two_texts : bytes := wire_list [wire_string VALUE_TEXT_TAG "a"; wire_string VALUE_TEXT_TAG "b"].

(** The elements of a list are counted before it is hashed, but not when it is the key of a
    map: there its length is hashed as -1. *)
Theorem gen_map_key_count_is_lost :
  hash_of_value two_texts = [0x0a] ++ be32 2 ++ drop 5 (hash_of_value two_texts) ∧
  hash_of_value (wire_gen_map [(two_texts, wire_string VALUE_TEXT_TAG "c")]) =
    [0x0f] ++ be32 1 ++ [0x0a] ++ be32 (-1) ++ drop 5 (hash_of_value two_texts) ++
    hash_of_value (wire_string VALUE_TEXT_TAG "c").
Proof. split; vm_compute; reflexivity. Qed.

(** A label that does not fit its buffer is hashed as several labels. *)
Theorem long_label_is_hashed_in_pieces :
  let label := replicate 70 97 in
  hash_of_value (wire_bytes VALUE_RECORD_TAG
    (wire_bytes 1 wire_identifier ++
     wire_bytes 2 (wire_bytes 1 label ++ wire_bytes 2 (wire_string VALUE_TEXT_TAG "c")))) =
  hash_of_value (wire_bytes VALUE_RECORD_TAG
    (wire_bytes 1 wire_identifier ++
     wire_bytes 2 (wire_bytes 1 (take 63 label) ++ wire_bytes 1 (drop 63 label) ++
                   wire_bytes 2 (wire_string VALUE_TEXT_TAG "c")))).
Proof. vm_compute. reflexivity. Qed.

(** The presence of the id of a record and the number of its fields are hashed when the id is
    read, so a record without an id is hashed as neither: here it collides with a record
    that has an id and no fields. *)
Definition record_of_units : bytes :=
  let unit := wire_bytes VALUE_UNIT_TAG [] in
  let no := wire_varint VALUE_BOOL_TAG 0 in
  wire_bytes VALUE_RECORD_TAG
    (wire_bytes 2 (wire_string 1 "p" ++ wire_bytes 2 unit) ++
     flat_map (λ value, wire_bytes 2 (wire_bytes 2 value))
       ([unit; unit; no] ++ replicate 6 unit ++ [no] ++ replicate 7 unit)).
Definition empty_record : bytes :=
  wire_bytes VALUE_RECORD_TAG (wire_bytes 1 (wire_string 1 "p" ++ wire_string 2 "" ++ wire_string 3 "")).
Theorem record_without_id_collides :
  let read value := fst (@decode_value roomy (@run toy_sha roomy (parse_fuel value)) value sample_state) in
  read record_of_units = Ret [] ∧ read empty_record = Ret [] ∧
  hash_of_value record_of_units = hash_of_value empty_record.
Proof. vm_compute. auto. Qed.
