(* ===== verification/HashLogic.v ===== *)
(** * Reasoning about what is hashed

    The callbacks of the hashing parser change little: they append to the hasher of the node,
    set the element count and let the clock of the device run.  [hashes] states what a step
    appends unless the device refuses it memory, and the lemmas of this file carry it over
    the steps, the fields of a message and the submessages of a value. *)

From S2P Require Import Prelude Constants Utils Pb Wire WireLogic Messages CanonicalHash.
From S2P Require Import TreeCheck ValuesCheck HashingParser.

(** A device that refuses some request, and one that refuses none. *)
Definition refuses_memory `{Device} : Prop :=
  ∃ clock, stack_room clock = false ∨ ∃ n, heap_has clock n = false.
Class Plenty `{Device} : Prop := {
  heap_ok : ∀ clock n, heap_has clock n = true;
  stack_ok : ∀ clock, stack_room clock = true
}.
Lemma plenty_never_refuses `{Plenty} : ¬ refuses_memory.
Proof. intros (clock & [E|[n E]]); [by rewrite stack_ok in E|by rewrite heap_ok in E]. Qed.

(** ** Parts of an encoding *)

Lemma cat2_some a b w : a ⊕ b = Some w → ∃ x y, a = Some x ∧ b = Some y ∧ w = x ++ y.
Proof. destruct a, b; try done. intros [= <-]. eauto. Qed.
Lemma cat2_assoc a b c : a ⊕ b ⊕ c = a ⊕ (b ⊕ c).
Proof. destruct a, b, c; try done. cbn. by rewrite app_assoc. Qed.
Lemma cat2_nil_l o : Some [] ⊕ o = o.
Proof. by destruct o. Qed.
Lemma cat2_nil_r o : o ⊕ Some [] = o.
Proof. destruct o; [|done]. cbn. by rewrite app_nil_r. Qed.
Lemma each_some {A} (f : A → option bytes) l w : spec_each f l = Some w →
  ∃ ws, w = concat ws ∧ Forall2 (λ a w, f a = Some w) l ws.
Proof.
  revert w. induction l as [|a l IH]; intros w; cbn [spec_each].
  - intros [= <-]. by exists [].
  - intros (x & y & Hx & (ws & -> & Hws)%IH & ->)%cat2_some. exists (x :: ws). by split; [|constructor].
Qed.
Lemma repeated_some {A} (f : A → option bytes) l w : spec_repeated f l = Some w →
  ∃ y, spec_each f l = Some y ∧ w = enc_int32 (Z.of_nat (length l)) ++ y.
Proof. unfold spec_repeated. intros (x & y & [= <-] & Hy & ->)%cat2_some. eauto. Qed.

Section Logic.
Context `{Sha256} `{Device}.

(** ** Steps that hash

    [hashes pre m Q w post]: from a state whose element count satisfies [pre] the step ends
    with a result in [Q] and a count in [post], has put [w] in the hasher of the node, and
    has changed nothing else but the clock; or it fails on a device that refuses memory. *)

Definition after (clock : nat) (count : Z) (w : bytes) (s : hp_state) : hp_state :=
  s <| hp_clock := clock |> <| hp_elem_count := count |> <| hp_node_hw ::= λ hw, hw ++ w |>.
Definition hashes {A} (pre : Z → Prop) (m : HM A) (Q : A → Prop) (w : bytes) (post : Z → Prop)
  : Prop := ∀ s, pre (hp_elem_count s) →
  (refuses_memory ∧ fst (m s) = Fail) ∨
  ∃ a clock count, m s = (Ret a, after clock count w s) ∧ Q a ∧ post count.
Lemma after_after c1 k1 w1 c2 k2 w2 s :
  after c2 k2 w2 (after c1 k1 w1 s) = after c2 k2 (w1 ++ w2) s.
Proof. unfold after. destruct s; cbn. by rewrite app_assoc. Qed.
Lemma after_nothing s : after (hp_clock s) (hp_elem_count s) [] s = s.
Proof. unfold after. destruct s; cbn. by rewrite app_nil_r. Qed.
Lemma hashes_done {A} pre (m : HM A) Q w post :
  (∀ s, pre (hp_elem_count s) →
     ∃ a clock count, m s = (Ret a, after clock count w s) ∧ Q a ∧ post count) →
  hashes pre m Q w post.
Proof. intros Hm s Hs. right. by apply Hm. Qed.
Lemma hashes_bind {A B} pre (m : HM A) (k : A → HM B) Q w mid R w' post :
  hashes pre m Q w mid → (∀ a, Q a → hashes mid (k a) R w' post) →
  hashes pre (bind m k) R (w ++ w') post.
Proof.
  intros Hm Hk s Hs. destruct (Hm s Hs) as [[Hr Ef]|(a & c & n & E & Ha & Hn)].
  { left. split; [done|by apply bind_fails]. }
  unfold bind. rewrite E.
  destruct (Hk a Ha (after c n w s) Hn) as [Hf|(b & c' & n' & E' & Hb & Hn')]; [by left|right].
  exists b, c', n'. rewrite E', after_after. done.
Qed.
Lemma hashes_ret {A} (pre : Z → Prop) (a : A) (Q : A → Prop) : Q a → hashes pre (ret a) Q [] pre.
Proof.
  intros Ha. apply hashes_done. intros s Hs. exists a, (hp_clock s), (hp_elem_count s).
  by rewrite after_nothing.
Qed.
Lemma hashes_weaken {A} (pre pre' post post' : Z → Prop) (m : HM A) (Q Q' : A → Prop) w :
  hashes pre m Q w post → (∀ n, pre' n → pre n) → (∀ a, Q a → Q' a) → (∀ n, post n → post' n) →
  hashes pre' m Q' w post'.
Proof.
  intros Hm Hpre HQ Hpost s Hs.
  destruct (Hm s (Hpre _ Hs)) as [Hf|(a & c & n & E & Ha & Hn)]; [by left|right].
  exists a, c, n. auto.
Qed.
Lemma hashes_eq {A} pre (m : HM A) Q w w' post : hashes pre m Q w post → w = w' →
  hashes pre m Q w' post.
Proof. by intros ? <-. Qed.
(** Steps that leave the hasher alone. *)
Lemma hashes_then {A B} pre (m : HM A) (k : A → HM B) Q w mid R post :
  hashes pre m Q [] mid → (∀ a, Q a → hashes mid (k a) R w post) →
  hashes pre (bind m k) R w post.
Proof. apply (hashes_bind pre m k Q [] mid R w post). Qed.
Lemma hashes_of_option {A} pre (o : option A) a : o = Some a →
  hashes pre (of_option o) (λ b, b = a) [] pre.
Proof. intros ->. by apply hashes_ret. Qed.
Lemma hashes_guard pre b : b = true → hashes pre (guard b) (λ _, True) [] pre.
Proof. intros ->. by apply hashes_ret. Qed.
(** A step whose failure is only reported later. *)
Lemma hashes_attempt {A B} pre (m : HM A) (k : option A → HM B) Q w mid R w' post :
  hashes pre m Q w mid → (∀ a, Q a → hashes mid (k (Some a)) R w' post) →
  (∀ s, fst (k None s) = Fail) →
  hashes pre (bind (attempt m) k) R (w ++ w') post.
Proof.
  intros Hm Hk Hn s Hs. destruct (Hm s Hs) as [[Hr Ef]|(a & c & n & E & Ha & Hp)].
  { left. split; [done|]. unfold bind, attempt. destruct (m s) as [[] s']; try done; apply Hn. }
  unfold bind, attempt. rewrite E.
  destruct (Hk a Ha (after c n w s) Hp) as [Hf|(b & c' & n' & E' & Hb & Hn')]; [by left|right].
  exists b, c', n'. rewrite E', after_after. done.
Qed.
Lemma after_tick s : after (S (hp_clock s)) (hp_elem_count s) [] s = s <| hp_clock ::= S |>.
Proof. unfold after. destruct s; cbn. by rewrite app_nil_r. Qed.
Lemma hashes_realloc pre n : hashes pre (pb_realloc n) (λ _, True) [] pre.
Proof.
  intros s Hs. unfold pb_realloc, hp_realloc. destruct (heap_has (hp_clock s) n) eqn:E.
  - right. exists tt, (S (hp_clock s)), (hp_elem_count s). by rewrite after_tick.
  - left. split; [|done]. exists (hp_clock s). right. by exists n.
Qed.
Lemma hashes_stack pre : hashes pre stack_has_room (λ _, True) [] pre.
Proof.
  intros s Hs. unfold stack_has_room. destruct (stack_room (hp_clock s)) eqn:E.
  - right. exists tt, (S (hp_clock s)), (hp_elem_count s). by rewrite after_tick.
  - left. split; [|done]. exists (hp_clock s). by left.
Qed.
Lemma hashes_count pre f (post : Z → Prop) : (∀ n, pre n → post (f n)) →
  hashes pre (modify (λ s, s <| hp_elem_count ::= f |>)) (λ _, True) [] post.
Proof.
  intros Hf. apply hashes_done. intros s Hs. exists tt, (hp_clock s), (f (hp_elem_count s)).
  split; [|auto]. unfold after. destruct s; cbn. by rewrite app_nil_r.
Qed.
Lemma hashes_set_count (pre : Z → Prop) n :
  hashes pre (modify (λ s, s <| hp_elem_count := n |>)) (λ _, True) [] (λ m, m = n).
Proof. by apply (hashes_count pre (λ _, n)). Qed.
(** The count, at the value it was counted to. *)
Lemma hashes_read_count {A} (pre : Z → Prop) (k : Z → HM A) Q w post :
  (∀ n, pre n → hashes pre (k n) Q w post) →
  hashes pre (let* n := gets hp_elem_count in k n) Q w post.
Proof. intros Hk s Hs. by apply (Hk _ Hs). Qed.
(** An encoder that writes what it is specified to. *)
Lemma hashes_encoder pre (f : encoder) w : (∀ st, refines st f (Some w)) →
  hashes pre (hw_node f) (λ _, True) w pre.
Proof.
  intros Hf. apply hashes_done. intros s Hs. exists tt, (hp_clock s), (hp_elem_count s).
  split; [|done]. unfold hw_node, modify. rewrite (rf_result _ _ _ (Hf _) _ eq_refl). by destruct s.
Qed.
Lemma hashes_refined pre f o w : (∀ st, refines st f o) → o = Some w →
  hashes pre (hw_node f) (λ _, True) w pre.
Proof. intros Hf ->. by apply hashes_encoder. Qed.
Lemma hashes_byte pre b : 0 ≤ b < 256 → hashes pre (hw_node (hw_put_byte b)) (λ _, True) [b] pre.
Proof.
  intros Hb. apply hashes_encoder. intros st. unfold hw_put_byte, u8. rewrite Z.mod_small by done.
  apply refines_put.
Qed.
(** A step after which nothing is known of the count. *)
Definition puts {A} (m : HM A) (Q : A → Prop) (w : bytes) : Prop :=
  ∀ pre, hashes pre m Q w (λ _, True).

(** ** Fields *)

Definition fields_hash {R} (pre : Z → Prop) (handler : Z → option (field_handler hp_state R))
    (s : bytes) (r : R) (Q : R → Prop) (w : bytes) (post : Z → Prop) : Prop :=
  ∀ fuel, (length s ≤ fuel)%nat → hashes pre (pb_fields fuel handler s r) Q w post.
Lemma fields_inner {R} pre (handler : Z → option (field_handler hp_state R)) s r Q w post :
  fields_hash pre handler s r Q w post → hashes pre (pb_decode_inner handler s r) Q w post.
Proof. intros Hf. by apply Hf. Qed.
Lemma fields_nil {R} (pre : Z → Prop) (handler : Z → option (field_handler hp_state R)) r
    (Q : R → Prop) : Q r → fields_hash pre handler [] r Q [] pre.
Proof. intros Hr fuel _. destruct fuel; by apply hashes_ret. Qed.
Lemma fields_weaken {R} pre (handler : Z → option (field_handler hp_state R)) s r (Q Q' : R → Prop)
    w post : fields_hash pre handler s r Q w post → (∀ a, Q a → Q' a) →
  fields_hash pre handler s r Q' w post.
Proof. intros Hf HQ fuel Hl. by eapply hashes_weaken; [apply Hf|..]. Qed.
Lemma fields_post {R} pre (handler : Z → option (field_handler hp_state R)) s r (Q : R → Prop)
    w (post post' : Z → Prop) : fields_hash pre handler s r Q w post → (∀ n, post n → post' n) →
  fields_hash pre handler s r Q w post'.
Proof. intros Hf HP fuel Hl. by eapply hashes_weaken; [apply Hf|..]. Qed.
Lemma fields_key {R} pre (handler : Z → option (field_handler hp_state R)) tag wt h body rest r
    Q w mid P w' post :
  0 < tag < 2 ^ 29 → 0 ≤ wt < 8 → handler tag = Some h →
  hashes pre (h wt (body ++ rest) r) (λ '(s', r'), s' = rest ∧ P r') w mid →
  (∀ r', P r' → fields_hash mid handler rest r' Q w' post) →
  fields_hash pre handler (wire_key tag wt ++ body ++ rest) r Q (w ++ w') post.
Proof.
  intros Ht Hw Eh Hh Hrest fuel Hf. rewrite !length_app in Hf.
  pose proof (enc_varint_cons (tag * 8 + wt)) as Hk. unfold wire_key in *.
  destruct fuel as [|fuel]; [lia|]. cbn [pb_fields].
  destruct (enc_varint (tag * 8 + wt)) as [|b0 k] eqn:Ek; [cbn in Hk; lia|]. cbn [app].
  rewrite app_comm_cons, <- Ek. change (enc_varint (tag * 8 + wt)) with (wire_key tag wt).
  eapply hashes_then; [apply hashes_of_option, pb_decode_tag_enc; lia|]. intros ? ->.
  eapply hashes_then; [apply (hashes_guard _ (negb (tag =? 0))); lia|]. intros _ _. rewrite Eh.
  eapply hashes_bind; [exact Hh|]. intros [s' r'] [-> Hr']. apply (Hrest r' Hr').
  cbn [length] in Hf. lia.
Qed.
Lemma fields_bytes {R} pre (handler : Z → option (field_handler hp_state R)) tag h b rest r
    Q w mid P w' post :
  0 < tag < 2 ^ 29 → handler tag = Some h →
  hashes pre (h PB_WT_STRING (enc_varint (Z.of_nat (length b)) ++ b ++ rest) r)
    (λ '(s', r'), s' = rest ∧ P r') w mid →
  (∀ r', P r' → fields_hash mid handler rest r' Q w' post) →
  fields_hash pre handler (wire_bytes tag b ++ rest) r Q (w ++ w') post.
Proof.
  intros Ht Eh Hh Hrest. unfold wire_bytes. rewrite <- !app_assoc.
  rewrite (app_assoc (enc_varint _) b). rewrite app_assoc in Hh.
  by apply (fields_key pre handler tag PB_WT_STRING h (enc_varint (Z.of_nat (length b)) ++ b) rest r
    Q w mid P w' post).
Qed.
Lemma fields_last {R} pre (handler : Z → option (field_handler hp_state R)) tag h b r Q w post :
  0 < tag < 2 ^ 29 → handler tag = Some h →
  hashes pre (h PB_WT_STRING (enc_varint (Z.of_nat (length b)) ++ b ++ []) r)
    (λ '(s', r'), s' = [] ∧ Q r') w post →
  fields_hash pre handler (wire_bytes tag b) r Q w post.
Proof.
  intros Ht Eh Hh. rewrite <- (app_nil_r (wire_bytes tag b)), <- (app_nil_r w).
  eapply fields_bytes; [done|exact Eh|exact Hh|]. intros r' Hr'. by apply fields_nil.
Qed.

Lemma short_measured s : measured s → short_opt (Some s).
Proof.
  intros Hm b [= <-]. unfold short, measured, strlen in *. pose proof (c_str_length s). lia.
Qed.

(** *** The handlers, on what [wire_bytes] wrote after the key *)

Lemma hashes_string {R} pre (set : bytes → R → R) b rest r (P : R → Prop) : measured b →
  P (set b r) →
  hashes pre (h_string set PB_WT_STRING (enc_varint (Z.of_nat (length b)) ++ b ++ rest) r)
    (λ '(s', r'), s' = rest ∧ P r') [] pre.
Proof.
  intros Hb Hr. unfold measured in Hb. unfold h_string, pb_dec_string.
  eapply hashes_then; [by apply hashes_guard|]. intros _ _.
  eapply hashes_then with (Q := λ p, p = (b, rest)).
  - eapply hashes_then; [apply hashes_of_option, pb_decode_varint32_enc; unfold is_u32; lia|].
    intros ? ->. eapply hashes_then; [apply hashes_guard; lia|]. intros _ _.
    eapply hashes_then; [apply hashes_guard, Nat.leb_le; rewrite length_app; lia|]. intros _ _.
    eapply hashes_then; [apply hashes_realloc|]. intros _ _.
    apply hashes_of_option. rewrite Nat2Z.id. apply pb_read_app.
  - intros ? ->. by apply hashes_ret.
Qed.
Lemma hashes_scalar {R A} pre wt (dec : istream → option (A * istream)) (set : A → R → R) body rest
    a r (P : R → Prop) : dec (body ++ rest) = Some (a, rest) → P (set a r) →
  hashes pre (h_scalar wt dec set wt (body ++ rest) r) (λ '(s', r'), s' = rest ∧ P r') [] pre.
Proof.
  intros Hd Hr. unfold h_scalar.
  eapply hashes_then; [apply hashes_guard, Z.eqb_refl|]. intros _ _.
  eapply hashes_then; [by apply hashes_of_option|]. intros ? ->. by apply hashes_ret.
Qed.
Lemma hashes_submsg {R} pre (dec : istream → R → HM R) b rest r P w post : measured b →
  hashes pre (dec b r) P w post →
  hashes pre (h_submsg dec PB_WT_STRING (enc_varint (Z.of_nat (length b)) ++ b ++ rest) r)
    (λ '(s', r'), s' = rest ∧ P r') w post.
Proof.
  intros Hb Hd. unfold measured in Hb. unfold h_submsg.
  eapply hashes_then; [by apply hashes_guard|]. intros _ _.
  eapply hashes_then; [apply hashes_of_option, pb_make_string_substream_enc; lia|]. intros ? ->.
  eapply hashes_eq; [eapply hashes_bind; [exact Hd|]|apply app_nil_r].
  intros r' Hr'. by apply hashes_ret.
Qed.
Lemma hashes_static {R R'} pre (handler : Z → option (field_handler hp_state R')) (get : R → R')
    (set : R' → R → R) b r (P : R → Prop) w post :
  fields_hash pre handler b (get r) (λ m, P (set m r)) w post →
  hashes pre (dec_static handler get set b r) P w post.
Proof.
  intros Hf. unfold dec_static.
  eapply hashes_eq; [eapply hashes_bind; [by apply fields_inner|]|apply app_nil_r].
  intros m Hm. by apply hashes_ret.
Qed.
(** A callback field: skipped when it holds none. *)
Lemma hashes_no_callback {R} pre (callback : R → option (istream → HM istream)) b rest r
    (P : R → Prop) : measured b → callback r = None → P r →
  hashes pre (h_callback callback PB_WT_STRING (enc_varint (Z.of_nat (length b)) ++ b ++ rest) r)
    (λ '(s', r'), s' = rest ∧ P r') [] pre.
Proof.
  intros Hb Ec Hr. unfold measured in Hb. unfold h_callback. rewrite Ec, Z.eqb_refl.
  eapply hashes_then; [apply hashes_of_option, pb_make_string_substream_enc; lia|]. intros ? ->.
  eapply hashes_then with (Q := λ _, True); [|by intros _ _; apply hashes_ret].
  cbn [callback_loop]. eapply hashes_then; [by apply (hashes_ret pre b (λ c, c = b))|]. intros ? ->.
  rewrite Nat.ltb_irrefl, andb_false_r. by apply hashes_ret.
Qed.
Lemma hashes_callback {R} pre (callback : R → option (istream → HM istream)) f b rest r
    (P : R → Prop) w post : measured b → callback r = Some f → P r →
  hashes pre (f b) (λ s', s' = []) w post →
  hashes pre (h_callback callback PB_WT_STRING (enc_varint (Z.of_nat (length b)) ++ b ++ rest) r)
    (λ '(s', r'), s' = rest ∧ P r') w post.
Proof.
  intros Hb Ec Hr Hf. unfold measured in Hb. unfold h_callback. rewrite Ec, Z.eqb_refl.
  eapply hashes_then; [apply hashes_of_option, pb_make_string_substream_enc; lia|]. intros ? ->.
  eapply hashes_eq; [eapply (hashes_bind _ _ _ (λ _, True) w)|apply app_nil_r].
  - cbn [callback_loop].
    eapply hashes_eq; [eapply hashes_bind; [exact Hf|]|apply app_nil_r]. intros ? ->.
    by apply hashes_ret.
  - intros _ _. by apply hashes_ret.
Qed.

(** *** Optional and repeated fields *)

Lemma fields_opt_string {R} pre (handler : Z → option (field_handler hp_state R)) tag set o rest r
    Q w post : 0 < tag < 2 ^ 29 → handler tag = Some (h_string set) → measured (wire_opt tag o) →
  fields_hash pre handler rest (match o with Some b => set b r | None => r end) Q w post →
  fields_hash pre handler (wire_opt tag o ++ rest) r Q w post.
Proof.
  intros Ht Eh Hm Hr. destruct o as [b|]; cbn [wire_opt]; [|done].
  apply (fields_bytes pre handler tag (h_string set) b rest r Q [] pre (λ r', r' = set b r));
    [done..| |by intros ? ->].
  apply hashes_string; [by apply measured_bytes in Hm|done].
Qed.
Lemma fields_repeat {R} (I : nat → Z → Prop) (handler : Z → option (field_handler hp_state R)) tag
    callback f r bs ws :
  0 < tag < 2 ^ 29 → handler tag = Some (h_callback callback) → callback r = Some f →
  Forall2 (λ b w, measured b ∧ ∀ i, hashes (I i) (f b) (λ s', s' = []) w (I (S i))) bs ws → ∀ i,
  fields_hash (I i) handler (flat_map (wire_bytes tag) bs) r (λ r', r' = r) (concat ws)
    (I (i + length bs)%nat).
Proof.
  intros Ht Eh Ec Hbs. induction Hbs as [|b w bs ws [Hb Hf] Hbs IH]; intros i; cbn [flat_map concat].
  - cbn [length]. rewrite Nat.add_0_r. by apply fields_nil.
  - eapply fields_bytes; [done|exact Eh| |].
    + apply (hashes_callback _ callback f b _ r (λ r', r' = r)); [done..|apply Hf].
    + intros ? ->. cbn [length]. rewrite Nat.add_succ_r. apply (IH (S i)).
Qed.
Lemma fields_skip {R} pre (handler : Z → option (field_handler hp_state R)) tag callback r bs :
  0 < tag < 2 ^ 29 → handler tag = Some (h_callback callback) → callback r = None →
  Forall measured bs →
  fields_hash pre handler (flat_map (wire_bytes tag) bs) r (λ r', r' = r) [] pre.
Proof.
  intros Ht Eh Ec Hbs. induction Hbs as [|b bs Hb Hbs IH]; cbn [flat_map]; [by apply fields_nil|].
  eapply (fields_bytes pre handler tag) with (w := []) (w' := []); [done|exact Eh| |].
  - by apply (hashes_no_callback _ callback b _ r (λ r', r' = r)).
  - intros ? ->. apply IH.
Qed.
(** A single callback field, skipped. *)
Lemma fields_skip_one {R} pre (handler : Z → option (field_handler hp_state R)) tag callback r b rest
    (Q : R → Prop) w post :
  0 < tag < 2 ^ 29 → handler tag = Some (h_callback callback) → callback r = None → measured b →
  fields_hash pre handler rest r Q w post →
  fields_hash pre handler (wire_bytes tag b ++ rest) r Q w post.
Proof.
  intros Ht Eh Ec Hb Hrest.
  eapply (fields_bytes pre handler tag) with (w := []); [done|exact Eh| |].
  - by apply (hashes_no_callback _ callback b _ r (λ r', r' = r)).
  - by intros ? ->.
Qed.
Lemma fields_skip_opt {R} pre (handler : Z → option (field_handler hp_state R)) tag callback r o rest
    (Q : R → Prop) w post :
  0 < tag < 2 ^ 29 → handler tag = Some (h_callback callback) → callback r = None →
  measured (wire_opt tag o) → fields_hash pre handler rest r Q w post →
  fields_hash pre handler (wire_opt tag o ++ rest) r Q w post.
Proof.
  intros Ht Eh Ec Hb Hrest. destruct o as [b|]; [|done].
  apply (fields_skip_one pre handler tag callback); [done..| |done]. by apply measured_bytes in Hb.
Qed.

(** *** The messages of a oneof *)

Section Sum.
Context {R : Type}.
Variables (tag : Z) (zero : value_union hcb) (fields : Z → option (field_handler hp_state R)).
Variables (get : value_union hcb → R) (put : R → value_union hcb).
Hypothesis tag_set : tag ≠ 0.
Lemma sum_msg_silent pre b rest v0 m (P : cbValue hcb → Prop) w post :
  which_sum v0 = 0 → cb_sum v0 = None → measured b →
  fields_hash pre fields b (get zero) (λ r, r = m) w post → P (set_union tag (put m) v0) →
  hashes pre (h_sum_msg run_sum tag zero fields get put PB_WT_STRING
    (enc_varint (Z.of_nat (length b)) ++ b ++ rest) v0) (λ '(s', r'), s' = rest ∧ P r') w post.
Proof.
  intros Hz Hc Hb Hf HP. unfold h_sum_msg. rewrite Hz.
  destruct (Z.eqb_spec 0 tag); [congruence|].
  apply hashes_submsg; [done|]. unfold dec_submsg_w_cb. cbn [set_union cb_sum update_field].
  rewrite Hc. cbn [option_map]. apply hashes_static. eapply fields_weaken; [exact Hf|].
  by intros ? ->.
Qed.
(** The message callback leaves the stream, and the fields are decoded. *)
Lemma sum_msg_called c pre b rest v0 u m (P : cbValue hcb → Prop) w1 mid w2 post :
  which_sum v0 = 0 → cb_sum v0 = Some c → measured b → put (get u) = u →
  hashes pre (run_sum c tag b (set_union tag zero v0))
    (λ '(s', v'), s' = b ∧ v' = set_union tag u v0) w1 mid →
  fields_hash mid fields b (get u) (λ r, r = m) w2 post → P (set_union tag (put m) v0) →
  hashes pre (h_sum_msg run_sum tag zero fields get put PB_WT_STRING
    (enc_varint (Z.of_nat (length b)) ++ b ++ rest) v0) (λ '(s', r'), s' = rest ∧ P r') (w1 ++ w2) post.
Proof.
  intros Hz Hc Hb Hu Hr Hf HP. unfold h_sum_msg. rewrite Hz.
  destruct (Z.eqb_spec 0 tag); [congruence|].
  apply hashes_submsg; [done|]. unfold dec_submsg_w_cb. cbn [set_union cb_sum update_field].
  rewrite Hc. cbn [option_map]. eapply hashes_bind; [exact Hr|]. intros [s' v'] [-> ->].
  destruct b as [|b0 b].
  - intros s Hs. destruct (Hf 0%nat (le_n _) s Hs) as [[_ [=]]|(a & k & n' & [= <- Es] & Em & Hn)].
    right. exists (set_union tag u v0), k, n'. split; [by rewrite <- Es|]. rewrite <- Em, Hu in HP. done.
  - apply hashes_static. eapply fields_weaken; [exact Hf|]. by intros ? ->.
Qed.
(** The message callback reads the message itself. *)
Lemma sum_msg_consumed c pre b rest v0 (P : cbValue hcb → Prop) w post :
  which_sum v0 = 0 → cb_sum v0 = Some c → measured b →
  hashes pre (run_sum c tag b (set_union tag zero v0)) (λ '(s', v'), s' = [] ∧ P v') w post →
  hashes pre (h_sum_msg run_sum tag zero fields get put PB_WT_STRING
    (enc_varint (Z.of_nat (length b)) ++ b ++ rest) v0) (λ '(s', r'), s' = rest ∧ P r') w post.
Proof.
  intros Hz Hc Hb Hr. unfold h_sum_msg. rewrite Hz. destruct (Z.eqb_spec 0 tag); [congruence|].
  apply hashes_submsg; [done|]. unfold dec_submsg_w_cb. cbn [set_union cb_sum update_field].
  rewrite Hc. cbn [option_map].
  eapply hashes_eq; [eapply hashes_bind; [exact Hr|]|apply app_nil_r]. intros [s' v'] [-> Hv].
  by apply hashes_ret.
Qed.
End Sum.
End Logic.
