(* ===== verification/ValueHash.v ===== *)
(** * The hash of a value

    A value on the wire is hashed by callbacks that decode every level twice, once to count
    its elements and once to hash them.  Here is the value as a tree, with its wire format and
    its canonical encoding by recursion on the tree, and the theorem that the callbacks hash
    exactly that encoding.

    The callbacks fall short of it in three places.  The key of a map entry is not counted, so
    [value_wf] asks for a leaf; a label, constructor or text key must fit the buffer it is read
    into; and a record is hashed whole only when its id and labels are on the wire, so a
    [V_record] has them. *)

From S2P Require Import Prelude Constants Utils Pb Wire WireLogic Messages CanonicalHash.
From S2P Require Import TreeCheck ValuesCheck HashingParser HashLogic.

(** ** Values *)

Inductive value :=
  | V_unit
  | V_bool (b : bool)
  | V_int64 (z : Z)
  | V_date (z : Z)
  | V_timestamp (z : Z)
  | V_numeric (s : bytes)
  | V_party (s : bytes)
  | V_text (s : bytes)
  | V_contract_id (s : bytes)
  | V_optional (o : option value)
  | V_list (l : list value)
  | V_text_map (l : list (bytes * value))
  | V_gen_map (l : list (value * value))
  | V_record (id : Identifier) (fields : list (bytes * value))
  | V_variant (id : option Identifier) (constructor : bytes) (v : value)
  | V_enum (id : option Identifier) (constructor : bytes).

(** *** On the wire *)

(** Zigzag, and a 32-bit integer sign-extended to 64 bits. *)
Definition zigzag (z : Z) : Z := u64 (if z <? 0 then -2 * z - 1 else 2 * z).
Fixpoint le_bytes (n : nat) (z : Z) : bytes :=
  match n with O => [] | S n => z mod 256 :: le_bytes n (z / 256) end.
Definition wire_ident (i : Identifier) : bytes :=
  wire_opt 1 (package_id i) ++ wire_opt 2 (module_name i) ++ wire_opt 3 (entity_name i).
Definition wire_enum (id : option Identifier) (constructor : bytes) : bytes :=
  wire_opt 1 (option_map wire_ident id) ++ wire_bytes 2 constructor.
Definition wire_entry (key value : bytes) : bytes := wire_bytes 1 key ++ wire_bytes 2 value.

Fixpoint wire_value (v : value) : bytes :=
  match v with
  | V_unit => wire_bytes VALUE_UNIT_TAG []
  | V_bool b => wire_varint VALUE_BOOL_TAG (if b then 1 else 0)
  | V_int64 z => wire_varint VALUE_INT64_TAG (zigzag z)
  | V_date z => wire_varint VALUE_DATE_TAG (u64 z)
  | V_timestamp z => wire_key VALUE_TIMESTAMP_TAG PB_WT_64BIT ++ le_bytes 8 (u64 z)
  | V_numeric s => wire_bytes VALUE_NUMERIC_TAG s
  | V_party s => wire_bytes VALUE_PARTY_TAG s
  | V_text s => wire_bytes VALUE_TEXT_TAG s
  | V_contract_id s => wire_bytes VALUE_CONTRACT_ID_TAG s
  | V_optional o => wire_bytes VALUE_OPTIONAL_TAG
      (match o with Some v => wire_bytes 1 (wire_value v) | None => [] end)
  | V_list l => wire_bytes VALUE_LIST_TAG (flat_map (λ v, wire_bytes 1 (wire_value v)) l)
  | V_text_map l => wire_bytes VALUE_TEXT_MAP_TAG
      (flat_map (λ '(k, v), wire_bytes 1 (wire_entry k (wire_value v))) l)
  | V_gen_map l => wire_bytes VALUE_GEN_MAP_TAG
      (flat_map (λ '(k, v), wire_bytes 1 (wire_entry (wire_value k) (wire_value v))) l)
  | V_record id fields => wire_bytes VALUE_RECORD_TAG
      (wire_bytes 1 (wire_ident id) ++
       flat_map (λ '(l, v), wire_bytes 2 (wire_entry l (wire_value v))) fields)
  | V_variant id constructor v => wire_bytes VALUE_VARIANT_TAG
      (wire_opt 1 (option_map wire_ident id) ++ wire_bytes 2 constructor ++
       wire_bytes 3 (wire_value v))
  | V_enum id constructor => wire_bytes VALUE_ENUM_TAG (wire_enum id constructor)
  end.

(** *** The canonical encoding *)

Fixpoint spec_value (v : value) : option bytes :=
  match v with
  | V_unit => Some [0x00]
  | V_bool b => Some [0x01; if b then 1 else 0]
  | V_int64 z => Some ([0x02] ++ enc_int64 z)
  | V_numeric s => Some [0x03] ⊕ spec_string (Some s)
  | V_timestamp z => Some ([0x04] ++ enc_int64 z)
  | V_date z => Some ([0x05] ++ enc_int32 z)
  | V_party s => Some [0x06] ⊕ spec_string (Some s)
  | V_text s => Some [0x07] ⊕ spec_string (Some s)
  | V_contract_id s => Some [0x08] ⊕ spec_hex_string (Some s)
  | V_optional o => Some [0x09] ⊕
      (match o with Some v => Some [1] ⊕ spec_value v | None => Some [0] end)
  | V_list l => Some [0x0a] ⊕ spec_repeated spec_value l
  | V_text_map l => Some [0x0b] ⊕
      spec_repeated (λ '(k, v), spec_string (Some k) ⊕ spec_value v) l
  | V_record id fields => Some [0x0c] ⊕ (Some [1] ⊕ spec_identifier id) ⊕
      spec_repeated (λ '(l, v), (Some [1] ⊕ spec_string (Some l)) ⊕ spec_value v) fields
  | V_variant id constructor v => Some [0x0d] ⊕ spec_optional spec_identifier id ⊕
      spec_string (Some constructor) ⊕ spec_value v
  | V_enum id constructor => Some [0x0e] ⊕ spec_optional spec_identifier id ⊕
      spec_string (Some constructor)
  | V_gen_map l => Some [0x0f] ⊕ spec_repeated (λ '(k, v), spec_value k ⊕ spec_value v) l
  end.

(** *** What the callbacks can hash *)

Definition in_width (bits z : Z) : bool := (- 2 ^ (bits - 1) <=? z) && (z <? 2 ^ (bits - 1)).
Definition fits (s : bytes) : bool := (length s <? DEFAULT_DECODE_BUFFER_SIZE)%nat.
Definition is_leaf (v : value) : bool :=
  match v with
  | V_optional _ | V_list _ | V_text_map _ | V_gen_map _ | V_record _ _ | V_variant _ _ _ => false
  | _ => true
  end.
Fixpoint value_wf (v : value) : bool :=
  match v with
  | V_int64 z | V_timestamp z => in_width 64 z
  | V_date z => in_width 32 z
  | V_optional (Some v) => value_wf v
  | V_list l => forallb value_wf l
  | V_text_map l | V_record _ l => forallb (λ '(k, v), fits k && value_wf v) l
  | V_gen_map l => forallb (λ '(k, v), is_leaf k && value_wf k && value_wf v) l
  | V_variant _ constructor v => fits constructor && value_wf v
  | _ => true
  end.

Section Hash.
Context `{Sha256} `{Device}.

(** ** Identifiers and enumerations *)

Lemma ident_fields pre i : measured (wire_ident i) →
  fields_hash pre Identifier_fields (wire_ident i) Identifier_zero (λ r, r = i) [] pre.
Proof.
  unfold wire_ident. intros [Hp [Hm He]%measured_app]%measured_app.
  rewrite <- (app_nil_r (wire_opt 3 _)).
  do 3 (eapply fields_opt_string; [lia|reflexivity|done|]).
  apply fields_nil. by destruct i as [[p|] [m|] [e|]].
Qed.
Lemma ident_measured i : measured (wire_ident i) → short_identifier i.
Proof.
  assert (Hs : ∀ tag s, measured (wire_opt tag s) → short_opt s).
  { intros tag s Hm b Eb. apply (measured_opt _ _ _ Hm) in Eb. unfold short, measured, strlen in *.
    pose proof (c_str_length b). lia. }
  unfold wire_ident. intros [Hp [Hm He]%measured_app]%measured_app. split_and!; eauto.
Qed.
Lemma opt_ident_measured tag id : measured (wire_opt tag (option_map wire_ident id)) →
  ∀ i, id = Some i → short_identifier i.
Proof. intros Hm i ->. by apply ident_measured, (measured_bytes tag). Qed.
Lemma decode_identifier_hashes pre i w : spec_identifier i = Some w → measured (wire_ident i) →
  hashes pre (decode_identifier (wire_ident i)) (λ s', s' = []) w pre.
Proof.
  intros Hi Hm. unfold decode_identifier.
  eapply hashes_then; [by apply fields_inner, ident_fields|]. intros ? ->.
  eapply hashes_eq; [eapply hashes_bind; [|intros _ _; by apply hashes_ret]|apply app_nil_r].
  apply hashes_encoder. intros st. rewrite <- Hi. by apply refines_identifier, ident_measured.
Qed.

(** The struct of an enumeration. *)
Definition the_enum (id : option Identifier) (constructor : bytes) : cbEnum :=
  {| en_has_enum_id := is_set id; en_enum_id := default Identifier_zero id;
     en_constructor := Some constructor |}.
Lemma enum_fields pre id constructor : measured (wire_enum id constructor) →
  fields_hash pre cbEnum_fields (wire_enum id constructor) cbEnum_zero
    (λ e, e = the_enum id constructor) [] pre.
Proof.
  unfold wire_enum. intros [Hi Hc%measured_bytes]%measured_app.
  assert (Hlast : ∀ e, fields_hash pre cbEnum_fields (wire_bytes 2 constructor) e
    (λ e', e' = e <| en_constructor := Some constructor |>) [] pre).
  { intros e. eapply fields_last; [lia|reflexivity|by apply hashes_string]. }
  destruct id as [i|]; cbn [option_map wire_opt app] in *; [|apply Hlast].
  apply measured_bytes in Hi.
  eapply (fields_bytes pre cbEnum_fields 1) with (P := λ e, e = cbEnum_zero
    <| en_has_enum_id := true |> <| en_enum_id := i |>) (w := []); [lia|reflexivity| |].
  - apply hashes_submsg; [done|]. apply hashes_static. eapply fields_weaken; [by apply ident_fields|].
    by intros ? ->.
  - intros ? ->. eapply fields_weaken; [apply Hlast|]. by intros ? ->.
Qed.
Lemma decode_enum_hashes pre id constructor w :
  spec_optional spec_identifier id ⊕ spec_string (Some constructor) = Some w →
  measured (wire_enum id constructor) →
  hashes pre (decode_enum (wire_enum id constructor)) (λ s', s' = []) w pre.
Proof.
  intros Hw Hm. unfold decode_enum.
  eapply hashes_then; [by apply fields_inner, enum_fields|]. intros ? ->.
  apply measured_app in Hm as [Hi Hc%measured_bytes].
  destruct (spec_optional spec_identifier id) as [w1|] eqn:E1; [|done]. cbn in Hw. injection Hw as <-.
  assert (Hc' : short_opt (Some constructor)).
  { intros s [= <-]. unfold short, measured, strlen in *. pose proof (c_str_length constructor). lia. }
  eapply hashes_bind; [apply (hashes_encoder _ _ w1)|intros _ _; eapply hashes_eq;
    [eapply hashes_bind; [apply hashes_encoder|intros _ _; by apply hashes_ret]|apply app_nil_r]].
  - intros st. rewrite <- E1. destruct id as [i|]; [|apply refines_byte0].
    apply (refines_seq st (hw_put_byte 0x01) (encode_identifier i) (Some [1])); [apply refines_byte1|]. apply refines_identifier, ident_measured.
    by apply measured_bytes in Hi.
  - intros st. by apply (refines_string st (Some constructor)).
Qed.

(** *** Scalars *)

Lemma u64_cases z : is_i64 z → u64 z = if z <? 0 then z + 2 ^ 64 else z.
Proof. unfold is_i64, u64. intros Hz. destruct (Z.ltb_spec z 0); Z.to_euclidean_division_equations; lia. Qed.
Lemma svarint_enc z rest : is_i64 z →
  pb_decode_svarint (enc_varint (zigzag z) ++ rest) = Some (z, rest).
Proof.
  intros Hz. unfold is_i64 in Hz. unfold pb_decode_svarint, zigzag.
  rewrite pb_decode_varint_enc by apply is_u64_u64. repeat f_equal.
  destruct (Z.ltb_spec z 0).
  - rewrite u64_id by (unfold is_u64; lia). replace (-2 * z - 1) with (2 * (- z - 1) + 1) by lia.
    rewrite Z.testbit_odd_0, Z.shiftr_div_pow2 by lia.
    replace ((2 * (- z - 1) + 1) / 2 ^ 1) with (- z - 1) by (Z.to_euclidean_division_equations; lia).
    set (x := - z - 1). assert (Hx : Z.lxor x (2 ^ 64 - 1) = 2 ^ 64 - 1 - x).
    { assert (Hn : Z.land x (Z.lxor x (Z.ones 64)) = 0).
      { apply Z.bits_inj'. intros n Hn. rewrite Z.land_spec, Z.lxor_spec, Z.bits_0.
        destruct (Z.ltb_spec n 64).
        - rewrite Z.ones_spec_low by lia. by destruct (Z.testbit x n).
        - rewrite <- (Z.mod_small x (2 ^ 64)), Z.mod_pow2_bits_high by (unfold x; lia). done. }
      apply Z.add_nocarry_lxor in Hn. rewrite <- Z.lxor_assoc, Z.lxor_nilpotent, Z.lxor_0_l in Hn.
      change (Z.ones 64) with (2 ^ 64 - 1) in Hn. lia. }
    rewrite Hx. unfold x, i64. Z.to_euclidean_division_equations. lia.
  - rewrite u64_id by (unfold is_u64; lia). rewrite Z.testbit_even_0, Z.shiftr_div_pow2 by lia.
    change (2 ^ 1) with 2. by rewrite Z.mul_comm, Z.div_mul.
Qed.
Lemma int32_enc z rest : is_i32 z → pb_dec_int32 (enc_varint (u64 z) ++ rest) = Some (z, rest).
Proof.
  intros Hz. unfold pb_dec_int32. rewrite pb_decode_varint_enc by apply is_u64_u64.
  repeat f_equal. unfold is_i32 in Hz. unfold i32, u64.
  change (2 ^ 64) with (2 ^ 32 * 2 ^ 32). Z.to_euclidean_division_equations. lia.
Qed.
Lemma le_value_bytes n : ∀ z, 0 ≤ z < 2 ^ (8 * Z.of_nat n) → le_value (le_bytes n z) = z.
Proof.
  induction n as [|n IH]; intros z Hz; cbn [le_bytes le_value]; [cbn in Hz; lia|].
  rewrite Nat2Z.inj_succ, Z.mul_succ_r, Z.pow_add_r in Hz by lia. change (2 ^ 8) with 256 in Hz.
  rewrite IH by (Z.to_euclidean_division_equations; nia).
  rewrite lor_shiftl_add; [|lia|apply Z.mod_pos_bound; lia|Z.to_euclidean_division_equations; lia].
  change (2 ^ 8) with 256. Z.to_euclidean_division_equations. lia.
Qed.
Lemma le_bytes_length n : ∀ z, length (le_bytes n z) = n.
Proof. induction n as [|n IH]; intros z; cbn; [done|]. by rewrite IH. Qed.
Lemma sfixed64_enc z rest : is_i64 z →
  pb_decode_sfixed64 (le_bytes 8 (u64 z) ++ rest) = Some (z, rest).
Proof.
  intros Hz. unfold pb_decode_sfixed64.
  assert (E : pb_read 8 (le_bytes 8 (u64 z) ++ rest) = Some (le_bytes 8 (u64 z), rest)).
  { rewrite <- (le_bytes_length 8 (u64 z)) at 1. apply pb_read_app. }
  rewrite E, le_value_bytes by apply is_u64_u64. repeat f_equal.
  unfold is_i64 in Hz. unfold i64, u64. Z.to_euclidean_division_equations. lia.
Qed.

(** What a scalar decodes to. *)
Definition scalar (v : value) : option (Z * value_union hcb) :=
  match v with
  | V_bool b => Some (VALUE_BOOL_TAG, U_bool b)
  | V_int64 z => Some (VALUE_INT64_TAG, U_int z)
  | V_date z => Some (VALUE_DATE_TAG, U_int z)
  | V_timestamp z => Some (VALUE_TIMESTAMP_TAG, U_int z)
  | V_numeric s => Some (VALUE_NUMERIC_TAG, U_str (Some s))
  | V_party s => Some (VALUE_PARTY_TAG, U_str (Some s))
  | V_text s => Some (VALUE_TEXT_TAG, U_str (Some s))
  | V_contract_id s => Some (VALUE_CONTRACT_ID_TAG, U_str (Some s))
  | _ => None
  end.
Lemma in_width_spec bits z : in_width bits z = true → - 2 ^ (bits - 1) ≤ z < 2 ^ (bits - 1).
Proof. unfold in_width. lia. Qed.

Lemma scalar_key pre run tag wt (h : field_handler hp_state (cbValue hcb)) body v0 v1 :
  0 < tag < 2 ^ 29 → 0 ≤ wt < 8 → Value_fields run run_sum tag = Some h →
  hashes pre (h wt (body ++ []) v0) (λ '(s', r'), s' = [] ∧ r' = v1) [] pre →
  fields_hash pre (Value_fields run run_sum) (wire_key tag wt ++ body) v0 (λ r, r = v1) [] pre.
Proof.
  intros Ht Hw Eh Hh. rewrite <- (app_nil_r body).
  eapply (fields_key pre (Value_fields run run_sum) tag wt h body [] v0) with (w := []);
    [done..|exact Hh|]. intros ? ->. by apply fields_nil.
Qed.
Lemma scalar_fields pre run v tag u v0 : scalar v = Some (tag, u) → value_wf v = true →
  measured (wire_value v) →
  fields_hash pre (Value_fields run run_sum) (wire_value v) v0 (λ r, r = set_union tag u v0) [] pre.
Proof.
  intros Hv Hwf Hm. destruct v; try done; injection Hv as <- <-; cbn [wire_value value_wf] in *.
  - eapply scalar_key; [done|done|reflexivity|]. eapply (hashes_scalar _ PB_WT_VARINT); [|reflexivity].
    unfold pb_decode_bool. rewrite pb_decode_varint32_enc by (unfold is_u32; destruct b; lia).
    by destruct b.
  - eapply scalar_key; [done|done|reflexivity|]. eapply (hashes_scalar _ PB_WT_VARINT); [|reflexivity].
    apply svarint_enc. by apply in_width_spec in Hwf.
  - eapply scalar_key; [done|done|reflexivity|]. eapply (hashes_scalar _ PB_WT_VARINT); [|reflexivity].
    apply int32_enc. by apply in_width_spec in Hwf.
  - eapply scalar_key; [done|done|reflexivity|].
    eapply (hashes_scalar _ PB_WT_64BIT); [|reflexivity]. apply sfixed64_enc. by apply in_width_spec in Hwf.
  - eapply fields_last; [done|reflexivity|apply hashes_string; [by apply measured_bytes in Hm|done]].
  - eapply fields_last; [done|reflexivity|apply hashes_string; [by apply measured_bytes in Hm|done]].
  - eapply fields_last; [done|reflexivity|apply hashes_string; [by apply measured_bytes in Hm|done]].
  - eapply fields_last; [done|reflexivity|apply hashes_string; [by apply measured_bytes in Hm|done]].
Qed.

(** *** Elements *)

(** The messages of a value: the bytes of its repeated field. *)
Definition elements (v : value) : list bytes :=
  match v with
  | V_optional o => match o with Some v => [wire_value v] | None => [] end
  | V_list l => map wire_value l
  | V_text_map l | V_record _ l => map (λ '(k, v), wire_entry k (wire_value v)) l
  | V_gen_map l => map (λ '(k, v), wire_entry (wire_value k) (wire_value v)) l
  | _ => []
  end.
Lemma flat_map_fields {A} tag (f g : A → bytes) l : (∀ a, f a = wire_bytes tag (g a)) →
  flat_map f l = flat_map (wire_bytes tag) (map g l).
Proof. intros Hf. induction l as [|a l IH]; cbn; [done|]. by rewrite IH, Hf. Qed.
Lemma wire_elements v :
  match v with
  | V_optional _ => wire_value v = wire_bytes VALUE_OPTIONAL_TAG (flat_map (wire_bytes 1) (elements v))
  | V_list _ => wire_value v = wire_bytes VALUE_LIST_TAG (flat_map (wire_bytes 1) (elements v))
  | V_text_map _ => wire_value v = wire_bytes VALUE_TEXT_MAP_TAG (flat_map (wire_bytes 1) (elements v))
  | V_gen_map _ => wire_value v = wire_bytes VALUE_GEN_MAP_TAG (flat_map (wire_bytes 1) (elements v))
  | V_record id _ => wire_value v = wire_bytes VALUE_RECORD_TAG
      (wire_bytes 1 (wire_ident id) ++ flat_map (wire_bytes 2) (elements v))
  | _ => True
  end.
Proof.
  destruct v as [| | | | | | | | |[v|]|l|l|l|id l| |]; try done; cbn [wire_value elements].
  - cbn [flat_map]. by rewrite app_nil_r.
  - f_equal. by apply flat_map_fields.
  - f_equal. by apply flat_map_fields; intros [].
  - f_equal. by apply flat_map_fields; intros [].
  - do 2 f_equal. by apply flat_map_fields; intros [].
Qed.

(** *** A value without callbacks *)

(** A value whose oneof was reset. *)
Definition fresh (c : option hcb) (v0 : cbValue hcb) : Prop := which_sum v0 = 0 ∧ cb_sum v0 = c.

Lemma variant_skip (run : hcb → istream → HM istream) r id constructor b :
  measured (wire_opt 1 (option_map wire_ident id) ++ wire_bytes 2 constructor ++ wire_bytes 3 b) →
  r = (None, None, None) → ∀ pre, fields_hash pre (variant_fields run)
    (wire_opt 1 (option_map wire_ident id) ++ wire_bytes 2 constructor ++ wire_bytes 3 b) r
    (λ r', r' = r) [] pre.
Proof.
  intros [Hi [Hc%measured_bytes Hb%measured_bytes]%measured_app]%measured_app -> pre.
  rewrite <- (app_nil_r (wire_bytes 3 b)).
  eapply (fields_skip_opt pre (variant_fields run) 1); [done|reflexivity|done|done|].
  eapply (fields_skip_one pre (variant_fields run) 2); [done|reflexivity|done|done|].
  eapply (fields_skip_one pre (variant_fields run) 3); [done|reflexivity|done|done|].
  by apply fields_nil.
Qed.

(** The single repeated field of a message without callbacks. *)
#[local] Ltac silent_elements :=
  match goal with Hm : measured (wire_bytes _ _) |- _ => apply measured_bytes in Hm as Hb end;
  eapply fields_last; [done|reflexivity|];
  eapply sum_msg_silent with (m := None); [done..| |done];
  eapply fields_skip; [done|reflexivity|done|by eapply measured_flat].
Lemma value_silent (run : hcb → istream → HM istream) v v0 pre : fresh None v0 →
  value_wf v = true → measured (wire_value v) →
  fields_hash pre (Value_fields run run_sum) (wire_value v) v0 (λ _, True) [] pre.
Proof.
  intros [Hz Hc] Hwf Hm. destruct (scalar v) as [[tag u]|] eqn:Es.
  { by eapply fields_weaken; [eapply scalar_fields|]. }
  pose proof (wire_elements v) as Hel.
  destruct v as [| | | | | | | | |o|l|l|l|id l|id constructor v|id constructor]; try done;
    try rewrite Hel in *.
  - eapply fields_last; [done|reflexivity|].
    eapply sum_msg_silent with (m := tt); [done..| |done].
    by apply fields_nil.
  - silent_elements.
  - silent_elements.
  - silent_elements.
  - silent_elements.
  - apply measured_bytes in Hm as Hb. apply measured_app in Hb as Hb'. destruct Hb' as [Hi Hl].
    eapply fields_last; [done|reflexivity|].
    eapply sum_msg_silent with (m := (None, None)); [done..| |done].
    eapply fields_skip_one; [done|reflexivity|done|by apply measured_bytes in Hi|].
    eapply fields_skip; [done|reflexivity|done|by eapply measured_flat].
  - cbn [wire_value] in *. apply measured_bytes in Hm as Hb. eapply fields_last; [done|reflexivity|].
    eapply sum_msg_silent with (m := (None, None, None)); [done..| |done].
    by apply variant_skip.
  - cbn [wire_value] in *. apply measured_bytes in Hm as Hb. eapply fields_last; [done|reflexivity|].
    eapply sum_msg_silent; [done..|by apply enum_fields|done].
Qed.

(** *** Entries *)

Section Entries.
Variable run : hcb → istream → HM istream.

Lemma labelled_fields pre k v (l : cbLabelled hcb) Q w1 mid w2 post :
  (∀ rest, hashes pre (h_callback (call run lb_label) PB_WT_STRING
     (enc_varint (Z.of_nat (length k)) ++ k ++ rest) l) (λ '(s', l'), s' = rest ∧ l' = l) w1 mid) →
  measured (wire_value v) →
  fields_hash mid (Value_fields run run_sum) (wire_value v) (lb_value l) Q w2 post →
  fields_hash pre (Labelled_fields run run_sum) (wire_entry k (wire_value v)) l
    (λ l', Q (lb_value l')) (w1 ++ w2) post.
Proof.
  intros Hk Hm Hv. unfold wire_entry.
  eapply (fields_bytes pre (Labelled_fields run run_sum) 1); [done|reflexivity|apply Hk|].
  intros ? ->. eapply fields_last; [done|reflexivity|]. unfold h_value.
  apply hashes_submsg; [done|]. by apply hashes_static.
Qed.
Lemma labelled_silent pre k v : measured (wire_entry k (wire_value v)) → value_wf v = true →
  fields_hash pre (Labelled_fields run run_sum) (wire_entry k (wire_value v)) cbLabelled_zero
    (λ _, True) [] pre.
Proof.
  intros [Hk%measured_bytes Hv%measured_bytes]%measured_app Hwf.
  apply (labelled_fields pre k v cbLabelled_zero (λ _, True) [] pre [] pre); [|done|].
  - intros rest. by apply hashes_no_callback.
  - by apply value_silent.
Qed.

Lemma entry_fields pre k v (e : cbGenMapEntry hcb) Qk Qv w1 mid w2 post :
  measured (wire_value k) → measured (wire_value v) →
  fields_hash pre (Value_fields run run_sum) (wire_value k) (gm_key e) Qk w1 mid →
  fields_hash mid (Value_fields run run_sum) (wire_value v) (gm_value e) Qv w2 post →
  fields_hash pre (GenMapEntry_fields run run_sum) (wire_entry (wire_value k) (wire_value v)) e
    (λ e', Qk (gm_key e') ∧ Qv (gm_value e')) (w1 ++ w2) post.
Proof.
  intros Hmk Hmv Hk Hv. unfold wire_entry.
  eapply (fields_bytes pre (GenMapEntry_fields run run_sum) 1) with
    (P := λ e', Qk (gm_key e') ∧ gm_value e' = gm_value e); [done|reflexivity| |].
  - unfold h_value. apply hashes_submsg; [done|]. apply hashes_static.
    eapply fields_weaken; [exact Hk|]. by intros a Ha.
  - intros e' [Hq He]. eapply fields_last; [done|reflexivity|]. unfold h_value.
    apply hashes_submsg; [done|]. apply hashes_static. cbn. rewrite He.
    eapply fields_weaken; [exact Hv|]. by intros a Ha.
Qed.
End Entries.

(** ** Counting *)

Definition counted (v : value) (n : Z) : Prop :=
  match v with
  | V_optional _ | V_list _ | V_text_map _ | V_gen_map _ | V_record _ _ =>
      n = Z.of_nat (length (elements v))
  | V_variant id _ _ => n = if is_set id then 1 else 0
  | _ => True
  end.

Definition at_count (i : nat) (n : Z) : Prop := n = Z.of_nat i.
(** A callback that reads its element and counts it. *)
Definition counts (f : istream → HM istream) (b : bytes) : Prop :=
  ∀ i, hashes (at_count i) (f b) (λ s', s' = []) [] (at_count (S i)).

Lemma counts_after {A} (m : HM A) f b : f b = (do* m in do* count_one in ret []) →
  (∀ pre, hashes pre m (λ _, True) [] pre) → counts f b.
Proof.
  intros Ef Hm i. rewrite Ef. eapply hashes_then; [apply Hm|]. intros _ _.
  eapply hashes_then; [|intros _ _; by apply hashes_ret].
  apply hashes_count. unfold at_count. lia.
Qed.
Lemma fields_counted {R} (handler : Z → option (field_handler hp_state R)) tag callback f r bs :
  0 < tag < 2 ^ 29 → handler tag = Some (h_callback callback) → callback r = Some f →
  Forall measured bs → Forall (counts f) bs →
  fields_hash (at_count 0) handler (flat_map (wire_bytes tag) bs) r (λ r', r' = r) []
    (at_count (length bs)).
Proof.
  intros Ht Eh Ec Hm Hc.
  assert (E : concat (map (λ _, []) bs) = @nil Z) by (clear; by induction bs).
  rewrite <- E. apply (fields_repeat at_count handler tag callback f r bs); [done..|].
  clear - Hm Hc. induction Hm; inversion Hc; subst; constructor; auto.
Qed.

(** The callback that [count_value] sets. *)
Definition counter (v : value) : hcb :=
  match v with
  | V_text_map _ => count_text_map_entry_cb
  | V_gen_map _ => count_gen_map_entry_cb
  | V_record _ _ => count_record_field_cb
  | _ => count_list_elem_cb
  end.
Lemma elements_counted fuel v : value_wf v = true → Forall measured (elements v) →
  Forall (counts (run (S fuel) (counter v))) (elements v).
Proof.
  intros Hwf Hm. rewrite !Forall_forall in *. intros b Hb. pose proof (Hm b Hb) as Hmb.
  destruct v as [| | | | | | | | |[v|]|l|l|l|id l| |]; cbn [elements value_wf counter] in *;
    try set_solver.
  - apply list_elem_of_singleton in Hb as ->. eapply counts_after; [reflexivity|]. intros pre.
    by apply fields_inner, value_silent.
  - apply list_elem_of_fmap in Hb as (v & -> & Hv). rewrite forallb_forall in Hwf.
    eapply counts_after; [reflexivity|]. intros pre.
    apply fields_inner, value_silent; [done|by apply Hwf, list_elem_of_In|done].
  - apply list_elem_of_fmap in Hb as ([k v] & -> & Hv). rewrite forallb_forall in Hwf.
    apply list_elem_of_In, Hwf, andb_true_iff in Hv as [_ Hv].
    eapply counts_after; [reflexivity|]. intros pre. by apply fields_inner, labelled_silent.
  - apply list_elem_of_fmap in Hb as ([k v] & -> & Hv). rewrite forallb_forall in Hwf.
    apply list_elem_of_In, Hwf, andb_true_iff in Hv as [[_ Hk]%andb_true_iff Hv].
    eapply counts_after; [reflexivity|]. intros pre.
    apply measured_app in Hmb as [Hmk%measured_bytes Hmv%measured_bytes].
    eapply fields_inner, fields_weaken;
      [eapply (entry_fields _ pre k v) with (w1 := []) (w2 := [])|done]; [done|done|..];
      by apply value_silent.
  - apply list_elem_of_fmap in Hb as ([k v] & -> & Hv). rewrite forallb_forall in Hwf.
    apply list_elem_of_In, Hwf, andb_true_iff in Hv as [_ Hv].
    eapply counts_after; [reflexivity|]. intros pre. by apply fields_inner, labelled_silent.
Qed.

(** The message callback of the count resets it and asks for the elements. *)
Lemma count_value_starts (pre : Z → Prop) tag b (v v' : cbValue hcb) :
  count_value tag b v = (do* modify (λ s, s <| hp_elem_count := 0 |>) in ret (b, v')) →
  hashes pre (run_sum count_value_cb tag b v) (λ '(s', r), s' = b ∧ r = v') [] (at_count 0).
Proof.
  intros E. cbn [run_sum]. rewrite E.
  eapply hashes_then; [apply hashes_set_count|]. intros _ _. by apply hashes_ret.
Qed.
Lemma count_variant_fields fuel id constructor b :
  measured (wire_opt 1 (option_map wire_ident id) ++ wire_bytes 2 constructor ++ wire_bytes 3 b) →
  fields_hash (at_count 0) (variant_fields (run (S fuel)))
    (wire_opt 1 (option_map wire_ident id) ++ wire_bytes 2 constructor ++ wire_bytes 3 b)
    (Some count_identifier_cb, None, None) (λ r, r = (Some count_identifier_cb, None, None)) []
    (λ n, n = if is_set id then 1 else 0).
Proof.
  intros [Hi [Hc%measured_bytes Hb%measured_bytes]%measured_app]%measured_app.
  set (r := (Some count_identifier_cb, None, None)).
  assert (Hrest : ∀ pre, fields_hash pre (variant_fields (run (S fuel)))
    (wire_bytes 2 constructor ++ wire_bytes 3 b) r (λ r', r' = r) [] pre).
  { intros p. rewrite <- (app_nil_r (wire_bytes 3 b)).
    eapply (fields_skip_one p _ 2); [done|reflexivity|done|done|].
    eapply (fields_skip_one p _ 3); [done|reflexivity|done|done|]. by apply fields_nil. }
  destruct id as [i|]; cbn [option_map wire_opt app is_set] in *; [|apply Hrest].
  apply measured_bytes in Hi.
  eapply (fields_bytes _ _ 1) with (w := []) (P := λ r', r' = r); [done|reflexivity| |].
  - eapply hashes_callback; [done|reflexivity|done|]. cbn [run]. unfold count_identifier.
    eapply hashes_then; [by apply fields_inner, ident_fields|]. intros _ _.
    eapply hashes_then; [|intros _ _; by apply hashes_ret].
    apply (hashes_count _ _ (λ n, n = 1)). unfold at_count. lia.
  - intros ? ->. apply Hrest.
Qed.

#[local] Ltac count_elements un :=
  match goal with Hm : measured (wire_bytes _ _) |- _ => apply measured_bytes in Hm as Hb end;
  eapply fields_last; [done|reflexivity|];
  eapply sum_msg_called with (w1 := []) (u := un); [done..|reflexivity| | |done];
  [by apply count_value_starts|];
  eapply fields_counted; [done|reflexivity|reflexivity|by eapply measured_flat|];
  match goal with Hl : Forall measured _ → _ |- _ => apply Hl end; by eapply measured_flat.
Lemma count_value_fields fuel v v0 pre : fresh (Some count_value_cb) v0 → value_wf v = true →
  measured (wire_value v) →
  fields_hash pre (Value_fields (run (S fuel)) run_sum) (wire_value v) v0 (λ _, True) [] (counted v).
Proof.
  intros [Hz Hc] Hwf Hm. destruct (scalar v) as [[tag u]|] eqn:Es.
  { eapply fields_post; [by eapply fields_weaken; [eapply scalar_fields|]|]. by destruct v. }
  pose proof (wire_elements v) as Hel. pose proof (elements_counted fuel v Hwf) as Hcount.
  destruct v as [| | | | | | | | |o|l|l|l|id l|id constructor v|id constructor]; try done;
    try rewrite Hel in *.
  - eapply fields_last; [done|reflexivity|].
    eapply sum_msg_called with (m := tt) (w1 := []); [done..|reflexivity| | |done].
    + by apply count_value_starts.
    + eapply fields_post; [by apply fields_nil|done].
  - count_elements (U_optional (Some count_list_elem_cb)).
  - count_elements (U_list (Some count_list_elem_cb)).
  - count_elements (U_text_map (Some count_text_map_entry_cb)).
  - count_elements (U_gen_map (Some count_gen_map_entry_cb)).
  - apply measured_bytes in Hm as Hb. apply measured_app in Hb as Hb'.
    destruct Hb' as [Hi%measured_bytes Hl%measured_flat].
    eapply fields_last; [done|reflexivity|].
    eapply sum_msg_called with (w1 := []) (u := U_record None (Some count_record_field_cb));
      [done..|reflexivity| | |done]; [by apply count_value_starts|].
    eapply fields_skip_one; [done|reflexivity|done|done|].
    eapply fields_counted; [done|reflexivity|reflexivity|done|by apply Hcount].
  - cbn [wire_value] in *. apply measured_bytes in Hm as Hb. eapply fields_last; [done|reflexivity|].
    eapply sum_msg_called with (w1 := []) (u := U_variant (Some count_identifier_cb) None None);
      [done..|reflexivity| | |done]; [by apply count_value_starts|].
    by apply count_variant_fields.
  - cbn [wire_value] in *. apply measured_bytes in Hm as Hb. eapply fields_last; [done|reflexivity|].
    eapply sum_msg_called with (w1 := []) (u := U_enum cbEnum_zero);
      [done..|reflexivity| | |done]; [by apply count_value_starts|].
    eapply fields_post; [by apply enum_fields|done].
Qed.

(** ** Hashing *)

Definition hashes_rest (Q : cbValue hcb → Prop) (w : bytes) : Prop :=
  ∀ r mid, Q r → hashes mid (decode_value_primitive_variants r) (λ _, True) w mid.
(** The callbacks of the fields and the leaf after them, which is nothing for a value with
    elements. *)
Definition decodes (run : hcb → istream → HM istream) (v : value) (pre : Z → Prop) (w : bytes)
    (post : Z → Prop) : Prop :=
  ∃ Q w1 w2, w = w1 ++ w2 ∧ hashes_rest Q w2 ∧ ∀ v0, fresh (Some decode_value_variant_cb) v0 →
    fields_hash pre (Value_fields run run_sum) (wire_value v) v0 Q w1 post.

Lemma measured_scalar tag s : measured (wire_bytes tag s) → short_opt (Some s).
Proof. intros Hm%measured_bytes. by apply short_measured. Qed.
Lemma scalar_rest v tag u w : scalar v = Some (tag, u) → measured (wire_value v) →
  spec_value v = Some w → hashes_rest (λ r, ∃ v0, r = set_union tag u v0) w.
Proof.
  intros Hv Hm Hw r mid (v0 & ->).
  destruct v as [|[]| | | | | | | | | | | | | |]; try done; injection Hv as <- <-;
    eapply hashes_refined; try exact Hw; intros st;
    (apply refines_seq || apply (refines_seq st _ _ (Some [_]) (Some _))); try apply refines_put;
    (apply refines_string || apply refines_hex_string); by eapply measured_scalar.
Qed.
Lemma compound_rest w : w = [] → hashes_rest (λ r, 10 ≤ which_sum r) w.
Proof.
  intros -> r mid Hr. unfold decode_value_primitive_variants.
  assert (E : ∀ tag, tag < 10 → (which_sum r =? tag) = false) by lia.
  rewrite !E by done.
  by apply hashes_ret.
Qed.
Lemma leaf_decodes run v pre w : is_leaf v = true → value_wf v = true → measured (wire_value v) →
  spec_value v = Some w → decodes run v pre w pre.
Proof.
  intros Hl Hwf Hm Hw. destruct (scalar v) as [[tag u]|] eqn:Es.
  - eexists _, [], w. split; [done|]. split; [by eapply scalar_rest|]. intros v0 Hv0.
    eapply fields_weaken; [by eapply scalar_fields|]. intros ? ->. by exists v0.
  - destruct v as [| | | | | | | | |o|l|l|l|id l|id constructor v|id constructor]; try done.
    + exists (λ r, which_sum r = 1), [], [0]. split; [by injection Hw as <-|]. split.
      { intros r mid Hr. unfold decode_value_primitive_variants. rewrite Hr. by apply hashes_byte. }
      intros v0 [Hz Hc]. eapply fields_last; [done|reflexivity|].
      eapply sum_msg_called with (m := tt) (w1 := []) (w2 := []) (u := U_unit); [done..| | |done].
      * cbn [run_sum]. apply hashes_read_count. intros n _. by apply hashes_ret.
      * by apply fields_nil.
    + exists (λ r, 10 ≤ which_sum r), w, []. split; [by rewrite app_nil_r|].
      split; [by apply compound_rest|]. intros v0 [Hz Hc].
      cbn [spec_value] in Hw. apply cat2_some in Hw as (x & y & Hx & Hy & ->).
      apply cat2_some in Hx as (x1 & x2 & [= <-] & Hx & ->).
      eapply fields_last; [done|reflexivity|]. cbn [wire_value] in Hm. apply measured_bytes in Hm as Hb.
      eapply sum_msg_consumed; [done..|]. cbn [run_sum]. apply hashes_read_count. intros n _.
      rewrite <- app_assoc. eapply hashes_bind; [by apply hashes_byte|]. intros _ _.
      eapply hashes_eq; [eapply hashes_bind; [eapply decode_enum_hashes; [|done]|]|apply app_nil_r].
      * rewrite Hx, Hy. done.
      * intros ? ->. by apply hashes_ret.
Qed.

(** *** Callbacks of one piece *)

Lemma read_fits s : fits s = true → pb_read (buffer_read s) s = Some (s, []).
Proof.
  intros Hs. unfold fits in Hs. unfold buffer_read. rewrite Hs.
  rewrite <- (app_nil_r s) at 2. apply pb_read_app.
Qed.
Lemma hashes_piece pre s w : spec_string (Some s) = Some w → measured s →
  hashes pre (do* hw_node (encode_string (Some s)) in ret []) (λ s' : istream, s' = []) w pre.
Proof.
  intros Hw Hm. eapply hashes_eq; [|apply app_nil_r].
  eapply hashes_bind; [|intros _ _; by apply hashes_ret].
  eapply hashes_refined; [|exact Hw]. intros st. by apply refines_string, short_measured.
Qed.
Lemma decode_textmap_key_hashes pre s w : fits s = true → measured s →
  spec_string (Some s) = Some w →
  hashes pre (decode_textmap_key s) (λ s', s' = []) w pre.
Proof.
  intros Hs Hm Hw. unfold decode_textmap_key.
  eapply hashes_then; [by apply hashes_of_option, read_fits|]. intros ? ->. by apply hashes_piece.
Qed.
Lemma decode_variant_constructor_hashes pre s w : fits s = true → measured s →
  spec_string (Some s) = Some w →
  hashes pre (decode_variant_constructor s) (λ s', s' = []) w pre.
Proof. apply decode_textmap_key_hashes. Qed.
Lemma decode_record_field_label_hashes pre s w : fits s = true → measured s →
  Some [1] ⊕ spec_string (Some s) = Some w →
  hashes pre (decode_record_field_label s) (λ s', s' = []) w pre.
Proof.
  intros Hs Hm (x & y & [= <-] & Hy & ->)%cat2_some. unfold decode_record_field_label.
  eapply hashes_then; [by apply hashes_of_option, read_fits|]. intros ? ->.
  eapply hashes_bind; [by apply hashes_byte|]. intros _ _. by apply hashes_piece.
Qed.

Lemma decode_record_id_hashes id len w :
  (Some [1] ⊕ spec_identifier id) ⊕ Some (enc_int32 (Z.of_nat len)) = Some w →
  measured (wire_ident id) →
  hashes (at_count len) (decode_record_id (wire_ident id)) (λ s', s' = []) w (λ _, True).
Proof.
  intros (x & y & (x1 & x2 & [= <-] & Hx & ->)%cat2_some & [= <-] & ->)%cat2_some Hm.
  unfold decode_record_id. rewrite <- app_assoc.
  eapply hashes_bind; [by apply hashes_byte|]. intros _ _.
  eapply hashes_attempt; [by apply decode_identifier_hashes| |]; [intros ? ->|].
  2: { intros s. unfold bind, gets. destruct (_ =? _); done. }
  apply hashes_read_count. unfold at_count. intros n Hn. subst n.
  rewrite (proj2 (Z.eqb_neq _ _)) by (unfold VALUE_ELEM_COUNT_NONE; lia).
  eapply hashes_eq;
    [eapply hashes_bind with (Q := λ _, True) (mid := λ _, True)|apply app_nil_r].
  - eapply hashes_eq; [eapply hashes_bind|apply app_nil_r].
    + apply hashes_encoder. intros st. apply refines_int32.
    + intros _ _. by eapply hashes_weaken; [apply (hashes_set_count (λ _, True))|..].
  - intros _ _. by apply hashes_ret.
Qed.

(** *** Callbacks of two passes *)

Section Passes.
Variable fuel : nat.
Abbreviation run' := (run (S fuel)).

Lemma decode_value_field_puts v w : value_wf v = true → measured (wire_value v) →
  decodes run' v (counted v) w (λ _, True) →
  puts (decode_value_field run' (wire_value v)) (λ s', s' = []) w.
Proof.
  intros Hwf Hm (Q & w1 & w2 & -> & Hrest & Hf) pre. unfold decode_value_field, count_value_helper.
  eapply hashes_then.
  { eapply hashes_then; [by apply fields_inner, count_value_fields|].
    intros _ _. by apply (hashes_ret _ tt (λ _, True)). }
  intros _ _. eapply hashes_bind; [by apply fields_inner, Hf|]. intros r Hr.
  eapply hashes_eq; [eapply hashes_bind; [by apply Hrest|]|apply app_nil_r].
  intros _ _. by apply hashes_ret.
Qed.
Lemma decode_value_puts v w : value_wf v = true → measured (wire_value v) →
  decodes run' v (counted v) w (λ _, True) →
  puts (decode_value run' (wire_value v)) (λ s', s' = []) w.
Proof.
  intros Hwf Hm Hd pre. unfold decode_value. eapply hashes_then; [apply hashes_stack|]. intros _ _.
  by apply decode_value_field_puts.
Qed.
Lemma labelled_puts (f : istream → HM istream) c k v wk w : f (wire_entry k (wire_value v)) =
    (do* stack_has_room in
     do* count_record_field_helper run' (wire_entry k (wire_value v)) in
     let* rf := pb_decode_inner (Labelled_fields run' run_sum) (wire_entry k (wire_value v))
       (cbLabelled_zero <| lb_value ::= with_sum (Some decode_value_variant_cb) |>
                        <| lb_label := Some c |>) in
     do* decode_value_primitive_variants (lb_value rf) in ret []) →
  (∀ pre, hashes pre (run' c k) (λ s', s' = []) wk pre) →
  value_wf v = true → measured (wire_entry k (wire_value v)) →
  decodes run' v (counted v) w (λ _, True) →
  puts (f (wire_entry k (wire_value v))) (λ s', s' = []) (wk ++ w).
Proof.
  intros Ef Hk Hwf Hm (Q & w1 & w2 & -> & Hrest & Hf) pre. rewrite Ef.
  apply measured_app in Hm as [Hmk%measured_bytes Hm%measured_bytes].
  unfold count_record_field_helper.
  eapply hashes_then; [apply hashes_stack|]. intros _ _.
  eapply hashes_then.
  { eapply hashes_then; [|intros _ _; by apply (hashes_ret (counted v) tt (λ _, True))].
    apply fields_inner. eapply (labelled_fields run' pre k v) with (w1 := []) (w2 := []);
      [|done|by apply count_value_fields]. intros rest. by apply hashes_no_callback. }
  intros _ _. rewrite app_assoc. eapply hashes_bind.
  { apply fields_inner. eapply (labelled_fields run' _ k v); [|done|by apply Hf].
    intros rest. eapply hashes_callback; [done|reflexivity|done|apply Hk]. }
  intros r Hr. eapply hashes_eq; [eapply hashes_bind; [by apply Hrest|]|apply app_nil_r].
  intros _ _. by apply hashes_ret.
Qed.
Lemma decode_gen_map_entry_puts k v wk w : is_leaf k = true → value_wf k = true →
  value_wf v = true → measured (wire_entry (wire_value k) (wire_value v)) →
  spec_value k = Some wk → decodes run' v (counted v) w (λ _, True) →
  puts (decode_gen_map_entry run' (wire_entry (wire_value k) (wire_value v))) (λ s', s' = [])
    (wk ++ w).
Proof.
  intros Hl Hwk Hwf Hm Hsk (Q & w1 & w2 & -> & Hrest & Hf) pre.
  apply measured_app in Hm as [Hmk%measured_bytes Hm%measured_bytes].
  destruct (leaf_decodes run' k (counted v) wk) as (Qk & k1 & k2 & -> & Hrestk & Hfk); [done..|].
  unfold decode_gen_map_entry, count_gen_map_helper.
  eapply hashes_then; [apply hashes_stack|]. intros _ _.
  eapply hashes_then.
  { eapply hashes_then; [|intros _ _; by apply (hashes_ret (counted v) tt (λ _, True))].
    apply fields_inner. eapply (entry_fields run' pre k v) with (w1 := []) (w2 := []); [done|done|..].
    - by apply value_silent.
    - by apply count_value_fields. }
  intros _ _. rewrite <- app_assoc. eapply hashes_bind.
  { eapply hashes_eq; [apply fields_inner|apply app_nil_r].
    eapply (entry_fields run' _ k v) with (w2 := []);
      [done|done|by apply Hfk|by apply value_silent]. }
  intros r [Hrk _]. eapply hashes_bind; [by apply Hrestk|]. intros _ _.
  eapply hashes_bind.
  { apply fields_inner. eapply (entry_fields run' _ k v) with (w1 := []); [done|done|..].
    - by apply value_silent.
    - by apply Hf. }
  intros r' [_ Hr']. eapply hashes_eq; [eapply hashes_bind; [by apply Hrest|]|apply app_nil_r].
  intros _ _. by apply hashes_ret.
Qed.
End Passes.

(** *** The elements of a value *)

Lemma fields_put {A R} (handler : Z → option (field_handler hp_state R)) tag callback f r
    (g : A → bytes) (spec : A → option bytes) l w :
  0 < tag < 2 ^ 29 → handler tag = Some (h_callback callback) → callback r = Some f →
  Forall measured (map g l) → spec_each spec l = Some w →
  (∀ a w, a ∈ l → measured (g a) → spec a = Some w → puts (f (g a)) (λ s', s' = []) w) →
  fields_hash (λ _, True) handler (flat_map (wire_bytes tag) (map g l)) r (λ r', r' = r) w
    (λ _, True).
Proof.
  intros Ht Eh Ec Hm (ws & -> & Hws)%each_some Hputs.
  eapply (fields_repeat (λ _ _, True) handler tag callback f r (map g l) ws Ht Eh Ec); [|exact 0%nat].
  clear Eh Ec. induction Hws as [|a w l ws Ha Hws IH]; cbn [map]; constructor.
  - inversion Hm; subst. split; [done|]. intros _. apply Hputs; [set_solver|done..].
  - inversion Hm; subst. apply IH; [done|]. set_solver.
Qed.

(** What hashes the elements of a value of each kind; [spec_elements] is their encoding. *)
Definition decoder (v : value) : hcb :=
  match v with
  | V_optional _ | V_variant _ _ _ => decode_value_cb
  | V_list _ => decode_list_elem_cb
  | V_text_map _ => decode_text_map_entry_cb
  | V_gen_map _ => decode_gen_map_entry_cb
  | _ => decode_record_field_cb
  end.
Definition spec_elements (v : value) : option bytes :=
  match v with
  | V_optional o => match o with Some v => spec_value v | None => Some [] end
  | V_list l => spec_each spec_value l
  | V_text_map l => spec_each (λ '(k, v), spec_string (Some k) ⊕ spec_value v) l
  | V_gen_map l => spec_each (λ '(k, v), spec_value k ⊕ spec_value v) l
  | V_record _ l =>
      spec_each (λ '(l, v), (Some [1] ⊕ spec_string (Some l)) ⊕ spec_value v) l
  | _ => Some []
  end.

(** A value read by [run fuel] on all of its bytes. *)
Definition decodable (fuel : nat) : Prop := ∀ v w, (length (wire_value v) ≤ fuel)%nat →
  value_wf v = true → measured (wire_value v) → spec_value v = Some w →
  decodes (run fuel) v (counted v) w (λ _, True).

Lemma wire_value_nonempty v : (1 ≤ length (wire_value v))%nat.
Proof.
  assert (Hk : ∀ tag wt b, (1 ≤ length (wire_key tag wt ++ b))%nat).
  { intros tag wt b. rewrite length_app. unfold wire_key.
    pose proof (enc_varint_cons (tag * 8 + wt)). lia. }
  destruct v; apply Hk.
Qed.
Lemma element_puts fuel v w : decodable fuel → (length (wire_value v) ≤ fuel)%nat →
  value_wf v = true → measured (wire_value v) → spec_value v = Some w →
  puts (run (S fuel) decode_value_cb (wire_value v)) (λ s', s' = []) w.
Proof.
  intros Hd Hl Hwf Hm Hw. pose proof (wire_value_nonempty v). destruct fuel as [|fuel]; [lia|].
  apply (decode_value_puts fuel); [done|done|]. by apply Hd.
Qed.
Lemma entry_length k v tag : (length (wire_value v) ≤ length (wire_entry k (wire_value v)))%nat ∧
  (length (wire_entry k (wire_value v)) + 2 ≤ length (wire_bytes tag (wire_entry k (wire_value v))))%nat.
Proof.
  split; [|apply wire_bytes_length]. unfold wire_entry. rewrite length_app.
  pose proof (wire_bytes_length 2 (wire_value v)). lia.
Qed.

(** The entries of a text map, of a map and the fields of a record. *)
Lemma entry_room fuel k v : (length (wire_entry k (wire_value v)) ≤ fuel)%nat →
  ∃ n, fuel = S n ∧ (length (wire_value v) ≤ fuel)%nat.
Proof.
  pose proof (wire_value_nonempty v). pose proof (entry_length k v 1). intros Hl.
  destruct fuel as [|n]; [lia|]. exists n. split; [done|lia].
Qed.
Lemma text_map_entry_puts fuel k v w : decodable fuel →
  (length (wire_entry k (wire_value v)) ≤ fuel)%nat → fits k = true → value_wf v = true →
  measured (wire_entry k (wire_value v)) → spec_string (Some k) ⊕ spec_value v = Some w →
  puts (run (S fuel) decode_text_map_entry_cb (wire_entry k (wire_value v))) (λ s', s' = []) w.
Proof.
  intros Hd (n & -> & Hl)%entry_room Hf Hwf Hm (x & y & Hx & Hy & ->)%cat2_some.
  pose proof Hm as [Hk%measured_bytes Hv%measured_bytes]%measured_app.
  apply (labelled_puts n _ decode_textmap_key_cb); [reflexivity| |done|done|by apply Hd].
  intros pre. by apply decode_textmap_key_hashes.
Qed.
Lemma record_field_puts fuel k v w : decodable fuel →
  (length (wire_entry k (wire_value v)) ≤ fuel)%nat → fits k = true → value_wf v = true →
  measured (wire_entry k (wire_value v)) →
  (Some [1] ⊕ spec_string (Some k)) ⊕ spec_value v = Some w →
  puts (run (S fuel) decode_record_field_cb (wire_entry k (wire_value v))) (λ s', s' = []) w.
Proof.
  intros Hd (n & -> & Hl)%entry_room Hf Hwf Hm (x & y & Hx & Hy & ->)%cat2_some.
  pose proof Hm as [Hk%measured_bytes Hv%measured_bytes]%measured_app.
  apply (labelled_puts n _ decode_record_field_label_cb); [reflexivity| |done|done|by apply Hd].
  intros pre. by apply decode_record_field_label_hashes.
Qed.
Lemma gen_map_entry_puts fuel k v w : decodable fuel →
  (length (wire_entry (wire_value k) (wire_value v)) ≤ fuel)%nat → is_leaf k = true →
  value_wf k = true → value_wf v = true →
  measured (wire_entry (wire_value k) (wire_value v)) → spec_value k ⊕ spec_value v = Some w →
  puts (run (S fuel) decode_gen_map_entry_cb (wire_entry (wire_value k) (wire_value v)))
    (λ s', s' = []) w.
Proof.
  intros Hd (n & -> & Hl)%entry_room Hk Hwk Hwf Hm (x & y & Hx & Hy & ->)%cat2_some.
  pose proof Hm as [_ Hv%measured_bytes]%measured_app.
  apply (decode_gen_map_entry_puts n); [done..|by apply Hd].
Qed.

Lemma elements_put {R} fuel (handler : Z → option (field_handler hp_state R)) tag callback r v w :
  decodable fuel → Forall (λ b, (length b ≤ fuel)%nat) (elements v) → value_wf v = true →
  Forall measured (elements v) → spec_elements v = Some w →
  0 < tag < 2 ^ 29 → handler tag = Some (h_callback callback) →
  callback r = Some (run (S fuel) (decoder v)) →
  fields_hash (λ _, True) handler (flat_map (wire_bytes tag) (elements v)) r (λ r', r' = r) w
    (λ _, True).
Proof.
  intros Hd Hl Hwf Hm Hw Ht Eh Ec.
  destruct v as [| | | | | | | | |o|l|l|l|id l|id constructor v|id constructor];
    try (injection Hw as <-; by apply fields_nil); cbn [elements spec_elements value_wf] in *.
  - assert (Hw' : spec_each spec_value (option_list o) = Some w).
    { destruct o as [v|]; [|done]. cbn. rewrite Hw. cbn. by rewrite app_nil_r. }
    replace (match o with Some v => [wire_value v] | None => [] end) with
      (map wire_value (option_list o)) in * by (by destruct o).
    eapply fields_put; [done|exact Eh|exact Ec|done|exact Hw'|].
    intros v x Hv Hmv Hx. destruct o as [v'|]; [|set_solver]. apply list_elem_of_singleton in Hv as ->.
    apply element_puts; [done| |done..]. by inversion Hl.
  - eapply fields_put; [done|exact Eh|exact Ec|done|exact Hw|]. intros v x Hv Hmv Hx.
    rewrite Forall_forall in Hl. rewrite forallb_forall in Hwf.
    apply element_puts; [done| |by apply Hwf, list_elem_of_In|done..].
    apply Hl. by apply list_elem_of_fmap_2.
  - eapply fields_put; [done|exact Eh|exact Ec|done|exact Hw|]. intros [k v] x Hv Hmv Hx.
    rewrite Forall_forall in Hl. rewrite forallb_forall in Hwf.
    pose proof Hv as [Hk Hwv]%list_elem_of_In%Hwf%andb_true_iff.
    apply text_map_entry_puts; [done| |done..]. apply Hl, list_elem_of_fmap. by exists (k, v).
  - eapply fields_put; [done|exact Eh|exact Ec|done|exact Hw|]. intros [k v] x Hv Hmv Hx.
    rewrite Forall_forall in Hl. rewrite forallb_forall in Hwf.
    pose proof Hv as [[Hk Hwk]%andb_true_iff Hwv]%list_elem_of_In%Hwf%andb_true_iff.
    apply gen_map_entry_puts; [done| |done..]. apply Hl, list_elem_of_fmap. by exists (k, v).
  - eapply fields_put; [done|exact Eh|exact Ec|done|exact Hw|]. intros [k v] x Hv Hmv Hx.
    rewrite Forall_forall in Hl. rewrite forallb_forall in Hwf.
    pose proof Hv as [Hk Hwv]%list_elem_of_In%Hwf%andb_true_iff.
    apply record_field_puts; [done| |done..]. apply Hl, list_elem_of_fmap. by exists (k, v).
Qed.

(** *** The message callback *)

Lemma decode_variant_starts tag hdr f (b : istream) (v v' : cbValue hcb) len w : 0 ≤ hdr < 256 →
  run_sum decode_value_variant_cb tag b v =
    (let* n := gets hp_elem_count in
     do* hw_node (hw_put_byte hdr) in do* hw_node (f n) in
     do* modify (λ s, s <| hp_elem_count := VALUE_ELEM_COUNT_NONE |>) in ret (b, v')) →
  (∀ st, refines st (f len) (Some w)) →
  hashes (λ n, n = len) (run_sum decode_value_variant_cb tag b v) (λ '(s', r), s' = b ∧ r = v')
    (hdr :: w) (λ _, True).
Proof.
  intros Hh E Hf. rewrite E. apply hashes_read_count. intros n ->.
  change (hdr :: w) with ([hdr] ++ w). eapply hashes_bind; [by apply hashes_byte|]. intros _ _.
  eapply hashes_eq; [eapply hashes_bind; [by apply hashes_encoder|]|apply app_nil_r]. intros _ _.
  eapply hashes_then; [apply hashes_set_count|]. intros _ _.
  by eapply (hashes_weaken (λ _, True) _ _ _ _ (λ '(s', r), s' = b ∧ r = v')); [by apply hashes_ret|..].
Qed.

Lemma variant_put fuel id constructor v wi wc w : decodable fuel →
  (length (wire_value v) ≤ fuel)%nat → fits constructor = true → value_wf v = true →
  measured (wire_opt 1 (option_map wire_ident id) ++ wire_bytes 2 constructor ++
    wire_bytes 3 (wire_value v)) →
  match id with Some i => spec_identifier i | None => Some [] end = Some wi →
  spec_string (Some constructor) = Some wc → spec_value v = Some w →
  fields_hash (λ _, True) (variant_fields (run (S fuel)))
    (wire_opt 1 (option_map wire_ident id) ++ wire_bytes 2 constructor ++
     wire_bytes 3 (wire_value v))
    (Some decode_identifier_cb, Some decode_variant_constructor_cb, Some decode_value_cb)
    (λ r, r = (Some decode_identifier_cb, Some decode_variant_constructor_cb, Some decode_value_cb))
    (wi ++ wc ++ w) (λ _, True).
Proof.
  intros Hd Hl Hf Hwf [Hi [Hc%measured_bytes Hb%measured_bytes]%measured_app]%measured_app Ei Ec Ev.
  set (r := (Some decode_identifier_cb, Some decode_variant_constructor_cb, Some decode_value_cb)).
  assert (Hrest : fields_hash (λ _, True) (variant_fields (run (S fuel)))
    (wire_bytes 2 constructor ++ wire_bytes 3 (wire_value v)) r (λ r', r' = r) (wc ++ w) (λ _, True)).
  { eapply (fields_bytes _ _ 2) with (P := λ r', r' = r); [done|reflexivity| |].
    - eapply hashes_callback; [done|reflexivity|done|]. by apply decode_variant_constructor_hashes.
    - intros ? ->. eapply fields_last; [done|reflexivity|].
      eapply hashes_callback; [done|reflexivity|done|]. by apply element_puts. }
  destruct id as [i|]; [|by injection Ei as <-]. apply measured_bytes in Hi.
  eapply (fields_bytes _ _ 1) with (P := λ r', r' = r); [done|reflexivity| |by intros ? ->].
  eapply hashes_callback; [done|reflexivity|done|]. by apply decode_identifier_hashes.
Qed.

(** *** Every value *)

Lemma decodes_compound run v pre w :
  (∀ v0, fresh (Some decode_value_variant_cb) v0 → fields_hash pre (Value_fields run run_sum)
     (wire_value v) v0 (λ r, 10 ≤ which_sum r) w (λ _, True)) →
  decodes run v pre w (λ _, True).
Proof.
  intros Hf. exists (λ r, 10 ≤ which_sum r), w, []. split; [by rewrite app_nil_r|].
  split; [by apply compound_rest|done].
Qed.
Lemma elements_short tag v p t fuel :
  (length (wire_bytes tag (p ++ flat_map (wire_bytes t) (elements v))) ≤ S fuel)%nat →
  Forall (λ b, (length b ≤ fuel)%nat) (elements v).
Proof.
  pose proof (wire_bytes_length tag (p ++ flat_map (wire_bytes t) (elements v))) as Hb.
  rewrite length_app in Hb. intros Hl.
  assert (Hs : (length (flat_map (wire_bytes t) (elements v)) ≤ fuel)%nat) by lia.
  clear - Hs. induction (elements v) as [|e l IH]; constructor.
  - cbn [flat_map] in Hs. rewrite length_app in Hs. pose proof (wire_bytes_length t e). lia.
  - apply IH. cbn [flat_map] in Hs. rewrite length_app in Hs. lia.
Qed.

(** A value that is one repeated field: its header, then its elements. *)
Lemma repeated_decodes {R} fuel v tag zero (fields : Z → option (field_handler hp_state R)) get put u
    hdr f w1 callback w :
  Value_fields (run (S fuel)) run_sum tag = Some (h_sum_msg run_sum tag zero fields get put) →
  decodable fuel → (length (wire_value v) ≤ S fuel)%nat → value_wf v = true →
  measured (wire_value v) → wire_value v = wire_bytes tag (flat_map (wire_bytes 1) (elements v)) →
  spec_elements v = Some w → 10 ≤ tag < 2 ^ 29 → 0 ≤ hdr < 256 → put (get u) = u →
  fields 1 = Some (h_callback callback) → callback (get u) = Some (run (S fuel) (decoder v)) →
  (∀ b v0, run_sum decode_value_variant_cb tag b (set_union tag zero v0) =
    (let* n := gets hp_elem_count in
     do* hw_node (hw_put_byte hdr) in do* hw_node (f n) in
     do* modify (λ s, s <| hp_elem_count := VALUE_ELEM_COUNT_NONE |>) in
     ret (b, set_union tag u v0))) →
  (∀ st, refines st (f (Z.of_nat (length (elements v)))) (Some w1)) →
  decodes (run (S fuel)) v (λ n, n = Z.of_nat (length (elements v))) ((hdr :: w1) ++ w) (λ _, True).
Proof.
  intros Eh Hd Hl Hwf Hm Ev Hw Ht Hh Hu Ec Er Es Hf. apply decodes_compound. intros v0 [Hz Hc].
  rewrite Ev in *. apply measured_bytes in Hm as Hb.
  eapply fields_last; [lia|exact Eh|].
  assert (Hne : tag ≠ 0) by lia.
  eapply (sum_msg_called tag zero fields get put Hne) with (u := u) (m := get u);
    [done..| | |cbn; lia].
  - by eapply decode_variant_starts.
  - eapply (elements_put fuel); [done| |done|by eapply measured_flat|done|done|exact Ec|exact Er].
    by apply (elements_short tag v [] 1).
Qed.

Lemma record_decodes fuel id l w : decodable fuel →
  (length (wire_value (V_record id l)) ≤ S fuel)%nat → value_wf (V_record id l) = true →
  measured (wire_value (V_record id l)) → spec_value (V_record id l) = Some w →
  decodes (run (S fuel)) (V_record id l) (counted (V_record id l)) w (λ _, True).
Proof.
  intros Hd Hl Hwf Hm Hw. cbn [spec_value] in Hw.
  apply cat2_some in Hw as (x & y & (x1 & x2 & [= <-] & Hx & ->)%cat2_some &
    (y2 & Hy & ->)%repeated_some & ->).
  apply decodes_compound. intros v0 [Hz Hc].
  rewrite (wire_elements (V_record id l)) in *. apply measured_bytes in Hm as Hb.
  apply measured_app in Hb as Hb'. destruct Hb' as [Hi%measured_bytes He%measured_flat].
  rewrite <- app_assoc. eapply fields_last; [done|reflexivity|].
  eapply sum_msg_called with (mid := counted (V_record id l))
    (u := U_record (Some decode_record_id_cb) (Some decode_record_field_cb)); [done..| | |done].
  - cbn [run_sum]. apply hashes_read_count. intros n Hn.
    eapply hashes_eq; [eapply hashes_bind; [by apply hashes_byte|]|apply app_nil_r].
    intros _ _. by apply hashes_ret.
  - rewrite app_assoc.
    eapply (fields_bytes _ _ 1) with (mid := λ _, True) (P := λ r', r' =
      (Some decode_record_id_cb, Some decode_record_field_cb)); [done|reflexivity| |].
    + eapply hashes_callback; [done|reflexivity|done|].
      apply (decode_record_id_hashes id (length (elements (V_record id l)))); [|done].
      rewrite Hx. cbn. by rewrite length_map.
    + intros ? ->. eapply (elements_put fuel); [done| |done|done|done|done|reflexivity..].
      by apply (elements_short VALUE_RECORD_TAG _ _ 2 _ Hl).
Qed.
Lemma variant_decodes fuel id constructor v w : decodable fuel →
  (length (wire_value (V_variant id constructor v)) ≤ S fuel)%nat →
  value_wf (V_variant id constructor v) = true →
  measured (wire_value (V_variant id constructor v)) →
  spec_value (V_variant id constructor v) = Some w →
  decodes (run (S fuel)) (V_variant id constructor v) (counted (V_variant id constructor v)) w
    (λ _, True).
Proof.
  intros Hd Hl [Hf Hwf]%andb_true_iff Hm Hw. cbn [spec_value] in Hw.
  apply cat2_some in Hw as (x & wv & (x1 & wc & (x2 & x3 & [= <-] & Hi & ->)%cat2_some &
    Hc & ->)%cat2_some & Hv & ->).
  assert (Hid : ∃ wi, x3 = (if is_set id then 1 else 0) :: wi ∧
    match id with Some i => spec_identifier i | None => Some [] end = Some wi).
  { destruct id as [i|]; [|injection Hi as <-; by exists []].
    unfold spec_optional in Hi. apply cat2_some in Hi as (? & wi & [= <-] & Hi & ->). by exists wi. }
  destruct Hid as (wi & -> & Hwi).
  apply decodes_compound. intros v0 [Hz Hcb]. cbn [wire_value] in *. apply measured_bytes in Hm as Hb.
  assert (Hlv : (length (wire_value v) ≤ fuel)%nat).
  { pose proof (wire_bytes_length 3 (wire_value v)). pose proof (wire_bytes_length VALUE_VARIANT_TAG
      (wire_opt 1 (option_map wire_ident id) ++ wire_bytes 2 constructor ++
       wire_bytes 3 (wire_value v))) as Hw. rewrite !length_app in Hw. lia. }
  assert (E : ([13] ++ (if is_set id then 1 else 0) :: wi) ++ wc ++ wv =
    (13 :: [if is_set id then 1 else 0]) ++ wi ++ wc ++ wv) by done.
  rewrite <- app_assoc, E. eapply fields_last; [done|reflexivity|].
  eapply sum_msg_called with (u := U_variant (Some decode_identifier_cb)
    (Some decode_variant_constructor_cb) (Some decode_value_cb)); [done..| | |done].
  - eapply decode_variant_starts; [done|reflexivity|].
    intros st. destruct id; [apply refines_byte1|apply refines_byte0].
  - by apply variant_put.
Qed.

(** Each repeated kind, from its header. *)
#[local] Ltac repeated_kind tag un :=
  eapply (repeated_decodes _ _ tag _ _ _ _ un);
    [reflexivity|done|done|done|done|done|done|done|done|reflexivity..|].
#[local] Ltac counted_kind tag un :=
  match goal with Hw : spec_value _ = Some _ |- _ => cbn [spec_value] in Hw;
    apply cat2_some in Hw as (? & ? & [= <-] & (? & ? & ->)%repeated_some & ->) end;
  rewrite app_assoc; repeated_kind tag un;
  intros st; cbn [elements]; rewrite length_map; apply refines_int32.
Lemma decodable_all fuel : decodable fuel.
Proof.
  induction fuel as [|fuel IH]; intros v w Hl Hwf Hm Hw.
  { pose proof (wire_value_nonempty v). lia. }
  pose proof (wire_elements v) as Hel.
  destruct (is_leaf v) eqn:El.
  { destruct (leaf_decodes (run (S fuel)) v (counted v) w) as (Q & w1 & w2 & E & Hr & Hf); [done..|].
    exists Q, w1, w2. split_and!; [done..|]. intros v0 Hv0. by eapply fields_post; [apply Hf|]. }
  destruct v as [| | | | | | | | |o|l|l|l|id l|id constructor v|id constructor]; try done.
  - cbn [spec_value] in Hw. destruct o as [v|].
    + apply cat2_some in Hw as (? & x & [= <-] & (? & y & [= <-] & Hy & ->)%cat2_some & ->).
      rewrite app_assoc. repeated_kind VALUE_OPTIONAL_TAG (U_optional (Some decode_value_cb)).
      intros st. apply refines_byte1.
    + injection Hw as <-. rewrite <- (app_nil_r [9; 0]).
      repeated_kind VALUE_OPTIONAL_TAG (U_optional (Some decode_value_cb)).
      intros st. apply refines_byte0.
  - counted_kind VALUE_LIST_TAG (U_list (Some decode_list_elem_cb)).
  - counted_kind VALUE_TEXT_MAP_TAG (U_text_map (Some decode_text_map_entry_cb)).
  - counted_kind VALUE_GEN_MAP_TAG (U_gen_map (Some decode_gen_map_entry_cb)).
  - by apply record_decodes.
  - by apply variant_decodes.
Qed.

(** The callback of a value, started with fuel for all of it. *)
Lemma value_field_puts v w n : value_wf v = true → measured (wire_value v) →
  spec_value v = Some w → (length (wire_value v) < n)%nat →
  puts (run n decode_value_field_cb (wire_value v)) (λ s', s' = []) w.
Proof.
  intros Hwf Hm Hw Hn. pose proof (wire_value_nonempty v). destruct n as [|[|n]]; [lia|lia|].
  apply (decode_value_field_puts n v w); [done..|]. apply decodable_all; [lia|done..].
Qed.

(** C36: The callback of a node's argument reads every well-formed value to the end and
    appends exactly its canonical encoding to the hasher of the node; nothing else changes
    but the element count and the clock.  It only fails on a device that refuses memory. *)
Theorem value_hash_is_canonical v w n s : value_wf v = true → measured (wire_value v) →
  spec_value v = Some w → (length (wire_value v) < n)%nat →
  let r := run n decode_value_field_cb (wire_value v) s in
  (∃ clock count, r = (Ret [], after clock count w s)) ∨ (refuses_memory ∧ fst r = Fail).
Proof.
  intros Hwf Hm Hw Hn.
  destruct (value_field_puts v w n Hwf Hm Hw Hn (λ _, True) s I) as [?|(a & clock & count & E & -> & _)];
    [by right|left; by exists clock, count].
Qed.
End Hash.

(** ** A transfer argument *)

#[export] Instance roomy_plenty : @Plenty roomy.
Proof. by split. Qed.

Definition sample_ident : Identifier :=
  {| package_id := Some (lit "5ae0"); module_name := Some (lit "Splice.Wallet");
     entity_name := Some (lit "Transfer") |}.
(** A record with every kind of value in its fields. *)
Definition sample_value : value :=
  V_record sample_ident
    [(lit "amount", V_numeric (lit "10.5"));
     (lit "inputs", V_list [V_contract_id (lit "00ab"); V_contract_id (lit "01cd")]);
     (lit "expiry", V_optional (Some (V_timestamp (-1))));
     (lit "memo", V_optional None);
     (lit "meta", V_text_map [(lit "k", V_variant None (lit "Some") (V_int64 (-7)))]);
     (lit "table", V_gen_map [(V_text (lit "a"), V_bool true); (V_unit, V_date 3)]);
     (lit "kind", V_variant (Some sample_ident) (lit "Out") (V_list [V_party (lit "p")]));
     (lit "way", V_enum (Some sample_ident) (lit "Up"))].
Definition sample_encoding : bytes := default [] (spec_value sample_value).

Example sample_is_hashed :
  hash_of_value (wire_value sample_value) = sample_encoding.
Proof. vm_compute. reflexivity. Qed.

Lemma value_hash_is_canonical_witness : ∃ clock count,
  @run toy_sha roomy 400 decode_value_field_cb (wire_value sample_value) sample_state =
    (Ret [], after clock count sample_encoding sample_state).
Proof.
  destruct (@value_hash_is_canonical toy_sha roomy sample_value sample_encoding 400 sample_state)
    as [E|[Hr _]]; [reflexivity|done|reflexivity|vm_compute; lia|exact E|].
  by apply plenty_never_refuses in Hr.
Defined.
