(* ===== verification/ValueCode.v ===== *)
(** * The canonical encoding of a value is unambiguous

    Two well-formed values with the same encoding are the same value, up to what the
    encoding forgets: the bytes after a NUL and the letter case of a contract id.  So the
    bytes hashed for an argument determine the argument. *)

From S2P Require Import Prelude Constants Utils Pb Wire WireLogic Messages CanonicalHash.
From S2P Require Import TreeCheck ValuesCheck HashingParser HashLogic ValueHash.

(** ** What the encoding keeps of a value *)

Definition canon_ident (i : Identifier) : Identifier :=
  {| package_id := option_map c_str (package_id i); module_name := option_map c_str (module_name i);
     entity_name := option_map c_str (entity_name i) |}.
Fixpoint canon_value (v : value) : value :=
  match v with
  | V_unit => V_unit
  | V_bool b => V_bool b
  | V_int64 z => V_int64 z
  | V_date z => V_date z
  | V_timestamp z => V_timestamp z
  | V_numeric s => V_numeric (c_str s)
  | V_party s => V_party (c_str s)
  | V_text s => V_text (c_str s)
  | V_contract_id s => V_contract_id (hex_bytes (c_str s))
  | V_optional o => V_optional (option_map canon_value o)
  | V_list l => V_list (map canon_value l)
  | V_text_map l => V_text_map (map (λ '(k, v), (c_str k, canon_value v)) l)
  | V_gen_map l => V_gen_map (map (λ '(k, v), (canon_value k, canon_value v)) l)
  | V_record id l => V_record (canon_ident id) (map (λ '(k, v), (c_str k, canon_value v)) l)
  | V_variant id c v => V_variant (option_map canon_ident id) (c_str c) (canon_value v)
  | V_enum id c => V_enum (option_map canon_ident id) (c_str c)
  end.

(** A value that a part can carry: well-formed, and of [n] bytes at most. *)
Definition value_ok (n : nat) (v : value) : Prop :=
  value_wf v = true ∧ measured (wire_value v) ∧ (length (wire_value v) ≤ n)%nat.

Lemma unamb_view {A B C} (P : A → Prop) (v1 : A → B) (v2 : A → C) f g :
  unambiguous P v1 f → (∀ a b, P a → P b → v1 a = v1 b → v2 a = v2 b) → (∀ a, g a = f a) →
  unambiguous P v2 g.
Proof.
  intros H Hv Hf a b u w x y Ha Hb Hu Hw E. rewrite Hf in Hu, Hw.
  destruct (H a b u w x y Ha Hb Hu Hw E) as [E1 E2]. auto.
Qed.
Lemma unamb_sub {A B} (P Q : A → Prop) (v : A → B) f :
  unambiguous P v f → (∀ a, Q a → P a) → unambiguous Q v f.
Proof. intros H HP a b u w x y Ha Hb. apply H; auto. Qed.

(** ** Sizes *)

Lemma few_fields {A} tag (g : A → bytes) l : measured (flat_map (wire_bytes tag) (map g l)) → few l.
Proof.
  intros Hm. assert (length l ≤ length (flat_map (wire_bytes tag) (map g l)))%nat.
  { clear. induction l as [|a l IH]; cbn [map flat_map]; [done|]. rewrite length_app.
    pose proof (wire_bytes_length tag (g a)). cbn [length]. lia. }
  unfold measured, few in *. lia.
Qed.
(** The parts of a field. *)
Lemma field_inner tag b n : measured (wire_bytes tag b) → (length (wire_bytes tag b) ≤ S n)%nat →
  measured b ∧ (length b ≤ n)%nat.
Proof. intros Hm%measured_bytes Hl. pose proof (wire_bytes_length tag b). split; [done|lia]. Qed.
Lemma app_inner a b n : measured (a ++ b) → (length (a ++ b) ≤ n)%nat →
  (measured a ∧ (length a ≤ n)%nat) ∧ (measured b ∧ (length b ≤ n)%nat).
Proof. intros [Ha Hb]%measured_app. rewrite length_app. intros. split_and!; done || lia. Qed.
Lemma fields_inside tag bs n : measured (flat_map (wire_bytes tag) bs) →
  (length (flat_map (wire_bytes tag) bs) ≤ n)%nat → Forall (λ b, measured b ∧ (length b ≤ n)%nat) bs.
Proof.
  induction bs as [|b bs IH]; intros Hm Hl; cbn [flat_map] in *; [done|].
  destruct (app_inner _ _ _ Hm Hl) as [[H1 L1] [H2 L2]]. constructor; [|by apply IH].
  pose proof (wire_bytes_length tag b). split; [by eapply measured_bytes|lia].
Qed.

(** ** The code of a kind, and the rest *)

Definition value_code (v : value) : Z :=
  match v with
  | V_unit => 0x00 | V_bool _ => 0x01 | V_int64 _ => 0x02 | V_numeric _ => 0x03
  | V_timestamp _ => 0x04 | V_date _ => 0x05 | V_party _ => 0x06 | V_text _ => 0x07
  | V_contract_id _ => 0x08 | V_optional _ => 0x09 | V_list _ => 0x0a | V_text_map _ => 0x0b
  | V_record _ _ => 0x0c | V_variant _ _ _ => 0x0d | V_enum _ _ => 0x0e | V_gen_map _ => 0x0f
  end.
Definition value_body (v : value) : option bytes :=
  match v with
  | V_unit => Some []
  | V_bool b => Some [if b then 1 else 0]
  | V_int64 z | V_timestamp z => Some (enc_int64 z)
  | V_date z => Some (enc_int32 z)
  | V_numeric s | V_party s | V_text s => spec_string (Some s)
  | V_contract_id s => spec_hex_string (Some s)
  | V_optional o => spec_optional spec_value o
  | V_list l => spec_repeated spec_value l
  | V_text_map l => spec_repeated (λ '(k, v), spec_string (Some k) ⊕ spec_value v) l
  | V_gen_map l => spec_repeated (λ '(k, v), spec_value k ⊕ spec_value v) l
  | V_record id l => (Some [1] ⊕ spec_identifier id) ⊕
      spec_repeated (λ '(l, v), (Some [1] ⊕ spec_string (Some l)) ⊕ spec_value v) l
  | V_variant id c v => spec_optional spec_identifier id ⊕ spec_string (Some c) ⊕ spec_value v
  | V_enum id c => spec_optional spec_identifier id ⊕ spec_string (Some c)
  end.
Lemma spec_value_code v : spec_value v = Some [value_code v] ⊕ value_body v.
Proof. destruct v; try done; cbn [spec_value value_body value_code]; by rewrite !cat2_assoc. Qed.

(** ** One level of a value *)

Section Level.
Variable n : nat.
Hypothesis IH : unambiguous (value_ok n) canon_value spec_value.

Definition entry_ok (p : bytes * value) : Prop := short_opt (Some (fst p)) ∧ value_ok n (snd p).

Lemma unamb_key {A} (P : A → Prop) (g : A → bytes) : (∀ a, P a → short_opt (Some (g a))) →
  unambiguous P (λ a, c_str (g a)) (λ a, spec_string (Some (g a))).
Proof.
  intros HP. eapply unamb_view; [apply (unamb_string P (λ a, Some (g a)) HP)| |done].
  intros a b _ _ [= E]. done.
Qed.
Lemma unamb_entry : unambiguous entry_ok (λ '(k, v), (c_str k, canon_value v))
  (λ '(k, v), spec_string (Some k) ⊕ spec_value v).
Proof.
  eapply unamb_view; [apply unamb_seq; [apply (unamb_key entry_ok fst); by intros a []|
    apply (unamb_at entry_ok (value_ok n) snd canon_value _ IH); by intros a []]| |by intros []].
  by intros [] [] _ _ [= -> ->].
Qed.
Lemma unamb_label : unambiguous entry_ok (λ '(k, v), (c_str k, canon_value v))
  (λ '(l, v), (Some [1] ⊕ spec_string (Some l)) ⊕ spec_value v).
Proof.
  eapply unamb_view; [apply (unamb_const_l _ _ [1]), unamb_entry|done|].
  intros []. apply cat2_assoc.
Qed.
Definition pair_ok (p : value * value) : Prop := value_ok n (fst p) ∧ value_ok n (snd p).
Lemma unamb_pair : unambiguous pair_ok (λ '(k, v), (canon_value k, canon_value v))
  (λ '(k, v), spec_value k ⊕ spec_value v).
Proof.
  eapply unamb_view; [apply unamb_seq; [apply (unamb_at pair_ok (value_ok n) fst canon_value _ IH)|
    apply (unamb_at pair_ok (value_ok n) snd canon_value _ IH)]; by intros a []| |by intros []].
  by intros [] [] _ _ [= -> ->].
Qed.

(** *** What a value is made of is a level below *)

Lemma repeated_ok {A} tag (g : A → bytes) (wf : A → bool) (P : A → Prop) l m :
  measured (flat_map (wire_bytes tag) (map g l)) →
  (length (flat_map (wire_bytes tag) (map g l)) ≤ m)%nat → forallb wf l = true →
  (∀ a, wf a = true → measured (g a) → (length (g a) ≤ m)%nat → P a) → few l ∧ Forall P l.
Proof.
  intros Hm Hl Hwf HP. split; [by eapply few_fields|].
  pose proof (fields_inside _ _ _ Hm Hl) as Hin. rewrite !Forall_forall in *.
  rewrite forallb_forall in Hwf. intros a Ha.
  destruct (Hin (g a)) as [Hma Hla]; [by apply list_elem_of_fmap_2|].
  apply HP; [by apply Hwf, list_elem_of_In|done..].
Qed.
Lemma entry_inner k v : measured (wire_entry k (wire_value v)) →
  (length (wire_entry k (wire_value v)) ≤ n)%nat → fits k && value_wf v = true → entry_ok (k, v).
Proof.
  intros Hm Hl [Hf Hwf]%andb_true_iff. destruct (app_inner _ _ _ Hm Hl) as [[Hk _] [Hv Lv]].
  pose proof (wire_bytes_length 2 (wire_value v)). apply measured_bytes in Hk, Hv.
  split; [by apply short_measured|]. split_and!; [done|done|cbn; lia].
Qed.
Lemma pair_inner k v : measured (wire_entry (wire_value k) (wire_value v)) →
  (length (wire_entry (wire_value k) (wire_value v)) ≤ n)%nat →
  is_leaf k && value_wf k && value_wf v = true → pair_ok (k, v).
Proof.
  intros Hm Hl [[_ Hk]%andb_true_iff Hwf]%andb_true_iff.
  destruct (app_inner _ _ _ Hm Hl) as [[Hmk Lk] [Hv Lv]].
  pose proof (wire_bytes_length 1 (wire_value k)). pose proof (wire_bytes_length 2 (wire_value v)).
  apply measured_bytes in Hmk, Hv. split; split_and!; done || (cbn; lia).
Qed.
(** The conditions on the parts, by kind. *)
Definition parts_ok (v : value) : Prop :=
  match v with
  | V_unit | V_bool _ => True
  | V_int64 z | V_timestamp z => is_i64 z
  | V_date z => is_i32 z
  | V_numeric s | V_party s | V_text s | V_contract_id s => short_opt (Some s)
  | V_optional o => ∀ v, o = Some v → value_ok n v
  | V_list l => few l ∧ Forall (value_ok n) l
  | V_text_map l => few l ∧ Forall entry_ok l
  | V_gen_map l => few l ∧ Forall pair_ok l
  | V_record id l => short_identifier id ∧ few l ∧ Forall entry_ok l
  | V_variant id c v => (∀ i, id = Some i → short_identifier i) ∧ short_opt (Some c) ∧ value_ok n v
  | V_enum id c => (∀ i, id = Some i → short_identifier i) ∧ short_opt (Some c)
  end.
Lemma value_parts v : value_ok (S n) v → parts_ok v.
Proof.
  intros (Hwf & Hm & Hl). pose proof (wire_elements v) as Hel.
  destruct v as [| | | | | | | | |o|l|l|l|id l|id c v|id c]; cbn [parts_ok]; try done;
    try (by apply in_width_spec in Hwf); try (by apply short_measured, (measured_bytes _ _ Hm));
    try (rewrite Hel in Hm, Hl); cbn [wire_value value_wf] in *;
    destruct (field_inner _ _ _ Hm Hl) as [Hm' Hl'].
  - intros v ->. cbn [elements flat_map] in *. rewrite app_nil_r in *.
    pose proof (wire_bytes_length 1 (wire_value v)). split_and!; [done|by eapply measured_bytes|lia].
  - apply (repeated_ok 1 wire_value value_wf _ _ _ Hm' Hl' Hwf). intros v ? ? ?. by split_and!.
  - apply (repeated_ok 1 (λ '(k, v), wire_entry k (wire_value v)) _ _ _ _ Hm' Hl' Hwf).
    intros [k v] ? ? ?. by apply entry_inner.
  - apply (repeated_ok 1 (λ '(k, v), wire_entry (wire_value k) (wire_value v)) _ _ _ _ Hm' Hl' Hwf).
    intros [k v] ? ? ?. by apply pair_inner.
  - destruct (app_inner _ _ _ Hm' Hl') as [[Hi _] [He Le]].
    split; [by apply ident_measured, (measured_bytes 1)|].
    apply (repeated_ok 2 (λ '(k, v), wire_entry k (wire_value v)) _ _ _ _ He Le Hwf).
    intros [k v] ? ? ?. by apply entry_inner.
  - destruct (app_inner _ _ _ Hm' Hl') as [[Hi _] [Hr Lr]].
    destruct (app_inner _ _ _ Hr Lr) as [[Hc _] [Hv Lv]]. apply andb_true_iff in Hwf as [_ Hwf].
    pose proof (wire_bytes_length 3 (wire_value v)).
    split_and!; [by apply (opt_ident_measured 1)|by apply short_measured, (measured_bytes 2)|].
    split_and!; [done|by eapply measured_bytes|lia].
  - destruct (app_inner _ _ _ Hm' Hl') as [[Hi _] [Hc _]].
    split; [by apply (opt_ident_measured 1)|by apply short_measured, (measured_bytes 2)].
Qed.

(** *** The kinds of more than one part *)

Lemma canon_ident_view i j : identifier_view i = identifier_view j → canon_ident i = canon_ident j.
Proof. unfold identifier_view, canon_ident. by intros [= -> -> ->]. Qed.
Lemma opt_ident_view o o' : option_map identifier_view o = option_map identifier_view o' →
  option_map canon_ident o = option_map canon_ident o'.
Proof.
  destruct o as [i|], o' as [j|]; try done. cbn. intros [= E1 E2 E3]. f_equal.
  apply canon_ident_view. unfold identifier_view. by rewrite E1, E2, E3.
Qed.
Lemma unamb_ident {A} (P : A → Prop) (g : A → Identifier) : (∀ a, P a → short_identifier (g a)) →
  unambiguous P (λ a, canon_ident (g a)) (λ a, spec_identifier (g a)).
Proof.
  intros HP. eapply unamb_view; [apply (unamb_identifier P g HP)| |done].
  intros a b _ _. apply canon_ident_view.
Qed.
Lemma unamb_opt_ident {A} (P : A → Prop) (g : A → option Identifier) :
  (∀ a, P a → ∀ i, g a = Some i → short_identifier i) →
  unambiguous P (λ a, option_map canon_ident (g a)) (λ a, spec_optional spec_identifier (g a)).
Proof.
  intros HP. eapply unamb_view; [apply (unamb_optional_identifier P g HP)| |done].
  intros a b _ _. apply opt_ident_view.
Qed.
Lemma unamb_text : unambiguous (λ s, short_opt (Some s)) c_str (λ s, spec_string (Some s)).
Proof. by apply (unamb_key _ (λ s, s)). Qed.
Lemma unamb_i64 : unambiguous is_i64 (λ z, z) (λ z, Some (enc_int64 z)).
Proof.
  apply (unamb_fixed _ _ _ 8); [by intros a w _ [= <-]|]. intros a b w Ha Hb Ea Eb.
  assert (E : enc_int64 a = enc_int64 b) by congruence. unfold enc_int64 in E.
  apply be64_inj in E; [|apply is_u64_u64..]. rewrite !u64_cases in E by done.
  unfold is_i64 in *. destruct (a <? 0) eqn:?, (b <? 0) eqn:?; lia.
Qed.
Lemma unamb_record : unambiguous (λ p, short_identifier (fst p) ∧ few (snd p) ∧ Forall entry_ok (snd p))
  (λ p, (canon_ident (fst p), map (λ '(k, v), (c_str k, canon_value v)) (snd p)))
  (λ p, (Some [1] ⊕ spec_identifier (fst p)) ⊕
     spec_repeated (λ '(l, v), (Some [1] ⊕ spec_string (Some l)) ⊕ spec_value v) (snd p)).
Proof.
  apply unamb_seq; [apply unamb_const_l, unamb_ident; by intros a []|].
  refine (unamb_at _ _ snd _ _ (unamb_repeated _ _ _ unamb_label) _). by intros a [].
Qed.
Lemma unamb_enum : unambiguous
  (λ p, (∀ i, fst p = Some i → short_identifier i) ∧ short_opt (Some (snd p)))
  (λ p, (option_map canon_ident (fst p), c_str (snd p)))
  (λ p, spec_optional spec_identifier (fst p) ⊕ spec_string (Some (snd p))).
Proof.
  apply unamb_seq; [apply unamb_opt_ident; by intros a []|]. apply (unamb_key _ snd). by intros a [].
Qed.
Lemma unamb_variant : unambiguous
  (λ p : option Identifier * bytes * value, (∀ i, fst (fst p) = Some i → short_identifier i) ∧
     short_opt (Some (snd (fst p))) ∧ value_ok n (snd p))
  (λ p, (option_map canon_ident (fst (fst p)), c_str (snd (fst p)), canon_value (snd p)))
  (λ p, spec_optional spec_identifier (fst (fst p)) ⊕ spec_string (Some (snd (fst p))) ⊕
     spec_value (snd p)).
Proof.
  apply unamb_seq; [apply unamb_seq|].
  - apply unamb_opt_ident. by intros a (? & ? & ?).
  - apply (unamb_key _ (λ p, snd (fst p))). by intros a (? & ? & ?).
  - refine (unamb_at _ _ snd _ _ IH _). by intros a (? & ? & ?).
Qed.

Lemma unamb_level : unambiguous (value_ok (S n)) canon_value spec_value.
Proof.
  intros a b u w x y Ha%value_parts Hb%value_parts. rewrite !spec_value_code.
  intros (? & u' & [= <-] & Hu & ->)%cat2_some (? & w' & [= <-] & Hw & ->)%cat2_some [= Ec E].
  destruct a as [|p|z|z|z|s|s|s|s|o|l|l|l|id l|id c v|id c],
    b as [|p'|z'|z'|z'|s'|s'|s'|s'|o'|l'|l'|l'|id' l'|id' c' v'|id' c']; try discriminate Ec;
    cbn [value_body parts_ok canon_value] in *; clear Ec.
  - injection Hu as <-. injection Hw as <-. done.
  - injection Hu as <-. injection Hw as <-. injection E as Eb ->. by destruct p, p'.
  - destruct (unamb_i64 z z' _ _ _ _ Ha Hb Hu Hw E) as [-> ->]. done.
  - destruct (unamb_int32 is_i32 (λ z, z) (or_intror (λ _ H, H)) z z' _ _ _ _ Ha Hb Hu Hw E) as [-> ->]. done.
  - destruct (unamb_i64 z z' _ _ _ _ Ha Hb Hu Hw E) as [-> ->]. done.
  - destruct (unamb_text _ _ _ _ _ _ Ha Hb Hu Hw E) as [-> ->]. done.
  - destruct (unamb_text _ _ _ _ _ _ Ha Hb Hu Hw E) as [-> ->]. done.
  - destruct (unamb_text _ _ _ _ _ _ Ha Hb Hu Hw E) as [-> ->]. done.
  - destruct (unamb_hex short_opt id (λ _ H, H) (Some s) (Some s') _ _ _ _ Ha Hb Hu Hw E) as [[= ->] ->]. done.
  - destruct (unamb_optional _ _ _ IH _ _ _ _ _ _ Ha Hb Hu Hw E) as [-> ->]. done.
  - destruct (unamb_repeated _ _ _ IH _ _ _ _ _ _ Ha Hb Hu Hw E) as [-> ->]. done.
  - destruct (unamb_repeated _ _ _ unamb_entry _ _ _ _ _ _ Ha Hb Hu Hw E) as [-> ->]. done.
  - destruct (unamb_repeated _ _ _ unamb_pair _ _ _ _ _ _ Ha Hb Hu Hw E) as [-> ->]. done.
  - destruct (unamb_record (id, l) (id', l') _ _ _ _ Ha Hb Hu Hw E) as [E1 ->].
    cbn in E1. apply pair_equal_spec in E1 as [-> ->]. done.
  - destruct (unamb_variant (id, c, v) (id', c', v') _ _ _ _ Ha Hb Hu Hw E) as [E1 ->].
    cbn in E1. rewrite !pair_equal_spec in E1. destruct E1 as [[-> ->] ->]. done.
  - destruct (unamb_enum (id, c) (id', c') _ _ _ _ Ha Hb Hu Hw E) as [E1 ->].
    cbn in E1. apply pair_equal_spec in E1 as [-> ->]. done.
Qed.
End Level.

Lemma unamb_value_upto n : unambiguous (value_ok n) canon_value spec_value.
Proof.
  induction n as [|n IH]; [|by apply unamb_level].
  intros a b u w x y (_ & _ & Ha). pose proof (wire_value_nonempty a). lia.
Qed.

Section Cover.
Context `{Sha256} `{Device}.

(** C10: The bytes hashed for a well-formed argument determine it among well-formed arguments.
    When two values of [value_wf] (every record has its id, labels, text map keys and
    constructors are shorter than 64 bytes, map keys are not structured), whose contract ids
    have an even number of digits, were read by runs with the fuel they need, from hashers
    with the same bytes, and what followed the values makes the bytes equal as well, the values
    are the same up to what canonical encoding forgets (what follows a NUL in a text, the
    letter case of hexadecimal digits), and so is what followed them. *)
Theorem argument_hash_covers_value v v' n n' s s' t t' x y :
  value_ok n v → value_ok n' v' → is_set (spec_value v) = true → is_set (spec_value v') = true →
  run (S n) decode_value_field_cb (wire_value v) s = (Ret [], t) →
  run (S n') decode_value_field_cb (wire_value v') s' = (Ret [], t') →
  hp_node_hw s = hp_node_hw s' → hp_node_hw t ++ x = hp_node_hw t' ++ y →
  canon_value v = canon_value v' ∧ x = y.
Proof.
  intros Hv Hv' Hw Hw' E E' Es Et.
  destruct (spec_value v) as [w|] eqn:Sv; [|done]. destruct (spec_value v') as [w'|] eqn:Sv'; [|done].
  assert (Hrun : ∀ m v w s t, value_ok m v → spec_value v = Some w →
    run (S m) decode_value_field_cb (wire_value v) s = (Ret [], t) → hp_node_hw t = hp_node_hw s ++ w).
  { intros m v0 w0 s0 t0 (H1 & H2 & H3) Hs Er.
    destruct (value_field_puts v0 w0 (S m) H1 H2 Hs ltac:(lia) (λ _, True) s0 I)
      as [[_ Ef]|(a & c & k & Ea & _)]; [by rewrite Er in Ef|].
    rewrite Ea in Er. injection Er as _ <-. done. }
  rewrite (Hrun _ _ _ _ _ Hv Sv E), (Hrun _ _ _ _ _ Hv' Sv' E'), Es, <- !app_assoc in Et.
  apply app_inv_head in Et.
  apply (unamb_value_upto (n + n') v v' w w' x y); [..|done|done|done];
    [destruct Hv as (? & ? & ?)|destruct Hv' as (? & ? & ?)]; split_and!; done || lia.
Qed.
End Cover.

(** ** Witness: the transfer argument against itself *)

Definition sample_run := Eval vm_compute in
  @run toy_sha roomy 401 decode_value_field_cb (wire_value sample_value) sample_state.

Lemma argument_hash_covers_value_witness :
  canon_value sample_value = canon_value sample_value ∧ [7] = [7].
Proof.
  apply (@argument_hash_covers_value toy_sha roomy sample_value sample_value 400 400
    sample_state sample_state (snd sample_run) (snd sample_run) [7] [7]);
    try (vm_compute; reflexivity).
  - split_and!; [reflexivity|done|vm_compute; lia].
  - split_and!; [reflexivity|done|vm_compute; lia].
Defined.
