(* ===== verification/NodeHash.v ===== *)
(** * The hash of a node

    A node of a prepared transaction with the values it carries, its wire format, and its
    canonical encoding; and the theorem that a part with a node on the wire stores, or
    passes to the hasher of the transaction, the hash of exactly that encoding. *)

From S2P Require Import Prelude Constants Utils Pb Wire WireLogic Messages CanonicalHash.
From S2P Require Import TreeCheck ValuesCheck HashingParser HashLogic ValueHash.

(** ** Nodes *)

(** The structs hold what the device keeps of a node; the values, which it only hashes, are
    beside them. *)
Inductive node :=
  | N_create (c : Node_CreateCb hcb) (argument : value)
  | N_exercise (e : Node_ExerciseCb hcb) (chosen result : value)
  | N_fetch (f : Node_Fetch)
  | N_rollback (r : Node_Rollback).

(** *** On the wire *)

Definition wire_create_node (c : Node_CreateCb hcb) (argument : value) : bytes :=
  wire_opt 1 (c_lf_version c) ++ wire_opt 2 (c_contract_id c) ++ wire_opt 3 (c_package_name c) ++
  wire_bytes 4 (wire_ident (c_template_id c)) ++ wire_bytes 5 (wire_value argument) ++
  wire_strings 6 (c_signatories c) ++ wire_strings 7 (c_stakeholders c).
Definition wire_exercise_node (e : Node_ExerciseCb hcb) (chosen result : value) : bytes :=
  wire_opt 1 (e_lf_version e) ++ wire_opt 2 (e_contract_id e) ++ wire_opt 3 (e_package_name e) ++
  wire_bytes 4 (wire_ident (e_template_id e)) ++ wire_strings 5 (e_signatories e) ++
  wire_strings 6 (e_stakeholders e) ++ wire_strings 7 (e_acting_parties e) ++
  wire_opt 8 (option_map wire_ident (e_interface_id e)) ++ wire_opt 9 (e_choice_id e) ++
  wire_bytes 10 (wire_value chosen) ++ wire_flag 11 (e_consuming e) ++
  wire_strings 12 (e_children e) ++ wire_bytes 13 (wire_value result) ++
  wire_strings 14 (e_choice_observers e).
Definition wire_fetch_node (f : Node_Fetch) : bytes :=
  wire_opt 1 (f_lf_version f) ++ wire_opt 2 (f_contract_id f) ++ wire_opt 3 (f_package_name f) ++
  wire_bytes 4 (wire_ident (f_template_id f)) ++ wire_strings 5 (f_signatories f) ++
  wire_strings 6 (f_stakeholders f) ++ wire_strings 7 (f_acting_parties f) ++
  wire_opt 8 (option_map wire_ident (f_interface_id f)).
Definition wire_node (n : node) : bytes :=
  match n with
  | N_create c v => wire_bytes NODE_V1_CREATE_TAG (wire_create_node c v)
  | N_exercise e v r => wire_bytes NODE_V1_EXERCISE_TAG (wire_exercise_node e v r)
  | N_fetch f => wire_bytes NODE_V1_FETCH_TAG (wire_fetch_node f)
  | N_rollback r => wire_bytes NODE_V1_ROLLBACK_TAG (wire_strings 1 (r_children r))
  end.
(** The part of a node: its id, which must come first, and the versioned node. *)
Definition wire_node_part (id : bytes) (n : node) : bytes :=
  wire_bytes 1 id ++ wire_bytes NODE_V1_TAG (wire_node n).
Definition wire_contract_part (c : Node_CreateCb hcb) (argument : value) (created_at : Z) : bytes :=
  wire_bytes 1 (wire_create_node c argument) ++ wire_varint 1000 created_at.

(** *** The canonical encoding, over the hashes of other nodes *)

Definition spec_create (seed : option bytes) (c : Node_CreateCb hcb) (argument : value)
  : option bytes := spec_create_start c seed ⊕ spec_value argument ⊕ spec_create_end c.
(** The children are given by their encoding. *)
Definition spec_exercise (seed : option bytes) (e : Node_ExerciseCb hcb) (chosen result : value)
    (children : option bytes) : option bytes :=
  spec_exercise_start e seed ⊕ spec_value chosen ⊕ Some [if e_consuming e then 1 else 0] ⊕
  Some [1] ⊕ spec_value result ⊕ (spec_repeated spec_string (e_choice_observers e) ⊕ children).
Definition node_children (n : node) : list (option bytes) :=
  match n with
  | N_exercise e _ _ => e_children e
  | N_rollback r => r_children r
  | N_create _ _ | N_fetch _ => []
  end.
Definition spec_over (seed : option bytes) (n : node) (children : option bytes) : option bytes :=
  match n with
  | N_create c v => spec_create seed c v
  | N_exercise e v r => spec_exercise seed e v r children
  | N_fetch f => spec_fetch f
  | N_rollback _ => Some [1; 3] ⊕ children
  end.
Definition spec_node (st : list PrecomputedNodeHash) (seed : option bytes) (n : node)
  : option bytes := spec_over seed n (spec_children st (node_children n)).

(** ** What a part can carry *)

Definition few_strings (l : list (option bytes)) : bool :=
  require_strings l && (Z.of_nat (length l) <=? PB_SIZE_MAX).
Definition hashable (v : value) : bool := value_wf v && is_set (spec_value v).
Definition create_wf (c : Node_CreateCb hcb) (v : value) : bool :=
  create_is_complete c && few_strings (c_signatories c) && few_strings (c_stakeholders c) &&
  hashable v && negb (is_set (c_argument c)).
Definition exercise_wf (e : Node_ExerciseCb hcb) (v r : value) : bool :=
  exercise_is_complete e && optional_interface_is_complete (e_interface_id e) &&
  few_strings (e_signatories e) && few_strings (e_stakeholders e) &&
  few_strings (e_acting_parties e) && few_strings (e_children e) &&
  few_strings (e_choice_observers e) && hashable v && hashable r &&
  negb (is_set (e_chosen_value e)) && negb (is_set (e_exercise_result e)).
Definition fetch_wf (f : Node_Fetch) : bool :=
  fetch_is_complete f && optional_interface_is_complete (f_interface_id f) &&
  few_strings (f_signatories f) && few_strings (f_stakeholders f) &&
  few_strings (f_acting_parties f).
Definition node_wf (n : node) : bool :=
  match n with
  | N_create c v => create_wf c v
  | N_exercise e v r => exercise_wf e v r
  | N_fetch f => fetch_wf f
  | N_rollback r => few_strings (r_children r)
  end.

Section Structs.
Context `{Sha256} `{Device}.

(** ** The fields of a node *)

Lemma hashes_strings {R} pre (count : R → nat) (add : bytes → R → R) b rest r (P : R → Prop) :
  measured b → Z.of_nat (count r) < PB_SIZE_MAX → P (add b r) →
  hashes pre (h_strings count add PB_WT_STRING (enc_varint (Z.of_nat (length b)) ++ b ++ rest) r)
    (λ '(s', r'), s' = rest ∧ P r') [] pre.
Proof.
  intros Hb Hc Hr. unfold h_strings.
  eapply hashes_then; [apply hashes_guard; lia|]. intros _ _.
  eapply hashes_then; [apply hashes_realloc|]. intros _ _.
  by apply (hashes_string pre add b rest r P).
Qed.
Lemma fields_strings {R} pre (handler : Z → option (field_handler hp_state R)) tag count add
    (app : list (option bytes) → R → R) l rest r Q w post :
  0 < tag < 2 ^ 29 → handler tag = Some (h_strings count add) →
  (∀ b r, count (add b r) = S (count r)) → (∀ r, app [] r = r) →
  (∀ b l r, app (Some b :: l) r = app l (add b r)) →
  require_strings l = true → measured (wire_strings tag l) →
  Z.of_nat (count r + length l) ≤ PB_SIZE_MAX →
  fields_hash pre handler rest (app l r) Q w post →
  fields_hash pre handler (wire_strings tag l ++ rest) r Q w post.
Proof.
  intros Ht Eh Ec E0 E1. revert r. induction l as [|[b|] l IH]; intros r Hl Hm Hc Hrest; try done.
  - by rewrite E0 in Hrest.
  - unfold wire_strings in *. cbn [flat_map wire_opt] in *. cbn [length] in Hc.
    apply measured_app in Hm as [Hb%measured_bytes Hm]. rewrite <- app_assoc.
    eapply (fields_bytes pre handler tag) with (w := []) (P := λ r', r' = add b r);
      [done|exact Eh|by apply hashes_strings; [|lia|]|].
    intros ? ->. apply IH; [done|done|rewrite Ec; lia|by rewrite <- E1].
Qed.
Lemma fields_ident {R} pre (handler : Z → option (field_handler hp_state R)) tag get set set_has i
    rest (r : R) Q w post :
  0 < tag < 2 ^ 29 → handler tag = Some (h_identifier get set set_has) →
  get (set_has r) = Identifier_zero → measured (wire_bytes tag (wire_ident i)) →
  fields_hash pre handler rest (set i (set_has r)) Q w post →
  fields_hash pre handler (wire_bytes tag (wire_ident i) ++ rest) r Q w post.
Proof.
  intros Ht Eh Eg Hm%measured_bytes Hrest.
  eapply (fields_bytes pre handler tag) with (w := []) (P := λ r', r' = set i (set_has r));
    [done|exact Eh| |by intros ? ->].
  unfold h_identifier. apply hashes_submsg; [done|]. apply hashes_static. rewrite Eg.
  eapply fields_weaken; [by apply ident_fields|]. by intros ? ->.
Qed.
Lemma fields_ident_ptr {R} pre (handler : Z → option (field_handler hp_state R)) tag set o
    rest (r : R) Q w post :
  0 < tag < 2 ^ 29 → handler tag = Some (h_identifier_ptr set) →
  measured (wire_opt tag (option_map wire_ident o)) →
  fields_hash pre handler rest (match o with Some i => set i r | None => r end) Q w post →
  fields_hash pre handler (wire_opt tag (option_map wire_ident o) ++ rest) r Q w post.
Proof.
  intros Ht Eh Hm Hrest. destruct o as [i|]; [|done]. apply measured_bytes in Hm.
  eapply (fields_bytes pre handler tag) with (w := []) (P := λ r', r' = set i r);
    [done|exact Eh| |by intros ? ->].
  unfold h_identifier_ptr, h_pointer_msg. eapply hashes_then; [apply hashes_realloc|]. intros _ _.
  apply hashes_submsg; [done|].
  eapply hashes_then; [by apply fields_inner, ident_fields|]. intros ? ->. by apply hashes_ret.
Qed.
(** A value, whatever its callback makes of it. *)
Lemma fields_value {R} pre (handler : Z → option (field_handler hp_state R)) tag callback
    (f : option (istream → HM istream)) v
    rest (r : R) Q w1 mid w2 post :
  0 < tag < 2 ^ 29 → handler tag = Some (h_callback callback) → callback r = f →
  measured (wire_value v) →
  match f with
  | Some f => hashes pre (f (wire_value v)) (λ s', s' = []) w1 mid
  | None => w1 = [] ∧ mid = pre
  end →
  fields_hash mid handler rest r Q w2 post →
  fields_hash pre handler (wire_bytes tag (wire_value v) ++ rest) r Q (w1 ++ w2) post.
Proof.
  intros Ht Eh Ec Hm Hf Hrest.
  eapply (fields_bytes pre handler tag) with (mid := mid) (P := λ r', r' = r);
    [done|exact Eh| |by intros ? ->].
  destruct f as [f|].
  - by apply (hashes_callback pre callback f).
  - destruct Hf as [-> ->]. by apply hashes_no_callback.
Qed.
Lemma fields_flag {R} pre (handler : Z → option (field_handler hp_state R)) tag set (b : bool)
    rest (r : R) Q w post :
  0 < tag < 2 ^ 29 → handler tag = Some (h_scalar PB_WT_VARINT pb_decode_bool set) →
  fields_hash pre handler rest (if b then set true r else r) Q w post →
  fields_hash pre handler (wire_flag tag b ++ rest) r Q w post.
Proof.
  intros Ht Eh Hrest. destruct b; [|done]. unfold wire_flag, wire_varint. rewrite <- app_assoc.
  eapply (fields_key pre handler tag) with (w := []) (P := λ r', r' = set true r);
    [done|done|exact Eh| |by intros ? ->].
  apply (hashes_scalar _ PB_WT_VARINT _ set _ rest true); [|done].
  unfold pb_decode_bool. by rewrite pb_decode_varint32_enc.
Qed.

(** What a callback set to [cb] does with a value: [w] and a count in [post]. *)
Variable run : hcb → istream → HM istream.
Definition value_read (cb : option hcb) (v : value) (pre : Z → Prop) (w : bytes) (post : Z → Prop)
  : Prop :=
  match option_map run cb with
  | Some f => hashes pre (f (wire_value v)) (λ s', s' = []) w post
  | None => w = [] ∧ post = pre
  end.

Lemma few_strings_spec l : few_strings l = true →
  require_strings l = true ∧ Z.of_nat (0 + length l) ≤ PB_SIZE_MAX.
Proof. unfold few_strings. intros [? ?]%andb_true_iff. split; [done|cbn; lia]. Qed.
Lemma present {A} (o : option A) : require_present o = true → ∃ a, o = Some a.
Proof. destruct o; [eauto|done]. Qed.
#[local] Ltac split_bools := repeat match goal with H : _ && _ = true |- _ =>
  apply andb_true_iff in H as [? ?] end.
#[local] Ltac split_measured := repeat match goal with H : measured (_ ++ _) |- _ =>
  apply measured_app in H as [? ?] end.
(** The next field of a struct, whose condition is in the context. *)
#[local] Ltac string_field := eapply (fields_opt_string _ _ _ _ (Some _)); [done|reflexivity|done|].
#[local] Ltac ident_field := eapply fields_ident; [done|reflexivity|done|done|].
#[local] Ltac value_field cb := eapply fields_value with (f := option_map run cb);
  [done|reflexivity|reflexivity|by eapply measured_bytes|eassumption|].
#[local] Ltac strings_field set := eapply fields_strings with (app := set);
  [done|reflexivity|by intros; cbn; rewrite length_app, Nat.add_1_r
  |intros []; cbn; by rewrite app_nil_r|intros ? ? []; cbn; by rewrite <- app_assoc
  |by apply few_strings_spec|done|by apply few_strings_spec|].
#[local] Ltac struct_fields := cbn -[few_strings require_strings wire_strings wire_bytes wire_opt
  wire_ident wire_value wire_flag option_map] in *; try done; split_measured.

Lemma create_fields cb pre c v w post : create_wf c v = true → measured (wire_create_node c v) →
  value_read cb v pre w post →
  fields_hash pre (Create_fields run) (wire_create_node c v)
    (Node_CreateCb_zero <| c_argument := cb |>) (λ r, r = c <| c_argument := cb |>) w post.
Proof.
  unfold create_wf, create_is_complete, require_identifier, wire_create_node.
  intros Hwf Hm Hv. split_bools.
  destruct c as [[lf|] [cid|] [pkg|] [] tid [] sigs stks]; struct_fields.
  rewrite <- (app_nil_r (wire_strings 7 _)). do 3 string_field. ident_field.
  rewrite <- (app_nil_r w). value_field cb.
  strings_field (λ k (c : Node_CreateCb hcb), c <| c_signatories ::= λ l, l ++ k |>).
  strings_field (λ k (c : Node_CreateCb hcb), c <| c_stakeholders ::= λ l, l ++ k |>).
  by apply fields_nil.
Qed.
Lemma fetch_fields pre f : fetch_wf f = true → measured (wire_fetch_node f) →
  fields_hash pre V1_Fetch_fields (wire_fetch_node f) Node_Fetch_zero (λ r, r = f) [] pre.
Proof.
  unfold fetch_wf, fetch_is_complete, require_identifier, wire_fetch_node.
  intros Hwf Hm. split_bools.
  destruct f as [[lf|] [cid|] [pkg|] [] tid sigs stks acts iid]; struct_fields.
  rewrite <- (app_nil_r (wire_opt 8 _)). do 3 string_field. ident_field.
  strings_field (λ k f, f <| f_signatories ::= λ l, l ++ k |>).
  strings_field (λ k f, f <| f_stakeholders ::= λ l, l ++ k |>).
  strings_field (λ k f, f <| f_acting_parties ::= λ l, l ++ k |>).
  eapply fields_ident_ptr; [done|reflexivity|done|]. apply fields_nil. by destruct iid.
Qed.
Lemma rollback_fields pre r : few_strings (r_children r) = true →
  measured (wire_strings 1 (r_children r)) →
  fields_hash pre Rollback_fields (wire_strings 1 (r_children r)) {| r_children := [] |}
    (λ r', r' = r) [] pre.
Proof.
  intros Hwf Hm. destruct r as [ids]. struct_fields. rewrite <- (app_nil_r (wire_strings 1 _)).
  strings_field (λ k r, r <| r_children ::= λ l, l ++ k |>). by apply fields_nil.
Qed.
Lemma exercise_fields cv cr pre e v r w1 mid w2 post : exercise_wf e v r = true →
  measured (wire_exercise_node e v r) → value_read cv v pre w1 mid → value_read cr r mid w2 post →
  fields_hash pre (Exercise_fields run) (wire_exercise_node e v r)
    (Node_ExerciseCb_zero <| e_chosen_value := cv |> <| e_exercise_result := cr |>)
    (λ x, x = e <| e_chosen_value := cv |> <| e_exercise_result := cr |>) (w1 ++ w2) post.
Proof.
  unfold exercise_wf, exercise_is_complete, require_identifier, wire_exercise_node.
  intros Hwf Hm Hv Hr. split_bools.
  destruct e as [[lf|] [cid|] [pkg|] [] tid sigs stks acts iid [cho|] [] cons ch [] obs]; struct_fields.
  rewrite <- (app_nil_r (wire_strings 14 _)). do 3 string_field. ident_field.
  strings_field (λ k (e : Node_ExerciseCb hcb), e <| e_signatories ::= λ l, l ++ k |>).
  strings_field (λ k (e : Node_ExerciseCb hcb), e <| e_stakeholders ::= λ l, l ++ k |>).
  strings_field (λ k (e : Node_ExerciseCb hcb), e <| e_acting_parties ::= λ l, l ++ k |>).
  eapply fields_ident_ptr; [done|reflexivity|done|].
  destruct iid as [iid|]; string_field; value_field cv; (eapply fields_flag; [done|reflexivity|]);
  destruct cons;
  (strings_field (λ k (e : Node_ExerciseCb hcb), e <| e_children ::= λ l, l ++ k |>);
  rewrite <- (app_nil_r w2); value_field cr;
  strings_field (λ k (e : Node_ExerciseCb hcb), e <| e_choice_observers ::= λ l, l ++ k |>);
  by apply fields_nil).
Qed.
End Structs.

(** ** Steps on nodes *)

Section Steps.
Context `{Sha256} `{Device}.
Variable F : Prop.
Hypothesis refusing : refuses_memory → F.

(** What the parser keeps while it reads a node, and what it put in the hasher: [None] when
    it recorded an error instead. *)
Record went (o : option bytes) (s s' : hp_state) : Prop := {
  we_tx : hp_tx s' = hp_tx s;
  we_hasher : hp_hasher s' = hp_hasher s;
  we_id : hp_node_id s' = hp_node_id s;
  we_root : hp_is_root_node s' = hp_is_root_node s;
  we_contract : hp_is_input_contract s' = hp_is_input_contract s;
  we_store : hs_store (hp_hash s') = hs_store (hp_hash s);
  we_put : match o with
           | Some w => hp_node_hw s' = hp_node_hw s ++ w ∧ hp_hash s' = hp_hash s
           | None => get_hash_error (hp_hash s') ≠ HASH_OK
           end;
  we_sticky : get_hash_error (hp_hash s) ≠ HASH_OK → get_hash_error (hp_hash s') ≠ HASH_OK
}.
Lemma went_nothing s s' : hp_tx s' = hp_tx s → hp_hasher s' = hp_hasher s →
  hp_node_id s' = hp_node_id s → hp_is_root_node s' = hp_is_root_node s →
  hp_is_input_contract s' = hp_is_input_contract s → hp_hash s' = hp_hash s →
  hp_node_hw s' = hp_node_hw s → went (Some []) s s'.
Proof. intros ? ? ? ? ? E ?. split; try done; try by rewrite E. by rewrite app_nil_r. Qed.
Lemma went_trans o o' s s' s'' : went o s s' → went o' s' s'' → went (o ⊕ o') s s''.
Proof.
  intros [T1 H1 I1 R1 C1 S1 P1 K1] [T2 H2 I2 R2 C2 S2 P2 K2]. split; try congruence; [|auto].
  destruct o as [w|], o' as [w'|]; cbn; try done; try by apply K2.
  destruct P1 as [E1 E1'], P2 as [E2 E2']. by rewrite E2, E2', E1, E1', app_assoc.
Qed.
Lemma went_after c n w s : went (Some w) s (after c n w s).
Proof. by split. Qed.

Definition puts_to {A} (s : hp_state) (m : HM A) (Q : A → Prop) (o : option bytes) : Prop :=
  step_to F s m (λ a s', Q a ∧ went o s s').

Lemma puts_bind {A B} s (m : HM A) (k : A → HM B) Q o R o' :
  puts_to s m Q o → (∀ a s', Q a → went o s s' → puts_to s' (k a) R o') →
  puts_to s (bind m k) R (o ⊕ o').
Proof.
  intros Hm Hk. eapply step_bind; [exact Hm|]. intros a s' [Ha Hw].
  eapply step_weaken; [by apply Hk|]. intros b s'' [Hb Hw']. split; [done|by eapply went_trans].
Qed.
Lemma puts_eq {A} s (m : HM A) Q o o' : puts_to s m Q o → o = o' → puts_to s m Q o'.
Proof. by intros ? <-. Qed.
Lemma puts_then {A B} s (m : HM A) (k : A → HM B) Q R o :
  puts_to s m Q (Some []) → (∀ a s', Q a → went (Some []) s s' → puts_to s' (k a) R o) →
  puts_to s (bind m k) R o.
Proof. intros Hm Hk. eapply puts_eq; [by eapply puts_bind|apply cat2_nil_l]. Qed.
Lemma puts_ret {A} s (a : A) (Q : A → Prop) : Q a → puts_to s (ret a) Q (Some []).
Proof. intros Ha. apply step_ret. split; [done|by apply went_nothing]. Qed.
Lemma puts_guard s b : b = true → puts_to s (guard b) (λ _, True) (Some []).
Proof. intros ->. by apply puts_ret. Qed.
Lemma puts_hashes {A} s (m : HM A) Q w (post : Z → Prop) :
  hashes (λ _, True) m Q w post → puts_to s m Q (Some w).
Proof.
  intros Hm. destruct (Hm s I) as [[Hr Ef]|(a & c & n & E & Ha & _)]; [left; auto|right].
  exists a, (after c n w s). split_and!; [done|done|apply went_after].
Qed.
Lemma puts_encoder s f o : refines (hs_store (hp_hash s)) f o →
  puts_to s (hw_node f) (λ _, True) o.
Proof.
  intros [R S T]. right. eexists tt, _. split; [done|]. split; [done|].
  set (c := {| e_hw := hp_node_hw s; e_hs := hp_hash s |}).
  specialize (R c eq_refl). split; cbn; fold c; try done.
  - destruct o as [w|]; [by rewrite R|done].
  - apply (S c).
Qed.
Lemma puts_state s (f : hp_state → hp_state) : went (Some []) s (f s) →
  puts_to s (modify f) (λ _, True) (Some []).
Proof. intros Hw. by right; exists tt, (f s). Qed.
End Steps.

(** ** Nodes, read twice or three times *)

(** The first seed the header gives for an id; [bad_seed] is one of the wrong length. *)
Definition seed_entry (tx : DamlTransaction) (id : Z) : option NodeSeed :=
  if 0 <=? id then List.find (λ s, ns_node_id s =? id) (tx_node_seeds tx) else None.
Definition seed_of (tx : DamlTransaction) (id : Z) : option bytes :=
  match seed_entry tx id with Some s => ns_seed s | None => None end.
Definition bad_seed (tx : DamlTransaction) (id : Z) : Prop :=
  ∃ s, seed_entry tx id = Some s ∧ ∀ b, ns_seed s = Some b → length b ≠ SHA256_HASH_LEN.

Lemma short_opt_measured tag o : measured (wire_opt tag o) → short_opt o.
Proof. intros Hm. destruct o as [s|]; [by apply (measured_scalar tag)|done]. Qed.
Lemma short_strings tag l : measured (wire_strings tag l) → few_strings l = true → short_list l.
Proof.
  intros Hm [_ Hl]%few_strings_spec. split; [unfold few, PB_SIZE_MAX in *; lia|]. clear Hl.
  induction l as [|o l IH]; intros s Hs; [set_solver|].
  unfold wire_strings in Hm. cbn [flat_map] in Hm. apply measured_app in Hm as [Ho Hm].
  apply elem_of_cons in Hs as [->|Hs]; [by eapply short_opt_measured|by apply IH].
Qed.
#[local] Ltac short_struct := repeat match goal with
  | H : _ && _ = true |- _ => apply andb_true_iff in H as [? ?]
  | H : measured (_ ++ _) |- _ => apply measured_app in H as [? ?] end;
  split; try (by eapply short_opt_measured); try (by eapply short_strings);
  try (by eapply ident_measured, measured_bytes); try by eapply opt_ident_measured.
Lemma create_is_short c v : create_wf c v = true → measured (wire_create_node c v) → create_short c.
Proof. unfold create_wf, wire_create_node. intros Hwf Hm. short_struct. Qed.
Lemma create_plain c v : create_wf c v = true → c <| c_argument := None |> = c.
Proof. unfold create_wf. intros [_ Ha]%andb_true_iff. by destruct c as [? ? ? ? ? []]. Qed.
Lemma exercise_plain e v r : exercise_wf e v r = true →
  e <| e_chosen_value := None |> <| e_exercise_result := None |> = e.
Proof.
  unfold exercise_wf. intros [[_ Hc]%andb_true_iff Hr]%andb_true_iff.
  by destruct e as [? ? ? ? ? ? ? ? ? ? [] ? ? []].
Qed.
Lemma refines_middle st (e : Node_ExerciseCb hcb) :
  refines st (encode_exercise_middle e) (Some [if e_consuming e then 1 else 0]).
Proof.
  assert (E : u8 (if e_consuming e then 1 else 0) = if e_consuming e then 1 else 0)
    by by destruct (e_consuming e).
  rewrite <- E. apply refines_put.
Qed.
Lemma create_value c v : create_wf c v = true → measured (wire_create_node c v) →
  hashable v = true ∧ measured (wire_value v).
Proof.
  unfold create_wf, wire_create_node. intros Hwf Hm.
  repeat match goal with
  | H : _ && _ = true |- _ => apply andb_true_iff in H as [? ?]
  | H : measured (_ ++ _) |- _ => apply measured_app in H as [? ?] end.
  split; [done|by eapply measured_bytes].
Qed.
Lemma exercise_values e v r : exercise_wf e v r = true → measured (wire_exercise_node e v r) →
  hashable v = true ∧ measured (wire_value v) ∧ hashable r = true ∧ measured (wire_value r).
Proof.
  unfold exercise_wf, wire_exercise_node. intros Hwf Hm.
  repeat match goal with
  | H : _ && _ = true |- _ => apply andb_true_iff in H as [? ?]
  | H : measured (_ ++ _) |- _ => apply measured_app in H as [? ?] end.
  split_and!; try done; by eapply measured_bytes.
Qed.
Lemma exercise_is_short e v r : exercise_wf e v r = true → measured (wire_exercise_node e v r) →
  exercise_short e.
Proof. unfold exercise_wf, wire_exercise_node. intros Hwf Hm. short_struct. Qed.
Lemma fetch_is_short f : fetch_wf f = true → measured (wire_fetch_node f) → fetch_short f.
Proof. unfold fetch_wf, wire_fetch_node. intros Hwf Hm. short_struct. Qed.

Lemma measured_node n : measured (wire_node n) →
  match n with
  | N_create c v => measured (wire_create_node c v)
  | N_exercise e v r => measured (wire_exercise_node e v r)
  | N_fetch f => measured (wire_fetch_node f)
  | N_rollback r => measured (wire_strings 1 (r_children r))
  end.
Proof. by destruct n; intros ?%measured_bytes. Qed.
Lemma values_shorter n : match n with
  | N_create _ v => (length (wire_value v) < length (wire_node n))%nat
  | N_exercise _ v r => (length (wire_value v) < length (wire_node n))%nat ∧
                        (length (wire_value r) < length (wire_node n))%nat
  | _ => True
  end.
Proof.
  destruct n as [c v|e v r|f|r]; try done; unfold wire_node.
  - pose proof (wire_bytes_length NODE_V1_CREATE_TAG (wire_create_node c v)).
    pose proof (wire_bytes_length 5 (wire_value v)).
    unfold wire_create_node in *. rewrite !length_app in *. lia.
  - pose proof (wire_bytes_length NODE_V1_EXERCISE_TAG (wire_exercise_node e v r)).
    pose proof (wire_bytes_length 10 (wire_value v)).
    pose proof (wire_bytes_length 13 (wire_value r)).
    unfold wire_exercise_node in *. rewrite !length_app in *. lia.
Qed.

Section Decode.
Context `{Sha256} `{Device}.
Variable F : Prop.
Hypothesis refusing : refuses_memory → F.

Abbreviation puts_in := (puts_to F).

Lemma puts_node_seed s : (bad_seed (hp_tx s) (hp_node_id s) → F) →
  puts_in s node_seed (λ a, a = seed_of (hp_tx s) (hp_node_id s) ∧
    ¬ bad_seed (hp_tx s) (hp_node_id s)) (Some []).
Proof.
  intros Hbad. unfold node_seed, seed_of, puts_to. apply (step_bind _ _ _ _ (λ a s', a = s ∧ s' = s)).
  { by apply step_ret. }
  intros ? ? [-> ->]. unfold bad_seed, seed_entry in *.
  destruct (0 <=? hp_node_id s); [|by apply puts_ret; split; [|intros (? & ? & ?)]].
  induction (tx_node_seeds (hp_tx s)) as [|sd l IH]; cbn [find_seed List.find] in *.
  { by apply puts_ret; split; [|intros (? & ? & ?)]. }
  destruct (ns_node_id sd =? hp_node_id s); [|by apply IH].
  destruct (ns_seed sd) as [b|] eqn:Es.
  - destruct (Nat.eqb_spec (length b) SHA256_HASH_LEN).
    + apply puts_ret. split; [done|]. intros (sd' & [= <-] & Hb). by apply (Hb b).
    + left. split; [|done]. apply Hbad. exists sd. split; [done|]. intros b' Eb. congruence.
  - left. split; [|done]. apply Hbad. exists sd. split; [done|]. intros b' Eb. congruence.
Qed.
Lemma puts_contract_seen s cid : puts_in s (contract_seen cid) (λ _, True) (Some []).
Proof.
  right. unfold contract_seen, record_used_contract, modify.
  destruct (hp_is_input_contract s); eexists tt, _; (split; [done|]); (split; [done|]);
    by apply went_nothing.
Qed.
Lemma puts_used s cid : puts_in s (record_used_contract cid) (λ _, True) (Some []).
Proof. apply puts_state. by apply went_nothing. Qed.
Lemma puts_claim s children : puts_in s (claim_children children) (λ _, True) (Some []).
Proof. apply puts_state. destruct (hp_children_claimed s); by apply went_nothing. Qed.

(** *** Create *)

#[local] Ltac split_and_true := repeat match goal with
  | H : _ && _ = true |- _ => apply andb_true_iff in H as [? ?] end; rewrite ?andb_true_iff; done.
Lemma puts_guard_or s b : (b = false → F) → puts_in s (guard b) (λ _, b = true) (Some []).
Proof. intros Hb. destruct b; [by apply puts_ret|left; auto]. Qed.
(** The header and the id have not changed since the first state. *)
#[local] Ltac same_node := repeat match goal with
  | W : went _ _ _ |- _ => destruct W as [? _ ? _ _ ? _ _] end; congruence.

Variable fuel : nat.
Lemma value_skipped v pre : value_read (run fuel) None v pre [] pre.
Proof. by split. Qed.
Lemma value_hashed v w pre : hashable v = true → measured (wire_value v) →
  (length (wire_value v) < fuel)%nat → spec_value v = Some w →
  value_read (run fuel) (Some decode_value_field_cb) v pre w (λ _, True).
Proof. intros [Hwf _]%andb_true_iff Hm Hl Hw. by apply value_field_puts. Qed.
Lemma hashable_spec v : hashable v = true → ∃ w, spec_value v = Some w.
Proof. unfold hashable. intros [_ Hs]%andb_true_iff. destruct (spec_value v); [eauto|done]. Qed.

Lemma puts_fields {R} s (handler : Z → option (field_handler hp_state R)) b r Q w :
  fields_hash (λ _, True) handler b r Q w (λ _, True) → puts_in s (pb_decode_inner handler b r) Q (Some w).
Proof. intros Hf. eapply puts_hashes; [done|]. by apply fields_inner. Qed.

Lemma decode_create_puts s c v : create_wf c v = true → measured (wire_create_node c v) →
  (length (wire_value v) < fuel)%nat → (bad_seed (hp_tx s) (hp_node_id s) → F) →
  puts_in s (decode_create (run fuel) (wire_create_node c v))
    (λ s', s' = [] ∧ ¬ bad_seed (hp_tx s) (hp_node_id s))
    (spec_create (seed_of (hp_tx s) (hp_node_id s)) c v).
Proof.
  intros Hwf Hm Hl Hbad. pose proof (create_is_short c v Hwf Hm) as Hs.
  destruct (create_value c v Hwf Hm) as [Hv Hmv]. destruct (hashable_spec v Hv) as (w & Hw).
  unfold decode_create. eapply puts_then.
  { eapply puts_fields. apply (create_fields _ None); [done|done|apply value_skipped]. }
  intros ? s1 -> W1. rewrite (create_plain c v Hwf).
  eapply puts_then; [apply puts_guard; by unfold create_wf in Hwf; split_and_true|]. intros _ s2 _ W2.
  eapply puts_then; [apply puts_contract_seen|]. intros _ s3 _ W3.
  assert (Et : hp_tx s3 = hp_tx s) by same_node.
  assert (Ei : hp_node_id s3 = hp_node_id s) by same_node.
  eapply puts_then; [apply puts_node_seed; by rewrite Et, Ei|]. rewrite Et, Ei.
  intros seed s4 [-> Hok] W4.
  unfold spec_create. rewrite cat2_assoc.
  eapply puts_bind; [apply puts_encoder, refines_create_start, Hs|]. intros _ s5 _ W5. rewrite Hw.
  eapply puts_bind.
  { eapply puts_fields. apply (create_fields _ (Some decode_value_field_cb)); [done|done|].
    by apply value_hashed. }
  intros ? s6 -> W6. eapply puts_eq; [eapply puts_bind|apply cat2_nil_r].
  - change (spec_create_end c) with (spec_create_end (c <| c_argument := Some decode_value_field_cb |>)).
    apply puts_encoder, refines_create_end. by destruct Hs.
  - intros _ s7 _ W7. by apply puts_ret.
Qed.

(** *** Exercise *)

Lemma decode_exercise_puts s e v r : exercise_wf e v r = true → measured (wire_exercise_node e v r) →
  (length (wire_value v) < fuel)%nat → (length (wire_value r) < fuel)%nat →
  (bad_seed (hp_tx s) (hp_node_id s) → F) → (seed_of (hp_tx s) (hp_node_id s) = None → F) →
  puts_in s (decode_exercise (run fuel) (wire_exercise_node e v r))
    (λ s', s' = [] ∧ ¬ (bad_seed (hp_tx s) (hp_node_id s) ∨ seed_of (hp_tx s) (hp_node_id s) = None))
    (spec_exercise (seed_of (hp_tx s) (hp_node_id s)) e v r
       (spec_children (hs_store (hp_hash s)) (e_children e))).
Proof.
  intros Hwf Hm Hlv Hlr Hbad Hnone. pose proof (exercise_is_short e v r Hwf Hm) as Hs.
  destruct (exercise_values e v r Hwf Hm) as (Hv & Hmv & Hr & Hmr).
  destruct (hashable_spec v Hv) as (w & Hw). destruct (hashable_spec r Hr) as (w' & Hw').
  unfold decode_exercise. eapply puts_then.
  { eapply (puts_fields _ _ _ _ _ ([] ++ [])), (exercise_fields _ None None); [done|done|apply value_skipped..]. }
  intros ? s1 -> W1. rewrite (exercise_plain e v r Hwf).
  eapply puts_then; [apply puts_guard; by unfold exercise_wf in Hwf; split_and_true|].
  intros _ s2 _ W2.
  eapply puts_then; [apply puts_used|]. intros _ s3 _ W3.
  eapply puts_then; [apply puts_claim|]. intros _ s4 _ W4.
  assert (Et : hp_tx s4 = hp_tx s) by same_node.
  assert (Ei : hp_node_id s4 = hp_node_id s) by same_node.
  eapply puts_then; [apply puts_node_seed; by rewrite Et, Ei|]. rewrite Et, Ei.
  intros seed s5 [-> Hok] W5.
  eapply puts_then; [apply puts_guard_or; intros Es; apply Hnone; by destruct (seed_of _ _)|].
  intros [] s6 Hset W6.
  unfold spec_exercise. rewrite !cat2_assoc, Hw, Hw'.
  eapply puts_bind; [apply puts_encoder, refines_exercise_start, Hs|]. intros _ s7 _ W7.
  eapply puts_bind.
  { eapply puts_eq; [eapply (puts_fields _ _ _ _ _ (w ++ [])), (exercise_fields _ (Some decode_value_field_cb) None);
      [done|done|by apply value_hashed|apply value_skipped]|by rewrite app_nil_r]. }
  intros ? s8 -> W8.
  eapply puts_bind; [apply puts_encoder, (refines_middle _ e)|]. intros _ s9 _ W9.
  eapply puts_bind; [apply puts_encoder, refines_byte1|]. intros _ s10 _ W10.
  eapply puts_bind.
  { eapply (puts_fields _ _ _ _ _ ([] ++ w')), (exercise_fields _ None (Some decode_value_field_cb));
      [done|done|apply value_skipped|by apply value_hashed]. }
  intros ? s11 -> W11.
  assert (Es : hs_store (hp_hash s11) = hs_store (hp_hash s)) by same_node.
  eapply puts_eq; [eapply puts_bind|apply cat2_nil_r].
  - rewrite <- Es. assert (He : exercise_short (e <| e_chosen_value := None |>
      <| e_exercise_result := Some decode_value_field_cb |>)) by by destruct Hs.
    exact (puts_encoder F s11 _ _ (refines_exercise_end _ _ He)).
  - intros _ s12 _ W12. apply puts_ret. split; [done|].
    intros [Hb|Hn]; [done|by rewrite Hn in Hset].
Qed.

(** *** Fetch and rollback *)

Lemma decode_fetch_puts s f : fetch_wf f = true → measured (wire_fetch_node f) →
  puts_in s (decode_fetch (wire_fetch_node f)) (λ s', s' = []) (spec_fetch f).
Proof.
  intros Hwf Hm. unfold decode_fetch. eapply puts_then; [by apply puts_fields, fetch_fields|].
  intros ? s1 -> W1.
  eapply puts_then; [apply puts_guard; by unfold fetch_wf in Hwf; split_and_true|]. intros _ s2 _ W2.
  eapply puts_then; [apply puts_used|]. intros _ s3 _ W3.
  eapply puts_eq; [eapply puts_bind|apply cat2_nil_r].
  - by apply puts_encoder, refines_fetch, fetch_is_short.
  - intros _ s4 _ W4. by apply puts_ret.
Qed.
Lemma decode_rollback_puts s r : few_strings (r_children r) = true →
  measured (wire_strings 1 (r_children r)) →
  puts_in s (decode_rollback (wire_strings 1 (r_children r))) (λ s', s' = [])
    (spec_rollback (hs_store (hp_hash s)) r).
Proof.
  intros Hwf Hm. unfold decode_rollback. eapply puts_then; [by apply puts_fields, rollback_fields|].
  intros ? s1 -> W1.
  eapply puts_then; [apply puts_guard; by apply few_strings_spec|]. intros _ s2 _ W2.
  eapply puts_then; [apply puts_claim|]. intros _ s3 _ W3.
  assert (Es : hs_store (hp_hash s3) = hs_store (hp_hash s)) by same_node.
  eapply puts_eq; [eapply puts_bind|apply cat2_nil_r].
  - rewrite <- Es. apply puts_encoder, refines_rollback.
  - intros _ s4 _ W4. by apply puts_ret.
Qed.

(** *** A versioned node *)

Lemma step_node tag b v1 s P o : 1 ≤ tag ≤ 5 → measured b →
  n_cb_node_type v1 = Some node_decode_callback_cb →
  puts_in s (node_decode_callback (run fuel) tag b) (λ s', s' = [] ∧ P) o →
  fields_to F s (NodeV1_fields (run_node fuel)) (wire_bytes tag b) v1 (λ _ s', P ∧ went o s s').
Proof.
  intros Ht Hb Ec Hn. assert (E : (1 <=? tag) && (tag <=? 5) = true) by lia.
  eapply fields_to_last; [lia|unfold NodeV1_fields; by rewrite E|].
  cbn beta. eapply (step_submsg _ _ _ _ _ _ (λ _ s', P ∧ went o s s')); [done|].
  unfold dec_submsg_w_cb. cbn. rewrite Ec. cbn.
  eapply step_bind.
  - eapply step_bind; [exact Hn|]. intros s' s1 [[Hs HP] Hw].
    by apply (step_ret _ _ (s', _) (λ p s1, fst p = [] ∧ P ∧ went o s s1)).
  - intros [sub' r'] s1 [Es Hw]. cbn in Es. subst sub'. by apply step_ret.
Qed.
Definition seed_refused (tx : DamlTransaction) (id : Z) (n : node) : Prop :=
  match n with
  | N_create _ _ => bad_seed tx id
  | N_exercise _ _ _ => bad_seed tx id ∨ seed_of tx id = None
  | N_fetch _ | N_rollback _ => False
  end.
Lemma node_fields_to n v1 s : node_wf n = true → measured (wire_node n) →
  (length (wire_node n) < fuel)%nat → n_cb_node_type v1 = Some node_decode_callback_cb →
  (seed_refused (hp_tx s) (hp_node_id s) n → F) →
  fields_to F s (NodeV1_fields (run_node fuel)) (wire_node n) v1
    (λ _ s', ¬ seed_refused (hp_tx s) (hp_node_id s) n ∧
       went (spec_node (hs_store (hp_hash s)) (seed_of (hp_tx s) (hp_node_id s)) n) s s').
Proof.
  intros Hwf Hm%measured_node Hf Ec Hs. pose proof (values_shorter n) as Hv.
  destruct n as [c v|e v r|f|r]; apply step_node; try done.
  - apply decode_create_puts; [done|done|by eapply Nat.lt_trans|done].
  - destruct Hv as [Hv Hr]. unfold seed_refused in Hs.
    apply decode_exercise_puts; [done|done|by eapply Nat.lt_trans..|auto|auto].
  - eapply step_weaken; [by apply decode_fetch_puts|]. intros s' s1 [-> Hw].
    by split_and!; [|intros []|].
  - eapply step_weaken; [by apply decode_rollback_puts|]. intros s' s1 [-> Hw].
    by split_and!; [|intros []|].
Qed.

(** *** The part of a node *)

Definition is_root (tx : DamlTransaction) (id : bytes) : bool :=
  existsb (λ root, opt_str_eqb root id) (tx_roots tx).
(** The state once the id is read. *)
Definition identified (id : bytes) (s : hp_state) : hp_state :=
  (if is_root (hp_tx s) id then s <| hp_is_root_node := true |> else s)
    <| hp_node_id := atoint id |>.
Lemma identified_node id s : hp_tx (identified id s) = hp_tx s ∧
  hp_node_id (identified id s) = atoint id ∧
  hs_store (hp_hash (identified id s)) = hs_store (hp_hash s).
Proof. unfold identified. by destruct (is_root _ _). Qed.
Lemma wire_node_cons n : ∃ x b, wire_node n = x :: b.
Proof. destruct n; by eexists _, _. Qed.
Lemma node_id_read id s : (length id < 4)%nat →
  decode_node_id_field id s = (Ret [], identified id s).
Proof.
  intros Hl. unfold decode_node_id_field. rewrite (proj2 (Nat.ltb_lt _ _) Hl).
  cbn [guard]. unfold bind at 1. cbn [ret].
  pose proof (pb_read_app id []) as E. rewrite app_nil_r in E. rewrite E. done.
Qed.
Definition part_start : DeviceNode hcb (NodeV1 hcb) :=
  Build_DeviceNode (Some decode_node_id_field_cb) (Some versioned_node_decode_callback_cb)
    0 NodeV1_zero.
Lemma part_fields_to id n s : node_wf n = true → measured (wire_node_part id n) →
  (length id < 4)%nat → (length (wire_node n) < fuel)%nat →
  (seed_refused (hp_tx s) (atoint id) n → F) →
  fields_to F s (node_msg fuel) (wire_node_part id n) part_start
    (λ _ s', ¬ seed_refused (hp_tx s) (atoint id) n ∧
       went (spec_node (hs_store (hp_hash s)) (seed_of (hp_tx s) (atoint id)) n)
         (identified id s) s').
Proof.
  intros Hwf [Hi%measured_bytes Hn%measured_bytes]%measured_app Hl Hf Hs. unfold wire_node_part.
  eapply (fields_to_bytes _ _ _ _ _ _ _ _ (λ r' s', r' = part_start ∧ s' = identified id s));
    [done|reflexivity| |].
  - eapply (step_callback _ _ _ _ _ _ _ (λ r' s', r' = part_start ∧ s' = identified id s));
      [done|reflexivity|].
    destruct fuel as [|fl]; [lia|]. right. eexists _, _. split; [by apply node_id_read|]. split; [by left|done].
  - intros ? ? [-> ->]. eapply fields_to_last; [done|reflexivity|]. cbn -[wire_node].
    eapply (step_submsg _ _ _ _ _ _ (λ _ s', _ ∧ went _ _ s')); [done|].
    unfold dec_submsg_w_cb. cbn -[wire_node].
    unfold versioned_node_decode_callback. apply step_pure. cbn -[wire_node].
    destruct (identified_node id s) as (Et & Ei & Es). pose proof (node_fields_to n
      (NodeV1_zero <| n_cb_node_type := Some node_decode_callback_cb |>) (identified id s)
      Hwf Hn Hf eq_refl) as Hnode. rewrite Et, Ei, Es in Hnode. specialize (Hnode Hs).
    pose proof (wire_node_cons n) as (x & b & Eb). rewrite Eb in *.
    eapply step_bind; [by apply Hnode|]. intros r s1 Hw. by apply step_ret.
Qed.

End Decode.

(** *** The part of an input contract *)

Section Parts.
Context `{Sha256} `{Device}.
Variable F : Prop.
Hypothesis refusing : refuses_memory → F.

Definition contract_start : InputContract hcb := Build_InputContract (Some decode_create_cb) 0 0.
Lemma contract_fields_to fuel c v t s : create_wf c v = true → measured (wire_contract_part c v t) →
  is_u64 t → hp_node_id s = -1 → (S (length (wire_value v)) < fuel)%nat →
  fields_to F s (input_contract_msg fuel) (wire_contract_part c v t) contract_start
    (λ ic s', ic_created_at ic = t ∧ went (spec_create None c v) s s').
Proof.
  intros Hwf [Hm%measured_bytes _]%measured_app Ht Hid Hf. unfold wire_contract_part.
  eapply (fields_to_bytes _ _ _ _ _ _ _ _ (λ _ s', went (spec_create None c v) s s'));
    [done|reflexivity| |].
  - eapply (step_submsg _ _ _ _ _ _ (λ _ s', went _ s s')); [done|].
    unfold dec_submsg_w_cb. cbn -[wire_create_node]. destruct fuel as [|fl]; [lia|].
    assert (E : seed_of (hp_tx s) (hp_node_id s) = None) by by rewrite Hid.
    assert (Hb : bad_seed (hp_tx s) (hp_node_id s) → F) by by rewrite Hid; intros (? & ? & ?).
    pose proof (decode_create_puts F refusing fl s c v Hwf Hm ltac:(lia) Hb) as Hc. rewrite E in Hc.
    change (run (S fl) decode_create_cb) with (decode_create (run fl)).
    eapply step_bind.
    + eapply step_bind; [exact Hc|].
      intros s' s1 [[Hs _] Hw].
      by apply (step_ret _ _ (s', _) (λ p s1, fst p = [] ∧ went (spec_create None c v) s s1)).
    + intros [sub' r'] s1 [Es Hw]. cbn in Es. subst sub'. by apply step_ret.
  - intros r' s' Hw. unfold wire_varint. rewrite <- (app_nil_r (enc_varint t)).
    eapply (fields_to_key _ _ _ _ _ _ _ _ _ (λ ic s1, ic_created_at ic = t ∧ went (spec_create None c v) s s1));
      [done|done|reflexivity| |intros ? ? ?; by apply fields_to_nil].
    unfold h_scalar. apply step_guard; [done|].
    eapply (step_of_option _ _ _ (t, [])); [|by apply step_ret].
    unfold pb_dec_uint. rewrite pb_decode_varint_enc by done. unfold is_u64 in Ht.
    by rewrite (proj2 (Z.ltb_lt t (2 ^ 64)) (proj2 Ht)).
Qed.
End Parts.

(** ** Parts *)

Section Canonical.
Context `{Sha256} `{Device}.

Definition part_ok (id : bytes) (n : node) : Prop :=
  node_wf n = true ∧ (length id < 4)%nat ∧ measured (wire_node_part id n).
(** What a part with node [n] leaves: the hash of the encoding of [n] appended to the hasher
    of the transaction, or in the node hash store, or an error when there is no encoding. *)
Definition node_hashed (id : bytes) (n : node) (s s' : hp_state) : Prop :=
  match spec_node (hs_store (hp_hash s)) (seed_of (hp_tx s) (atoint id)) n with
  | Some w =>
      hp_node_hw s' = w ∧
      if is_root (hp_tx s) id
      then hp_hasher s' = hp_hasher s ++ take SHA256_HASH_LEN (hw_finalize w) ∧
           hp_hash s' = hp_hash s
      else hp_hasher s' = hp_hasher s ∧
           hp_hash s' = set_node_hash (atoint id) (hw_finalize w) (hp_hash s)
  | None => get_hash_error (hp_hash s') ≠ HASH_OK
  end.

Lemma identified_started id s : let s' := identified id (started false s) in
  hp_tx s' = hp_tx s ∧ hp_hasher s' = hp_hasher s ∧ hp_node_id s' = atoint id ∧
  hp_is_root_node s' = is_root (hp_tx s) id ∧ hp_node_hw s' = [] ∧ hp_hash s' = hp_hash s.
Proof. unfold identified. cbn. by destruct (is_root _ _). Qed.
Lemma node_part_hashed id n s : part_ok id n →
  step_to (refuses_memory ∨ seed_refused (hp_tx s) (atoint id) n) s
    (proto_deserialize_node (wire_node_part id n))
    (λ _ s', ¬ seed_refused (hp_tx s) (atoint id) n ∧ hp_node_id s' = atoint id ∧
       hp_is_root_node s' = is_root (hp_tx s) id ∧ node_hashed id n s s').
Proof.
  intros (Hwf & Hid & Hm). set (F := _ ∨ _).
  assert (HF : refuses_memory → F) by by left.
  unfold proto_deserialize_node.
  eapply step_bind; [by apply (step_modify _ _ _ (λ _ s', s' = started false s))|].
  intros _ ? ->. eapply step_bind.
  { apply (part_fields_to F HF (parse_fuel (wire_node_part id n)) id n); [done..| | |done].
    - unfold parse_fuel, wire_node_part. pose proof (wire_bytes_length NODE_V1_TAG (wire_node n)).
      rewrite length_app. lia.
    - by right. }
  intros r s1 [Hseed [Et Eh Ei Er _ _ Ep _]].
  destruct (identified_started id s) as (E1 & E2 & E3 & E4 & E5 & E6).
  rewrite E1, E2, E3, E4, E5, E6 in *. change (hp_tx (started false s)) with (hp_tx s) in *.
  right. unfold node_hashed. cbn -[SHA256_HASH_LEN]. rewrite Er, Ei.
  destruct (is_root (hp_tx s) id); eexists tt, _; (split; [reflexivity|]); cbn -[SHA256_HASH_LEN];
    (split; [done|]); (split; [done|]); (split; [done|]); destruct (spec_node _ _ n) as [w|];
    try done; destruct Ep as [-> ->]; by rewrite Eh.
Qed.

(** A contract has no seed; its creation time is hashed before it. *)
Lemma contract_part_hashed c v t s : create_wf c v = true → is_u64 t →
  measured (wire_contract_part c v t) →
  step_to refuses_memory s (proto_deserialize_input_contract (wire_contract_part c v t))
    (λ _ s', match spec_create None c v with
       | Some w => hp_node_hw s' = w ∧ hp_hash s' = hp_hash s ∧
           hp_hasher s' = hp_hasher s ++ be64 (u64 t) ++ take SHA256_HASH_LEN (hw_finalize w)
       | None => get_hash_error (hp_hash s') ≠ HASH_OK
       end).
Proof.
  intros Hwf Ht Hm. unfold proto_deserialize_input_contract.
  eapply step_bind; [by apply (step_modify _ _ _ (λ _ s', s' = started true s))|].
  intros _ ? ->. eapply step_bind.
  { apply (contract_fields_to _ (λ r, r) (parse_fuel (wire_contract_part c v t)) c v t);
      [done..| |done].
    unfold parse_fuel, wire_contract_part. pose proof (wire_bytes_length 1 (wire_create_node c v)).
    pose proof (wire_bytes_length 5 (wire_value v)). unfold wire_create_node in *.
    rewrite !length_app in *. lia. }
  intros r s1 [<- [Et Eh Ei Er _ _ Ep _]]. right.
  eexists tt, _. split; [reflexivity|]. cbn -[SHA256_HASH_LEN be64 u64].
  destruct (spec_create None c v) as [w|]; [|done]. destruct Ep as [Ew Es].
  split; [done|]. split; [done|]. by rewrite Eh, Ew, <- app_assoc.
Qed.

Lemma node_hashed_root id n s s' seed w : node_hashed id n s s' →
  seed_of (hp_tx s) (atoint id) = seed ∧ is_root (hp_tx s) id = true →
  spec_node (hs_store (hp_hash s)) seed n = Some w →
  hp_hasher s' = hp_hasher s ++ take SHA256_HASH_LEN (hw_finalize w) ∧ hp_hash s' = hp_hash s.
Proof. unfold node_hashed. intros Hn [<- Er] Es. rewrite Es, Er in Hn. by destruct Hn. Qed.

(** C9: A part with a well-formed node on the wire leaves the hash of the node's canonical
    encoding.  Well-formed ([part_ok]): the fields the parser requires are there, the id has
    at most three characters, and the values are those of [value_wf] that have an encoding,
    without labels, text map keys or constructors of 64 bytes or more, structured map keys or
    contract ids of odd length; a record of [value] always has its id.  For every such node
    the hash is over the hashes the store has for its children, and is appended
    to the hasher of the transaction when the header names the node as a root, in the node
    hash store otherwise; or an error is recorded when the node has no encoding.  The part
    fails only when the device refuses memory or the header gives no good seed for it. *)
Theorem node_hash_is_canonical id n s : part_ok id n →
  let r := proto_deserialize_node (wire_node_part id n) s in
  (fst r = Fail ∧ (refuses_memory ∨ seed_refused (hp_tx s) (atoint id) n)) ∨
  (fst r = Ret tt ∧ ¬ seed_refused (hp_tx s) (atoint id) n ∧
   hp_node_id (snd r) = atoint id ∧ node_hashed id n s (snd r)).
Proof.
  intros Hok. destruct (node_part_hashed id n s Hok) as [[HF Ef]|([] & s' & E & Hs & Hi & _ & Hn)];
    [by left|right]. by rewrite E.
Qed.
End Canonical.

(** ** A transfer *)

Definition transfer_template : Identifier :=
  {| package_id := Some (lit "pkg"); module_name := Some (lit "Splice.Amulet");
     entity_name := Some (lit "Amulet") |}.
Definition transfer_create : Node_CreateCb hcb := Node_CreateCb_zero
  <| c_lf_version := Some (lit "2.1") |> <| c_contract_id := Some (lit "00ab") |>
  <| c_package_name := Some (lit "splice") |> <| c_has_template_id := true |>
  <| c_template_id := transfer_template |>
  <| c_signatories := [Some (lit "alice")] |> <| c_stakeholders := [Some (lit "alice")] |>.
Definition transfer_exercise : Node_ExerciseCb hcb := Node_ExerciseCb_zero
  <| e_lf_version := Some (lit "2.1") |> <| e_contract_id := Some (lit "00ab") |>
  <| e_package_name := Some (lit "splice") |> <| e_has_template_id := true |>
  <| e_template_id := transfer_template |> <| e_choice_id := Some (lit "Transfer") |>
  <| e_children := [Some (lit "1")] |>.
Definition node_1 : node :=
  N_create transfer_create (V_record transfer_template [(lit "owner", V_party (lit "alice"))]).
Definition node_0 : node := N_exercise transfer_exercise V_unit V_unit.

Example transfer_nodes_wire :
  wire_node_part (lit "1") node_1 = wire_node_1 ∧ wire_node_part (lit "0") node_0 = wire_node_0.
Proof. by vm_compute. Qed.
Example sample_node_0 :
  fst (toy_node (wire_node_part (lit "0") node_0) after_node_1) = Ret tt.
Proof. vm_compute. reflexivity. Qed.

Definition sample_spec : bytes := default []
  (spec_node (hs_store (hp_hash after_node_1)) (Some (replicate SHA256_HASH_LEN 5)) node_0).
Lemma node_0_ok : part_ok (lit "0") node_0.
Proof. split; [by vm_compute|]. split; [cbn; lia|by vm_compute]. Qed.
Lemma node_0_header : seed_of (hp_tx after_node_1) (atoint (lit "0")) =
  Some (replicate SHA256_HASH_LEN 5) ∧ is_root (hp_tx after_node_1) (lit "0") = true.
Proof. split; vm_compute; reflexivity. Qed.
Lemma node_0_spec : spec_node (hs_store (hp_hash after_node_1))
  (Some (replicate SHA256_HASH_LEN 5)) node_0 = Some sample_spec.
Proof. vm_compute. reflexivity. Qed.

Lemma node_hash_is_canonical_witness :
  hp_hasher (snd (toy_node (wire_node_part (lit "0") node_0) after_node_1)) =
    hp_hasher after_node_1 ++ take SHA256_HASH_LEN (@hw_finalize toy_sha sample_spec).
Proof.
  destruct (@node_hash_is_canonical toy_sha roomy (lit "0") node_0 after_node_1 node_0_ok)
    as [[Hf _]|(_ & _ & _ & Hn)]; [by rewrite sample_node_0 in Hf|].
  exact (proj1 (node_hashed_root _ _ _ _ _ _ Hn node_0_header node_0_spec)).
Defined.
