(* ===== verification/NodeCode.v ===== *)
(** * The canonical encoding of a node is unambiguous

    The bytes hashed for a node determine the node, its seed and the hashes of its children,
    up to what canonical encoding forgets of names, numbers and contract ids. *)

From S2P Require Import Prelude Constants Utils Pb Wire WireLogic Messages CanonicalHash.
From S2P Require Import TreeCheck ValuesCheck HashingParser HashLogic ValueHash ValueCode NodeHash.

(** ** What the encoding keeps of a node *)

Abbreviation canon_str := (option_map c_str).
Definition canon_create (c : Node_CreateCb hcb) : Node_CreateCb hcb :=
  c <| c_lf_version ::= canon_str |> <| c_contract_id ::= hex_view |>
    <| c_package_name ::= canon_str |> <| c_template_id ::= canon_ident |>
    <| c_signatories ::= map canon_str |> <| c_stakeholders ::= map canon_str |>.
(** The children are encoded by their hashes. *)
Definition canon_exercise (e : Node_ExerciseCb hcb) : Node_ExerciseCb hcb :=
  e <| e_lf_version ::= canon_str |> <| e_contract_id ::= hex_view |>
    <| e_package_name ::= canon_str |> <| e_template_id ::= canon_ident |>
    <| e_signatories ::= map canon_str |> <| e_stakeholders ::= map canon_str |>
    <| e_acting_parties ::= map canon_str |> <| e_interface_id ::= option_map canon_ident |>
    <| e_choice_id ::= canon_str |> <| e_children := [] |>
    <| e_choice_observers ::= map canon_str |>.
Definition canon_fetch (f : Node_Fetch) : Node_Fetch :=
  f <| f_lf_version ::= canon_str |> <| f_contract_id ::= hex_view |>
    <| f_package_name ::= canon_str |> <| f_template_id ::= canon_ident |>
    <| f_signatories ::= map canon_str |> <| f_stakeholders ::= map canon_str |>
    <| f_acting_parties ::= map canon_str |> <| f_interface_id ::= option_map canon_ident |>.
Definition canon_node (n : node) : node :=
  match n with
  | N_create c v => N_create (canon_create c) (canon_value v)
  | N_exercise e v r => N_exercise (canon_exercise e) (canon_value v) (canon_value r)
  | N_fetch f => N_fetch (canon_fetch f)
  | N_rollback _ => N_rollback {| r_children := [] |}
  end.
(** The seed, of a node that has one. *)
Definition canon_seed (seed : option bytes) (n : node) : option bytes :=
  match n with N_create _ _ | N_exercise _ _ _ => seed | N_fetch _ | N_rollback _ => None end.

(** The encoding of the children, from their hashes. *)
Definition spec_kids (hashes : list (option bytes)) : option bytes :=
  if (MAX_NODE_CHILDREN <? length hashes)%nat then None else spec_repeated spec_hash hashes.

(** ** Values, seeds and hashes *)

Definition value_plain (v : value) : Prop := value_wf v = true ∧ measured (wire_value v).
Lemma hashable_plain v : hashable v = true → measured (wire_value v) → value_plain v.
Proof. by intros [Hwf _]%andb_true_iff. Qed.
Lemma unamb_value : unambiguous value_plain canon_value spec_value.
Proof.
  intros a b u w x y [Ha Ma] [Hb Mb].
  apply (unamb_value_upto (length (wire_value a) + length (wire_value b))); split_and!; done || lia.
Qed.
Definition is_hash (o : option bytes) : Prop := ∀ h, o = Some h → length h = SHA256_HASH_LEN.
Lemma unamb_kids : unambiguous (Forall is_hash) (λ l, l) spec_kids.
Proof.
  assert (Hu : unambiguous (λ l, few l ∧ Forall is_hash l) (map (λ h, h)) (spec_repeated spec_hash)).
  { apply unamb_repeated, (unamb_hash is_hash (λ h, h)). intros a Ha h. apply Ha. }
  intros a b u w x y Ha Hb. unfold spec_kids.
  destruct (Nat.ltb_spec MAX_NODE_CHILDREN (length a)) as [|La]; [done|].
  destruct (Nat.ltb_spec MAX_NODE_CHILDREN (length b)) as [|Lb]; [done|]. intros Ea Eb E.
  unfold MAX_NODE_CHILDREN in La, Lb.
  destruct (Hu a b u w x y) as [E1 E2]; try done; try (split; [unfold few; lia|done]).
  by rewrite !map_id in E1.
Qed.
Lemma unamb_seed {A} (P : A → Prop) (g : A → option bytes) : (∀ a, P a → is_hash (g a)) →
  unambiguous P g (λ a, spec_optional (λ s, spec_hash (Some s)) (g a)).
Proof.
  intros HP. eapply unamb_view.
  - refine (unamb_at P (λ o, ∀ h, o = Some h → length h = SHA256_HASH_LEN) g _ _ (unamb_optional _ _ _
      (unamb_hash (λ h, length h = SHA256_HASH_LEN) Some _)) _).
    + intros h Hh k [= <-]. exact Hh.
    + exact HP.
  - intros a b _ _ E. cbn beta in E. destruct (g a), (g b); cbn in E; congruence.
  - done.
Qed.

(** ** Each kind of node *)

Lemma unamb_flag {A} (P : A → Prop) (g : A → bool) :
  unambiguous P g (λ a, Some [if g a then 1 else 0]).
Proof.
  intros a b u v x y _ _ [= <-] [= <-] E. cbn in E. injection E as E1 E2.
  split; [|done]. by destruct (g a), (g b).
Qed.
#[local] Ltac split_bools := repeat match goal with H : _ && _ = true |- _ =>
  apply andb_true_iff in H as [? ?] end.
Lemma create_wf_fixed c v : create_wf c v = true → c_has_template_id c = true ∧ c_argument c = None.
Proof.
  unfold create_wf, create_is_complete, require_identifier. intros Hwf. split_bools.
  split; [by destruct (c_has_template_id c)|by destruct (c_argument c)].
Qed.
Lemma exercise_wf_fixed e v r : exercise_wf e v r = true → e_has_template_id e = true ∧
  e_chosen_value e = None ∧ e_exercise_result e = None.
Proof.
  unfold exercise_wf, exercise_is_complete, require_identifier. intros Hwf. split_bools.
  split_and!; [by destruct (e_has_template_id e)|by destruct (e_chosen_value e)|by destruct (e_exercise_result e)].
Qed.
Lemma fetch_wf_fixed f : fetch_wf f = true → f_has_template_id f = true.
Proof.
  unfold fetch_wf, fetch_is_complete, require_identifier. intros Hwf. split_bools.
  by destruct (f_has_template_id f).
Qed.

Section Kinds.

Definition create_in : Type := option bytes * Node_CreateCb hcb * value.
Definition create_plain_in (p : create_in) : Prop := let '(seed, c, v) := p in
  create_wf c v = true ∧ measured (wire_create_node c v) ∧ is_hash seed.
Lemma unamb_create : unambiguous create_plain_in
  (λ '(seed, c, v), (seed, canon_create c, canon_value v)) (λ '(seed, c, v), spec_create seed c v).
Proof.
  set (se := λ p : create_in, fst (fst p)). set (cr := λ p : create_in, snd (fst p)).
  set (va := λ p : create_in, snd p).
  assert (HP : ∀ p, create_plain_in p → create_short (cr p) ∧ value_plain (va p) ∧ is_hash (se p)).
  { intros [[seed c] v] (Hwf & Hm & Hs). split; [by eapply create_is_short|split; [|done]].
    destruct (create_value c v Hwf Hm). by apply hashable_plain. }
  assert (HS : ∀ p, create_plain_in p → create_short (cr p)) by (intros p Hp; by apply HP).
  eapply unamb_view with (f := λ p, Some [1] ⊕ spec_string (c_lf_version (cr p)) ⊕ Some [0] ⊕
    spec_optional (λ s, spec_hash (Some s)) (se p) ⊕ spec_hex_string (c_contract_id (cr p)) ⊕
    spec_string (c_package_name (cr p)) ⊕ spec_identifier (c_template_id (cr p)) ⊕
    spec_value (va p) ⊕ spec_repeated spec_string (c_signatories (cr p)) ⊕
    spec_repeated spec_string (c_stakeholders (cr p))).
  - apply unamb_seq; [|apply unamb_strings; intros a Ha; by destruct (HS a Ha)].
    apply unamb_seq; [|apply unamb_strings; intros a Ha; by destruct (HS a Ha)].
    apply unamb_seq; [|refine (unamb_at _ _ va _ _ unamb_value _); intros a Ha; by apply HP].
    apply unamb_seq; [|apply unamb_ident; intros a Ha; by destruct (HS a Ha)].
    apply unamb_seq; [|apply unamb_string; intros a Ha; by destruct (HS a Ha)].
    apply unamb_seq; [|apply unamb_hex; intros a Ha; by destruct (HS a Ha)].
    apply unamb_seq; [|apply unamb_seed; intros a Ha; by apply HP].
    apply unamb_const_r, unamb_const_l, unamb_string. intros a Ha. by destruct (HS a Ha).
  - intros [[s c] v] [[s' c'] v'] (Hwf & _) (Hwf' & _). unfold se, cr, va. cbn. intros E.
    destruct (create_wf_fixed c v Hwf), (create_wf_fixed c' v' Hwf').
    unfold canon_create, hex_view. destruct c, c'; cbn in *; congruence.
  - intros [[s c] v]. unfold spec_create, spec_create_start, spec_create_end. by rewrite !cat2_assoc.
Qed.

Definition exercise_in : Type :=
  option bytes * Node_ExerciseCb hcb * value * value * list (option bytes).
Definition exercise_plain_in (p : exercise_in) : Prop := let '(seed, e, v, r, hashes) := p in
  exercise_wf e v r = true ∧ measured (wire_exercise_node e v r) ∧ is_hash seed ∧
  Forall is_hash hashes.
Lemma unamb_exercise_node : unambiguous exercise_plain_in
  (λ '(seed, e, v, r, hashes), (seed, canon_exercise e, canon_value v, canon_value r, hashes))
  (λ '(seed, e, v, r, hashes), spec_exercise seed e v r (spec_kids hashes)).
Proof.
  set (se := λ p : exercise_in, fst (fst (fst (fst p)))).
  set (ex := λ p : exercise_in, snd (fst (fst (fst p)))).
  set (cv := λ p : exercise_in, snd (fst (fst p))). set (rv := λ p : exercise_in, snd (fst p)).
  set (ha := λ p : exercise_in, snd p).
  assert (HP : ∀ p, exercise_plain_in p → exercise_short (ex p) ∧ value_plain (cv p) ∧
    value_plain (rv p) ∧ is_hash (se p) ∧ Forall is_hash (ha p)).
  { intros [[[[seed e] v] r] hs] (Hwf & Hm & Hs & Hh). destruct (exercise_values e v r Hwf Hm) as (? & ? & ? & ?).
    split; [by eapply exercise_is_short|]. split; [by apply hashable_plain|].
    split; [by apply hashable_plain|done]. }
  assert (HS : ∀ p, exercise_plain_in p → exercise_short (ex p)) by (intros p Hp; by apply HP).
  eapply unamb_view with (f := λ p, Some [1] ⊕ spec_string (e_lf_version (ex p)) ⊕ Some [1] ⊕
    spec_hash (se p) ⊕ spec_hex_string (e_contract_id (ex p)) ⊕
    spec_string (e_package_name (ex p)) ⊕ spec_identifier (e_template_id (ex p)) ⊕
    spec_repeated spec_string (e_signatories (ex p)) ⊕
    spec_repeated spec_string (e_stakeholders (ex p)) ⊕
    spec_repeated spec_string (e_acting_parties (ex p)) ⊕
    spec_optional spec_identifier (e_interface_id (ex p)) ⊕ spec_string (e_choice_id (ex p)) ⊕
    spec_value (cv p) ⊕ Some [if e_consuming (ex p) then 1 else 0] ⊕ Some [1] ⊕
    spec_value (rv p) ⊕ spec_repeated spec_string (e_choice_observers (ex p)) ⊕
    spec_kids (ha p)).
  - apply unamb_seq; [|refine (unamb_at _ _ ha _ _ unamb_kids _); intros a Ha; by apply HP].
    apply unamb_seq; [|apply unamb_strings; intros a Ha; by destruct (HS a Ha)].
    apply unamb_seq; [|refine (unamb_at _ _ rv _ _ unamb_value _); intros a Ha; by apply HP].
    apply unamb_const_r.
    apply unamb_seq; [|apply (unamb_flag _ (λ p, e_consuming (ex p)))].
    apply unamb_seq; [|refine (unamb_at _ _ cv _ _ unamb_value _); intros a Ha; by apply HP].
    apply unamb_seq; [|apply unamb_string; intros a Ha; by destruct (HS a Ha)].
    apply unamb_seq; [|apply unamb_opt_ident; intros a Ha; by destruct (HS a Ha)].
    apply unamb_seq; [|apply unamb_strings; intros a Ha; by destruct (HS a Ha)].
    apply unamb_seq; [|apply unamb_strings; intros a Ha; by destruct (HS a Ha)].
    apply unamb_seq; [|apply unamb_strings; intros a Ha; by destruct (HS a Ha)].
    apply unamb_seq; [|apply unamb_ident; intros a Ha; by destruct (HS a Ha)].
    apply unamb_seq; [|apply unamb_string; intros a Ha; by destruct (HS a Ha)].
    apply unamb_seq; [|apply unamb_hex; intros a Ha; by destruct (HS a Ha)].
    apply unamb_seq; [|apply unamb_hash; intros a Ha; by apply HP].
    apply unamb_const_r, unamb_const_l, unamb_string. intros a Ha. by destruct (HS a Ha).
  - intros [[[[s e] v] r] hs] [[[[s' e'] v'] r'] hs'] (Hwf & _) (Hwf' & _).
    unfold se, ex, cv, rv, ha. cbn. intros E.
    destruct (exercise_wf_fixed e v r Hwf) as (? & ? & ?).
    destruct (exercise_wf_fixed e' v' r' Hwf') as (? & ? & ?).
    unfold canon_exercise, hex_view. destruct e, e'; cbn in *. subst.
    rewrite !pair_equal_spec in *. destruct_and!.
    split_and!; [assumption|f_equal; assumption|assumption..].
  - intros [[[[s e] v] r] hs]. unfold spec_exercise, spec_exercise_start. by rewrite !cat2_assoc.
Qed.

Lemma unamb_fetch_node : unambiguous (λ f, fetch_wf f = true ∧ measured (wire_fetch_node f))
  canon_fetch spec_fetch.
Proof.
  eapply unamb_view; [| |done].
  - eapply unamb_sub; [apply unamb_fetch|]. intros f [Hwf Hm]. by apply fetch_is_short.
  - intros f f' [Hwf _] [Hwf' _] E. pose proof (fetch_wf_fixed f Hwf).
    pose proof (fetch_wf_fixed f' Hwf').
    unfold fetch_view in E. unfold canon_fetch, hex_view. destruct f, f'; cbn in *. subst.
    rewrite !pair_equal_spec in E. destruct_and!.
    f_equal; try assumption; [by apply canon_ident_view|by apply opt_ident_view].
Qed.
End Kinds.

(** ** All kinds *)

Record node_input := { ni_seed : option bytes; ni_node : node; ni_hashes : list (option bytes) }.
Record input_plain (i : node_input) : Prop := {
  ip_wf : node_wf (ni_node i) = true;
  ip_fits : Z.of_nat (length (wire_node (ni_node i))) ≤ MAX_TRANSACTION_LEN;
  ip_seed : is_hash (ni_seed i);
  ip_hashes : Forall is_hash (ni_hashes i);
  ip_children : length (ni_hashes i) = length (node_children (ni_node i))
}.
Definition spec_input (i : node_input) : option bytes :=
  spec_over (ni_seed i) (ni_node i) (spec_kids (ni_hashes i)).

(** The version and the kind that every node but a rollback starts with. *)
Definition node_version (n : node) : option bytes :=
  match n with
  | N_create c _ => c_lf_version c
  | N_exercise e _ _ => e_lf_version e
  | N_fetch f => f_lf_version f
  | N_rollback _ => None
  end.
Definition node_kind (n : node) : Z :=
  match n with N_create _ _ => 0 | N_exercise _ _ _ => 1 | N_fetch _ => 2 | N_rollback _ => 3 end.
Lemma spec_over_head seed n k w : spec_over seed n k = Some w → node_kind n ≠ 3 →
  ∃ v rest, node_version n = Some v ∧ w = [1] ++ enc_string (c_str v) ++ [node_kind n] ++ rest.
Proof.
  assert (Hhead : ∀ (lf : option bytes) kind o w,
    Some [1] ⊕ (spec_string lf ⊕ (Some [kind] ⊕ o)) = Some w →
    ∃ v rest, lf = Some v ∧ w = [1] ++ enc_string (c_str v) ++ [kind] ++ rest).
  { intros lf kind o w0 (x & y & [= <-] & (x' & y' & Hx & (x'' & y'' & [= <-] & _ & ->)%cat2_some & ->)%cat2_some
      & ->)%cat2_some. destruct lf as [v|]; [|done]. injection Hx as <-. by exists v, y''. }
  destruct n as [c v|e v r|f|r]; cbn [spec_over node_kind node_version]; [..|done]; intros E _.
  - unfold spec_create, spec_create_start in E. rewrite !cat2_assoc in E. exact (Hhead _ _ _ _ E).
  - unfold spec_exercise, spec_exercise_start in E. rewrite !cat2_assoc in E. exact (Hhead _ _ _ _ E).
  - unfold spec_fetch in E. rewrite !cat2_assoc in E. exact (Hhead _ _ _ _ E).
Qed.
(** No version is long enough to look like a rollback. *)
Lemma version_fits n v : Z.of_nat (length (wire_node n)) ≤ MAX_TRANSACTION_LEN →
  node_version n = Some v → Z.of_nat (length (c_str v)) < 2 ^ 24.
Proof.
  unfold MAX_TRANSACTION_LEN. intros Hn Hv. pose proof (c_str_length v).
  assert (Hw : (length v ≤ length (wire_node n))%nat); [|lia].
  pose proof (wire_bytes_length 1 v) as H1.
  assert (Hin : ∀ tag b rest, (length v + 2 ≤ length b)%nat →
    (length v ≤ length (wire_bytes tag (b ++ rest)))%nat).
  { intros tag b rest Hb. pose proof (wire_bytes_length tag (b ++ rest)). rewrite length_app in *. lia. }
  destruct n as [c w|e w r|f|r]; cbn [node_version] in Hv; [..|done]; unfold wire_node,
    wire_create_node, wire_exercise_node, wire_fetch_node; rewrite Hv; by apply Hin.
Qed.
Lemma kinds_agree i j u : input_plain i → input_plain j → spec_input i = Some u →
  spec_input j = Some u → node_kind (ni_node i) = node_kind (ni_node j).
Proof.
  intros [_ Fi _ _ _] [_ Fj _ _ _] Ei Ej. unfold spec_input in *.
  assert (Hroll : ∀ n s k, node_kind n = 3 → spec_over s n k = Some u → ∃ z, u = 1 :: 3 :: z).
  { intros [| | |r] s k; try done. cbn [spec_over].
    intros _ (a & b & [= <-] & _ & ->)%cat2_some. by eexists. }
  assert (Hnot : ∀ n s k z, Z.of_nat (length (wire_node n)) ≤ MAX_TRANSACTION_LEN →
    spec_over s n k = Some u → node_kind n ≠ 3 → u = 1 :: 3 :: z → False).
  { intros n s k z Hf E Hk Ez. destruct (spec_over_head _ _ _ _ E Hk) as (v & rest & Hv & ->).
    pose proof (version_fits n v Hf Hv) as Hl. injection Ez as Ez _. revert Ez.
    unfold enc_string, enc_int32, be32. rewrite u32_id by (unfold is_u32; lia).
    rewrite Z.shiftr_div_pow2 by lia. rewrite Z.div_small by lia. done. }
  destruct (decide (node_kind (ni_node i) = 3)) as [Ki|Ki], (decide (node_kind (ni_node j) = 3)) as [Kj|Kj].
  - congruence.
  - destruct (Hroll _ _ _ Ki Ei) as [z Hz]. by destruct (Hnot _ _ _ z Fj Ej Kj).
  - destruct (Hroll _ _ _ Kj Ej) as [z Hz]. by destruct (Hnot _ _ _ z Fi Ei Ki).
  - destruct (spec_over_head _ _ _ _ Ei Ki) as (v & z & Hv & Eu).
    destruct (spec_over_head _ _ _ _ Ej Kj) as (v' & z' & Hv' & Eu').
    rewrite Eu in Eu'. apply app_inv_head in Eu'.
    pose proof (version_fits _ v Fi Hv). pose proof (version_fits _ v' Fj Hv').
    assert (Hs : ∀ s, Z.of_nat (length (c_str s)) < 2 ^ 24 → short_opt (Some s)).
    { intros s Hl ? [= <-]. unfold short, strlen. lia. }
    destruct (unamb_text v v' _ _ _ _ (Hs v ltac:(done)) (Hs v' ltac:(done)) eq_refl eq_refl Eu') as [_ E].
    by injection E.
Qed.
Lemma inputs_agree i j u : input_plain i → input_plain j → spec_input i = Some u →
  spec_input j = Some u → canon_node (ni_node i) = canon_node (ni_node j) ∧
  canon_seed (ni_seed i) (ni_node i) = canon_seed (ni_seed j) (ni_node j) ∧
  ni_hashes i = ni_hashes j.
Proof.
  intros Hi Hj Ei Ej. pose proof (kinds_agree i j u Hi Hj Ei Ej) as Hk.
  assert (Hm : ∀ n, Z.of_nat (length (wire_node n)) ≤ MAX_TRANSACTION_LEN → measured (wire_node n)).
  { unfold measured, MAX_TRANSACTION_LEN. intros n. lia. }
  destruct Hi as [Wi Fi Si Hi Ci], Hj as [Wj Fj Sj Hj Cj].
  apply Hm, measured_node in Fi, Fj. unfold spec_input in *.
  destruct i as [s n hs], j as [s' n' hs']. cbn [ni_seed ni_node ni_hashes] in *.
  destruct n as [c v|e v r|f|r], n' as [c' v'|e' v' r'|f'|r']; try done; cbn [spec_over] in Ei, Ej.
  - destruct (unamb_create (s, c, v) (s', c', v') u u [] []) as [E _]; try done.
    rewrite !pair_equal_spec in E. destruct E as [[Es Ec] Ev]. cbn. rewrite Es, Ec, Ev.
    apply nil_length_inv in Ci, Cj. by subst.
  - destruct (unamb_exercise_node (s, e, v, r, hs) (s', e', v', r', hs') u u [] []) as [E _]; try done.
    rewrite !pair_equal_spec in E. destruct E as [[[[Es Ee] Ev] Er] Eh].
    cbn. by rewrite Es, Ee, Ev, Er, Eh.
  - destruct (unamb_fetch_node f f' u u [] []) as [E _]; try done.
    cbn. rewrite E. apply nil_length_inv in Ci, Cj. by subst.
  - by destruct (unamb_const_l _ _ [1; 3] _ unamb_kids hs hs' u u [] []) as [E _].
Qed.
(** What has an encoding has one of its children. *)
Lemma kids_some hashes w : spec_kids hashes = Some w → Forall is_Some hashes.
Proof.
  unfold spec_kids. destruct (_ <? _)%nat; [done|].
  intros (y & (ws & _ & Hf)%each_some & _)%repeated_some.
  induction Hf as [|[h|] v hs vs Hh _ IH]; by constructor.
Qed.
Lemma input_kids_some i w : input_plain i → spec_input i = Some w → Forall is_Some (ni_hashes i).
Proof.
  intros [_ _ _ _ Hc] E. unfold spec_input in E. destruct i as [s [c v|e v r|f|r] hs]; cbn in *.
  - apply nil_length_inv in Hc. by subst.
  - unfold spec_exercise in E.
    apply cat2_some in E as (? & ? & _ & (? & ? & _ & Hk & _)%cat2_some & _).
    by eapply kids_some.
  - apply nil_length_inv in Hc. by subst.
  - destruct (spec_kids hs) as [k|] eqn:Ek; [|done]. by eapply kids_some.
Qed.
