(* ===== verification/ReadLogic.v ===== *)
(** * Reading back what was written

    A parser that only reads a message changes nothing but its clock and the heap: [idle] is
    what it may do to the state.  Here are the rules that lead such a parser over a written
    message, and over a value whose callbacks it does not follow.  A field that is followed
    is left to the rules of [WireLogic]. *)

From S2P Require Import Prelude Constants Utils Pb Wire WireLogic Messages CanonicalHash.
From S2P Require Import TreeCheck ValuesCheck HashingParser HashLogic ValueHash NodeHash.

Section Reads.
Context {S : Type} `{!Realloc S} (F : Prop) (idle : S → S → Prop) `{!PreOrder idle}.
Hypothesis alloc : ∀ n s, step_to F s (pb_realloc n : M S unit) (λ _ s', idle s s').

(** ** Steps with a known result *)

Definition gives_at {A} (s : S) (m : M S A) (a : A) : Prop :=
  step_to F s m (λ a' s', a' = a ∧ idle s s').
Definition gives {A} (m : M S A) (a : A) : Prop := ∀ s, gives_at s m a.

Lemma idle_refl s : idle s s.
Proof. reflexivity. Qed.
Lemma idle_trans s1 s2 s3 : idle s1 s2 → idle s2 s3 → idle s1 s3.
Proof. apply transitivity. Qed.
#[local] Hint Resolve idle_refl : core.

Lemma gives_at_bind {A B} s (m : M S A) (k : A → M S B) a b : gives_at s m a →
  (∀ s', idle s s' → gives_at s' (k a) b) → gives_at s (bind m k) b.
Proof.
  intros Hm Hk. eapply step_bind; [exact Hm|]. intros ? s' [-> Hi].
  eapply step_weaken; [by apply Hk|]. intros b' s'' [-> Hi']. split; [done|by eapply idle_trans].
Qed.
Lemma gives_bind {A B} (m : M S A) (k : A → M S B) a b : gives m a → gives (k a) b → gives (bind m k) b.
Proof. intros Hm Hk s. eapply gives_at_bind; [apply Hm|]. intros s' _. apply Hk. Qed.
Lemma gives_ret {A} (a : A) : gives (ret a) a.
Proof. intros s. by apply step_ret. Qed.
Lemma gives_guard {B} b (k : unit → M S B) v : b = true → gives (k tt) v → gives (bind (guard b) k) v.
Proof. by intros ->. Qed.
Lemma gives_option {A B} (o : option A) a (k : A → M S B) v : o = Some a → gives (k a) v →
  gives (bind (of_option o) k) v.
Proof. by intros ->. Qed.
Lemma gives_realloc {B} n (k : unit → M S B) v : gives (k tt) v → gives (bind (pb_realloc n) k) v.
Proof.
  intros Hk. apply (gives_bind _ _ tt); [|done]. intros s.
  eapply step_weaken; [apply alloc|]. by intros [] s'.
Qed.

(** ** Fields

    From any state that idling leads to, the rest of a message. *)

Definition reads_to {R} (s : S) (handler : Z → option (field_handler S R)) (b : bytes) (r : R)
    (Q : R → S → Prop) : Prop := ∀ s', idle s s' → fields_to F s' handler b r Q.
Definition parses_as {R} (handler : Z → option (field_handler S R)) (b : bytes) (r v : R) : Prop :=
  ∀ s, reads_to s handler b r (λ r' s', r' = v ∧ idle s s').

Lemma reads_from {R} s (handler : Z → option (field_handler S R)) b r Q :
  reads_to s handler b r Q → fields_to F s handler b r Q.
Proof. intros Hr. by apply Hr. Qed.
Lemma reads_inner {R} s (handler : Z → option (field_handler S R)) b r Q :
  reads_to s handler b r Q → step_to F s (pb_decode_inner handler b r) Q.
Proof. intros Hr. by apply Hr. Qed.
Lemma parses_inner {R} (handler : Z → option (field_handler S R)) b r v :
  parses_as handler b r v → gives (pb_decode_inner handler b r) v.
Proof. intros Hr s. by apply reads_inner. Qed.
Lemma reads_weaken {R} s (handler : Z → option (field_handler S R)) b r (Q Q' : R → S → Prop) :
  reads_to s handler b r Q → (∀ r' s', Q r' s' → Q' r' s') → reads_to s handler b r Q'.
Proof. intros Hr HQ s' Hi fuel Hf. eapply step_weaken; [by apply Hr|done]. Qed.

Lemma reads_nil {R} s (handler : Z → option (field_handler S R)) r (Q : R → S → Prop) :
  (∀ s', idle s s' → Q r s') → reads_to s handler [] r Q.
Proof. intros HQ s' Hi. by apply fields_to_nil, HQ. Qed.
Lemma reads_end {R} s (handler : Z → option (field_handler S R)) r v :
  r = v → reads_to s handler [] r (λ r' s', r' = v ∧ idle s s').
Proof. intros ->. by apply reads_nil. Qed.
Lemma reads_key {R} s (handler : Z → option (field_handler S R)) tag wt h body rest r r' Q :
  0 < tag < 2 ^ 29 → 0 ≤ wt < 8 → handler tag = Some h →
  (∀ s', idle s s' → gives_at s' (h wt (body ++ rest) r) (rest, r')) →
  reads_to s handler rest r' Q → reads_to s handler (wire_key tag wt ++ body ++ rest) r Q.
Proof.
  intros Ht Hw Eh Hh Hrest s1 Hi.
  eapply (fields_to_key F s1 handler tag wt h body rest r (λ r1 s2, r1 = r' ∧ idle s s2));
    [done|done|done| |].
  - eapply step_weaken; [by apply Hh|]. intros [s' r1] s2 [[= -> ->] Hi'].
    split; [done|]. split; [done|by eapply idle_trans].
  - intros ? s2 [-> Hi']. by apply Hrest.
Qed.
Lemma reads_bytes {R} s (handler : Z → option (field_handler S R)) tag h b rest r r' Q :
  0 < tag < 2 ^ 29 → handler tag = Some h →
  (∀ s', idle s s' →
     gives_at s' (h PB_WT_STRING (enc_varint (Z.of_nat (length b)) ++ b ++ rest) r) (rest, r')) →
  reads_to s handler rest r' Q → reads_to s handler (wire_bytes tag b ++ rest) r Q.
Proof.
  intros Ht Eh Hh Hrest. unfold wire_bytes. rewrite <- !app_assoc, (app_assoc (enc_varint _) b).
  setoid_rewrite (app_assoc (enc_varint _) b) in Hh. by eapply reads_key.
Qed.
Lemma reads_last {R} s (handler : Z → option (field_handler S R)) tag h b r v :
  0 < tag < 2 ^ 29 → handler tag = Some h →
  (∀ s', idle s s' →
     gives_at s' (h PB_WT_STRING (enc_varint (Z.of_nat (length b)) ++ b ++ []) r) ([], v)) →
  reads_to s handler (wire_bytes tag b) r (λ r' s', r' = v ∧ idle s s').
Proof.
  intros Ht Eh Hh. rewrite <- (app_nil_r (wire_bytes tag b)).
  eapply reads_bytes; [done|exact Eh|exact Hh|]. by apply reads_end.
Qed.
(** A field that is followed. *)
Lemma reads_step {R} s (handler : Z → option (field_handler S R)) tag h b rest r P Q :
  0 < tag < 2 ^ 29 → handler tag = Some h →
  (∀ s', idle s s' →
     step_to F s' (h PB_WT_STRING (enc_varint (Z.of_nat (length b)) ++ b ++ rest) r)
       (λ p s'', fst p = rest ∧ P (snd p) s'')) →
  (∀ r' s', P r' s' → fields_to F s' handler rest r' Q) →
  reads_to s handler (wire_bytes tag b ++ rest) r Q.
Proof. intros Ht Eh Hh Hrest s' Hi. eapply fields_to_bytes; [done|exact Eh|by apply Hh|done]. Qed.

(** A field the message does not have. *)
Lemma reads_other {R} s (handler : Z → option (field_handler S R)) tag b rest r Q :
  0 < tag < 2 ^ 29 → handler tag = None → measured b →
  reads_to s handler rest r Q → reads_to s handler (wire_bytes tag b ++ rest) r Q.
Proof.
  intros Ht Eh Hb Hrest s' Hi. unfold wire_bytes, measured in *.
  rewrite <- !app_assoc, (app_assoc (enc_varint _) b).
  apply fields_to_unknown; [done|done|done| |by apply Hrest].
  rewrite <- app_assoc. apply skip_bytes_field. lia.
Qed.
Lemma reads_other_opt {R} s (handler : Z → option (field_handler S R)) tag o rest r Q :
  0 < tag < 2 ^ 29 → handler tag = None → measured (wire_opt tag o) →
  reads_to s handler rest r Q → reads_to s handler (wire_opt tag o ++ rest) r Q.
Proof. intros Ht Eh Hm. destruct o as [b|]; [|done]. apply measured_bytes in Hm. by apply reads_other. Qed.
Lemma reads_other_strings {R} s (handler : Z → option (field_handler S R)) tag l rest r Q :
  0 < tag < 2 ^ 29 → handler tag = None → measured (wire_strings tag l) →
  reads_to s handler rest r Q → reads_to s handler (wire_strings tag l ++ rest) r Q.
Proof.
  intros Ht Eh Hm Hrest. unfold wire_strings in *. induction l as [|o l IH]; [done|].
  cbn [flat_map] in *. apply measured_app in Hm as [Ho Hm]. rewrite <- app_assoc.
  by apply reads_other_opt, IH.
Qed.
Lemma reads_other_flag {R} s (handler : Z → option (field_handler S R)) tag b rest r Q :
  0 < tag < 2 ^ 29 → handler tag = None →
  reads_to s handler rest r Q → reads_to s handler (wire_flag tag b ++ rest) r Q.
Proof.
  intros Ht Eh Hrest s' Hi. destruct b; [|by apply Hrest]. unfold wire_flag, wire_varint.
  rewrite <- app_assoc. apply fields_to_unknown; [done|done|done| |by apply Hrest].
  by apply skip_varint_field.
Qed.

(** *** Handlers *)

Lemma gives_string {R} (set : bytes → R → R) b rest r : measured b →
  gives (h_string set PB_WT_STRING (enc_varint (Z.of_nat (length b)) ++ b ++ rest) r) (rest, set b r).
Proof.
  intros Hb. unfold measured in Hb. unfold h_string, pb_dec_string.
  apply gives_guard; [done|]. eapply (gives_bind _ _ (b, rest)); [|apply gives_ret].
  eapply gives_option; [apply pb_decode_varint32_enc; unfold is_u32; lia|].
  apply gives_guard; [lia|]. apply gives_guard; [apply Nat.leb_le; rewrite length_app; lia|].
  apply gives_realloc. rewrite Nat2Z.id, pb_read_app. apply gives_ret.
Qed.
Lemma gives_bytes {R} (set : bytes → R → R) b rest r : Z.of_nat (length b) ≤ PB_SIZE_MAX →
  gives (h_bytes set PB_WT_STRING (enc_varint (Z.of_nat (length b)) ++ b ++ rest) r) (rest, set b r).
Proof.
  intros Hb. unfold PB_SIZE_MAX in Hb. unfold h_bytes, pb_dec_bytes.
  apply gives_guard; [done|]. eapply (gives_bind _ _ (b, rest)); [|apply gives_ret].
  eapply gives_option; [apply pb_decode_varint32_enc; unfold is_u32; lia|].
  apply gives_guard; [unfold PB_SIZE_MAX; lia|].
  apply gives_guard; [apply Nat.leb_le; rewrite length_app; lia|].
  apply gives_realloc. rewrite Nat2Z.id, pb_read_app. apply gives_ret.
Qed.
Lemma gives_scalar {R A} wt (dec : istream → option (A * istream)) (set : A → R → R) body rest a r :
  dec (body ++ rest) = Some (a, rest) →
  gives (h_scalar wt dec set wt (body ++ rest) r) (rest, set a r).
Proof.
  intros Hd. unfold h_scalar. apply gives_guard; [apply Z.eqb_refl|].
  eapply gives_option; [exact Hd|apply gives_ret].
Qed.
Lemma gives_at_submsg {R} s (dec : istream → R → M S R) b rest r r' : measured b →
  gives_at s (dec b r) r' →
  gives_at s (h_submsg dec PB_WT_STRING (enc_varint (Z.of_nat (length b)) ++ b ++ rest) r) (rest, r').
Proof.
  intros Hb Hd. unfold measured in Hb. unfold h_submsg. apply step_guard; [done|].
  eapply step_of_option; [apply pb_make_string_substream_enc; lia|].
  eapply gives_at_bind; [exact Hd|]. intros s' _. apply gives_ret.
Qed.
Lemma gives_submsg {R} (dec : istream → R → M S R) b rest r r' : measured b → gives (dec b r) r' →
  gives (h_submsg dec PB_WT_STRING (enc_varint (Z.of_nat (length b)) ++ b ++ rest) r) (rest, r').
Proof. intros Hb Hd s. by apply gives_at_submsg. Qed.
Lemma gives_static {R R'} (handler : Z → option (field_handler S R')) (get : R → R')
    (set : R' → R → R) b r v : parses_as handler b (get r) v →
  gives (dec_static handler get set b r) (set v r).
Proof. intros Hp. eapply gives_bind; [by apply parses_inner|apply gives_ret]. Qed.
(** A callback field that holds no callback. *)
Lemma gives_no_callback {R} (callback : R → option (istream → M S istream)) b rest r : measured b →
  callback r = None →
  gives (h_callback callback PB_WT_STRING (enc_varint (Z.of_nat (length b)) ++ b ++ rest) r) (rest, r).
Proof.
  intros Hb Ec. unfold measured in Hb. unfold h_callback. rewrite Ec, Z.eqb_refl.
  eapply gives_option; [apply pb_make_string_substream_enc; lia|].
  eapply (gives_bind _ _ tt); [|apply gives_ret].
  cbn [callback_loop]. eapply gives_bind; [apply gives_ret|].
  rewrite Nat.ltb_irrefl, andb_false_r. apply gives_ret.
Qed.

Lemma reads_scalar {R A} s (handler : Z → option (field_handler S R)) tag wt dec (set : A → R → R)
    body a r v :
  0 < tag < 2 ^ 29 → 0 ≤ wt < 8 → handler tag = Some (h_scalar wt dec set) →
  dec body = Some (a, []) → set a r = v →
  reads_to s handler (wire_key tag wt ++ body) r (λ r' s', r' = v ∧ idle s s').
Proof.
  intros Ht Hw Eh Hd <-. rewrite <- (app_nil_r body).
  eapply reads_key; [done|done|exact Eh| |by apply reads_end]. intros s' _.
  apply gives_scalar. by rewrite app_nil_r.
Qed.
Lemma reads_string {R} s (handler : Z → option (field_handler S R)) tag (set : bytes → R → R) b r v :
  0 < tag < 2 ^ 29 → handler tag = Some (h_string set) → measured b → set b r = v →
  reads_to s handler (wire_bytes tag b) r (λ r' s', r' = v ∧ idle s s').
Proof.
  intros Ht Eh Hb <-. eapply reads_last; [done|exact Eh|]. intros s' _. by apply gives_string.
Qed.

(** *** Optional and repeated fields *)

Lemma reads_opt {R} s (handler : Z → option (field_handler S R)) tag set o rest r Q :
  0 < tag < 2 ^ 29 → handler tag = Some (h_string set) → measured (wire_opt tag o) →
  reads_to s handler rest (match o with Some b => set b r | None => r end) Q →
  reads_to s handler (wire_opt tag o ++ rest) r Q.
Proof.
  intros Ht Eh Hm Hrest. destruct o as [b|]; [|done]. apply measured_bytes in Hm.
  eapply reads_bytes; [done|exact Eh|intros s' _; by apply gives_string|done].
Qed.
Lemma reads_varint {R A} s (handler : Z → option (field_handler S R)) tag dec (set : A → R → R) n a
    rest r Q :
  0 < tag < 2 ^ 29 → handler tag = Some (h_scalar PB_WT_VARINT dec set) →
  (∀ s, dec (enc_varint n ++ s) = Some (a, s)) → reads_to s handler rest (set a r) Q →
  reads_to s handler (wire_varint tag n ++ rest) r Q.
Proof.
  intros Ht Eh Hd Hrest. unfold wire_varint. rewrite <- app_assoc.
  eapply reads_key; [done|done|exact Eh| |exact Hrest]. intros s' _.
  by apply (gives_scalar PB_WT_VARINT).
Qed.
Lemma reads_strings {R} s (handler : Z → option (field_handler S R)) tag count add
    (app : list (option bytes) → R → R) l rest r Q :
  0 < tag < 2 ^ 29 → handler tag = Some (h_strings count add) →
  (∀ b r, count (add b r) = Datatypes.S (count r)) → (∀ r, app [] r = r) →
  (∀ b l r, app (Some b :: l) r = app l (add b r)) →
  require_strings l = true → measured (wire_strings tag l) →
  Z.of_nat (count r + length l) ≤ PB_SIZE_MAX →
  reads_to s handler rest (app l r) Q → reads_to s handler (wire_strings tag l ++ rest) r Q.
Proof.
  intros Ht Eh Ec E0 E1. revert r. induction l as [|[b|] l IH]; intros r Hl Hm Hc Hrest; try done.
  - by rewrite E0 in Hrest.
  - unfold wire_strings in *. cbn [flat_map wire_opt] in *. cbn [length] in Hc.
    apply measured_app in Hm as [Hb%measured_bytes Hm]. rewrite <- app_assoc.
    eapply (reads_bytes s handler tag _ b _ r (add b r)); [done|exact Eh| |].
    + intros s' _. unfold h_strings. apply gives_guard; [lia|]. apply gives_realloc.
      by apply (gives_string add b).
    + apply IH; [done|done|rewrite Ec; lia|by rewrite <- E1].
Qed.
Lemma reads_skip_one {R} s (handler : Z → option (field_handler S R)) tag callback b rest r Q :
  0 < tag < 2 ^ 29 → handler tag = Some (h_callback callback) → callback r = None → measured b →
  reads_to s handler rest r Q → reads_to s handler (wire_bytes tag b ++ rest) r Q.
Proof.
  intros Ht Eh Ec Hb. eapply reads_bytes; [done|exact Eh|]. intros s' _. by apply gives_no_callback.
Qed.
Lemma reads_skip {R} s (handler : Z → option (field_handler S R)) tag callback bs rest r Q :
  0 < tag < 2 ^ 29 → handler tag = Some (h_callback callback) → callback r = None →
  Forall measured bs →
  reads_to s handler rest r Q → reads_to s handler (flat_map (wire_bytes tag) bs ++ rest) r Q.
Proof.
  intros Ht Eh Ec Hbs Hrest. induction Hbs as [|b bs Hb _ IH]; [done|].
  cbn [flat_map]. rewrite <- app_assoc. by eapply reads_skip_one.
Qed.

(** *** Identifiers and enumerations *)

Lemma ident_parses i : measured (wire_ident i) →
  parses_as Identifier_fields (wire_ident i) Identifier_zero i.
Proof.
  unfold wire_ident. intros [Hp [Hm He]%measured_app]%measured_app s.
  rewrite <- (app_nil_r (wire_opt 3 _)).
  do 3 (eapply reads_opt; [done|reflexivity|done|]).
  apply reads_end. by destruct i as [[p|] [m|] [e|]].
Qed.
Lemma reads_ident {R} s (handler : Z → option (field_handler S R)) tag get set set_has i rest r Q :
  0 < tag < 2 ^ 29 → handler tag = Some (h_identifier get set set_has) →
  get (set_has r) = Identifier_zero → measured (wire_bytes tag (wire_ident i)) →
  reads_to s handler rest (set i (set_has r)) Q →
  reads_to s handler (wire_bytes tag (wire_ident i) ++ rest) r Q.
Proof.
  intros Ht Eh Eg Hm%measured_bytes. eapply reads_bytes; [done|exact Eh|]. intros s' _.
  unfold h_identifier. apply gives_submsg; [done|]. apply gives_static. rewrite Eg.
  by apply ident_parses.
Qed.
Lemma reads_ident_ptr {R} s (handler : Z → option (field_handler S R)) tag set i rest r Q :
  0 < tag < 2 ^ 29 → handler tag = Some (h_identifier_ptr set) →
  measured (wire_bytes tag (wire_ident i)) → reads_to s handler rest (set i r) Q →
  reads_to s handler (wire_bytes tag (wire_ident i) ++ rest) r Q.
Proof.
  intros Ht Eh Hm%measured_bytes. eapply reads_bytes; [done|exact Eh|]. intros s' _.
  unfold h_identifier_ptr, h_pointer_msg. apply gives_realloc, gives_submsg; [done|].
  eapply gives_bind; [by apply parses_inner, ident_parses|apply gives_ret].
Qed.
Lemma reads_ident_opt {R} s (handler : Z → option (field_handler S R)) tag set o rest r Q :
  0 < tag < 2 ^ 29 → handler tag = Some (h_identifier_ptr set) →
  measured (wire_opt tag (option_map wire_ident o)) →
  reads_to s handler rest (match o with Some i => set i r | None => r end) Q →
  reads_to s handler (wire_opt tag (option_map wire_ident o) ++ rest) r Q.
Proof. intros Ht Eh Hm Hrest. destruct o as [i|]; [|done]. by eapply reads_ident_ptr. Qed.
Lemma reads_flag {R} s (handler : Z → option (field_handler S R)) tag set (b : bool) rest r Q :
  0 < tag < 2 ^ 29 → handler tag = Some (h_scalar PB_WT_VARINT pb_decode_bool set) →
  reads_to s handler rest (if b then set true r else r) Q →
  reads_to s handler (wire_flag tag b ++ rest) r Q.
Proof.
  intros Ht Eh Hrest. destruct b; [|done]. eapply reads_varint; [done|exact Eh| |exact Hrest].
  intros s'. unfold pb_decode_bool. by rewrite pb_decode_varint32_enc.
Qed.
Lemma enum_parses id constructor : measured (wire_enum id constructor) →
  parses_as cbEnum_fields (wire_enum id constructor) cbEnum_zero (the_enum id constructor).
Proof.
  unfold wire_enum. intros [Hi Hc%measured_bytes]%measured_app s.
  destruct id as [i|]; cbn [option_map wire_opt app] in *;
    [eapply reads_ident; [done|reflexivity|done|done|]|];
    by eapply reads_string; [done|reflexivity|..].
Qed.

(** ** Values that are not followed *)

Section Values.
Context {cb : Type}.
Variable run : cb → istream → M S istream.
Variable run_sum : cb → Z → istream → cbValue cb → M S (istream * cbValue cb).

(** The field of the oneof a value sets, and what the struct then holds. *)
Definition value_tag (v : value) : Z :=
  match v with
  | V_unit => VALUE_UNIT_TAG
  | V_bool _ => VALUE_BOOL_TAG
  | V_int64 _ => VALUE_INT64_TAG
  | V_date _ => VALUE_DATE_TAG
  | V_timestamp _ => VALUE_TIMESTAMP_TAG
  | V_numeric _ => VALUE_NUMERIC_TAG
  | V_party _ => VALUE_PARTY_TAG
  | V_text _ => VALUE_TEXT_TAG
  | V_contract_id _ => VALUE_CONTRACT_ID_TAG
  | V_optional _ => VALUE_OPTIONAL_TAG
  | V_list _ => VALUE_LIST_TAG
  | V_text_map _ => VALUE_TEXT_MAP_TAG
  | V_gen_map _ => VALUE_GEN_MAP_TAG
  | V_record _ _ => VALUE_RECORD_TAG
  | V_variant _ _ _ => VALUE_VARIANT_TAG
  | V_enum _ _ => VALUE_ENUM_TAG
  end.
Definition value_held (v : value) : value_union cb :=
  match v with
  | V_unit => U_unit
  | V_bool b => U_bool b
  | V_int64 z | V_date z | V_timestamp z => U_int z
  | V_numeric s | V_party s | V_text s | V_contract_id s => U_str (Some s)
  | V_optional _ => U_optional None
  | V_list _ => U_list None
  | V_text_map _ => U_text_map None
  | V_gen_map _ => U_gen_map None
  | V_record _ _ => U_record None None
  | V_variant _ _ _ => U_variant None None None
  | V_enum id constructor => U_enum (the_enum id constructor)
  end.
Definition value_as (v : value) (v0 : cbValue cb) : cbValue cb :=
  set_union (value_tag v) (value_held v) v0.

(** A message callback that leaves the field [tag] to the decoder. *)
Definition transparent (s : S) (c : option cb) (tag : Z) : Prop :=
  match c with
  | Some c => ∀ s' b v, idle s s' → gives_at s' (run_sum c tag b v) (b, v)
  | None => True
  end.
Lemma gives_sum_msg {R} s tag zero (fields : Z → option (field_handler S R)) get put b rest v0 m u :
  tag ≠ 0 → which_sum v0 = 0 → transparent s (cb_sum v0) tag → measured b → put (get zero) = zero →
  parses_as fields b (get zero) m → u = put m →
  ∀ s', idle s s' →
  gives_at s' (h_sum_msg run_sum tag zero fields get put PB_WT_STRING
    (enc_varint (Z.of_nat (length b)) ++ b ++ rest) v0) (rest, set_union tag u v0).
Proof.
  intros Htag Hz Hc Hb Hput Hp -> s' Hi. unfold h_sum_msg. rewrite Hz.
  destruct (Z.eqb_spec 0 tag); [congruence|]. apply gives_at_submsg; [done|].
  set (r := set_union tag zero v0).
  assert (Hdec : gives (dec_static fields (λ v, get (v_union v)) (λ r v, v <| v_union := put r |>) b r)
    (set_union tag (put m) v0)).
  { change (set_union tag (put m) v0) with ((λ m v, v <| v_union := put m |>) m r).
    by apply (gives_static fields (λ v, get (v_union v)) (λ m v, v <| v_union := put m |>)). }
  unfold dec_submsg_w_cb. change (cb_sum r) with (cb_sum v0).
  destruct (cb_sum v0) as [c|]; cbn [option_map]; [|apply Hdec].
  eapply gives_at_bind; [by apply Hc|]. intros s1 Hi1.
  destruct b as [|b0 b]; [|apply Hdec].
  destruct (Hp s1 s1 (idle_refl s1) 0%nat (le_n _)) as [[_ [=]]|(a & s2 & [= <- <-] & Em & _)].
  rewrite <- Em. unfold r. rewrite Hput. by apply step_ret.
Qed.
Lemma skip_parses {R} (fields : Z → option (field_handler S R)) tag callback bs r :
  0 < tag < 2 ^ 29 → fields tag = Some (h_callback callback) → callback r = None →
  Forall measured bs → parses_as fields (flat_map (wire_bytes tag) bs) r r.
Proof.
  intros Ht Eh Ec Hbs s. rewrite <- (app_nil_r (flat_map _ _)).
  eapply reads_skip; [done|exact Eh|done|done|]. by apply reads_end.
Qed.
Lemma record_parses id bs : measured (wire_ident id) → Forall measured bs →
  parses_as (record_fields run) (wire_bytes 1 (wire_ident id) ++ flat_map (wire_bytes 2) bs)
    (None, None) (None, None).
Proof.
  intros Hi Hbs s. eapply reads_skip_one; [done|reflexivity|done|done|].
  by eapply skip_parses; [done|reflexivity|..].
Qed.
Lemma variant_parses id constructor b :
  measured (wire_opt 1 (option_map wire_ident id) ++ wire_bytes 2 constructor ++ wire_bytes 3 b) →
  parses_as (variant_fields run)
    (wire_opt 1 (option_map wire_ident id) ++ wire_bytes 2 constructor ++ wire_bytes 3 b)
    (None, None, None) (None, None, None).
Proof.
  intros [Hi [Hc%measured_bytes Hb%measured_bytes]%measured_app]%measured_app s.
  assert (Hrest : reads_to s (variant_fields run) (wire_bytes 2 constructor ++ wire_bytes 3 b)
    (None, None, None) (λ r s', r = (None, None, None) ∧ idle s s')).
  { rewrite <- (app_nil_r (wire_bytes 3 b)).
    eapply reads_skip_one; [done|reflexivity|done|done|].
    eapply reads_skip_one; [done|reflexivity|done|done|]. by apply reads_end. }
  destruct id as [i|]; cbn [option_map wire_opt app] in *; [|done]. apply measured_bytes in Hi.
  by eapply reads_skip_one; [done|reflexivity|..].
Qed.

#[local] Ltac read_scalar := eapply reads_scalar; [done|done|reflexivity| |reflexivity].
#[local] Ltac read_string := eapply reads_string; [done|reflexivity|by eapply measured_bytes|reflexivity].
#[local] Ltac read_message m0 := eapply reads_last; [done|reflexivity|];
  eapply (gives_sum_msg _ _ _ _ _ _ _ _ _ m0);
  [done|done|done|by eapply measured_bytes|done| |reflexivity].
Lemma value_reads s v v0 : which_sum v0 = 0 → transparent s (cb_sum v0) (value_tag v) →
  value_wf v = true → measured (wire_value v) →
  reads_to s (Value_fields run run_sum) (wire_value v) v0 (λ r s', r = value_as v v0 ∧ idle s s').
Proof.
  intros Hz Hc Hwf Hm. pose proof (wire_elements v) as Hel.
  assert (Hels : ∀ tag1 tag2, measured (wire_bytes tag1 (flat_map (wire_bytes tag2) (elements v))) →
    Forall measured (elements v)) by (intros ? ? H%measured_bytes; by eapply measured_flat).
  destruct v as [| | | | | | | | |o|l|l|l|id l|id constructor v|id constructor];
    try rewrite Hel in *; cbn [wire_value value_wf value_tag] in *.
  - read_message tt. intros g. by apply reads_end.
  - read_scalar. unfold pb_decode_bool.
    rewrite <- (app_nil_r (enc_varint _)), pb_decode_varint32_enc by (unfold is_u32; destruct b; lia).
    by destruct b.
  - read_scalar. rewrite <- (app_nil_r (enc_varint _)). apply svarint_enc. by apply in_width_spec in Hwf.
  - read_scalar. rewrite <- (app_nil_r (enc_varint _)). apply int32_enc. by apply in_width_spec in Hwf.
  - read_scalar. rewrite <- (app_nil_r (le_bytes _ _)). apply sfixed64_enc. by apply in_width_spec in Hwf.
  - read_string.
  - read_string.
  - read_string.
  - read_string.
  - read_message (@None cb). by eapply skip_parses; [done|reflexivity|done|eauto].
  - read_message (@None cb). by eapply skip_parses; [done|reflexivity|done|eauto].
  - read_message (@None cb). by eapply skip_parses; [done|reflexivity|done|eauto].
  - read_message (@None cb). by eapply skip_parses; [done|reflexivity|done|eauto].
  - apply measured_bytes in Hm as Hb. apply measured_app in Hb as [Hi%measured_bytes Hl%measured_flat].
    read_message (@None cb, @None cb). by apply record_parses.
  - apply measured_bytes in Hm as Hb. read_message (@None cb, @None cb, @None cb).
    by apply variant_parses.
  - apply measured_bytes in Hm as Hb. read_message (the_enum id constructor). by apply enum_parses.
Qed.

(** ** The fields of a create

    The argument is skipped, or read by the callback [a], after which [P] holds. *)

Definition create_as (a : option cb) (c : Node_CreateCb hcb) : Node_CreateCb cb :=
  Build_Node_CreateCb (c_lf_version c) (c_contract_id c) (c_package_name c) (c_has_template_id c)
    (c_template_id c) a (c_signatories c) (c_stakeholders c).

#[local] Ltac strings_field set := eapply reads_strings with (app := set);
  [done|reflexivity|by intros; cbn; rewrite length_app, Nat.add_1_r
  |intros []; cbn; by rewrite app_nil_r|intros ? ? []; cbn; by rewrite <- app_assoc
  |by apply few_strings_spec|done|by apply few_strings_spec|].
Lemma create_reads s a c v (P : S → Prop) : create_wf c v = true → measured (wire_create_node c v) →
  (∀ s', idle s s' →
     match a with
     | Some f => step_to F s' (run f (wire_value v)) (λ sub s'', sub = [] ∧ P s'')
     | None => P s'
     end) →
  (∀ s1 s2, P s1 → idle s1 s2 → P s2) →
  reads_to s (Create_fields run) (wire_create_node c v) (Node_CreateCb_zero <| c_argument := a |>)
    (λ r s', r = create_as a c ∧ P s').
Proof.
  unfold create_wf, create_is_complete, require_identifier, wire_create_node.
  intros Hwf Hm Ha HP.
  repeat match goal with H : _ && _ = true |- _ => apply andb_true_iff in H as [? ?] end.
  destruct c as [[lf|] [cid|] [pkg|] [] tid [] sigs stks];
    cbn -[few_strings require_strings wire_strings wire_bytes wire_opt wire_ident wire_value] in *;
    try done.
  repeat match goal with H : measured (_ ++ _) |- _ => apply measured_app in H as [? ?] end.
  rewrite <- (app_nil_r (wire_strings 7 _)).
  do 3 (eapply (reads_opt _ _ _ _ (Some _)); [done|reflexivity|done|]).
  eapply reads_ident; [done|reflexivity|done|done|].
  match goal with |- reads_to _ _ _ ?r _ => set (r0 := r) end.
  eapply (reads_step _ _ _ _ _ _ _ (λ r s', r = r0 ∧ P s')); [done|reflexivity| |].
  - intros s' Hi. assert (Hb : measured (wire_value v)) by by eapply measured_bytes.
    specialize (Ha s' Hi). destruct a as [f|].
    + by apply (step_called F s' _ (run f)).
    + eapply step_weaken; [by apply gives_no_callback|].
      intros p s1 [-> Hi']. split; [done|]. split; [done|by eapply HP].
  - intros ? s' [-> Hs']. apply reads_from.
    strings_field (λ k (c : Node_CreateCb cb), c <| c_signatories ::= λ l, l ++ k |>).
    strings_field (λ k (c : Node_CreateCb cb), c <| c_stakeholders ::= λ l, l ++ k |>).
    apply reads_nil. intros s1 Hi. split; [done|by eapply HP].
Qed.

(** ** The other nodes *)

#[local] Ltac split_facts := repeat match goal with
  | H : _ && _ = true |- _ => apply andb_true_iff in H as [? ?]
  | H : measured (_ ++ _) |- _ => apply measured_app in H as [? ?] end.
#[local] Ltac struct_fields := cbn -[few_strings require_strings wire_strings wire_bytes wire_opt
  wire_ident wire_value wire_flag option_map] in *; try done; split_facts.
#[local] Ltac opt_field := eapply (reads_opt _ _ _ _ (Some _)); [done|reflexivity|done|].

(** An exercise whose values are skipped. *)
Definition exercise_as (e : Node_ExerciseCb hcb) : Node_ExerciseCb cb :=
  Build_Node_ExerciseCb (e_lf_version e) (e_contract_id e) (e_package_name e)
    (e_has_template_id e) (e_template_id e) (e_signatories e) (e_stakeholders e)
    (e_acting_parties e) (e_interface_id e) (e_choice_id e) None (e_consuming e) (e_children e)
    None (e_choice_observers e).
Lemma exercise_parses e v w : exercise_wf e v w = true → measured (wire_exercise_node e v w) →
  parses_as (Exercise_fields run) (wire_exercise_node e v w) Node_ExerciseCb_zero (exercise_as e).
Proof.
  unfold exercise_wf, exercise_is_complete, require_identifier, wire_exercise_node.
  intros Hwf Hm s. split_facts.
  destruct e as [[lf|] [cid|] [pkg|] [] tid sigs stks acts iid [cho|] [] cons ch [] obs]; struct_fields.
  rewrite <- (app_nil_r (wire_strings 14 _)). do 3 opt_field.
  eapply reads_ident; [done|reflexivity|done|done|].
  strings_field (λ k (e : Node_ExerciseCb cb), e <| e_signatories ::= λ l, l ++ k |>).
  strings_field (λ k (e : Node_ExerciseCb cb), e <| e_stakeholders ::= λ l, l ++ k |>).
  strings_field (λ k (e : Node_ExerciseCb cb), e <| e_acting_parties ::= λ l, l ++ k |>).
  eapply reads_ident_opt; [done|reflexivity|done|].
  destruct iid as [iid|]; opt_field;
  (eapply reads_skip_one; [done|reflexivity|done|by eapply measured_bytes|]);
  (eapply reads_flag; [done|reflexivity|]); destruct cons;
  (strings_field (λ k (e : Node_ExerciseCb cb), e <| e_children ::= λ l, l ++ k |>);
   (eapply reads_skip_one; [done|reflexivity|done|by eapply measured_bytes|]);
   strings_field (λ k (e : Node_ExerciseCb cb), e <| e_choice_observers ::= λ l, l ++ k |>);
   by apply reads_end).
Qed.
Lemma fetch_parses f : fetch_wf f = true → measured (wire_fetch_node f) →
  parses_as Fetch_fields (wire_fetch_node f) Node_Fetch_zero f.
Proof.
  unfold fetch_wf, fetch_is_complete, require_identifier, wire_fetch_node.
  intros Hwf Hm s. split_facts.
  destruct f as [[lf|] [cid|] [pkg|] [] tid sigs stks acts iid]; struct_fields.
  rewrite <- (app_nil_r (wire_opt 8 _)). do 3 opt_field.
  eapply reads_ident; [done|reflexivity|done|done|].
  strings_field (λ k f, f <| f_signatories ::= λ l, l ++ k |>).
  strings_field (λ k f, f <| f_stakeholders ::= λ l, l ++ k |>).
  strings_field (λ k f, f <| f_acting_parties ::= λ l, l ++ k |>).
  eapply reads_ident_opt; [done|reflexivity|done|]. apply reads_end. by destruct iid.
Qed.
Lemma rollback_parses r : few_strings (r_children r) = true →
  measured (wire_strings 1 (r_children r)) →
  parses_as Rollback_fields (wire_strings 1 (r_children r)) {| r_children := [] |} r.
Proof.
  intros Hwf Hm s. destruct r as [ids]. struct_fields. rewrite <- (app_nil_r (wire_strings 1 _)).
  strings_field (λ k r, r <| r_children ::= λ l, l ++ k |>). by apply reads_end.
Qed.
End Values.
End Reads.
