(* ===== verification/HoldingParser.v ===== *)
(** * Holding parser ([src/transaction/pb_holding_parser.c])

    A second pass over a node, which reads the value it moves: the owner, the amount, the
    admin and the instrument of the contract a create node writes.  The fields are found
    by the path of labels that leads to them, and the path is kept while records are
    descended. *)

From S2P Require Import Prelude Constants Utils DisplayConfig Pb Wire Messages ValuesCheck.

(** ** Templates *)

Record holding_path_config_t := {
  hc_module_name : bytes;
  hc_entity_name : bytes;
  hc_owner_path : bytes;
  hc_amount_path : bytes;
  hc_admin_path : bytes;
  hc_id_path : option bytes
}.

Definition HOLDING (m e owner amount admin : string) (id : option string)
  : holding_path_config_t :=
  {| hc_module_name := lit m; hc_entity_name := lit e; hc_owner_path := lit owner;
     hc_amount_path := lit amount; hc_admin_path := lit admin;
     hc_id_path := option_map lit id |}.

Definition HOLDING_TEMPLATES : list holding_path_config_t :=
  [HOLDING "Splice.Amulet" "Amulet" "owner" "amount.initialAmount" "dso" None;
   HOLDING "Splice.Amulet" "LockedAmulet" "amulet.owner" "amulet.amount.initialAmount"
     "amulet.dso" None;
   HOLDING "Utility.Registry.Holding.V0.Holding" "Holding" "owner" "amount"
     "instrument.source" (Some "instrument.id");
   HOLDING "Splice.AmuletTransferInstruction" "AmuletTransferInstruction"
     "transfer.receiver" "transfer.amount" "transfer.instrumentId.admin"
     (Some "transfer.instrumentId.id");
   HOLDING "Splice.ExternalPartyAmuletRules" "TransferCommand" "receiver" "amount" "dso" None;
   HOLDING "Utility.Registry.App.V0.Model.Transfer" "TransferOffer"
     "transfer.receiver" "transfer.amount" "transfer.instrumentId.admin"
     (Some "transfer.instrumentId.id")].

Definition NON_HOLDING_TEMPLATES : list identifier_config_t :=
  [ID "Splice.Amulet" "AppRewardCoupon"; ID "Splice.Amulet" "ValidatorRewardCoupon";
   ID "Splice.Amulet" "FeaturedAppActivityMarker";
   ID "Utility.Registry.V0.Holding.Transfer" "ExecutedTransfer";
   ID "Splice.Wallet.TransferPreapproval" "TransferPreapprovalProposal";
   ID "Splice.AmuletEventLog" "AmuletEventLog"].

Definition MAX_LABEL_PATH_LEN : nat := 64.
Definition MAX_LABEL_DEPTH : Z := 6.

(** ** State *)

(** The decode functions that callback fields point to. *)
Inductive vcb :=
  | decode_label_cb
  | decode_record_field_cb
  | decode_value_cb
  | decode_argument_cb
  | decode_node_type_cb
  | decode_versioned_node_cb.

Record label_seen_t := { ls_labelled : bool; ls_records_before : Z }.
#[export] Instance eta_label_seen_t : Eta label_seen_t := λ l,
  Build_label_seen_t (ls_labelled l) (ls_records_before l).

(** The static [ctx]; the [label_seen_t] locals of the records being read, innermost
    first, which the label callback reaches through its argument; the values check; the
    clock of the device. *)
Record vp_state := {
  vp_clock : nat;
  vp_store : store_t;
  vp_cfg : option holding_path_config_t;
  vp_path : bytes;
  vp_depth : Z;
  vp_records_opened : Z;
  vp_owner : bytes;
  vp_amount : bytes;
  vp_admin : bytes;
  vp_instrument : bytes;
  vp_has_owner : bool;
  vp_has_amount : bool;
  vp_has_admin : bool;
  vp_has_instrument : bool;
  vp_unreadable : bool;
  vp_seen : list label_seen_t
}.
#[export] Instance eta_vp_state : Eta vp_state := λ s,
  Build_vp_state (vp_clock s) (vp_store s) (vp_cfg s) (vp_path s) (vp_depth s)
    (vp_records_opened s) (vp_owner s) (vp_amount s) (vp_admin s) (vp_instrument s)
    (vp_has_owner s) (vp_has_amount s) (vp_has_admin s) (vp_has_instrument s)
    (vp_unreadable s) (vp_seen s).

Section Parser.
Context `{Sha256} `{Device}.

Definition VM : Type → Type := M vp_state.

#[export] Instance vp_realloc : Realloc vp_state := λ n s,
  let s' := s <| vp_clock ::= S |> in
  if heap_has (vp_clock s) n then (Ret tt, s') else (Fail, s').
Definition stack_has_room : VM unit := λ s,
  let s' := s <| vp_clock ::= S |> in
  if stack_room (vp_clock s) then (Ret tt, s') else (Fail, s').

(** ** Template lookup *)

Definition names_match (id : Identifier) (m e : bytes) : bool :=
  match module_name id, entity_name id with
  | Some m', Some e' => str_eqb m' m && str_eqb e' e
  | _, _ => false
  end.
Definition find_holding (id : Identifier) : option holding_path_config_t :=
  find (λ cfg, names_match id (hc_module_name cfg) (hc_entity_name cfg)) HOLDING_TEMPLATES.
Definition is_non_holding (id : Identifier) : bool :=
  existsb (λ cfg, names_match id (idc_module cfg) (idc_entity cfg)) NON_HOLDING_TEMPLATES.

(** ** Label path tracking *)

Definition path_push (label : bytes) (s : vp_state) : vp_state :=
  let len := length (vp_path s) in
  let add := length (c_str label) in
  if (MAX_LABEL_PATH_LEN <=? len + (if (0 <? len)%nat then 1 else 0) + add)%nat
  then s <| vp_cfg := None |>
  else s <| vp_path ::= λ p, (if (0 <? len)%nat then p ++ lit "." else p) ++ c_str label |>.

Definition path_is (configured : bytes) (s : vp_state) : bool := str_eqb (vp_path s) configured.

(** [set_field_value] hashes the text into its slot; the value it holds is its digest. *)
Definition find_holding_field (value : cbValue vcb) (s : vp_state) : vp_state :=
  let text := match v_union value with U_str t => t | _ => None end in
  match vp_cfg s with
  | None => s
  | Some cfg =>
      if which_sum value =? VALUE_TEXT_TAG then
        match text, hc_id_path cfg with
        | Some text, Some id_path =>
            if path_is id_path s then
              s <| vp_unreadable ::= λ u, u || vp_has_instrument s |>
                <| vp_instrument := digest text |> <| vp_has_instrument := true |>
            else s
        | _, _ => s
        end
      else if (which_sum value =? VALUE_PARTY_TAG) || (which_sum value =? VALUE_NUMERIC_TAG) then
        match text with
        | None => s
        | Some text =>
            if path_is (hc_owner_path cfg) s then
              s <| vp_unreadable ::= λ u, u || vp_has_owner s |>
                <| vp_owner := digest text |> <| vp_has_owner := true |>
            else if path_is (hc_amount_path cfg) s then
              s <| vp_unreadable ::= λ u, u || vp_has_amount s |>
                <| vp_amount := digest text |> <| vp_has_amount := true |>
            else if path_is (hc_admin_path cfg) s then
              s <| vp_unreadable ::= λ u, u || vp_has_admin s |>
                <| vp_admin := digest text |> <| vp_has_admin := true |>
            else s
        end
      else s
  end.

(** ** Record descent *)

Definition unreadable (s : vp_state) : vp_state := s <| vp_unreadable := true |>.

Definition decode_label (stream : istream) : VM istream :=
  do* modify (λ s, s <| vp_seen ::= λ l,
    match l with seen :: l' => seen <| ls_labelled := true |> :: l' | [] => [] end |>) in
  do* modify (λ s,
    if vp_records_opened s =? match vp_seen s with seen :: _ => ls_records_before seen | [] => 0 end
    then s else unreadable s) in
  if (DEFAULT_DECODE_BUFFER_SIZE <=? length stream)%nat then
    do* modify unreadable in
    ret []
  else
    let* (label, stream) := of_option (pb_read (length stream) stream) in
    if (length label =? 0)%nat || negb (no_nulb label) then
      do* modify unreadable in
      ret stream
    else
      do* modify (path_push label) in
      ret stream.

Section Open.
Variable run : vcb → istream → VM istream.
Variable run_sum : vcb → Z → istream → cbValue vcb → VM (istream * cbValue vcb).

Definition decode_record_field (stream : istream) : VM istream :=
  let* parent_len := gets (λ s, length (vp_path s)) in
  do* modify (λ s, s <| vp_seen ::= λ l,
    {| ls_labelled := false; ls_records_before := vp_records_opened s |} :: l |>) in
  let* rf := pb_decode_inner (Labelled_fields run run_sum) stream
    (cbLabelled_zero <| lb_label := Some decode_label_cb |>
                     <| lb_value := cbValue_zero <| cb_sum := Some decode_value_cb |> |>) in
  let* labelled := gets (λ s, match vp_seen s with seen :: _ => ls_labelled seen | [] => false end) in
  do* modify (λ s, s <| vp_seen ::= tail |>) in
  do* modify (λ s,
    if negb labelled && is_set (vp_cfg s) then unreadable s else s) in
  do* modify (find_holding_field (lb_value rf)) in
  do* modify (λ s, s <| vp_path ::= take parent_len |>) in
  ret [].

(** The record's own [pb_decode] reads the submessage to its end, so nanopb does not
    decode it again. *)
Definition decode_value (tag : Z) (stream : istream) (v : cbValue vcb)
  : VM (istream * cbValue vcb) :=
  let* depth := gets vp_depth in
  if negb (tag =? VALUE_RECORD_TAG) || (MAX_LABEL_DEPTH <=? depth) then ret (stream, v)
  else
    do* stack_has_room in
    let record_id := match v_union v with U_record i _ => i | _ => None end in
    let record := (record_id, Some decode_record_field_cb) in
    do* modify (λ s, s <| vp_records_opened ::= λ n, u32 (n + 1) |>
                       <| vp_depth ::= λ d, u8 (d + 1) |>) in
    let* ok := attempt (pb_decode_inner (record_fields run) stream record) in
    do* modify (λ s, s <| vp_depth ::= λ d, u8 (d - 1) |>) in
    let* r := of_option ok in
    ret ([], v <| v_union := U_record (fst r) (snd r) |>).

Definition decode_argument (stream : istream) : VM istream :=
  do* pb_decode_inner (Value_fields run run_sum) stream
        (cbValue_zero <| cb_sum := Some decode_value_cb |>) in
  ret [].

(** ** Node kinds *)

Definition start_create (cfg : holding_path_config_t) (s : vp_state) : vp_state :=
  s <| vp_cfg := Some cfg |> <| vp_depth := 0 |> <| vp_path := [] |>
    <| vp_has_owner := false |> <| vp_has_amount := false |> <| vp_has_admin := false |>
    <| vp_has_instrument := false |> <| vp_unreadable := false |>.

(** The report at the end of a create that was decoded. *)
Definition report_create (cfg : holding_path_config_t) (s : vp_state) : vp_state :=
  let names_instrument := is_set (hc_id_path cfg) in
  if negb (vp_unreadable s) && vp_has_owner s && vp_has_amount s && vp_has_admin s &&
     (negb names_instrument || vp_has_instrument s)
  then s <| vp_store ::= values_report_holding (vp_owner s) (vp_amount s) (vp_admin s)
              (if names_instrument then Some (vp_instrument s) else None) |>
  else s <| vp_store ::= values_report_unreadable_holding |>.

Definition decode_create (stream : istream) : VM istream :=
  let* probe := pb_decode_inner (Create_fields run) stream Node_CreateCb_zero in
  let cfg := if c_has_template_id probe then find_holding (c_template_id probe) else None in
  let classified := c_has_template_id probe &&
                    (is_set cfg || is_non_holding (c_template_id probe)) in
  match cfg with
  | None =>
      do* modify (λ s, if classified then s
                       else s <| vp_store ::= values_report_unknown_template |>) in
      ret []
  | Some cfg =>
      do* modify (start_create cfg) in
      let* create := attempt (pb_decode_inner (Create_fields run) stream
        (Node_CreateCb_zero <| c_argument := Some decode_argument_cb |>)) in
      do* modify (λ s, if is_set create then report_create cfg s else s) in
      do* modify (λ s, s <| vp_cfg := None |>) in
      do* of_option create in
      ret []
  end.

Definition decode_node_type (tag : Z) (stream : istream) : VM istream :=
  if tag =? NODE_V1_CREATE_TAG then decode_create stream else ret [].
End Open.

Definition decode_versioned_node (stream : istream) (node : DeviceNode vcb (NodeV1 vcb))
  : VM (istream * DeviceNode vcb (NodeV1 vcb)) :=
  ret (stream,
    if dn_which node =? NODE_V1_TAG
    then node <| dn_v1 ::= λ n, n <| n_cb_node_type := Some decode_node_type_cb |> |>
    else node).

(** ** The function pointer call *)

Fixpoint run_all (fuel : nat) : (vcb → istream → VM istream) *
    (vcb → Z → istream → cbValue vcb → VM (istream * cbValue vcb)) :=
  match fuel with
  | O => (λ _ _, nofuel, λ _ _ _ _, nofuel)
  | Datatypes.S fuel =>
      let both := run_all fuel in
      let run := fst both in
      let run_sum := snd both in
      (λ c stream,
         match c with
         | decode_label_cb => decode_label stream
         | decode_record_field_cb => decode_record_field run run_sum stream
         | decode_argument_cb => decode_argument run run_sum stream
         | _ => abort
         end,
       λ c tag stream v,
         match c with
         | decode_value_cb => decode_value run tag stream v
         | _ => abort
         end)
  end.
Definition run (fuel : nat) := fst (run_all fuel).
Definition run_sum (fuel : nat) := snd (run_all fuel).

Definition run_node (fuel : nat) (c : vcb) (tag : Z) (stream : istream) : VM istream :=
  match c with
  | decode_node_type_cb => decode_node_type (run fuel) tag stream
  | _ => abort
  end.
Definition run_versioned (c : vcb) (stream : istream) (node : DeviceNode vcb (NodeV1 vcb))
  : VM (istream * DeviceNode vcb (NodeV1 vcb)) :=
  match c with
  | decode_versioned_node_cb => decode_versioned_node stream node
  | _ => abort
  end.

(** ** Entry point *)

Definition parse_fuel (buf : bytes) : nat := S (length buf).
Definition node_msg (fuel : nat) := DeviceNode_fields (run fuel) run_versioned NodeV1_zero
  (NodeV1_fields (run_node fuel)).

Definition values_collect_from_node (buf : bytes) : VM unit :=
  let* collecting := gets (λ s, values_still_collecting (vp_store s)) in
  if negb collecting then ret tt
  else
    let* ok := attempt (pb_decode_inner (node_msg (parse_fuel buf)) buf
      (Build_DeviceNode None (Some decode_versioned_node_cb) 0 NodeV1_zero)) in
    modify (λ s, if is_set ok then s else s <| vp_store ::= values_report_parse_failure |>).

(** ** Bounds, termination and what is reported

    The label path always fits its buffer, the depth comes back to what it was, every
    digest kept is the digest of a text of the node, and the values check is told of
    holdings and of nothing else, or to give up. *)

Definition holding_report (ev : value_event) : Prop :=
  match ev with VHolding _ | VGaveUp => True | _ => False end.

Definition digest_if (b : bool) (slot : bytes) : Prop := b = true → ∃ t, slot = digest t.

Record holding_inv (s0 : vp_state) (d : Z) (s : vp_state) : Prop := {
  hi_depth : vp_depth s = d;
  hi_path : (length (vp_path s) < MAX_LABEL_PATH_LEN)%nat;
  hi_owner : digest_if (vp_has_owner s) (vp_owner s);
  hi_amount : digest_if (vp_has_amount s) (vp_amount s);
  hi_admin : digest_if (vp_has_admin s) (vp_admin s);
  hi_instrument : digest_if (vp_has_instrument s) (vp_instrument s);
  hi_store : ∃ evs, Forall holding_report evs ∧ vp_store s = foldl value_step (vp_store s0) evs
}.

(** The state between two nodes. *)
Definition vp_ready (s : vp_state) : Prop := holding_inv s 0 s.

Lemma digest_if_set t : digest_if true (digest t).
Proof. intros _. by exists t. Qed.
Lemma digest_if_false slot : digest_if false slot.
Proof. done. Qed.
#[local] Hint Resolve digest_if_set digest_if_false : core.

Ltac holding_inv_steps :=
  match goal with G : holding_inv _ _ ?s |- _ => destruct G; split; cbn in *; try done end.

Section Invariant.
Variable s0 : vp_state.
Abbreviation HI d := (holding_inv s0 d).

Lemma vp_realloc_safe d n : keeps (HI d) (pb_realloc n).
Proof. intros s Hs. unfold pb_realloc, vp_realloc. destruct (heap_has _ _); [split; [|done]|]; by holding_inv_steps. Qed.
Lemma vp_stack_has_room_safe d : keeps (HI d) stack_has_room.
Proof. intros s Hs. unfold stack_has_room. destruct (stack_room _); [split; [|done]|]; by holding_inv_steps. Qed.

Lemma path_push_inv d label s : HI d s → HI d (path_push label s).
Proof.
  intros Hs. unfold path_push.
  destruct (Nat.leb_spec MAX_LABEL_PATH_LEN
    (length (vp_path s) + (if (0 <? length (vp_path s))%nat then 1 else 0) + length (c_str label)))
    as [Hl|Hl]; destruct Hs; split; cbn -[Nat.ltb MAX_LABEL_PATH_LEN lit]; try done.
  rewrite length_app. destruct (0 <? length (vp_path s))%nat; [rewrite length_app|].
  - change (length (lit ".")) with 1%nat. lia.
  - lia.
Qed.
Lemma find_holding_field_inv d v s : HI d s → HI d (find_holding_field v s).
Proof. intros Hs. unfold find_holding_field. repeat case_match; try done; holding_inv_steps. Qed.

Lemma start_create_inv d cfg s : HI d s → HI 0 (start_create cfg s).
Proof. intros Hs. holding_inv_steps. unfold MAX_LABEL_PATH_LEN. lia. Qed.

Lemma report_inv d s ev : HI d s → holding_report ev →
  ∃ evs, Forall holding_report evs ∧ value_step (vp_store s) ev = foldl value_step (vp_store s0) evs.
Proof.
  intros [_ _ _ _ _ _ (evs & Hev & ->)] Hr. exists (evs ++ [ev]).
  rewrite foldl_app. split; [|done]. by apply Forall_app_2; [|constructor].
Qed.
Lemma give_up_inv d s : HI d s → HI d (s <| vp_store ::= values_report_unknown_template |>).
Proof. intros Hs. pose proof (report_inv d s VGaveUp Hs I). holding_inv_steps. Qed.

(** The four slots are the digests of four texts. *)
Lemma report_create_inv d cfg s : HI d s → HI d (report_create cfg s).
Proof.
  intros Hs. unfold report_create. case_match eqn:E; [|by apply give_up_inv].
  rewrite !andb_true_iff in E. destruct E as [[[[_ Ho] Ha] Hd] Hi].
  destruct (hi_owner _ _ _ Hs Ho) as [o Eo]. destruct (hi_amount _ _ _ Hs Ha) as [a Ea].
  destruct (hi_admin _ _ _ Hs Hd) as [ad Ead].
  destruct (is_set (hc_id_path cfg)) eqn:Ei; cbn in Hi.
  - destruct (hi_instrument _ _ _ Hs Hi) as [i Ein].
    destruct (report_inv d s (VHolding {| w_owner := o; w_amount := a; w_admin := ad;
      w_instrument := Some i |}) Hs I) as (evs & Hev & Hst).
    cbn in Hst. rewrite <- Eo, <- Ea, <- Ead, <- Ein in Hst.
    holding_inv_steps. by exists evs.
  - destruct (report_inv d s (VHolding {| w_owner := o; w_amount := a; w_admin := ad;
      w_instrument := None |}) Hs I) as (evs & Hev & Hst).
    cbn in Hst. rewrite <- Eo, <- Ea, <- Ead in Hst.
    holding_inv_steps. by exists evs.
Qed.

#[local] Hint Resolve vp_realloc_safe vp_stack_has_room_safe : safe pb.
#[local] Hint Resolve path_push_inv find_holding_field_inv : safe.

Lemma decode_label_safe d stream : keeps (HI d) (decode_label stream).
Proof.
  unfold decode_label. safe_steps; try (by apply safe_of_option); modified s Hs;
    try (by apply path_push_inv); try (by holding_inv_steps).
  case_match; [done|by holding_inv_steps].
Qed.

Section Callbacks.
Variable run : vcb → istream → VM istream.
Variable run_sum : vcb → Z → istream → cbValue vcb → VM (istream * cbValue vcb).
Variable stream : istream.
(** Callbacks on shorter streams are safe at every depth. *)
Hypothesis Hrun : ∀ d n, 0 ≤ d ≤ MAX_LABEL_DEPTH → length stream = S n →
  run_safe (HI d) run n ∧ run_sum_safe (HI d) run_sum n.

Lemma vp_create_msg_safe d v : 0 ≤ d ≤ MAX_LABEL_DEPTH →
  keeps (HI d) (pb_decode_inner (Create_fields run) stream v).
Proof.
  intros Hd. apply pb_decode_inner_safe. intros n Hn.
  apply Create_fields_safe; [apply vp_realloc_safe|by apply Hrun].
Qed.

Lemma vp_decode_record_field_safe d : 0 ≤ d ≤ MAX_LABEL_DEPTH →
  keeps (HI d) (decode_record_field run run_sum stream).
Proof.
  intros Hd. unfold decode_record_field. safe_steps; try modified s Hs.
  - by holding_inv_steps.
  - apply pb_decode_inner_safe. intros n Hn. destruct (Hrun d n Hd Hn).
    apply Labelled_fields_safe; [apply vp_realloc_safe|done|done].
  - by holding_inv_steps.
  - case_match; [by holding_inv_steps|done].
  - holding_inv_steps. rewrite length_take. lia.
Qed.

Lemma decode_argument_safe d : 0 ≤ d ≤ MAX_LABEL_DEPTH →
  keeps (HI d) (decode_argument run run_sum stream).
Proof.
  intros Hd. unfold decode_argument. safe_steps.
  apply pb_decode_inner_safe. intros n Hn. destruct (Hrun d n Hd Hn).
  apply Value_fields_safe; [apply vp_realloc_safe|done|done].
Qed.

(** The fields of the record are read one level deeper. *)
Lemma vp_decode_value_safe d tag v : 0 ≤ d ≤ MAX_LABEL_DEPTH →
  safe (HI d) (λ '(s', _), (length s' ≤ length stream)%nat) (decode_value run tag stream v).
Proof.
  intros Hd s Hs. unfold decode_value, bind at 1, gets. rewrite (hi_depth _ _ _ Hs).
  destruct (Z.leb_spec MAX_LABEL_DEPTH d) as [Hm|Hm]; rewrite ?orb_true_r, ?orb_false_r; [done|].
  destruct (negb (tag =? VALUE_RECORD_TAG)); [done|].
  set (r := (match v_union v with U_record i _ => i | _ => None end, Some decode_record_field_cb)).
  assert (Hbody : keeps (HI (d + 1)) (attempt (pb_decode_inner (record_fields run) stream r))).
  { apply safe_attempt, pb_decode_inner_safe. intros n Hn.
    destruct (Hrun (d + 1) n ltac:(lia) Hn) as [Hr _].
    intros t h. unfold record_fields. repeat case_match; intros [= <-]; by apply call_safe. }
  pose proof (vp_stack_has_room_safe d s Hs) as Hs1.
  unfold bind, modify. destruct (stack_has_room s) as [[[]| | |] s1]; try done.
  destruct Hs1 as [Hs1 _].
  set (s2 := _ <| vp_depth ::= _ |>).
  assert (Hs2 : HI (d + 1) s2).
  { subst s2. holding_inv_steps. unfold MAX_LABEL_DEPTH in *. rewrite hi_depth0, u8_id by (unfold is_u8; lia). done. }
  assert (Hback : ∀ s3, HI (d + 1) s3 → HI d (s3 <| vp_depth ::= λ d, u8 (d - 1) |>)).
  { intros s3 Hs3. holding_inv_steps. unfold MAX_LABEL_DEPTH in *.
    rewrite hi_depth0, u8_id by (unfold is_u8; lia). lia. }
  specialize (Hbody s2 Hs2). unfold attempt in *.
  destruct (pb_decode_inner _ _ _ s2) as [[o| | |] s3]; try done.
  - split; [apply Hback, Hbody|]. cbn. lia.
  - apply Hback, Hbody.
Qed.
End Callbacks.

Lemma vp_run_all_safe fuel : ∀ d n, 0 ≤ d ≤ MAX_LABEL_DEPTH → (n < fuel)%nat →
  run_safe (HI d) (run fuel) n ∧ run_sum_safe (HI d) (run_sum fuel) n.
Proof.
  induction fuel as [|fuel IH]; intros d n Hd Hn; [lia|].
  assert (Hrun : ∀ s : bytes, (length s ≤ n)%nat → ∀ d m, 0 ≤ d ≤ MAX_LABEL_DEPTH →
    length s = S m → run_safe (HI d) (run fuel) m ∧ run_sum_safe (HI d) (run_sum fuel) m).
  { intros s Hs d' m Hd' Hm. apply IH; [done|lia]. }
  split.
  - intros c s Hs. destruct c; try apply safe_abort.
    + apply decode_label_safe.
    + apply (vp_decode_record_field_safe (run fuel) (run_sum fuel)); [by apply Hrun|done].
    + apply (decode_argument_safe (run fuel) (run_sum fuel)); [by apply Hrun|done].
  - intros c tag s v Hs. destruct c; try apply safe_abort.
    apply (vp_decode_value_safe (run fuel) (run_sum fuel)); [by apply Hrun|done].
Qed.

Lemma vp_decode_create_safe fuel stream : (length stream ≤ fuel)%nat →
  keeps (HI 0) (decode_create (run fuel) stream).
Proof.
  intros Hf. assert (Hrun : ∀ d n, 0 ≤ d ≤ MAX_LABEL_DEPTH → length stream = S n →
    run_safe (HI d) (run fuel) n ∧ run_sum_safe (HI d) (run_sum fuel) n).
  { intros d n Hd Hn. apply vp_run_all_safe; [done|lia]. }
  assert (0 ≤ 0 ≤ MAX_LABEL_DEPTH) by (unfold MAX_LABEL_DEPTH; lia).
  pose proof (λ v, vp_create_msg_safe (run fuel) (run_sum fuel) stream Hrun 0 v ltac:(done)) as Hmsg.
  unfold decode_create. apply safe_seq; [done|intros probe].
  set (cfg := if c_has_template_id probe then _ else None).
  destruct cfg as [cfg|]; safe_steps; try modified s Hs.
  - by eapply start_create_inv.
  - case_match; [by apply report_create_inv|done].
  - by holding_inv_steps.
  - by apply safe_of_option.
  - case_match; [done|by apply give_up_inv].
Qed.

Lemma vp_node_msg_safe buf node : keeps (HI 0) (pb_decode_inner (node_msg (parse_fuel buf)) buf node).
Proof.
  apply pb_decode_inner_safe. intros n Hn. apply DeviceNode_fields_safe.
  - intros c s v. destruct c; try apply safe_abort. by apply safe_ret.
  - apply vp_run_all_safe; [unfold MAX_LABEL_DEPTH|unfold parse_fuel]; lia.
  - intros m Hm. apply NodeV1_fields_safe. intros c tag s Hs.
    destruct c; try apply safe_abort. cbn [run_node]. unfold decode_node_type.
    case_match; [|by apply safe_ret]. apply vp_decode_create_safe. unfold parse_fuel. lia.
Qed.
End Invariant.

Lemma holding_inv_ready s0 s : holding_inv s0 0 s → vp_ready s.
Proof. intros []. split; try done. by exists []. Qed.

Lemma values_collect_effect buf s : vp_ready s →
  let r := values_collect_from_node buf s in
  fst r ≠ NoFuel ∧ fst r ≠ Fail ∧
  (fst r = Ret tt → vp_ready (snd r) ∧
    ∃ evs, Forall holding_report evs ∧ vp_store (snd r) = foldl value_step (vp_store s) evs).
Proof.
  intros Hs r. subst r. unfold values_collect_from_node, bind, gets, attempt, modify.
  destruct (values_still_collecting (vp_store s)); cbn [negb fst snd ret]; cycle 1.
  { split_and!; try done. intros _. split; [done|by exists []]. }
  pose proof (vp_node_msg_safe s buf (Build_DeviceNode None (Some decode_versioned_node_cb) 0
    NodeV1_zero) s Hs) as Hm.
  destruct (pb_decode_inner _ _ _ s) as [[node| | |] s']; cbn; [| |by split_and!|done].
  - destruct Hm as [Hm _]. split_and!; try done. intros _.
    split; [by eapply holding_inv_ready|apply (hi_store _ _ _ Hm)].
  - apply give_up_inv in Hm. split_and!; try done. intros _.
    split; [by eapply holding_inv_ready|apply (hi_store _ _ _ Hm)].
Qed.

(** C31: Reading the value of a node is safe for any bytes: it terminates, the label path
    fits its buffer and the depth is back to zero afterwards, and the values check is told
    only of holdings (as the digests of texts of the node) or to give up. *)
Theorem values_collection_is_safe buf s : vp_ready s →
  let r := values_collect_from_node buf s in
  fst r ≠ NoFuel ∧ fst r ≠ Fail ∧
  (fst r = Ret tt → vp_ready (snd r) ∧
    ∃ evs, Forall holding_report evs ∧ vp_store (snd r) = foldl value_step (vp_store s) evs).
Proof. apply values_collect_effect. Qed.

(** What the parser cannot read ends clear signing: a node that does not decode, and a
    create of a template in neither list (or of no template at all), leave the values
    check given up. *)
Theorem unread_values_give_up buf stream run s s' :
  (pb_decode_inner (node_msg (parse_fuel buf)) buf
     (Build_DeviceNode None (Some decode_versioned_node_cb) 0 NodeV1_zero) s = (Fail, s') →
   st_ok (vp_store (snd (values_collect_from_node buf s))) = false) ∧
  (∀ probe, pb_decode_inner (Create_fields run) stream Node_CreateCb_zero s = (Ret probe, s') →
   (c_has_template_id probe = true →
      find_holding (c_template_id probe) = None ∧ is_non_holding (c_template_id probe) = false) →
   fst (decode_create run stream s) = Ret [] ∧
   st_ok (vp_store (snd (decode_create run stream s))) = false).
Proof.
  split.
  - intros E. unfold values_collect_from_node, bind, gets, attempt, modify.
    destruct (values_still_collecting (vp_store s)) eqn:C; cbn [negb]; [|done].
    rewrite E. apply give_up_ok.
  - intros probe E Hu. unfold decode_create, bind. rewrite E.
    destruct (c_has_template_id probe); [|split; [done|apply give_up_ok]].
    destruct (Hu eq_refl) as [-> ->]. split; [done|apply give_up_ok].
Qed.
End Parser.

(** ** Witnesses *)

Definition wire_node (entity : string) (argument : bytes) : bytes :=
  wire_string 1 "1" ++ wire_bytes NODE_V1_TAG (wire_bytes NODE_V1_CREATE_TAG
    (wire_bytes 4 (wire_string 1 "pkg" ++ wire_string 2 "Splice.Amulet" ++ wire_string 3 entity) ++
     wire_bytes 5 argument)).
(** An Amulet: its amount is nested one record deeper. *)
Definition wire_amulet : bytes := wire_node "Amulet" (wire_record
  (wire_field "dso" (wire_party "dso") ++ wire_field "owner" (wire_party "alice") ++
   wire_field "amount" (wire_record (wire_field "initialAmount" (wire_numeric "10.0"))))).

Definition sample_vp : vp_state :=
  {| vp_clock := 0; vp_store := sample_store; vp_cfg := None; vp_path := []; vp_depth := 0;
     vp_records_opened := 0; vp_owner := []; vp_amount := []; vp_admin := [];
     vp_instrument := []; vp_has_owner := false; vp_has_amount := false;
     vp_has_admin := false; vp_has_instrument := false; vp_unreadable := false; vp_seen := [] |}.

Abbreviation toy_collect := (@values_collect_from_node toy_sha roomy).

Lemma sample_vp_ready : @vp_ready toy_sha sample_vp.
Proof. split; try done; [cbn; unfold MAX_LABEL_PATH_LEN; lia|by exists []]. Qed.

Lemma values_collection_is_safe_witness :
  vp_depth (snd (toy_collect wire_amulet sample_vp)) = 0.
Proof.
  apply (hi_depth (H := toy_sha) (snd (toy_collect wire_amulet sample_vp))).
  refine (proj1 (proj2 (proj2 (@values_collection_is_safe toy_sha roomy wire_amulet sample_vp
    sample_vp_ready)) _)).
  vm_compute. reflexivity.
Defined.

(** The Amulet is reported with its three texts; the same fields under another entity of
    the list of templates without value report nothing, an unknown entity gives up. *)
Example amulet_is_reported : let digest := @digest toy_sha in
  st_holdings (vp_store (snd (toy_collect wire_amulet sample_vp))) =
    [{| h_owner := digest (lit "alice"); h_amount := digest (lit "10.0");
        h_admin := digest (lit "dso") |}].
Proof. vm_compute. reflexivity. Qed.
Example coupon_is_not_reported :
  let s := vp_store (snd (toy_collect (wire_node "AppRewardCoupon" []) sample_vp)) in
  st_holdings s = [] ∧ st_ok s = true.
Proof. vm_compute. auto. Qed.

Lemma unread_values_give_up_witness :
  st_ok (vp_store (snd (toy_collect [255] sample_vp))) = false.
Proof.
  apply (proj1 (@unread_values_give_up toy_sha roomy [255] [] (λ _, ret) sample_vp sample_vp)).
  vm_compute. reflexivity.
Defined.
