(* ===== verification/HoldingRead.v ===== *)
(** * What a create node holds

    The holding parser keeps a path of labels while it descends the argument of a create and
    notes the values it meets under the paths of the template.  Here is what the argument
    holds as a function of the argument itself, and that the parser reports it for every
    well-formed node on the wire.  The property proper is about creates whose paths can all be
    written down; what becomes of the others is [lost_path_is_still_reported]. *)

From Stdlib Require Import Btauto.
From S2P Require Import Prelude Constants Utils DisplayConfig Pb Wire WireLogic Messages.
From S2P Require Import CanonicalHash TreeCheck ValuesCheck HashingParser HashLogic HoldingParser.
From S2P Require Import ValueHash NodeHash ReadLogic.

(** ** The leaves of an argument

    What is met while the records of a value are read in order: a party or a number, or a
    text, under a dotted path; a label too long for the path, after which nothing matches any
    more; or a label that names nothing. *)

Inductive finding :=
  | Amount_at (path text : bytes)
  | Text_at (path text : bytes)
  | Path_lost
  | Bad_label.

Definition under (path label : bytes) : bytes :=
  match path with [] => label | _ => path ++ lit "." ++ label end.
Definition bad_label (label : bytes) : bool := (length label =? 0)%nat || negb (no_nulb label).
Definition too_long (path label : bytes) : bool := (MAX_LABEL_PATH_LEN <=? length (under path label))%nat.
Definition label_findings (path label : bytes) : list finding :=
  if bad_label label then [Bad_label] else if too_long path label then [Path_lost] else [].
Definition label_path (path label : bytes) : bytes :=
  if bad_label label || too_long path label then path else under path label.
Definition leaf_findings (path : bytes) (v : value) : list finding :=
  match v with
  | V_party t | V_numeric t => [Amount_at path t]
  | V_text t => [Text_at path t]
  | _ => []
  end.

(** Records are descended to [MAX_LABEL_DEPTH]; nothing else is. *)
Fixpoint findings (depth : Z) (path : bytes) (v : value) : list finding :=
  match v with
  | V_record _ fields =>
      if depth <? MAX_LABEL_DEPTH then
        flat_map (λ '(l, v), label_findings path l ++
          findings (depth + 1) (label_path path l) v ++ leaf_findings (label_path path l) v) fields
      else []
  | _ => []
  end.
(** A field of a record whose values are at [depth]. *)
Definition field_findings (depth : Z) (path l : bytes) (v : value) : list finding :=
  label_findings path l ++ findings depth (label_path path l) v ++
  leaf_findings (label_path path l) v.

(** ** The holding *)

Definition is_bad (f : finding) : bool := match f with Bad_label => true | _ => false end.
Definition is_lost (f : finding) : bool := match f with Path_lost => true | _ => false end.
(** What was met while paths could still be written. *)
Fixpoint live (fs : list finding) : list finding :=
  match fs with [] => [] | f :: fs => if is_lost f then [] else f :: live fs end.
Definition amounts_at (path : bytes) (fs : list finding) : list bytes :=
  omap (λ f, match f with Amount_at p t => if str_eqb p path then Some t else None | _ => None end)
    (live fs).
Definition texts_at (path : bytes) (fs : list finding) : list bytes :=
  omap (λ f, match f with Text_at p t => if str_eqb p path then Some t else None | _ => None end)
    (live fs).
Definition instruments (cfg : holding_path_config_t) (fs : list finding) : list bytes :=
  match hc_id_path cfg with Some path => texts_at path fs | None => [] end.

(** Every path of the template leads to exactly one value, and every label names a field. *)
Definition holding_in (cfg : holding_path_config_t) (fs : list finding) : option written :=
  if existsb is_bad fs then None
  else
    match amounts_at (hc_owner_path cfg) fs, amounts_at (hc_amount_path cfg) fs,
          amounts_at (hc_admin_path cfg) fs, hc_id_path cfg, instruments cfg fs with
    | [o], [a], [d], None, _ => Some {| w_owner := o; w_amount := a; w_admin := d; w_instrument := None |}
    | [o], [a], [d], Some _, [i] =>
        Some {| w_owner := o; w_amount := a; w_admin := d; w_instrument := Some i |}
    | _, _, _, _, _ => None
    end.
Definition holding_of (cfg : holding_path_config_t) (v : value) : option written :=
  holding_in cfg (findings 0 [] v).

(** What the values check is told of a node. *)
Definition node_reports (n : node) : list value_event :=
  match n with
  | N_create c v =>
      match find_holding (c_template_id c) with
      | Some cfg => [match holding_of cfg v with Some w => VHolding w | None => VGaveUp end]
      | None => if is_non_holding (c_template_id c) then [] else [VGaveUp]
      end
  | _ => []
  end.

(** Every label path of a create that is read can be written down. *)
Definition paths_fit (n : node) : bool :=
  match n with
  | N_create c v => negb (is_set (find_holding (c_template_id c)) && existsb is_lost (findings 0 [] v))
  | _ => true
  end.

(** ** Findings *)

Lemma live_app a b : live (a ++ b) = if existsb is_lost a then live a else a ++ live b.
Proof.
  induction a as [|f a IH]; [done|]. cbn [live app existsb]. destruct (is_lost f); [done|].
  cbn [orb]. rewrite IH. by destruct (existsb is_lost a).
Qed.
Lemma live_all fs : existsb is_lost fs = false → live fs = fs.
Proof.
  induction fs as [|f fs IH]; [done|]. cbn [existsb live]. intros [-> E]%orb_false_iff. by rewrite IH.
Qed.
Lemma no_nul_label l : bad_label l = false → c_str l = l.
Proof.
  unfold bad_label. intros [_ H]%orb_false_iff. apply c_str_id, no_nulb_spec.
  by destruct (no_nulb l).
Qed.
Lemma under_length path l : length (under path l) =
  (length path + (if (0 <? length path)%nat then 1 else 0) + length l)%nat.
Proof. destruct path; cbn; rewrite ?length_app; cbn; lia. Qed.
Lemma label_path_prefix path l : take (length path) (label_path path l) = path.
Proof.
  unfold label_path. destruct (_ || _); [by rewrite take_ge|].
  destruct path as [|b path]; [done|]. cbn [under]. by rewrite take_app_length.
Qed.

(** Every template has paths of its own. *)
Definition apart (a b : bytes) : bool := negb (str_eqb a b).
Definition distinct_paths (cfg : holding_path_config_t) : bool :=
  apart (hc_owner_path cfg) (hc_amount_path cfg) && apart (hc_owner_path cfg) (hc_admin_path cfg) &&
  apart (hc_amount_path cfg) (hc_admin_path cfg).
Lemma templates_distinct cfg : cfg ∈ HOLDING_TEMPLATES → distinct_paths cfg = true.
Proof.
  intros Hc%list_elem_of_In. revert cfg Hc. apply forallb_forall. vm_compute. reflexivity.
Qed.
Lemma str_eqb_apart p a b : str_eqb p a = true → apart a b = true → str_eqb p b = false.
Proof.
  rewrite str_eqb_spec. unfold apart. intros E Hn. apply negb_true_iff in Hn.
  unfold str_eqb in *. by rewrite E.
Qed.

Section Read.
Context `{Sha256} `{Device}.

(** ** What the parser has noted *)

(** A slot keeps the digest of the last text found for it. *)
Record slot_holds (texts : list bytes) (has : bool) (slot : bytes) : Prop := {
  sl_has : has = (0 <? length texts)%nat;
  sl_digest : ∀ t, last texts = Some t → slot = digest t
}.
Definition twice (texts : list bytes) : bool := (1 <? length texts)%nat.

Record tracks (cfg : holding_path_config_t) (fs : list finding) (s : vp_state) : Prop := {
  tk_cfg : vp_cfg s = if existsb is_lost fs then None else Some cfg;
  tk_owner : slot_holds (amounts_at (hc_owner_path cfg) fs) (vp_has_owner s) (vp_owner s);
  tk_amount : slot_holds (amounts_at (hc_amount_path cfg) fs) (vp_has_amount s) (vp_amount s);
  tk_admin : slot_holds (amounts_at (hc_admin_path cfg) fs) (vp_has_admin s) (vp_admin s);
  tk_instrument : slot_holds (instruments cfg fs) (vp_has_instrument s) (vp_instrument s);
  tk_unreadable : vp_unreadable s = existsb is_bad fs ||
    twice (amounts_at (hc_owner_path cfg) fs) || twice (amounts_at (hc_amount_path cfg) fs) ||
    twice (amounts_at (hc_admin_path cfg) fs) || twice (instruments cfg fs)
}.
(** What reading a value leaves alone. *)
Record kept (s s' : vp_state) : Prop := {
  kp_store : vp_store s' = vp_store s;
  kp_depth : vp_depth s' = vp_depth s;
  kp_path : vp_path s' = vp_path s;
  kp_seen : vp_seen s' = vp_seen s
}.
#[export] Instance kept_preorder : PreOrder kept.
Proof. split; [by split|]. intros s1 s2 s3 [] []. split; congruence. Qed.

Definition vp_idle (s s' : vp_state) : Prop := s' = s <| vp_clock := vp_clock s' |>.
#[export] Instance vp_idle_preorder : PreOrder vp_idle.
Proof.
  split.
  - intros []. reflexivity.
  - unfold vp_idle. intros s1 s2 s3 E2 E3. rewrite E3 at 1. rewrite E2 at 1. reflexivity.
Qed.
Lemma idle_kept s s' : vp_idle s s' → kept s s'.
Proof. unfold vp_idle. intros ->. by split. Qed.
Lemma idle_tracks cfg fs s s' : vp_idle s s' → tracks cfg fs s → tracks cfg fs s'.
Proof. unfold vp_idle. intros -> []. by split. Qed.

Lemma amounts_app path fs gs : amounts_at path (fs ++ gs) =
  amounts_at path fs ++ (if existsb is_lost fs then [] else amounts_at path gs).
Proof.
  unfold amounts_at. rewrite live_app. destruct (existsb is_lost fs) eqn:E; [by rewrite app_nil_r|].
  rewrite (live_all fs E). apply omap_app.
Qed.
Lemma texts_app path fs gs : texts_at path (fs ++ gs) =
  texts_at path fs ++ (if existsb is_lost fs then [] else texts_at path gs).
Proof.
  unfold texts_at. rewrite live_app. destruct (existsb is_lost fs) eqn:E; [by rewrite app_nil_r|].
  rewrite (live_all fs E). apply omap_app.
Qed.
Lemma instruments_app cfg fs gs : instruments cfg (fs ++ gs) =
  instruments cfg fs ++ (if existsb is_lost fs then [] else instruments cfg gs).
Proof.
  unfold instruments. destruct (hc_id_path cfg); [apply texts_app|by destruct (existsb _ _)].
Qed.

(** A label. *)
Lemma amounts_label path fs f : is_bad f || is_lost f = true →
  amounts_at path (fs ++ [f]) = amounts_at path fs.
Proof.
  intros Hf. rewrite amounts_app. assert (amounts_at path [f] = []) as -> by by destruct f.
  destruct (existsb _ _); apply app_nil_r.
Qed.
Lemma instruments_label cfg fs f : is_bad f || is_lost f = true →
  instruments cfg (fs ++ [f]) = instruments cfg fs.
Proof.
  intros Hf. rewrite instruments_app. assert (instruments cfg [f] = []) as ->.
  { unfold instruments. destruct (hc_id_path cfg); by destruct f. }
  destruct (existsb _ _); apply app_nil_r.
Qed.
Lemma tracks_lost cfg fs s : tracks cfg fs s → tracks cfg (fs ++ [Path_lost]) (s <| vp_cfg := None |>).
Proof.
  intros [Hc Ho Ha Hd Hi Hu]. split; rewrite ?amounts_label, ?instruments_label, ?existsb_app by done;
    cbn; rewrite ?orb_true_r, ?orb_false_r; done.
Qed.
Lemma tracks_bad cfg fs s : tracks cfg fs s → tracks cfg (fs ++ [Bad_label]) (unreadable s).
Proof.
  intros [Hc Ho Ha Hd Hi Hu]. split; rewrite ?amounts_label, ?instruments_label, ?existsb_app by done;
    cbn; rewrite ?orb_true_r, ?orb_false_r; done.
Qed.

(** A leaf. *)
Lemma slot_kept ts has slot : slot_holds ts has slot → slot_holds (ts ++ []) has slot.
Proof. by rewrite app_nil_r. Qed.
Lemma slot_more ts t : slot_holds (ts ++ [t]) true (digest t).
Proof.
  split; [by destruct ts|].
  intros t'. rewrite last_snoc. congruence.
Qed.
Lemma twice_snoc ts t has slot : slot_holds ts has slot → twice (ts ++ [t]) = has || twice ts.
Proof.
  intros [-> _]. unfold twice. by destruct ts as [|? [|? ts]].
Qed.
Lemma leaf_app path fs v : existsb is_lost (fs ++ leaf_findings path v) = existsb is_lost fs ∧
  existsb is_bad (fs ++ leaf_findings path v) = existsb is_bad fs.
Proof. rewrite !existsb_app. destruct v; cbn; by rewrite !orb_false_r. Qed.
(** What the field of a record was decoded as. *)
Definition decoded_as (v : value) (r : cbValue vcb) : Prop :=
  which_sum r = value_tag v ∧
  match v with
  | V_party t | V_numeric t | V_text t => v_union r = U_str (Some t)
  | _ => True
  end.
Lemma other_leaf v r s : leaf_findings (vp_path s) v = [] → decoded_as v r → find_holding_field r s = s.
Proof.
  unfold find_holding_field. intros Hl [-> _]. destruct (vp_cfg s); [|done]. by destruct v.
Qed.
Lemma amounts_leaf path fs p t : existsb is_lost fs = false →
  amounts_at path (fs ++ [Amount_at p t]) = amounts_at path fs ++ (if str_eqb p path then [t] else []).
Proof. intros El. rewrite amounts_app, El. unfold amounts_at at 2. cbn. by destruct (str_eqb p path). Qed.
Lemma amount_leaf cfg fs t r s : cfg ∈ HOLDING_TEMPLATES → tracks cfg fs s →
  which_sum r = VALUE_PARTY_TAG ∨ which_sum r = VALUE_NUMERIC_TAG → v_union r = U_str (Some t) →
  tracks cfg (fs ++ [Amount_at (vp_path s) t]) (find_holding_field r s).
Proof.
  intros Hin [Hc Ho Ha Hd Hi Hu] Hr Eu.
  pose proof (templates_distinct cfg Hin) as Hp. unfold distinct_paths in Hp.
  apply andb_true_iff in Hp as [[Hoa Hod]%andb_true_iff Had].
  assert (Ei : instruments cfg (fs ++ [Amount_at (vp_path s) t]) = instruments cfg fs).
  { rewrite instruments_app. assert (instruments cfg [Amount_at (vp_path s) t] = []) as ->
      by (unfold instruments; by destruct (hc_id_path cfg)).
    destruct (existsb _ _); apply app_nil_r. }
  unfold find_holding_field. rewrite Hc, Eu.
  assert (Et : (which_sum r =? VALUE_TEXT_TAG) = false) by (unfold VALUE_TEXT_TAG, VALUE_PARTY_TAG, VALUE_NUMERIC_TAG in *; lia).
  assert (Ep : (which_sum r =? VALUE_PARTY_TAG) || (which_sum r =? VALUE_NUMERIC_TAG) = true)
    by (unfold VALUE_PARTY_TAG, VALUE_NUMERIC_TAG in *; lia).
  destruct (existsb is_lost fs) eqn:El.
  { split; rewrite ?amounts_app, ?Ei, ?existsb_app, ?El; cbn;
      rewrite ?El, ?app_nil_r, ?orb_false_r; done. }
  rewrite Et, Ep. unfold path_is.
  assert (Hs : existsb is_lost (fs ++ [Amount_at (vp_path s) t]) = existsb is_lost fs ∧
    existsb is_bad (fs ++ [Amount_at (vp_path s) t]) = existsb is_bad fs)
    by (by rewrite !existsb_app; cbn; rewrite !orb_false_r).
  destruct Hs as [Hs1 Hs2].
  destruct (str_eqb (vp_path s) (hc_owner_path cfg)) eqn:Eo;
    [pose proof (str_eqb_apart _ _ _ Eo Hoa) as Ea; pose proof (str_eqb_apart _ _ _ Eo Hod) as Ed
    |destruct (str_eqb (vp_path s) (hc_amount_path cfg)) eqn:Ea;
      [pose proof (str_eqb_apart _ _ _ Ea Had) as Ed
      |destruct (str_eqb (vp_path s) (hc_admin_path cfg)) eqn:Ed]];
  (split; rewrite ?Hs1, ?Hs2, ?El, ?Ei, ?(amounts_leaf _ _ _ _ El), ?Eo, ?Ea, ?Ed, ?app_nil_r;
    cbn -[twice]; try done; try apply slot_more);
  rewrite ?(twice_snoc _ _ _ _ Ho), ?(twice_snoc _ _ _ _ Ha), ?(twice_snoc _ _ _ _ Hd), Hu; btauto.
Qed.
Lemma text_leaf cfg fs t r s : tracks cfg fs s → which_sum r = VALUE_TEXT_TAG →
  v_union r = U_str (Some t) →
  tracks cfg (fs ++ [Text_at (vp_path s) t]) (find_holding_field r s).
Proof.
  intros [Hc Ho Ha Hd Hi Hu] Hr Eu.
  assert (Ea : ∀ path, amounts_at path (fs ++ [Text_at (vp_path s) t]) = amounts_at path fs).
  { intros path. rewrite amounts_app. cbn. destruct (existsb _ _); apply app_nil_r. }
  assert (Hs : existsb is_lost (fs ++ [Text_at (vp_path s) t]) = existsb is_lost fs ∧
    existsb is_bad (fs ++ [Text_at (vp_path s) t]) = existsb is_bad fs)
    by (by rewrite !existsb_app; cbn; rewrite !orb_false_r).
  destruct Hs as [Hs1 Hs2].
  assert (Ei : instruments cfg (fs ++ [Text_at (vp_path s) t]) = instruments cfg fs ++
    if existsb is_lost fs then [] else
    match hc_id_path cfg with
    | Some path => if str_eqb (vp_path s) path then [t] else []
    | None => []
    end).
  { rewrite instruments_app. unfold instruments, texts_at. cbn.
    destruct (existsb _ _), (hc_id_path cfg) as [path|]; try done. by destruct (str_eqb _ path). }
  assert (Hsame : instruments cfg (fs ++ [Text_at (vp_path s) t]) = instruments cfg fs →
    tracks cfg (fs ++ [Text_at (vp_path s) t]) s).
  { intros E. split; rewrite ?Ea, ?Hs1, ?Hs2, ?E; done. }
  unfold find_holding_field. rewrite Hc, Eu, Hr. cbn -[twice str_eqb instruments].
  destruct (existsb is_lost fs) eqn:El; [by apply Hsame; rewrite Ei, app_nil_r|].
  destruct (hc_id_path cfg) as [path|]; [|by apply Hsame; rewrite Ei, app_nil_r].
  unfold path_is. destruct (str_eqb (vp_path s) path); [|by apply Hsame; rewrite Ei, app_nil_r].
  split; rewrite ?Ea, ?Hs1, ?Hs2, ?Ei; cbn -[twice instruments]; try done; [apply slot_more|].
  rewrite (twice_snoc _ _ _ _ Hi), Hu. btauto.
Qed.
Lemma leaf_tracks cfg fs v r s : cfg ∈ HOLDING_TEMPLATES → tracks cfg fs s → decoded_as v r →
  tracks cfg (fs ++ leaf_findings (vp_path s) v) (find_holding_field r s).
Proof.
  intros Hin Ht Hr. destruct (leaf_findings (vp_path s) v) eqn:El.
  { rewrite (other_leaf v); [by rewrite app_nil_r|done|done]. }
  rewrite <- El. destruct Hr as [Hr Hu]. destruct v; try done; cbn [leaf_findings].
  - by apply amount_leaf; [| |right|].
  - by apply amount_leaf; [| |left|].
  - by apply text_leaf.
Qed.
Lemma find_field_kept r s : kept s (find_holding_field r s).
Proof. unfold find_holding_field. repeat case_match; by split. Qed.

(** ** Reading *)

Lemma vp_alloc n s : step_to refuses_memory s (pb_realloc n : VM unit) (λ _ s', vp_idle s s').
Proof.
  unfold pb_realloc, vp_realloc, step_to. destruct (heap_has (vp_clock s) n) eqn:E.
  - right. exists tt. eexists. split; [done|]. by destruct s.
  - left. split; [|done]. exists (vp_clock s). right. by exists n.
Qed.
Lemma vp_room s : step_to refuses_memory s stack_has_room (λ _ s', vp_idle s s').
Proof.
  unfold stack_has_room, step_to. destruct (stack_room (vp_clock s)) eqn:E.
  - right. exists tt. eexists. split; [done|]. by destruct s.
  - left. split; [|done]. exists (vp_clock s). by left.
Qed.
Abbreviation reads := (step_to refuses_memory).

(** A label is pushed when it can be. *)
Record labelled (path : bytes) (seen : label_seen_t) (s s' : vp_state) : Prop := {
  lb_store : vp_store s' = vp_store s;
  lb_depth : vp_depth s' = vp_depth s;
  lb_path : vp_path s' = path;
  lb_seen : vp_seen s' = seen :: tail (vp_seen s)
}.
Lemma path_push_labels cfg fs l s : bad_label l = false → tracks cfg fs s →
  tracks cfg (fs ++ label_findings (vp_path s) l) (path_push l s) ∧
  vp_path (path_push l s) = label_path (vp_path s) l ∧
  vp_store (path_push l s) = vp_store s ∧ vp_depth (path_push l s) = vp_depth s ∧
  vp_seen (path_push l s) = vp_seen s.
Proof.
  intros Hl Ht. unfold path_push, label_findings, label_path. rewrite Hl, (no_nul_label l Hl).
  unfold too_long. rewrite <- under_length. cbn [orb].
  destruct (MAX_LABEL_PATH_LEN <=? _)%nat; split_and!; try done.
  - by apply tracks_lost.
  - rewrite app_nil_r. destruct Ht. by split.
  - cbn. destruct (vp_path s); cbn; [done|]. by rewrite <- app_assoc.
Qed.
Lemma label_read cfg fs l seen s : fits l = true → tracks cfg fs s →
  head (vp_seen s) = Some seen → ls_records_before seen = vp_records_opened s →
  reads s (decode_label l) (λ sub s', sub = [] ∧
    tracks cfg (fs ++ label_findings (vp_path s) l) s' ∧
    labelled (label_path (vp_path s) l) (seen <| ls_labelled := true |>) s s').
Proof.
  intros Hf Ht Hs Hr. destruct (vp_seen s) as [|seen' rest] eqn:Es; [done|]. injection Hs as ->.
  unfold decode_label. apply step_set. set (s1 := s <| vp_seen ::= _ |>).
  assert (T1 : tracks cfg fs s1) by by destruct Ht.
  assert (E1 : vp_seen s1 = seen <| ls_labelled := true |> :: rest) by by cbn; rewrite Es.
  apply step_set. change (vp_records_opened s1) with (vp_records_opened s). rewrite E1.
  cbn [ls_records_before update_field]. rewrite Hr, Z.eqb_refl.
  unfold fits in Hf. rewrite (proj2 (Nat.leb_gt _ _)) by by apply Nat.ltb_lt.
  eapply step_of_option; [rewrite <- (app_nil_r l) at 2; apply pb_read_app|].
  cbn beta iota. change ((length l =? 0)%nat || negb (no_nulb l)) with (bad_label l).
  destruct (bad_label l) eqn:Eb; apply step_set, step_ret; (split; [done|]).
  - unfold label_findings, label_path. rewrite Eb. cbn [orb]. split; [by apply tracks_bad|].
    split; try done. cbn. by rewrite Es, <- Hr.
  - destruct (path_push_labels cfg fs l s1 Eb T1) as (Ht2 & Hp & Hst & Hd & Hsn).
    split; [done|]. split; [done|done|done|]. rewrite Hsn, E1, Es. by rewrite <- Hr.
Qed.

Section Template.
Variable cfg : holding_path_config_t.
Hypothesis listed : cfg ∈ HOLDING_TEMPLATES.

(** A value is read by [run fuel]. *)
Definition depth_ok (s : vp_state) : Prop := 0 ≤ vp_depth s ≤ MAX_LABEL_DEPTH.
Definition scans (fuel : nat) : Prop := ∀ v fs s v0, (length (wire_value v) ≤ fuel)%nat →
  value_wf v = true → measured (wire_value v) → which_sum v0 = 0 →
  cb_sum v0 = Some decode_value_cb → depth_ok s → tracks cfg fs s →
  fields_to refuses_memory s (Value_fields (run fuel) (run_sum fuel)) (wire_value v) v0
    (λ r s', decoded_as v r ∧ tracks cfg (fs ++ findings (vp_depth s) (vp_path s) v) s' ∧ kept s s').

Definition entry_start : cbLabelled vcb :=
  cbLabelled_zero <| lb_label := Some decode_label_cb |>
                  <| lb_value := cbValue_zero <| cb_sum := Some decode_value_cb |> |>.
Definition entry_done (fs : list finding) (seen : label_seen_t) (l : bytes) (v : value)
    (s : vp_state) (rf : cbLabelled vcb) (s' : vp_state) : Prop :=
  decoded_as v (lb_value rf) ∧
  tracks cfg (fs ++ label_findings (vp_path s) l ++
    findings (vp_depth s) (label_path (vp_path s) l) v) s' ∧
  labelled (label_path (vp_path s) l) (seen <| ls_labelled := true |>) s s'.
Lemma entry_read fuel l v fs seen s : scans fuel → (length (wire_value v) ≤ fuel)%nat →
  fits l = true → value_wf v = true → measured (wire_entry l (wire_value v)) → depth_ok s →
  tracks cfg fs s → head (vp_seen s) = Some seen → ls_records_before seen = vp_records_opened s →
  reads s (pb_decode_inner (Labelled_fields (run fuel) (run_sum fuel)) (wire_entry l (wire_value v))
      entry_start) (entry_done fs seen l v s).
Proof.
  intros Hscan Hl Hf Hwf [Hml%measured_bytes Hm%measured_bytes]%measured_app Hd Ht Hs Hr.
  set (path := label_path (vp_path s) l).
  apply (λ (h : fields_to _ _ _ _ _ _), h _ (le_n _)). unfold wire_entry.
  eapply (fields_to_bytes _ _ _ _ _ _ _ _ (λ r s', r = entry_start ∧
    tracks cfg (fs ++ label_findings (vp_path s) l) s' ∧
    labelled path (seen <| ls_labelled := true |>) s s')); [done|reflexivity| |].
  - pose proof (wire_value_nonempty v). destruct fuel as [|fuel]; [lia|].
    apply (step_called _ s _ (run (S fuel) decode_label_cb)); [done|done|].
    by apply (label_read cfg fs l seen s).
  - intros ? s1 (-> & T1 & L1). eapply fields_to_last; [done|reflexivity|].
    unfold h_value. apply (step_submsg _ _ _ _ _ _ (entry_done fs seen l v s)); [done|]. unfold dec_static.
    eapply step_bind.
    + apply (λ (h : fields_to _ _ _ _ _ _), h _ (le_n _)).
      apply (Hscan v (fs ++ label_findings (vp_path s) l) s1); [done..| |exact T1]. unfold depth_ok. by rewrite (lb_depth _ _ _ _ L1).
    + intros r s2 (Hr2 & T2 & K2). apply step_ret. split; [done|].
      rewrite (lb_depth _ _ _ _ L1), (lb_path _ _ _ _ L1), <- app_assoc in T2. split; [done|].
      destruct L1, K2. split; by etrans.
Qed.
Lemma record_field_read fuel l v fs s : scans fuel → (length (wire_value v) ≤ fuel)%nat →
  fits l = true → value_wf v = true → measured (wire_entry l (wire_value v)) → depth_ok s →
  tracks cfg fs s →
  reads s (decode_record_field (run fuel) (run_sum fuel) (wire_entry l (wire_value v)))
    (λ sub s', sub = [] ∧ tracks cfg (fs ++ field_findings (vp_depth s) (vp_path s) l v) s' ∧
       kept s s').
Proof.
  intros Hscan Hl Hf Hwf Hm Hd Ht. unfold decode_record_field.
  apply step_gets, step_set. set (s0 := s <| vp_seen ::= _ |>).
  eapply step_bind; [eapply (entry_read fuel l v fs _ s0); [done..| |reflexivity|done]|].
  { destruct Ht. by split. }
  intros rf s1 (Hr & T1 & [Es Ed Ep En]). apply step_gets. rewrite En. cbn [ls_labelled update_field].
  do 2 apply step_set. cbn [negb andb]. apply step_set, step_set, step_ret. split; [done|].
  set (s2 := s1 <| vp_seen ::= tail |>).
  assert (T2 : tracks cfg (fs ++ label_findings (vp_path s0) l ++
    findings (vp_depth s0) (label_path (vp_path s0) l) v) s2) by (destruct T1; by split).
  pose proof (leaf_tracks cfg _ v (lb_value rf) s2 listed T2 Hr) as T3.
  destruct (find_field_kept (lb_value rf) s2) as [Ks Kd Kp Kn].
  change (vp_path s2) with (vp_path s1) in T3. rewrite Ep, <- !app_assoc in T3.
  split; [destruct T3; by split|].
  split; [exact (eq_trans Ks Es)|exact (eq_trans Kd Ed)| |].
  - change (take (length (vp_path s)) (vp_path (find_holding_field (lb_value rf) s2)) = vp_path s).
    rewrite Kp. change (vp_path s2) with (vp_path s1). rewrite Ep. apply label_path_prefix.
  - refine (eq_trans Kn _). change (vp_seen s2) with (tail (vp_seen s1)). by rewrite En.
Qed.

Definition record_start : option vcb * option vcb := (None, Some decode_record_field_cb).
Lemma fields_read fuel l : ∀ fs s, scans fuel →
  Forall (λ b, (length b ≤ fuel)%nat) (map (λ '(_, v), wire_value v) l) →
  forallb (λ '(k, v), fits k && value_wf v) l = true →
  Forall measured (map (λ '(k, v), wire_entry k (wire_value v)) l) → depth_ok s → tracks cfg fs s →
  fields_to refuses_memory s (record_fields (run (S fuel)))
    (flat_map (λ '(k, v), wire_bytes 2 (wire_entry k (wire_value v))) l) record_start
    (λ r s', r = record_start ∧
       tracks cfg (fs ++ flat_map (λ '(k, v), field_findings (vp_depth s) (vp_path s) k v) l) s' ∧
       kept s s').
Proof.
  induction l as [|[k v] l IH]; intros fs s Hscan Hl Hwf Hm Hd Ht; cbn [flat_map map forallb] in *.
  { apply fields_to_nil. rewrite app_nil_r. by split_and!. }
  apply Forall_cons in Hl as [Hv Hl], Hm as [Hmk Hm].
  apply andb_true_iff in Hwf as [[Hk Hwf]%andb_true_iff Hwfs].
  eapply (fields_to_bytes _ _ _ _ _ _ _ _ (λ r s', r = record_start ∧
    tracks cfg (fs ++ field_findings (vp_depth s) (vp_path s) k v) s' ∧ kept s s'));
    [done|reflexivity| |].
  - apply (step_called _ s _ (run (S fuel) decode_record_field_cb)); [done|done|].
    by apply (record_field_read fuel).
  - intros ? s1 (-> & T1 & K1). pose proof K1 as [_ Kd Kp _].
    assert (Hd1 : depth_ok s1) by (unfold depth_ok; by rewrite Kd).
    intros fl Hfl. eapply step_weaken; [by apply (IH _ s1 Hscan Hl Hwfs Hm Hd1 T1)|].
    intros r s2 (-> & T2 & K2). rewrite Kd, Kp, <- app_assoc in T2.
    split; [done|]. split; [done|by etrans].
Qed.

Lemma record_lengths id fields : Forall (λ b, (length b + 8 ≤ length (wire_value (V_record id fields)))%nat)
  (map (λ '(_, v), wire_value v) fields).
Proof.
  cbn [wire_value]. pose proof (wire_bytes_length VALUE_RECORD_TAG (wire_bytes 1 (wire_ident id) ++
    flat_map (λ '(l, v), wire_bytes 2 (wire_entry l (wire_value v))) fields)) as Ho.
  rewrite length_app in Ho. pose proof (wire_bytes_length 1 (wire_ident id)) as Hi.
  revert Ho. generalize (length (wire_bytes VALUE_RECORD_TAG (wire_bytes 1 (wire_ident id) ++
    flat_map (λ '(l, v), wire_bytes 2 (wire_entry l (wire_value v))) fields))). intros n.
  induction fields as [|[k v] fields IH]; intros Ho; cbn [map flat_map] in *; [done|].
  rewrite length_app in Ho. pose proof (entry_length k v 2) as [E1 E2]. constructor.
  - unfold wire_entry in *. rewrite length_app in *. pose proof (wire_bytes_length 1 k). pose proof (wire_bytes_length 2 (wire_value v)). lia.
  - apply IH. lia.
Qed.

(** The bookkeeping of a record that is descended. *)
Lemma record_read fuel id fields fs s v0 : scans fuel →
  Forall (λ b, (length b ≤ fuel)%nat) (map (λ '(_, v), wire_value v) fields) →
  forallb (λ '(k, v), fits k && value_wf v) fields = true → measured (wire_ident id) →
  Forall measured (map (λ '(k, v), wire_entry k (wire_value v)) fields) →
  v_union v0 = U_record None None → which_sum v0 = VALUE_RECORD_TAG →
  depth_ok s → vp_depth s < MAX_LABEL_DEPTH → tracks cfg fs s →
  reads s (decode_value (run (S fuel)) VALUE_RECORD_TAG (wire_bytes 1 (wire_ident id) ++
      flat_map (λ '(k, v), wire_bytes 2 (wire_entry k (wire_value v))) fields) v0)
    (λ p s', fst p = [] ∧ which_sum (snd p) = VALUE_RECORD_TAG ∧
       tracks cfg (fs ++ findings (vp_depth s) (vp_path s) (V_record id fields)) s' ∧ kept s s').
Proof.
  intros Hscan Hl Hwf Hid Hm Hu Hw Hd Hlt Ht. unfold decode_value.
  apply step_gets. rewrite (proj2 (Z.leb_gt _ _)) by lia. cbn [negb orb Z.eqb Pos.eqb].
  rewrite Z.eqb_refl. cbn [negb orb].
  eapply step_bind; [apply vp_room|]. intros [] s1 Hi. rewrite Hu.
  pose proof (idle_tracks cfg fs _ _ Hi Ht) as T1.
  pose proof (idle_kept _ _ Hi) as [K1 K2 K3 K4].
  apply step_set. set (s2 := s1 <| vp_records_opened ::= _ |> <| vp_depth ::= _ |>).
  assert (Ed : vp_depth s2 = vp_depth s + 1).
  { unfold depth_ok, MAX_LABEL_DEPTH in *. cbn. rewrite K2. apply u8_id. unfold is_u8. lia. }
  assert (Hd2 : depth_ok s2) by (unfold depth_ok in *; lia).
  assert (Ef : findings (vp_depth s) (vp_path s) (V_record id fields) =
    flat_map (λ '(k, v), field_findings (vp_depth s + 1) (vp_path s) k v) fields).
  { cbn [findings]. by rewrite (proj2 (Z.ltb_lt _ _) Hlt). }
  rewrite Ef. match type of Ef with _ = ?x => set (gs := x) end.
  apply (step_attempt _ _ _ _ (λ r s', r = record_start ∧ tracks cfg (fs ++ gs) s' ∧ kept s2 s')); [| |done].
  - apply reads_inner with (idle := vp_idle); [apply vp_idle_preorder|].
    eapply reads_skip_one; [apply vp_idle_preorder|done|reflexivity|done|done|].
    intros s3 Hi3. pose proof (idle_kept _ _ Hi3) as K3'. pose proof K3' as [_ Kd Kp _].
    assert (T3 : tracks cfg fs s3).
    { eapply idle_tracks; [exact Hi3|]. destruct T1; by split. }
    assert (Hd3 : depth_ok s3) by (unfold depth_ok; by rewrite Kd).
    intros fl Hfl. eapply step_weaken; [by apply (fields_read fuel fields fs s3)|].
    intros r s4 (-> & T4 & K4'). split; [done|]. rewrite Kd, Kp, Ed in T4.
    change (vp_path s2) with (vp_path s1) in T4. rewrite K3 in T4. split; [done|by etrans].
  - intros ? s4 (-> & T4 & [Ks Kd Kp Kn]). apply step_set.
    eapply step_of_option; [done|]. apply step_ret. split; [done|]. split; [done|].
    split; [destruct T4; by split|]. split; cbn;
      [exact (eq_trans Ks K1)| |exact (eq_trans Kp K3)|exact (eq_trans Kn K4)].
    unfold depth_ok, MAX_LABEL_DEPTH in *. rewrite Kd, Ed, u8_id by (unfold is_u8; lia). lia.
Qed.

Lemma skipped_read fuel v fs s v0 : (MAX_LABEL_DEPTH ≤ vp_depth s ∨ ∀ id fields, v ≠ V_record id fields) →
  (1 ≤ fuel)%nat → value_wf v = true → measured (wire_value v) → which_sum v0 = 0 →
  cb_sum v0 = Some decode_value_cb → depth_ok s → tracks cfg fs s →
  fields_to refuses_memory s (Value_fields (run fuel) (run_sum fuel)) (wire_value v) v0
    (λ r s', decoded_as v r ∧ tracks cfg (fs ++ findings (vp_depth s) (vp_path s) v) s' ∧ kept s s').
Proof.
  intros Hv Hf Hwf Hm Hz Hc Hd Ht. destruct fuel as [|fuel]; [lia|].
  assert (Ef : findings (vp_depth s) (vp_path s) v = []).
  { destruct v; try done. destruct Hv as [Hv|Hv]; [|by edestruct Hv]. cbn [findings].
    by rewrite (proj2 (Z.ltb_ge _ _) Hv). }
  assert (Htr : transparent refuses_memory vp_idle (run_sum (S fuel)) s (cb_sum v0) (value_tag v)).
  { rewrite Hc. intros s1 b v1 Hi. pose proof (idle_kept _ _ Hi) as [_ Kd _ _].
    change (run_sum (S fuel) decode_value_cb) with (decode_value (run fuel)).
    unfold decode_value. apply step_gets. rewrite Kd.
    assert (E : negb (value_tag v =? VALUE_RECORD_TAG) || (MAX_LABEL_DEPTH <=? vp_depth s) = true).
    { destruct Hv as [Hv|Hv]; [rewrite (proj2 (Z.leb_le _ _) Hv); apply orb_true_r|].
      by destruct v; try done; edestruct Hv. }
    rewrite E. by apply step_ret. }
  rewrite Ef, app_nil_r. intros fl Hl.
  eapply step_weaken; [apply (value_reads refuses_memory vp_idle vp_alloc (run (S fuel)) _ s v v0 Hz Htr Hwf Hm s)|];
    [reflexivity|done|].
  intros r s' [-> Hi]. split; [by destruct v|].
  split; [by eapply idle_tracks|by apply idle_kept].
Qed.

Lemma value_scanned fuel : scans fuel.
Proof.
  induction fuel as [fuel IH] using lt_wf_ind.
  intros v fs s v0 Hl Hwf Hm Hz Hc Hd Ht. pose proof (wire_value_nonempty v).
  destruct (Z.le_gt_cases MAX_LABEL_DEPTH (vp_depth s)) as [Hdeep|Hdeep];
    [apply skipped_read; try done; [by left|lia]|].
  destruct v as [| | | | | | | | | | | | |id fields| |];
    try (apply skipped_read; try done; [by right|lia]).
  pose proof (record_lengths id fields) as Hlen. pose proof (wire_elements (V_record id fields)) as Ew.
  cbn [wire_value value_wf] in *. pose proof Hm as Hb%measured_bytes.
  pose proof Hb as [Hid%measured_bytes _]%measured_app.
  assert (Hels : Forall measured (elements (V_record id fields))).
  { rewrite Ew in Hm. apply measured_bytes, measured_app in Hm as [_ Hm]. by eapply measured_flat. }
  destruct fuel as [|[|fuel]]; [lia| |].
  { pose proof (wire_bytes_length VALUE_RECORD_TAG (wire_bytes 1 (wire_ident id) ++
      flat_map (λ '(l, v), wire_bytes 2 (wire_entry l (wire_value v))) fields)). lia. }
  eapply fields_to_last; [done|reflexivity|].
  set (Q := λ (r : cbValue vcb) s', decoded_as (V_record id fields) r ∧
    tracks cfg (fs ++ findings (vp_depth s) (vp_path s) (V_record id fields)) s' ∧ kept s s').
  unfold h_sum_msg. rewrite Hz. cbn [Z.eqb].
  apply (step_submsg _ _ _ _ _ _ Q); [done|].
  unfold dec_submsg_w_cb. cbn [set_union cb_sum update_field]. rewrite Hc. cbn [option_map].
  change (run_sum (S (S fuel)) decode_value_cb) with (decode_value (run (S fuel))).
  eapply step_bind; [apply (record_read fuel id fields fs s)|]; try done.
  - apply IH. lia.
  - eapply Forall_impl; [exact Hlen|]. intros b Hb'. cbn beta in Hb'. lia.
  - intros [sub r] s' (Es & Hr & T & K). cbn in Es, Hr. subst sub. by apply step_ret.
Qed.

(** *** The argument of a create *)

Lemma argument_read fuel v s : (length (wire_value v) ≤ fuel)%nat → value_wf v = true →
  measured (wire_value v) → vp_depth s = 0 → vp_path s = [] → tracks cfg [] s →
  reads s (run (S fuel) decode_argument_cb (wire_value v))
    (λ sub s', sub = [] ∧ tracks cfg (findings 0 [] v) s' ∧ vp_store s' = vp_store s).
Proof.
  intros Hl Hwf Hm Hd Hp Ht. change (run (S fuel) decode_argument_cb) with
    (decode_argument (run fuel) (run_sum fuel)). unfold decode_argument.
  eapply step_bind.
  - apply (λ (h : fields_to _ _ _ _ _ _), h _ (le_n _)).
    apply (value_scanned fuel v [] s); try done. unfold depth_ok, MAX_LABEL_DEPTH. lia.
  - intros r s' (_ & T & [Ks _ _ _]). rewrite Hd, Hp in T. by apply step_ret.
Qed.
End Template.

(** The slots say what the argument holds. *)
Lemma holding_reported cfg fs s : tracks cfg fs s →
  vp_store (report_create cfg s) = value_step (vp_store s)
    (match holding_in cfg fs with Some w => VHolding w | None => VGaveUp end).
Proof.
  intros [_ [Eo Do] [Ea Da] [Ed Dd] [Ei Di] Hu]. unfold report_create, holding_in.
  rewrite Hu, Eo, Ea, Ed, Ei. destruct (existsb is_bad fs); [done|].
  destruct (amounts_at (hc_owner_path cfg) fs) as [|o [|]]; try done;
    [by rewrite !andb_false_r|].
  destruct (amounts_at (hc_amount_path cfg) fs) as [|a [|]]; try done;
    [by rewrite !andb_false_r|].
  destruct (amounts_at (hc_admin_path cfg) fs) as [|d [|]]; try done;
    [by rewrite !andb_false_r|].
  rewrite (Do o), (Da a), (Dd d) by done. unfold instruments in *.
  destruct (hc_id_path cfg) as [path|]; [|done].
  destruct (texts_at path fs) as [|i [|]]; try done. by rewrite (Di i).
Qed.

(** ** Nodes *)

Lemma holding_listed id cfg : find_holding id = Some cfg → cfg ∈ HOLDING_TEMPLATES.
Proof. unfold find_holding. intros [Hc _]%List.find_some. by apply list_elem_of_In. Qed.
Lemma start_tracks cfg s : tracks cfg [] (start_create cfg s).
Proof. split; try done; unfold instruments; cbn; by destruct (hc_id_path cfg). Qed.

Lemma create_read fuel c v s : create_wf c v = true → measured (wire_create_node c v) →
  (length (wire_value v) < fuel)%nat →
  reads s (decode_create (run fuel) (wire_create_node c v))
    (λ sub s', sub = [] ∧ vp_store s' = foldl value_step (vp_store s) (node_reports (N_create c v))).
Proof.
  intros Hwf Hm Hl. destruct (create_value c v Hwf Hm) as [Hh Hmv].
  assert (Hv : value_wf v = true) by (unfold hashable in Hh; by apply andb_true_iff in Hh as [? _]).
  assert (Ht : c_has_template_id c = true).
  { unfold create_wf, create_is_complete, require_identifier in Hwf.
    by destruct (c_has_template_id c); [|rewrite !andb_false_r in Hwf]. }
  unfold decode_create. eapply step_bind.
  { apply reads_inner with (idle := vp_idle); [apply vp_idle_preorder|].
    apply (create_reads refuses_memory vp_idle vp_alloc (run fuel) s None c v (vp_idle s));
      [done|done|done|by intros; etrans]. }
  intros ? s1 [-> Hi]. pose proof (idle_kept _ _ Hi) as [Ks _ _ _].
  cbn [create_as c_has_template_id c_template_id]. rewrite Ht. cbn [andb node_reports].
  destruct (find_holding (c_template_id c)) as [cfg|] eqn:Ef.
  2: { apply step_set, step_ret. split; [done|].
       destruct (is_non_holding (c_template_id c)); cbn; by rewrite Ks. }
  apply step_set. set (s2 := start_create cfg s1).
  pose proof (start_tracks cfg s1) as T2. fold s2 in T2.
  apply (step_attempt _ _ _ _ (λ _ s', tracks cfg (findings 0 [] v) s' ∧ vp_store s' = vp_store s2)); [| |done].
  - apply reads_inner with (idle := vp_idle); [apply vp_idle_preorder|].
    eapply reads_weaken.
    + apply (create_reads refuses_memory vp_idle vp_alloc (run fuel) s2 (Some decode_argument_cb) c v
        (λ s', tracks cfg (findings 0 [] v) s' ∧ vp_store s' = vp_store s2)); [done|done| |].
      * intros s3 Hi3. pose proof (idle_kept _ _ Hi3) as [K1 K2 K3 _]. destruct fuel as [|fuel]; [lia|].
        eapply step_weaken.
        -- apply (argument_read cfg (holding_listed _ _ Ef) fuel v s3); [lia|done|done| | |].
           ++ by rewrite K2.
           ++ by rewrite K3.
           ++ by eapply idle_tracks.
        -- intros sub s4 (-> & T4 & E4). by rewrite E4.
      * intros s3 s4 [T3 E3] Hi4. pose proof (idle_kept _ _ Hi4) as [K1 _ _ _].
        split; [by eapply idle_tracks|by rewrite K1].
    + by intros r s' [_ Hs'].
  - intros r s3 [T3 E3]. cbn [is_set]. do 2 apply step_set.
    eapply step_of_option; [done|]. apply step_ret. split; [done|].
    cbn [vp_store update_field foldl]. change (vp_store s2) with (vp_store s1) in E3.
    rewrite <- Ks, <- E3. by apply holding_reported.
Qed.

Lemma node_type_read fuel n v1 s : node_wf n = true → measured (wire_node n) →
  (length (wire_node n) ≤ fuel)%nat → n_cb_node_type v1 = Some decode_node_type_cb →
  fields_to refuses_memory s (NodeV1_fields (run_node fuel)) (wire_node n) v1
    (λ _ s', vp_store s' = foldl value_step (vp_store s) (node_reports n)).
Proof.
  intros Hwf Hm Hl Ec. set (Q := λ s', vp_store s' = foldl value_step (vp_store s) (node_reports n)).
  assert (Hone : ∀ tag b, 1 ≤ tag ≤ 5 → measured b →
    reads s (decode_node_type (run fuel) tag b) (λ sub s', sub = [] ∧ Q s') →
    fields_to refuses_memory s (NodeV1_fields (run_node fuel)) (wire_bytes tag b) v1 (λ _, Q)).
  { intros tag b Ht Hb Hn. assert (E : (1 <=? tag) && (tag <=? 5) = true) by lia.
    eapply fields_to_last; [lia|unfold NodeV1_fields; by rewrite E|].
    cbn beta. apply (step_submsg _ _ _ _ _ _ (λ _, Q)); [done|].
    unfold dec_submsg_w_cb. cbn. rewrite Ec. cbn.
    eapply step_bind; [eapply step_bind; [exact Hn|]|].
    - intros sub s' [-> Hs']. by apply (step_ret _ _ ([], _) (λ p s1, fst p = [] ∧ Q s1)).
    - intros [sub r] s' [Es Hs']. cbn in Es. subst sub. by apply step_ret. }
  destruct n as [c v|e v r|f|r]; pose proof Hm as Hb%measured_bytes; apply Hone; try done;
    try by apply step_ret.
  apply create_read; [done|done|]. cbn [wire_node] in Hl. unfold wire_create_node in Hl.
  pose proof (wire_bytes_length NODE_V1_CREATE_TAG (wire_create_node c v)) as E1.
  pose proof (wire_bytes_length 5 (wire_value v)). unfold wire_create_node in E1.
  rewrite !length_app in E1. lia.
Qed.

Definition collect_start : DeviceNode vcb (NodeV1 vcb) :=
  Build_DeviceNode None (Some decode_versioned_node_cb) 0 NodeV1_zero.
Lemma node_collected id n s : part_ok id n →
  reads s (pb_decode_inner (node_msg (parse_fuel (wire_node_part id n))) (wire_node_part id n)
      collect_start)
    (λ _ s', vp_store s' = foldl value_step (vp_store s) (node_reports n)).
Proof.
  intros (Hwf & _ & Hm). pose proof Hm as [Hi%measured_bytes Hn%measured_bytes]%measured_app.
  set (fuel := parse_fuel _). assert (Hl : (length (wire_node n) ≤ fuel)%nat).
  { unfold fuel, parse_fuel, wire_node_part. rewrite length_app.
    pose proof (wire_bytes_length NODE_V1_TAG (wire_node n)). lia. }
  apply reads_inner with (idle := vp_idle); [apply vp_idle_preorder|]. unfold wire_node_part.
  eapply reads_skip_one; [apply vp_idle_preorder|done|reflexivity|done|done|].
  intros s1 Hs1. pose proof (idle_kept _ _ Hs1) as [<- _ _ _].
  eapply fields_to_last; [done|reflexivity|]. cbn beta.
  change (dn_which collect_start) with 0. cbn [Z.eqb].
  apply (step_submsg _ _ _ _ _ _ (λ _ s', vp_store s' = foldl value_step (vp_store s1) (node_reports n)));
    [done|].
  unfold dec_submsg_w_cb. cbn -[wire_node run_versioned]. unfold run_versioned, decode_versioned_node.
  cbn -[wire_node].
  apply step_pure. destruct (wire_node_cons n) as (x & b & Eb). rewrite Eb. cbn iota beta.
  rewrite <- Eb. unfold dec_static. eapply step_bind.
  - by apply (λ (h : fields_to _ _ _ _ _ _), h _ (le_n _)), node_type_read.
  - intros r s2 E2. by apply step_ret.
Qed.

Lemma collect_exact id n s : part_ok id n →
  values_still_collecting (vp_store s) = true →
  let r := values_collect_from_node (wire_node_part id n) s in
  fst r = Ret tt ∧
  (vp_store (snd r) = foldl value_step (vp_store s) (node_reports n) ∨
   (refuses_memory ∧ st_ok (vp_store (snd r)) = false)).
Proof.
  intros Hok Hc. unfold values_collect_from_node, bind, gets. rewrite Hc. cbn [negb].
  unfold attempt, modify. change (Build_DeviceNode _ _ _ _) with collect_start.
  destruct (node_collected id n s Hok) as [[Hr Ef]|(a & s' & E & Hs')].
  - destruct (pb_decode_inner _ _ _ s) as [[] s']; try done. cbn. split; [done|]. right.
    split; [done|]. apply give_up_ok.
  - rewrite E. cbn. split; [done|]. by left.
Qed.

(** C28: What the values check is told of a node is a function of the node.  From a state that
    is still collecting, a part with a well-formed node on the wire ([part_ok]), whose label
    paths all fit the buffer of the parser if it is a create of a listed template
    ([paths_fit]), makes the parser report exactly [node_reports]: of a create of a listed
    template, the texts that its argument has under the paths of the template, each exactly
    once, or that it gives up; nothing of a create of a template without value, of an
    exercise, a fetch or a rollback; and it gives up on any other create.  The only other
    outcome is that the device refuses memory, and then it gives up. *)
Theorem values_collected_exactly id n s : part_ok id n → paths_fit n = true →
  values_still_collecting (vp_store s) = true →
  let r := values_collect_from_node (wire_node_part id n) s in
  fst r = Ret tt ∧
  (vp_store (snd r) = foldl value_step (vp_store s) (node_reports n) ∨
   (refuses_memory ∧ st_ok (vp_store (snd r)) = false)).
Proof. intros Hok _. by apply collect_exact. Qed.
End Read.

(** ** An Amulet *)

Definition amulet_id : Identifier :=
  {| package_id := Some (lit "pkg"); module_name := Some (lit "Splice.Amulet");
     entity_name := Some (lit "Amulet") |}.
Definition amulet_node (fields : list (bytes * value)) : node :=
  N_create (transfer_create <| c_template_id := amulet_id |>) (V_record amulet_id fields).
Definition amulet_fields (issuer owner : string) (amount : value) : list (bytes * value) :=
  [(lit "dso", V_party (lit issuer)); (lit "owner", V_party (lit owner)); (lit "amount", amount)].
Definition initial_amount (n : string) : value :=
  V_record amulet_id [(lit "initialAmount", V_numeric (lit n))].
Definition amulet_written (issuer owner n : string) : written :=
  {| w_owner := lit owner; w_amount := lit n; w_admin := lit issuer; w_instrument := None |}.

Lemma amulet_part_ok :
  part_ok (lit "1") (amulet_node (amulet_fields "issuer" "alice" (initial_amount "10.0"))).
Proof. split; [by vm_compute|]. split; [cbn; lia|by vm_compute]. Qed.
Lemma amulet_reports : node_reports (amulet_node (amulet_fields "issuer" "alice" (initial_amount "10.0"))) =
  [VHolding (amulet_written "issuer" "alice" "10.0")].
Proof. vm_compute. reflexivity. Qed.
Lemma amulet_still_ok : st_ok (vp_store (snd (toy_collect (wire_node_part (lit "1")
  (amulet_node (amulet_fields "issuer" "alice" (initial_amount "10.0")))) sample_vp))) = true.
Proof. vm_compute. reflexivity. Qed.

Lemma values_collected_exactly_witness :
  vp_store (snd (toy_collect (wire_node_part (lit "1")
    (amulet_node (amulet_fields "issuer" "alice" (initial_amount "10.0")))) sample_vp)) =
  foldl (@value_step toy_sha) (vp_store sample_vp) [VHolding (amulet_written "issuer" "alice" "10.0")].
Proof.
  rewrite <- amulet_reports.
  destruct (@values_collected_exactly toy_sha roomy (lit "1") _ sample_vp amulet_part_ok
    eq_refl eq_refl)
    as [_ [E|[_ E]]]; [exact E|]. by rewrite amulet_still_ok in E.
Defined.

(** The order of the fields does not matter, a second owner does. *)
Example two_owners_give_up : node_reports (amulet_node
  (amulet_fields "issuer" "alice" (initial_amount "10.0") ++ [(lit "owner", V_party (lit "bob"))])) = [VGaveUp].
Proof. vm_compute. reflexivity. Qed.

(** A path that is too long stops the matching, but the create is reported as unreadable only
    when something had not been found yet.  The comment on [path_push] promises an unreadable
    holding for every such create, so [values_collected_exactly] leaves them out. *)
Definition long_label : bytes := replicate 40 97.
Example lost_path_is_still_reported : node_reports (amulet_node
  (amulet_fields "issuer" "alice" (initial_amount "10.0") ++
   [(long_label, V_record amulet_id [(long_label, V_unit)])])) =
  [VHolding (amulet_written "issuer" "alice" "10.0")].
Proof. vm_compute. reflexivity. Qed.
(** Dots in a label are not escaped: one label passes for a path of two. *)
Example dotted_label_is_a_path : node_reports (amulet_node
  [(lit "dso", V_party (lit "issuer")); (lit "owner", V_party (lit "alice"));
   (lit "amount.initialAmount", V_numeric (lit "10.0"))]) =
  [VHolding (amulet_written "issuer" "alice" "10.0")].
Proof. vm_compute. reflexivity. Qed.
