(* ===== verification/DisplayParser.v ===== *)
(** * Display parser ([src/transaction/pb_node_display_parser.c])

    The third pass over a node: it looks for the record that says what the node does,
    chooses a screen for it from the tables of [DisplayConfig.v], reads the fields of that
    screen by their label paths, and fills the pairs the screen shows.  A screen may be
    deferred to the input contract the node acts on.

    The node is decoded into the struct the hashing parser used, whose [node_id] callback is
    still set; it only writes that parser's [ctx], which the next part resets, so the
    display node is decoded here with that callback unset. *)

From S2P Require Import Prelude Constants Utils DisplayConfig DisplayFormat Pb Wire Messages.
From S2P Require Import ValuesCheck.

(** The decode functions that callback fields point to. *)
Inductive dcb :=
  | decode_record_field_label_cb
  | decode_record_id_field_cb
  | decode_record_field_cb
  | decode_value_cb
  | decode_textmap_key_cb
  | decode_value_text_map_cb
  | decode_value_variant_cb
  | node_decode_callback_cb
  | versioned_node_decode_callback_cb
  | decode_create_cb.

(** ** State *)

Record label_read_t := { lr_seen : bool; lr_values_before : Z }.
#[export] Instance eta_label_read_t : Eta label_read_t := λ l,
  Build_label_read_t (lr_seen l) (lr_values_before l).

(** [pb_callback_context_t]; [tx_fields] is NULL or points to the static array. *)
Record pb_callback_context_t := {
  cx_field_path : option bytes;
  cx_has_fields : bool;
  cx_nb_fields : nat;
  cx_review_title : bytes;
  cx_review_finish : bytes;
  cx_unknown_token : bool;
  cx_unreadable : bool;
  cx_last_parsed_contract_id : option bytes;
  cx_node_module : option bytes;
  cx_node_entity : option bytes;
  cx_node_choice_id : option bytes;
  cx_record_depth : Z;
  cx_values_opened : Z;
  cx_destination : destination_e;
  cx_amount_check : amount_check_e
}.
#[export] Instance eta_pb_callback_context_t : Eta pb_callback_context_t := λ c,
  Build_pb_callback_context_t (cx_field_path c) (cx_has_fields c) (cx_nb_fields c)
    (cx_review_title c) (cx_review_finish c) (cx_unknown_token c) (cx_unreadable c)
    (cx_last_parsed_contract_id c) (cx_node_module c) (cx_node_entity c)
    (cx_node_choice_id c) (cx_record_depth c) (cx_values_opened c) (cx_destination c)
    (cx_amount_check c).
Definition ctx_zero : pb_callback_context_t :=
  {| cx_field_path := None; cx_has_fields := false; cx_nb_fields := 0; cx_review_title := [];
     cx_review_finish := []; cx_unknown_token := false; cx_unreadable := false;
     cx_last_parsed_contract_id := None; cx_node_module := None; cx_node_entity := None;
     cx_node_choice_id := None; cx_record_depth := 0; cx_values_opened := 0;
     cx_destination := DEST_NONE; cx_amount_check := AMOUNT_NOT_COMPARABLE |}.

(** One line of the screen: its label and its text. *)
Record nbgl_contentTagValue_t := { item : bytes; value : bytes }.

(** The static state of the file, the part of [G_context.tx_info] it works on, the context
    of the parse and its [label_read_t] locals, innermost first.  [dp_pairs] is [None] for
    the NULL pointer, and lists the [pairs_count] entries that are filled. *)
Record dp_state := {
  dp_clock : nat;
  dp_store : store_t;
  dp_fields : list tx_field_t;
  dp_md_identifiers : option (list identifier_config_t);
  dp_md_conf : option display_config_t;
  dp_expected_contract_id : option bytes;
  dp_clear_signing_available : bool;
  dp_display_failed : bool;
  dp_pairs : option (list nbgl_contentTagValue_t);
  dp_review_title : bytes;
  dp_review_finish : bytes;
  dp_ctx : pb_callback_context_t;
  dp_labels : list label_read_t
}.
#[export] Instance eta_dp_state : Eta dp_state := λ s,
  Build_dp_state (dp_clock s) (dp_store s) (dp_fields s) (dp_md_identifiers s) (dp_md_conf s)
    (dp_expected_contract_id s) (dp_clear_signing_available s) (dp_display_failed s)
    (dp_pairs s) (dp_review_title s) (dp_review_finish s) (dp_ctx s) (dp_labels s).

(** What the display parser needs of the device beside its heap and stack: which kind of
    screen it has. *)
Class Screen := screen_size_wallet : bool.

Section Parser.
Context `{Sha256} `{Device} `{Screen}.

Definition DM : Type → Type := M dp_state.

#[export] Instance dp_realloc : Realloc dp_state := λ n s,
  let s' := s <| dp_clock ::= S |> in
  if heap_has (dp_clock s) n then (Ret tt, s') else (Fail, s').
Definition stack_has_room : DM unit := λ s,
  let s' := s <| dp_clock ::= S |> in
  if stack_room (dp_clock s) then (Ret tt, s') else (Fail, s').
(** [app_mem_alloc(n) != NULL]. *)
Definition app_mem_alloc (n : Z) : DM bool := λ s,
  (Ret (heap_has (dp_clock s) n), s <| dp_clock ::= S |>).
Definition app_mem_strdup (str : bytes) : DM (option bytes) :=
  let* ok := app_mem_alloc (strlen str + 1) in
  ret (if ok : bool then Some (c_str str) else None).
Definition strdup_if (p : option bytes) : DM (option bytes) :=
  match p with Some str => app_mem_strdup str | None => ret None end.

Definition on_ctx (f : pb_callback_context_t → pb_callback_context_t) : DM unit :=
  modify (λ s, s <| dp_ctx ::= f |>).
Definition ctx_of {A} (f : pb_callback_context_t → A) : DM A := gets (λ s, f (dp_ctx s)).
Definition on_field (i : nat) (f : tx_field_t → tx_field_t) : DM unit :=
  modify (λ s, s <| dp_fields ::= alter f i |>).
(** [tx_fields[i]]; the index is always in the array. *)
Definition field_at (i : nat) (s : dp_state) : tx_field_t :=
  default tx_field_zero (dp_fields s !! i).
(** [ctx->tx_fields[0 .. nb_fields-1]]. *)
Definition used_fields (s : dp_state) : list tx_field_t :=
  take (cx_nb_fields (dp_ctx s)) (dp_fields s).

Definition reset_display_parser_state (s : dp_state) : dp_state :=
  s <| dp_md_identifiers := None |> <| dp_md_conf := None |> <| dp_expected_contract_id := None |>
    <| dp_fields := replicate MAX_DISPLAY_FIELDS_NB tx_field_zero |>.

Definition cleanup_display_items (s : dp_state) : dp_state := s <| dp_pairs := None |>.

(** ** Field formatting callbacks *)

Definition config_path (f : tx_field_t) : bytes :=
  match tf_config f with Some c => fc_path c | None => [] end.
Definition is_instrument_path (path : bytes) : bool :=
  str_eqb path (fc_path INSTRUMENT_ID_FIELD) || str_eqb path (fc_path PROXY_INSTRUMENT_ID_FIELD).
Definition is_admin_path (path : bytes) : bool :=
  str_eqb path (fc_path INSTRUMENT_ID_ADMIN_FIELD) ||
  str_eqb path (fc_path INSTRUMENT_ID_PROXY_ADMIN_FIELD).

(** The index of the last field that satisfies [p]: each match overwrites the one before. *)
Definition last_index (p : tx_field_t → bool) (l : list tx_field_t) : option nat :=
  last (omap (λ '(i, f), if p f then Some i else None) (imap pair l)).

Definition format_amount_field (i : nat) : DM unit :=
  on_field i (λ f, f <| tf_value ::= option_map (λ v,
    if strlen v =? 0 then v else format_amount v) |>).

(** Replaces the value by [value ticker]: [false] when there is no room. *)
Definition append_ticker (i : nat) (ticker : bytes) : DM bool :=
  let* f := gets (field_at i) in
  let v := default [] (tf_value f) in
  let new_len := strlen v + 1 + strlen ticker + 1 in
  let* ok := app_mem_alloc new_len in
  if ok : bool then
    do* on_field i (λ f, f <| tf_value := Some (with_ticker v ticker) |>
                           <| tf_value_len := new_len |>) in
    ret true
  else
    do* on_field i (λ f, f <| tf_store_failed := true |>) in
    ret false.

Definition find_ticker (instrument_id admin : bytes) : option instrument_to_ticker_mapping_t :=
  find (λ m, str_eqb instrument_id (itm_id m) && str_eqb admin (itm_admin m))
    INSTRUMENT_TO_TICKER_MAPPINGS.

Definition format_token_amount_field (i : nat) : DM unit :=
  do* format_amount_field i in
  let* fields := gets used_fields in
  let instrument_field := last_index (λ f, is_instrument_path (config_path f)) fields in
  let admin_field := last_index (λ f, is_admin_path (config_path f)) fields in
  let* s := get in
  match instrument_field, admin_field with
  | Some ii, Some ai =>
      match tf_value (field_at ii s), tf_value (field_at ai s) with
      | Some instrument_id, Some admin =>
          match find_ticker instrument_id admin with
          | None => on_ctx (λ c, c <| cx_unknown_token := true |>)
          | Some m =>
              let* appended := append_ticker i (itm_ticker m) in
              if negb appended then ret tt
              else
                do* on_field ii (λ f, f <| tf_display := false |>) in
                do* on_field ai (λ f, f <| tf_display := false |>) in
                on_ctx (λ c,
                  if str_eqb (itm_ticker m) NATIVE_COIN_TICKER &&
                     str_eqb (cx_review_title c) TOKEN_TRANSFER_REVIEW_TITLE
                  then c <| cx_review_title := NATIVE_COIN_TRANSFER_REVIEW_TITLE |>
                         <| cx_review_finish := NATIVE_COIN_TRANSFER_REVIEW_FINISH |>
                  else c)
          end
      | _, _ => ret tt
      end
  | _, _ => ret tt
  end.

Definition format_native_amount_field (i : nat) : DM unit :=
  do* format_amount_field i in
  do* append_ticker i NATIVE_COIN_TICKER in
  ret tt.

Definition format_timestamp_field (i : nat) : DM unit :=
  let* f := gets (field_at i) in
  match tf_value f with
  | None => ret tt
  | Some v =>
      match format_timestamp_value screen_size_wallet v with
      | None => on_field i (λ f, f <| tf_store_failed := true |>)
      | Some text =>
          let* ok := app_mem_alloc 64 in
          if ok : bool
          then on_field i (λ f, f <| tf_value := Some text |> <| tf_value_len := strlen text + 1 |>)
          else on_field i (λ f, f <| tf_store_failed := true |>)
      end
  end.

Definition run_format (cb : field_format_callback_t) (i : nat) : DM unit :=
  match cb with
  | no_format => ret tt
  | format_token_amount => format_token_amount_field i
  | format_native_amount => format_native_amount_field i
  | format_timestamp => format_timestamp_field i
  end.

(** ** Display management *)

Definition find_field_by_path (path : bytes) (s : dp_state) : option nat :=
  if cx_has_fields (dp_ctx s)
  then option_map fst (list_find (λ f, str_eqb (config_path f) path = true) (used_fields s))
  else None.

Definition init_transaction_pairs (count : nat) : DM bool :=
  let* ok := app_mem_alloc (Z.of_nat count * 16) in
  do* modify (λ s, s <| dp_pairs := if ok : bool then Some [] else None |>) in
  ret ok.

(** The value [set_field_value] stores: a text, or the eight bytes of a timestamp. *)
Inductive stored_value := stored_text (s : bytes) | stored_timestamp (t : Z).

Definition set_field_value (i : nat) (v : stored_value) : DM unit :=
  let* f := gets (field_at i) in
  if tf_matched f then on_field i (λ f, f <| tf_store_failed := true |>)
  else
    do* on_field i (λ f, f <| tf_matched := true |>) in
    let src := match v with stored_text s => c_str s | stored_timestamp t => be64 (u64 t) end in
    let len := match v with stored_text s => strlen s + 1 | stored_timestamp _ => 8 end in
    if match v with stored_text s => strlen s =? 0 | stored_timestamp _ => false end then ret tt
    else
      let* ok := app_mem_alloc len in
      if ok : bool
      then on_field i (λ f, f <| tf_value := Some src |> <| tf_value_len := len |>)
      else on_field i (λ f, f <| tf_store_failed := true |>).

(** The string is moved, so nothing is allocated. *)
Definition take_field_value (i : nat) (v : bytes) : DM unit :=
  let* f := gets (field_at i) in
  if tf_matched f then on_field i (λ f, f <| tf_store_failed := true |>)
  else
    do* on_field i (λ f, f <| tf_matched := true |>) in
    if strlen v =? 0 then ret tt
    else if Z.of_nat MAX_FIELD_VALUE_LEN <? strlen v
    then on_field i (λ f, f <| tf_store_failed := true |>)
    else on_field i (λ f, f <| tf_value := Some v |> <| tf_value_len := strlen v + 1 |>).

(** The loop that initialises the states of the fields a screen has. *)
Definition init_fields (source : list field_config_t) (fields : list tx_field_t)
  : list tx_field_t :=
  imap (λ i f, match source !! i with
               | Some c => f <| tf_config := Some c |> <| tf_matched := false |>
                             <| tf_display := true |> <| tf_store_failed := false |>
               | None => f
               end) fields.

(** The end of [set_display_config], once the states of the fields are initialised. *)
Definition fill_screen (config : display_config_t) : DM unit :=
  let* ok := init_transaction_pairs (length (dc_fields config)) in
  do* assert_that ok in
  if str_eqb (dc_review_title config) PREAPPROVAL_PROPOSAL_REVIEW_TITLE then
    do* on_field PREAPPROVAL_ASSET_FIELD_INDEX
          (λ f, f <| tf_config := Some PREAPPROVAL_ASSET_FIELD |>) in
    set_field_value PREAPPROVAL_ASSET_FIELD_INDEX (stored_text PREAPPROVAL_ASSET_FIELD_VALUE)
  else ret tt.

Definition set_display_config (config : display_config_t) : DM unit :=
  do* on_ctx (λ c, c <| cx_nb_fields := length (dc_fields config) |>
                     <| cx_review_title := dc_review_title config |>
                     <| cx_review_finish := dc_review_finish config |>
                     <| cx_destination := dc_destination config |>
                     <| cx_amount_check := dc_amount_check config |>) in
  do* modify (λ s, s <| dp_fields ::= init_fields (dc_fields config) |>) in
  do* on_ctx (λ c, c <| cx_has_fields := true |>) in
  fill_screen config.

Definition set_node_identity (contract_id : option bytes) (template_id : option Identifier)
    (choice_id : option bytes) : DM unit :=
  let* cid := strdup_if contract_id in
  let* m := strdup_if (template_id ≫= module_name) in
  let* e := strdup_if (template_id ≫= entity_name) in
  let* choice := strdup_if choice_id in
  on_ctx (λ c, c <| cx_last_parsed_contract_id := cid |> <| cx_node_module := m |>
                 <| cx_node_entity := e |> <| cx_node_choice_id := choice |>).

(** The throwaway struct has no callbacks: whatever callback it would call, it calls none. *)
Definition no_run (c : dcb) (stream : istream) : DM istream := ret stream.

Definition read_exercise_identity (stream : istream) : DM unit :=
  let* tmp := attempt (pb_decode_inner (Exercise_fields no_run) stream Node_ExerciseCb_zero) in
  match tmp with
  | Some tmp => set_node_identity (e_contract_id tmp)
      (if e_has_template_id tmp then Some (e_template_id tmp) else None) (e_choice_id tmp)
  | None => set_node_identity None None None
  end.
Definition read_create_identity (stream : istream) : DM unit :=
  let* tmp := attempt (pb_decode_inner (Create_fields no_run) stream Node_CreateCb_zero) in
  match tmp with
  | Some tmp => set_node_identity (c_contract_id tmp)
      (if c_has_template_id tmp then Some (c_template_id tmp) else None) None
  | None => set_node_identity None None None
  end.

Definition opt_eqb (a b : option bytes) : bool :=
  match a, b with Some a, Some b => str_eqb a b | _, _ => false end.

Definition is_node_template (c : pb_callback_context_t) (m e : option bytes) : bool :=
  opt_eqb m (cx_node_module c) && opt_eqb e (cx_node_entity c).

Definition config_matches_node_action (c : pb_callback_context_t) (config : display_config_t)
    (id : Identifier) : bool :=
  match cx_node_choice_id c with
  | None => is_node_template c (module_name id) (entity_name id)
  | Some _ =>
      existsb (λ n, is_node_template c (Some (idc_module n)) (Some (idc_entity n)))
        (dc_node_identifiers config) &&
      opt_eqb (entity_name id) (cx_node_choice_id c)
  end.

(** [strcmp] on a missing name is undefined in C.  The hashing parser read the same record
    before and refuses it ([HASH_ERROR_MISSING_FIELD]), so here it matches nothing. *)
Definition match_identifier (id : Identifier) (config : identifier_config_t) : bool :=
  opt_str_eqb (module_name id) (idc_module config) &&
  opt_str_eqb (entity_name id) (idc_entity config).

Definition find_tx_type_and_config (id : Identifier) : DM unit :=
  let* s := get in
  let c := dp_ctx s in
  if cx_has_fields c then ret tt
  else
    let contract_id_matches :=
      opt_eqb (cx_last_parsed_contract_id c) (dp_expected_contract_id s) in
    let deferred :=
      match dp_md_identifiers s with
      | Some ids => existsb (λ config, match_identifier id config && contract_id_matches &&
                      is_node_template c (module_name id) (entity_name id)) ids
      | None => false
      end in
    match deferred, dp_md_conf s with
    | true, Some conf => set_display_config conf
    | true, None => abort
    | false, _ =>
        match find (λ config, match_identifier id (dc_identifier config) &&
                              config_matches_node_action c config id) DISPLAY_CONFIGS with
        | None => ret tt
        | Some config =>
            match dc_metadata_contract_identifiers config with
            | [] => set_display_config config
            | ids =>
                do* modify (λ s, s <| dp_md_identifiers := Some ids |>
                                   <| dp_md_conf := Some config |>
                                   <| dp_expected_contract_id := None |>) in
                let* expected := strdup_if (cx_last_parsed_contract_id c) in
                modify (λ s, s <| dp_expected_contract_id := expected |>)
            end
        end
    end.

Definition find_tx_field (v : cbValue dcb) : DM unit :=
  let* s := get in
  let str := match v_union v with U_str p => p | _ => None end in
  match cx_has_fields (dp_ctx s), cx_field_path (dp_ctx s) with
  | true, Some path =>
      match find_field_by_path path s with
      | None => ret tt
      | Some i =>
          if (which_sum v =? VALUE_PARTY_TAG) || (which_sum v =? VALUE_NUMERIC_TAG) ||
             (which_sum v =? VALUE_TEXT_TAG) then
            match str with
            | Some str => take_field_value i str
            | None => abort
            end
          else if which_sum v =? VALUE_TIMESTAMP_TAG then
            set_field_value i (stored_timestamp (match v_union v with U_int t => t | _ => 0 end))
          else if which_sum v =? VALUE_OPTIONAL_TAG then ret tt
          else on_field i (λ f, f <| tf_store_failed := true |>)
      end
  | _, _ => ret tt
  end.

(** ** Field path *)

Definition init_field_path : DM unit :=
  let* ok := app_mem_alloc (Z.of_nat MAX_FIELD_PATH_LEN) in
  on_ctx (λ c, c <| cx_field_path := if ok : bool then Some [] else None |>).

(** Every dot of a segment is escaped. *)
Definition escape_dots (segment : bytes) : bytes :=
  flat_map (λ c, if c =? dot_char then [92; c] else [c]) segment.

Definition push_path (new_segment : bytes) (c : pb_callback_context_t) : pb_callback_context_t :=
  match cx_has_fields c, cx_field_path c with
  | true, Some path =>
      let segment := escape_dots (c_str new_segment) in
      if (MAX_FIELD_PATH_LEN <=? length path + 1 + length segment)%nat
      then c <| cx_unreadable := true |>
      else c <| cx_field_path :=
             Some ((if (0 <? length path)%nat then path ++ [dot_char] else path) ++ segment) |>
  | _, _ => c
  end.

Definition unreadable (c : pb_callback_context_t) : pb_callback_context_t :=
  c <| cx_unreadable := true |>.

Definition parent_len (c : pb_callback_context_t) : nat :=
  match cx_field_path c with Some path => length path | None => 0 end.
(** [ctx->field_path[parent_len] = '\0']. *)
Definition cut_path (len : nat) (c : pb_callback_context_t) : pb_callback_context_t :=
  c <| cx_field_path ::= option_map (take len) |>.

(** ** Decoding callbacks *)

Definition read_path_segment (stream : istream) : DM istream :=
  if (DEFAULT_DECODE_BUFFER_SIZE <=? length stream)%nat then
    do* on_ctx unreadable in
    ret []
  else
    let* (buffer, stream) := of_option (pb_read (length stream) stream) in
    do* (if (length buffer =? 0)%nat || negb (no_nulb buffer) then on_ctx unreadable
         else on_ctx (push_path buffer)) in
    ret stream.

(** [decode_record_field_label] and [decode_textmap_key]: the segment's [label_read_t] is
    marked, and a value opened before it makes the node unreadable. *)
Definition mark_segment : DM unit :=
  do* modify (λ s, s <| dp_labels ::= λ l,
    match l with lr :: l' => lr <| lr_seen := true |> :: l' | [] => [] end |>) in
  modify (λ s,
    if cx_values_opened (dp_ctx s) =?
       match dp_labels s with lr :: _ => lr_values_before lr | [] => 0 end
    then s else s <| dp_ctx ::= unreadable |>).
Definition decode_record_field_label (stream : istream) : DM istream :=
  do* mark_segment in
  read_path_segment stream.
Definition decode_textmap_key (stream : istream) : DM istream :=
  do* mark_segment in
  read_path_segment stream.

Definition decode_record_id_field (stream : istream) : DM istream :=
  let* id := pb_decode_inner Identifier_fields stream Identifier_zero in
  let* depth := ctx_of cx_record_depth in
  do* (if depth =? 1 then find_tx_type_and_config id else ret tt) in
  ret [].

Definition push_label : DM unit := modify (λ s, s <| dp_labels ::= λ l,
  {| lr_seen := false; lr_values_before := cx_values_opened (dp_ctx s) |} :: l |>).
Definition pop_label : DM bool :=
  let* seen := gets (λ s, match dp_labels s with lr :: _ => lr_seen lr | [] => false end) in
  do* modify (λ s, s <| dp_labels ::= tail |>) in
  ret seen.

Section Open.
Variable run : dcb → istream → DM istream.
Variable run_sum : dcb → Z → istream → cbValue dcb → DM (istream * cbValue dcb).

Definition variant_value : cbValue dcb := cbValue_zero <| cb_sum := Some decode_value_variant_cb |>.

(** Without a screen the field is skipped: the stream is left as it is. *)
Definition decode_record_field (stream : istream) : DM istream :=
  let* has_fields := ctx_of cx_has_fields in
  if negb has_fields then ret stream
  else
    do* stack_has_room in
    let* len := ctx_of parent_len in
    do* push_label in
    let* rf := pb_decode_inner (Labelled_fields run run_sum) stream
      (cbLabelled_zero <| lb_label := Some decode_record_field_label_cb |>
                       <| lb_value := variant_value |>) in
    let* seen := pop_label in
    do* (if seen : bool then ret tt else on_ctx unreadable) in
    do* find_tx_field (lb_value rf) in
    do* on_ctx (cut_path len) in
    ret [].

Definition decode_value (stream : istream) : DM istream :=
  do* stack_has_room in
  let* v := pb_decode_inner (Value_fields run run_sum) stream variant_value in
  do* find_tx_field v in
  ret [].

Definition decode_value_text_map (stream : istream) : DM istream :=
  do* stack_has_room in
  let* len := ctx_of parent_len in
  do* push_label in
  let* entry := pb_decode_inner (Labelled_fields run run_sum) stream
    (cbLabelled_zero <| lb_label := Some decode_textmap_key_cb |> <| lb_value := variant_value |>) in
  let* seen := pop_label in
  let* has_fields := ctx_of cx_has_fields in
  do* (if negb seen && has_fields then on_ctx unreadable else ret tt) in
  do* find_tx_field (lb_value entry) in
  do* on_ctx (cut_path len) in
  ret [].

Definition decode_value_variant (tag : Z) (stream : istream) (v : cbValue dcb)
  : DM (istream * cbValue dcb) :=
  do* on_ctx (λ c, c <| cx_values_opened ::= λ n, u32 (n + 1) |>) in
  if tag =? VALUE_RECORD_TAG then
    let record := (Some decode_record_id_field_cb, Some decode_record_field_cb) in
    do* on_ctx (λ c, c <| cx_record_depth ::= λ d, u8 (d + 1) |>) in
    let* decoded := attempt (pb_decode_inner (record_fields run) stream record) in
    do* on_ctx (λ c, c <| cx_record_depth ::= λ d, u8 (d - 1) |>) in
    let* r := of_option decoded in
    ret ([], v <| v_union := U_record (fst r) (snd r) |>)
  else if tag =? VALUE_OPTIONAL_TAG then
    ret (stream, v <| v_union := U_optional (Some decode_value_cb) |>)
  else if tag =? VALUE_TEXT_MAP_TAG then
    ret (stream, v <| v_union := U_text_map (Some decode_value_text_map_cb) |>)
  else ret (stream, v).

Definition decode_create (stream : istream) : DM istream :=
  do* read_create_identity stream in
  do* pb_decode_inner (Create_fields run) stream
        (Node_CreateCb_zero <| c_argument := Some decode_value_cb |>) in
  ret [].
End Open.

Definition node_decode_callback (tag : Z) (stream : istream) (node : NodeDisplay dcb)
  : DM (istream * NodeDisplay dcb) :=
  if tag =? NODE_V1_EXERCISE_TAG then
    let e := match nd_union node with ND_exercise e => e | _ => Node_ExerciseDisplay_zero end in
    do* read_exercise_identity stream in
    ret (stream, node <| nd_union := ND_exercise (e <| ed_chosen_value ::= λ v,
                           v <| cb_sum := Some decode_value_variant_cb |> |>) |>)
  else if tag =? NODE_V1_CREATE_TAG then
    let c := match nd_union node with ND_create c => c | _ => Node_CreateDisplay_zero end in
    do* read_create_identity stream in
    ret (stream, node <| nd_union := ND_create (c <| cd_argument ::= λ v,
                           v <| cb_sum := Some decode_value_variant_cb |> |>) |>)
  else ret (stream, node).

Definition versioned_node_decode_callback (stream : istream)
    (node : DeviceNode dcb (NodeDisplay dcb)) : DM (istream * DeviceNode dcb (NodeDisplay dcb)) :=
  ret (stream,
    if dn_which node =? NODE_V1_TAG
    then node <| dn_v1 ::= λ n, n <| nd_cb_node_type := Some node_decode_callback_cb |> |>
    else node).

(** ** The function pointer call *)

Fixpoint run_all (fuel : nat) : (dcb → istream → DM istream) *
    (dcb → Z → istream → cbValue dcb → DM (istream * cbValue dcb)) :=
  match fuel with
  | O => (λ _ _, nofuel, λ _ _ _ _, nofuel)
  | Datatypes.S fuel =>
      let both := run_all fuel in
      let run := fst both in
      let run_sum := snd both in
      (λ c stream,
         match c with
         | decode_record_field_label_cb => decode_record_field_label stream
         | decode_record_id_field_cb => decode_record_id_field stream
         | decode_record_field_cb => decode_record_field run run_sum stream
         | decode_value_cb => decode_value run run_sum stream
         | decode_textmap_key_cb => decode_textmap_key stream
         | decode_value_text_map_cb => decode_value_text_map run run_sum stream
         | decode_create_cb => decode_create run stream
         | _ => abort
         end,
       λ c tag stream v,
         match c with
         | decode_value_variant_cb => decode_value_variant run tag stream v
         | _ => abort
         end)
  end.
Definition run (fuel : nat) := fst (run_all fuel).
Definition run_sum (fuel : nat) := snd (run_all fuel).

Definition run_node (c : dcb) (tag : Z) (stream : istream) (node : NodeDisplay dcb)
  : DM (istream * NodeDisplay dcb) :=
  match c with
  | node_decode_callback_cb => node_decode_callback tag stream node
  | _ => abort
  end.
Definition run_versioned (c : dcb) (stream : istream) (node : DeviceNode dcb (NodeDisplay dcb))
  : DM (istream * DeviceNode dcb (NodeDisplay dcb)) :=
  match c with
  | versioned_node_decode_callback_cb => versioned_node_decode_callback stream node
  | _ => abort
  end.

(** ** Entry points *)

Definition display_fails (s : dp_state) : dp_state :=
  cleanup_display_items (s <| dp_clear_signing_available := false |> <| dp_display_failed := true |>).

(** One turn of the first loop: [Some ret] is [goto cleanup] with the value to return. *)
Definition format_field (i : nat) : DM (option Z) :=
  let* state := gets (field_at i) in
  if tf_store_failed state then
    do* modify display_fails in
    ret (Some 0)
  else if match tf_config state with Some c => fc_mandatory c | None => false end &&
          negb (is_set (tf_value state)) then
    do* modify (λ s, cleanup_display_items (s <| dp_clear_signing_available := false |>)) in
    ret (Some (-1))
  else
    do* (if is_set (tf_value state) && tf_display state
         then run_format (match tf_config state with Some c => fc_format c | None => no_format end) i
         else ret tt) in
    let* state := gets (field_at i) in
    let* unknown_token := ctx_of cx_unknown_token in
    if tf_store_failed state || unknown_token then
      do* modify display_fails in
      ret (Some 0)
    else ret None.

Fixpoint format_fields (ids : list nat) : DM (option Z) :=
  match ids with
  | [] => ret None
  | i :: ids =>
      let* stop := format_field i in
      match stop with
      | Some r => ret (Some r)
      | None => format_fields ids
      end
  end.

(** The second loop: the screen takes the values over. *)
Definition shown_pair (f : tx_field_t) : option nbgl_contentTagValue_t :=
  match tf_display f, tf_value f, tf_config f ≫= fc_item_name with
  | true, Some v, Some name => Some {| item := name; value := v |}
  | _, _, _ => None
  end.
Definition populate (s : dp_state) : dp_state :=
  s <| dp_pairs := Some (omap shown_pair (used_fields s)) |>
    <| dp_clear_signing_available := true |>.

Definition format_and_populate_display_items : DM Z :=
  do* modify (λ s, s <| dp_store ::= values_bind_from_display (used_fields s)
                          (cx_destination (dp_ctx s)) (cx_amount_check (dp_ctx s)) |>) in
  let* unreadable := ctx_of cx_unreadable in
  let* r :=
    (if unreadable : bool then
       do* modify display_fails in
       ret (Some 0)
     else
       let* nb := ctx_of cx_nb_fields in
       format_fields (seq 0 nb)) in
  do* modify (λ s, match r with None => populate s | Some _ => s end) in
  do* modify reset_display_parser_state in
  ret (default 0 r).

Definition clean_ctx (c : pb_callback_context_t) : pb_callback_context_t :=
  c <| cx_field_path := None |> <| cx_last_parsed_contract_id := None |>
    <| cx_node_module := None |> <| cx_node_entity := None |> <| cx_node_choice_id := None |>.

(** [process_display_parsing], after [dest] is given its callback: [decode] decodes it. *)
Definition process_display_parsing (decode : DM unit) : DM Z :=
  do* on_ctx (λ _, ctx_zero) in
  do* init_field_path in
  let* status := attempt decode in
  do* on_ctx clean_ctx in
  match status with
  | None =>
      do* modify (λ s, reset_display_parser_state (cleanup_display_items s)) in
      ret (-1)
  | Some _ =>
      let* has_fields := ctx_of cx_has_fields in
      if negb has_fields then
        do* modify (λ s, s <| dp_clear_signing_available := false |>) in
        ret 0
      else
        let* r := format_and_populate_display_items in
        if negb (r =? 0) then ret (-1)
        else
          do* modify (λ s, s <| dp_review_title := cx_review_title (dp_ctx s) |>
                             <| dp_review_finish := cx_review_finish (dp_ctx s) |>) in
          ret 0
  end.

Definition parse_fuel (buf : bytes) : nat := S (length buf).
Definition node_msg (fuel : nat) := DeviceNode_fields (run fuel) run_versioned NodeDisplay_zero
  (NodeDisplay_fields (run fuel) (run_sum fuel) run_node).
Definition input_contract_msg (fuel : nat) := InputContract_fields (run fuel).

Definition display_busy (s : dp_state) : bool :=
  dp_clear_signing_available s || dp_display_failed s.

Definition parse_node_for_display (buf : bytes) : DM Z :=
  let* s := get in
  if display_busy s || is_set (dp_md_identifiers s) then ret 0
  else
    do* modify reset_display_parser_state in
    process_display_parsing (
      do* pb_decode_inner (node_msg (parse_fuel buf)) buf
            (Build_DeviceNode None (Some versioned_node_decode_callback_cb) 0 NodeDisplay_zero) in
      ret tt).

Definition parse_input_contract_for_display (buf : bytes) : DM Z :=
  let* s := get in
  if display_busy s || negb (is_set (dp_md_identifiers s)) then ret 0
  else
    process_display_parsing (
      do* pb_decode_inner (input_contract_msg (parse_fuel buf)) buf
            (Build_InputContract (Some decode_create_cb) 0 0) in
      ret tt).

(** ** The invariant of a parse

    [screen conf s]: the screen of [conf] is the one being filled. *)

Record screen (conf : display_config_t) (s : dp_state) : Prop := {
  sc_nb : cx_nb_fields (dp_ctx s) = length (dc_fields conf);
  sc_destination : cx_destination (dp_ctx s) = dc_destination conf;
  sc_amount_check : cx_amount_check (dp_ctx s) = dc_amount_check conf;
  sc_title : cx_review_title (dp_ctx s) = dc_review_title conf;
  sc_finish : cx_review_finish (dp_ctx s) = dc_review_finish conf;
  sc_config : ∀ i c, dc_fields conf !! i = Some c → ∃ f, dp_fields s !! i = Some f ∧
    tf_display f = true ∧
    (tf_config f = Some c ∨ tf_config f = Some PREAPPROVAL_ASSET_FIELD)
}.

(** What the walk over a node of state [s0] never changes, and what it keeps. *)
Record walking (s0 s : dp_state) : Prop := {
  wk_store : dp_store s = dp_store s0;
  wk_available : dp_clear_signing_available s = dp_clear_signing_available s0;
  wk_failed : dp_display_failed s = dp_display_failed s0;
  wk_fields : length (dp_fields s) = MAX_DISPLAY_FIELDS_NB;
  wk_path : ∀ path, cx_field_path (dp_ctx s) = Some path → (length path < MAX_FIELD_PATH_LEN)%nat;
  wk_conf : ∀ conf, dp_md_conf s = Some conf → conf ∈ DISPLAY_CONFIGS;
  wk_deferred : is_set (dp_md_identifiers s) = is_set (dp_md_conf s);
  wk_screen : cx_has_fields (dp_ctx s) = true → ∃ conf, conf ∈ DISPLAY_CONFIGS ∧ screen conf s
}.

Ltac walk_steps :=
  match goal with G : walking _ ?s |- walking _ _ => destruct G; split; cbn in *; try done end.

(** A change of a field that leaves its configuration alone keeps a screen. *)
Lemma screen_on_field conf s i f : (∀ x, tf_config (f x) = tf_config x) →
  (∀ x, tf_display (f x) = tf_display x) →
  screen conf s → screen conf (s <| dp_fields ::= alter f i |>).
Proof.
  intros Hf Hd [N D A T F C]. split; try done. intros j c Hc. destruct (C j c Hc) as (g & Hg & Ec).
  cbn. destruct (decide (i = j)) as [->|Hij].
  - exists (f g). rewrite list_lookup_alter_eq, Hg. cbn. by rewrite Hf, Hd.
  - exists g. by rewrite list_lookup_alter_ne.
Qed.

Lemma screen_preapproval conf s : screen conf s → screen conf (s <| dp_fields ::=
  alter (λ f, f <| tf_config := Some PREAPPROVAL_ASSET_FIELD |>) PREAPPROVAL_ASSET_FIELD_INDEX |>).
Proof.
  intros [N D A T F C]. split; try done. intros i c Hi. destruct (C i c Hi) as (f & Hf & Df & Ef).
  cbn. destruct (decide (PREAPPROVAL_ASSET_FIELD_INDEX = i)) as [<-|Hne].
  - eexists. rewrite list_lookup_alter_eq, Hf. cbn. eauto.
  - exists f. by rewrite list_lookup_alter_ne.
Qed.

Lemma screen_same conf s s' : dp_fields s' = dp_fields s →
  cx_nb_fields (dp_ctx s') = cx_nb_fields (dp_ctx s) →
  cx_destination (dp_ctx s') = cx_destination (dp_ctx s) →
  cx_amount_check (dp_ctx s') = cx_amount_check (dp_ctx s) →
  cx_review_title (dp_ctx s') = cx_review_title (dp_ctx s) →
  cx_review_finish (dp_ctx s') = cx_review_finish (dp_ctx s) →
  screen conf s → screen conf s'.
Proof. intros F N D A T Fi [N' D' A' T' Fi' C']. split; rewrite ?F; congruence || done. Qed.

Section Invariant.
Variable s0 : dp_state.
Abbreviation W := (walking s0).

Lemma walk_ctx s f : W s →
  (∀ c, cx_has_fields (f c) = cx_has_fields c) → (∀ c, cx_nb_fields (f c) = cx_nb_fields c) →
  (∀ c, cx_destination (f c) = cx_destination c) → (∀ c, cx_amount_check (f c) = cx_amount_check c) →
  (∀ c, cx_review_title (f c) = cx_review_title c) → (∀ c, cx_review_finish (f c) = cx_review_finish c) →
  (∀ path, cx_field_path (f (dp_ctx s)) = Some path → (length path < MAX_FIELD_PATH_LEN)%nat) →
  W (s <| dp_ctx ::= f |>).
Proof.
  intros G Hh Hn Hd Ha Ht Hf Hp. walk_steps. rewrite Hh. intros Hs.
  destruct (wk_screen0 Hs) as (conf & Hc & Hsc). exists conf. split; [done|].
  eapply screen_same; [..|exact Hsc]; cbn; done.
Qed.

Lemma on_ctx_safe f :
  (∀ c, cx_has_fields (f c) = cx_has_fields c) → (∀ c, cx_nb_fields (f c) = cx_nb_fields c) →
  (∀ c, cx_destination (f c) = cx_destination c) → (∀ c, cx_amount_check (f c) = cx_amount_check c) →
  (∀ c, cx_review_title (f c) = cx_review_title c) → (∀ c, cx_review_finish (f c) = cx_review_finish c) →
  (∀ c, cx_field_path (f c) = cx_field_path c) → keeps W (on_ctx f).
Proof.
  intros Hh Hn Hd Ha Ht Hf Hp. apply safe_modify. intros s G. apply walk_ctx; try done.
  rewrite Hp. apply (wk_path _ _ G).
Qed.

Lemma walk_clock s : W s → W (s <| dp_clock ::= S |>).
Proof.
  intros G. walk_steps. intros Hs. destruct (wk_screen0 Hs) as (conf & Hc & Hsc).
  exists conf. split; [done|]. by eapply screen_same; [..|exact Hsc].
Qed.
Lemma dp_realloc_safe n : keeps W (pb_realloc n).
Proof.
  intros s Hs. unfold pb_realloc, dp_realloc. destruct (heap_has _ _); [split; [|done]|];
    by apply walk_clock.
Qed.
Lemma dp_stack_has_room_safe : keeps W stack_has_room.
Proof.
  intros s Hs. unfold stack_has_room. destruct (stack_room _); [split; [|done]|];
    by apply walk_clock.
Qed.
Lemma app_mem_alloc_safe n : keeps W (app_mem_alloc n).
Proof. intros s Hs. split; [by apply walk_clock|done]. Qed.
Lemma strdup_if_safe p : keeps W (strdup_if p).
Proof.
  destruct p; [|by apply safe_ret]. unfold strdup_if, app_mem_strdup.
  apply safe_seq; [apply app_mem_alloc_safe|]. intros []; by apply safe_ret.
Qed.
Lemma on_field_safe i f : (∀ x, tf_config (f x) = tf_config x) →
  (∀ x, tf_display (f x) = tf_display x) → keeps W (on_field i f).
Proof.
  intros Hf Hd. apply safe_modify. intros s G. walk_steps; [by rewrite length_alter|].
  intros Hs. destruct (wk_screen0 Hs) as (conf & Hc & Hsc). exists conf. split; [done|].
  by apply screen_on_field.
Qed.
Lemma labels_safe f : keeps W (modify (λ s, s <| dp_labels := f s |>)).
Proof.
  apply safe_modify. intros s G. walk_steps.
  intros Hs. destruct (wk_screen0 Hs) as (conf & Hc & Hsc). exists conf. split; [done|].
  by eapply screen_same; [..|exact Hsc].
Qed.
#[local] Hint Resolve dp_realloc_safe dp_stack_has_room_safe app_mem_alloc_safe strdup_if_safe : safe pb.
#[local] Hint Extern 1 (safe _ _ (on_ctx _)) => apply on_ctx_safe; solve [done|by intros []] : safe.
#[local] Hint Extern 1 (safe _ _ (on_field _ _)) => apply on_field_safe; solve [done] : safe.
#[local] Hint Extern 1 (safe _ _ (ctx_of _)) => apply safe_gets : safe.

Lemma push_path_safe seg : keeps W (on_ctx (push_path seg)).
Proof.
  apply safe_modify. intros s G. apply walk_ctx;
    try (intros c; unfold push_path; repeat case_match; cbn; congruence).
  - done.
  - unfold push_path. pose proof (wk_path _ _ G) as Hp.
    destruct (cx_has_fields (dp_ctx s)); [|exact Hp].
    destruct (cx_field_path (dp_ctx s)) as [path|] eqn:E; [|by rewrite E]. specialize (Hp path eq_refl).
    destruct (Nat.leb_spec MAX_FIELD_PATH_LEN (length path + 1 + length (escape_dots (c_str seg))))
      as [Hl|Hl]; cbn -[Nat.ltb MAX_FIELD_PATH_LEN].
    + rewrite E. by intros p [= <-].
    + intros p [= <-]. rewrite length_app.
      destruct (0 <? length path)%nat; rewrite ?length_app; cbn [length]; lia.
Qed.
Lemma cut_path_safe n : keeps W (on_ctx (cut_path n)).
Proof.
  apply safe_modify. intros s G. apply walk_ctx; try done. pose proof (wk_path _ _ G) as Hp.
  cbn. destruct (cx_field_path (dp_ctx s)) as [path|]; [|done].
  intros p [= <-]. specialize (Hp path eq_refl). rewrite length_take. lia.
Qed.
#[local] Hint Resolve push_path_safe cut_path_safe : safe.

Lemma set_field_value_safe i v : keeps W (set_field_value i v).
Proof. unfold set_field_value. safe_steps; by apply safe_ret. Qed.
Lemma take_field_value_safe i v : keeps W (take_field_value i v).
Proof. unfold take_field_value. safe_steps; by apply safe_ret. Qed.
#[local] Hint Resolve set_field_value_safe take_field_value_safe : safe.

Lemma find_tx_field_safe v : keeps W (find_tx_field v).
Proof.
  unfold find_tx_field. eapply safe_bind; [apply safe_get|]. intros s _.
  repeat case_match; eauto with safe; by apply safe_ret.
Qed.

(** *** Choosing a screen *)

Lemma walk_same_ctx s s' : dp_ctx s' = dp_ctx s → dp_fields s' = dp_fields s →
  dp_store s' = dp_store s → dp_clear_signing_available s' = dp_clear_signing_available s →
  dp_display_failed s' = dp_display_failed s →
  (∀ conf, dp_md_conf s' = Some conf → conf ∈ DISPLAY_CONFIGS) →
  is_set (dp_md_identifiers s') = is_set (dp_md_conf s') → W s → W s'.
Proof.
  intros E F St A D C I G. destruct G. split; rewrite ?E, ?F, ?St, ?A, ?D; try done.
  intros Hs. destruct (wk_screen0 Hs) as (conf & Hc & Hsc). exists conf. split; [done|].
  by eapply screen_same; [..|exact Hsc]; rewrite ?E.
Qed.

Lemma init_transaction_pairs_safe n : keeps W (init_transaction_pairs n).
Proof.
  unfold init_transaction_pairs. apply safe_seq; [apply app_mem_alloc_safe|]. intros ok.
  apply safe_seq; [|intros; by apply safe_ret].
  apply safe_modify. intros s G. apply (walk_same_ctx s); try done; apply G.
Qed.

Lemma preapproval_field_safe :
  keeps W (on_field PREAPPROVAL_ASSET_FIELD_INDEX (λ f, f <| tf_config := Some PREAPPROVAL_ASSET_FIELD |>)).
Proof.
  apply safe_modify. intros s G. walk_steps; [by rewrite length_alter|].
  intros Hs. destruct (wk_screen0 Hs) as (conf & Hc & Hsc). exists conf.
  split; [done|]. by apply screen_preapproval.
Qed.

Lemma display_configs_fit : Forall (λ c, (length (dc_fields c) ≤ MAX_DISPLAY_FIELDS_NB)%nat) DISPLAY_CONFIGS.
Proof. unfold DISPLAY_CONFIGS, MAX_DISPLAY_FIELDS_NB. repeat constructor; cbn; lia. Qed.

Definition open_screen (conf : display_config_t) (s : dp_state) : dp_state :=
  s <| dp_ctx ::= λ c, c <| cx_nb_fields := length (dc_fields conf) |>
         <| cx_review_title := dc_review_title conf |>
         <| cx_review_finish := dc_review_finish conf |>
         <| cx_destination := dc_destination conf |>
         <| cx_amount_check := dc_amount_check conf |> <| cx_has_fields := true |> |>
    <| dp_fields ::= init_fields (dc_fields conf) |>.

Lemma open_screen_screen conf s : conf ∈ DISPLAY_CONFIGS →
  length (dp_fields s) = MAX_DISPLAY_FIELDS_NB → screen conf (open_screen conf s).
Proof.
  intros Hc Hl. split; try done. intros i c Hi. cbn. unfold init_fields.
  assert (is_Some (dp_fields s !! i)) as [f Hf].
  { apply lookup_lt_is_Some. apply lookup_lt_Some in Hi.
    pose proof (proj1 (Forall_forall _ _) display_configs_fit conf Hc). cbn in *. lia. }
  eexists. rewrite list_lookup_imap, Hf. cbn. rewrite Hi. split; [done|]. split; [done|]. by left.
Qed.

Lemma set_display_config_safe conf : conf ∈ DISPLAY_CONFIGS → keeps W (set_display_config conf).
Proof.
  intros Hc s G. assert (G' : W (open_screen conf s)).
  { pose proof (open_screen_screen conf s Hc (wk_fields _ _ G)) as Hsc.
    destruct G. split; try done; [cbn; unfold init_fields; by rewrite length_imap|].
    intros _. by exists conf. }
  assert (Hrest : keeps W (fill_screen conf)).
  { apply safe_seq; [apply init_transaction_pairs_safe|]. intros ok.
    apply safe_seq; [apply safe_assert|]. intros _. case_match; [|by apply safe_ret].
    apply safe_seq; [apply preapproval_field_safe|intros _; apply set_field_value_safe]. }
  exact (Hrest (open_screen conf s) G').
Qed.

Lemma find_tx_type_and_config_safe id : keeps W (find_tx_type_and_config id).
Proof.
  unfold find_tx_type_and_config. eapply safe_bind; [apply safe_get|]. intros s G.
  destruct (cx_has_fields (dp_ctx s)); [by apply safe_ret|].
  destruct (match dp_md_identifiers s with Some ids => _ | None => _ end).
  { destruct (dp_md_conf s) as [conf|] eqn:E; [|apply safe_abort].
    apply set_display_config_safe. by apply (wk_conf _ _ G). }
  destruct (find _ DISPLAY_CONFIGS) as [conf|] eqn:E; [|by apply safe_ret].
  apply find_some in E as [Hin _]. apply list_elem_of_In in Hin.
  destruct (dc_metadata_contract_identifiers conf) as [|i ids];
    [by apply set_display_config_safe|].
  apply safe_seq.
  - apply safe_modify. intros s1 G1. apply (walk_same_ctx s1); try done. by intros c [= <-].
  - intros _. apply safe_seq; [apply strdup_if_safe|]. intros e.
    apply safe_modify. intros s1 G1. apply (walk_same_ctx s1); try done; apply G1.
Qed.
#[local] Hint Resolve find_tx_type_and_config_safe find_tx_field_safe : safe.

(** *** Callbacks *)

Lemma set_node_identity_safe cid t choice : keeps W (set_node_identity cid t choice).
Proof. unfold set_node_identity. safe_steps. Qed.
Lemma no_run_safe n : run_safe W no_run n.
Proof. intros c s _. by apply safe_ret. Qed.
Lemma read_exercise_identity_safe stream : keeps W (read_exercise_identity stream).
Proof.
  unfold read_exercise_identity. apply safe_seq.
  - apply safe_attempt, pb_decode_inner_safe. intros n _.
    apply Exercise_fields_safe; [apply dp_realloc_safe|apply no_run_safe].
  - intros []; apply set_node_identity_safe.
Qed.
Lemma read_create_identity_safe stream : keeps W (read_create_identity stream).
Proof.
  unfold read_create_identity. apply safe_seq.
  - apply safe_attempt, pb_decode_inner_safe. intros n _.
    apply Create_fields_safe; [apply dp_realloc_safe|apply no_run_safe].
  - intros []; apply set_node_identity_safe.
Qed.
#[local] Hint Resolve read_exercise_identity_safe read_create_identity_safe : safe.

Lemma read_path_segment_safe stream : keeps W (read_path_segment stream).
Proof. unfold read_path_segment. safe_steps; by apply safe_of_option. Qed.
Lemma mark_segment_safe : keeps W mark_segment.
Proof.
  unfold mark_segment. apply safe_seq; [apply labels_safe|]. intros _.
  apply safe_modify. intros s G. case_match; [done|].
  apply walk_ctx; try done. apply (wk_path _ _ G).
Qed.
#[local] Hint Resolve read_path_segment_safe mark_segment_safe : safe.
Lemma push_label_safe : keeps W push_label.
Proof. apply labels_safe. Qed.
Lemma pop_label_safe : keeps W pop_label.
Proof.
  unfold pop_label. apply safe_seq; [apply safe_gets|]. intros seen.
  apply safe_seq; [apply labels_safe|intros _; by apply safe_ret].
Qed.
#[local] Hint Resolve push_label_safe pop_label_safe : safe.
Lemma decode_record_id_field_safe stream : keeps W (decode_record_id_field stream).
Proof.
  unfold decode_record_id_field. apply safe_seq; [apply pb_decode_inner_safe; eauto with pb|].
  intros id. safe_steps.
Qed.

Section Callbacks.
Variable run : dcb → istream → DM istream.
Variable run_sum : dcb → Z → istream → cbValue dcb → DM (istream * cbValue dcb).
Variable stream : istream.
Hypothesis Hrun : ∀ n, length stream = S n → run_safe W run n ∧ run_sum_safe W run_sum n.

Lemma dp_labelled_msg_safe v : keeps W (pb_decode_inner (Labelled_fields run run_sum) stream v).
Proof.
  apply pb_decode_inner_safe. intros n Hn. destruct (Hrun n Hn).
  apply Labelled_fields_safe; eauto using dp_realloc_safe.
Qed.
Lemma dp_value_msg_safe v : keeps W (pb_decode_inner (Value_fields run run_sum) stream v).
Proof.
  apply pb_decode_inner_safe. intros n Hn. destruct (Hrun n Hn).
  apply Value_fields_safe; eauto using dp_realloc_safe.
Qed.
#[local] Hint Resolve dp_labelled_msg_safe dp_value_msg_safe : safe.

Lemma dp_decode_record_field_safe : keeps W (decode_record_field run run_sum stream).
Proof. unfold decode_record_field. safe_steps. Qed.
Lemma dp_decode_value_safe : keeps W (decode_value run run_sum stream).
Proof. unfold decode_value. safe_steps. Qed.
Lemma decode_value_text_map_safe : keeps W (decode_value_text_map run run_sum stream).
Proof. unfold decode_value_text_map. safe_steps. Qed.
Lemma dp_decode_create_safe : keeps W (decode_create run stream).
Proof.
  unfold decode_create. safe_steps. apply pb_decode_inner_safe. intros n Hn.
  destruct (Hrun n Hn). apply Create_fields_safe; [apply dp_realloc_safe|done].
Qed.
Lemma decode_value_variant_safe tag v :
  safe W (λ '(s', _), (length s' ≤ length stream)%nat) (decode_value_variant run tag stream v).
Proof.
  unfold decode_value_variant. safe_steps; try (by apply safe_ret); try (by apply safe_of_option).
  - apply safe_attempt, pb_decode_inner_safe. intros n Hn. destruct (Hrun n Hn) as [Hr _].
    intros t h. unfold record_fields. repeat case_match; intros [= <-]; by apply call_safe.
  - apply safe_ret. cbn. lia.
Qed.
End Callbacks.

Lemma dp_run_all_safe fuel : ∀ n, (n < fuel)%nat → run_safe W (run fuel) n ∧ run_sum_safe W (run_sum fuel) n.
Proof.
  induction fuel as [|fuel IH]; intros n Hn; [lia|].
  assert (Hrun : ∀ s : bytes, (length s ≤ n)%nat → ∀ m, length s = S m →
    run_safe W (run fuel) m ∧ run_sum_safe W (run_sum fuel) m).
  { intros s Hs m Hm. apply IH. lia. }
  split.
  - intros c s Hs. specialize (Hrun s Hs). destruct c; try apply safe_abort.
    + apply safe_seq; [apply mark_segment_safe|intros _; apply read_path_segment_safe].
    + apply decode_record_id_field_safe.
    + by apply (dp_decode_record_field_safe (run fuel) (run_sum fuel)).
    + by apply (dp_decode_value_safe (run fuel) (run_sum fuel)).
    + apply safe_seq; [apply mark_segment_safe|intros _; apply read_path_segment_safe].
    + by apply (decode_value_text_map_safe (run fuel) (run_sum fuel)).
    + by apply (dp_decode_create_safe (run fuel) (run_sum fuel)).
  - intros c tag s v Hs. specialize (Hrun s Hs). destruct c; try apply safe_abort.
    by apply (decode_value_variant_safe (run fuel) (run_sum fuel)).
Qed.

Lemma dp_node_msg_safe buf node : keeps W (pb_decode_inner (node_msg (parse_fuel buf)) buf node).
Proof.
  assert (Hrun : ∀ m, (m ≤ length buf)%nat →
    run_safe W (run (parse_fuel buf)) m ∧ run_sum_safe W (run_sum (parse_fuel buf)) m).
  { intros m Hm. apply dp_run_all_safe. unfold parse_fuel. lia. }
  apply pb_decode_inner_safe. intros n Hn. apply DeviceNode_fields_safe.
  - intros c s v. destruct c; try apply safe_abort. by apply safe_ret.
  - apply Hrun. lia.
  - intros m Hm. destruct (Hrun m) as [Hr Hs]; [lia|]. apply NodeDisplay_fields_safe; try done.
    + apply dp_realloc_safe.
    + intros c tag s v _. destruct c; try apply safe_abort. cbn [run_node].
      unfold node_decode_callback. safe_steps; by apply safe_ret.
Qed.
Lemma dp_input_contract_msg_safe buf ic :
  keeps W (pb_decode_inner (input_contract_msg (parse_fuel buf)) buf ic).
Proof.
  apply pb_decode_inner_safe. intros n Hn. apply InputContract_fields_safe.
  intros c s Hs. apply (dp_run_all_safe (parse_fuel buf) (length buf)); [unfold parse_fuel; lia|lia].
Qed.
End Invariant.

(** ** What the screen shows

    [shown_text fields fmt v v']: [v'] is how the screen writes the value [v] of a field
    formatted with [fmt], among the fields [fields]. *)

Definition amount_text (v : bytes) : bytes := if strlen v =? 0 then v else format_amount v.
Definition value_at (i : nat) (fields : list tx_field_t) : option bytes :=
  fields !! i ≫= tf_value.
Definition instrument_of (fields : list tx_field_t) : option bytes :=
  last_index (λ f, is_instrument_path (config_path f)) fields ≫= λ i, value_at i fields.
Definition admin_of (fields : list tx_field_t) : option bytes :=
  last_index (λ f, is_admin_path (config_path f)) fields ≫= λ i, value_at i fields.

Definition shown_text (fields : list tx_field_t) (fmt : field_format_callback_t) (v v' : bytes)
  : Prop :=
  match fmt with
  | no_format => v' = v
  | format_native_amount => v' = with_ticker (amount_text v) NATIVE_COIN_TICKER
  | format_token_amount =>
      match instrument_of fields, admin_of fields with
      | Some id, Some admin =>
          ∃ m, find_ticker id admin = Some m ∧ v' = with_ticker (amount_text v) (itm_ticker m)
      | _, _ => v' = amount_text v
      end
  | format_timestamp => format_timestamp_value screen_size_wallet v = Some v'
  end.

(** The token and its admin, which a ticker replaces on the screen. *)
Definition token_field (f : tx_field_t) : bool :=
  is_instrument_path (config_path f) || is_admin_path (config_path f).
Definition kept_shown (f f' : tx_field_t) : Prop :=
  tf_display f' = tf_display f ∨ tf_display f' = false ∧ token_field f = true.

(** One field before and after the field [k] is formatted with [fmt]. *)
Definition reformatted (fields : list tx_field_t) (k : nat) (fmt : field_format_callback_t)
    (v : bytes) (i : nat) (f f' : tx_field_t) : Prop :=
  tf_config f' = tf_config f ∧ kept_shown f f' ∧
  if decide (i = k)
  then tf_store_failed f' = true ∨
       tf_store_failed f' = tf_store_failed f ∧ ∃ v', tf_value f' = Some v' ∧ shown_text fields fmt v v'
  else tf_value f' = tf_value f ∧ tf_store_failed f' = tf_store_failed f.

(** What formatting leaves alone. *)
Record same_walk (s s' : dp_state) : Prop := {
  sw_store : dp_store s' = dp_store s;
  sw_available : dp_clear_signing_available s' = dp_clear_signing_available s;
  sw_failed : dp_display_failed s' = dp_display_failed s;
  sw_nb : cx_nb_fields (dp_ctx s') = cx_nb_fields (dp_ctx s);
  sw_length : length (dp_fields s') = length (dp_fields s);
  sw_conf : dp_md_conf s' = dp_md_conf s
}.

Lemma used_fields_lookup s i f : used_fields s !! i = Some f → dp_fields s !! i = Some f.
Proof. unfold used_fields. by intros [? _]%lookup_take_Some. Qed.

Lemma last_index_some p l i : last_index p l = Some i → ∃ f, l !! i = Some f ∧ p f = true.
Proof.
  unfold last_index. intros Hj%last_Some_elem_of.
  apply list_elem_of_omap in Hj as ([k f] & Hin & Hk).
  destruct (p f) eqn:E; [|done]. injection Hk as ->.
  apply list_elem_of_lookup in Hin as (n & Hn). rewrite list_lookup_imap in Hn.
  destruct (l !! n) as [g|] eqn:G; [|done]. cbn in Hn. injection Hn as <- <-. eauto.
Qed.

Lemma last_index_ext p l l' : Forall2 (λ x y, p x = p y) l l' → last_index p l = last_index p l'.
Proof.
  intros Hl. unfold last_index. f_equal.
  enough (∀ q : nat → nat, omap (λ '(i, f), if p f then Some i else None) (imap (λ i x, (q i, x)) l) =
    omap (λ '(i, f), if p f then Some i else None) (imap (λ i x, (q i, x)) l')) as E by apply (E id).
  induction Hl as [|x y l l' Hxy Hl IH]; intros q; [done|].
  rewrite !imap_cons. cbn. rewrite Hxy.
  specialize (IH (λ i, q (S i))). unfold compose.
  destruct (p y); [f_equal|]; exact IH.
Qed.

Lemma alter_Forall2 {A} (R : A → A → Prop) h k l :
  (∀ x, R x x) → (∀ x, R x (h x)) → Forall2 R l (alter h k l).
Proof.
  intros R1 R2. revert k. induction l as [|x l IH]; intros [|k]; cbn; constructor; try done.
  clear IH. induction l; by constructor.
Qed.

Lemma used_fields_alter s h k p : (∀ x, p (h x) = p x) →
  last_index p (used_fields (s <| dp_fields ::= alter h k |>)) = last_index p (used_fields s).
Proof.
  intros Hp. symmetry. apply last_index_ext. unfold used_fields. apply Forall2_take.
  by apply alter_Forall2.
Qed.

Lemma field_at_some s i f : dp_fields s !! i = Some f → field_at i s = f.
Proof. unfold field_at. by intros ->. Qed.

Lemma same_walk_refl s : same_walk s s.
Proof. by split. Qed.
Lemma same_walk_trans s1 s2 s3 : same_walk s1 s2 → same_walk s2 s3 → same_walk s1 s3.
Proof. intros [] []. split; congruence. Qed.
Lemma same_walk_field s h k : same_walk s (s <| dp_fields ::= alter h k |>).
Proof. split; try done. cbn. by rewrite length_alter. Qed.
Lemma same_walk_clock s : same_walk s (s <| dp_clock ::= S |>).
Proof. by split. Qed.

Lemma same_walk_ctx s g : (∀ c, cx_nb_fields (g c) = cx_nb_fields c) →
  same_walk s (s <| dp_ctx ::= g |>).
Proof. intros Hg. split; try done. apply Hg. Qed.

(** The amount with its ticker, or a field marked as not stored. *)
Lemma append_ticker_spec k ticker s f v : dp_fields s !! k = Some f → tf_value f = Some v →
  ∃ ok h, append_ticker k ticker s = (Ret ok, s <| dp_clock ::= S |> <| dp_fields ::= alter h k |>) ∧
    (∀ x, tf_config (h x) = tf_config x) ∧ (∀ x, tf_display (h x) = tf_display x) ∧
    if ok : bool then tf_value (h f) = Some (with_ticker v ticker) ∧
                      tf_store_failed (h f) = tf_store_failed f
    else tf_store_failed (h f) = true.
Proof.
  intros Hf Hv. unfold append_ticker, bind, gets, app_mem_alloc. rewrite (field_at_some _ _ _ Hf), Hv.
  cbn [default]. destruct (heap_has _ _).
  - exists true. eexists. split_and!; [reflexivity|done..].
  - exists false. eexists. split_and!; [reflexivity|done..].
Qed.

Lemma reformatted_other fields k fmt v i f f' : i ≠ k →
  tf_config f' = tf_config f → kept_shown f f' → tf_value f' = tf_value f →
  tf_store_failed f' = tf_store_failed f → reformatted fields k fmt v i f f'.
Proof. intros Hi C D V F. unfold reformatted. rewrite decide_False by done. done. Qed.

(** One change of the field [k] itself. *)
Lemma reformatted_alter fields k fmt v s h f : dp_fields s !! k = Some f →
  (∀ x, tf_config (h x) = tf_config x) → (∀ x, tf_display (h x) = tf_display x) →
  (tf_store_failed (h f) = true ∨ tf_store_failed (h f) = tf_store_failed f ∧
     ∃ v', tf_value (h f) = Some v' ∧ shown_text fields fmt v v') →
  ∀ i g, dp_fields s !! i = Some g →
    ∃ g', alter h k (dp_fields s) !! i = Some g' ∧ reformatted fields k fmt v i g g'.
Proof.
  intros Hf Hc Hd Hr i g Hg. destruct (decide (i = k)) as [->|Hi].
  - rewrite Hf in Hg. injection Hg as <-. exists (h f). rewrite list_lookup_alter_eq, Hf.
    unfold reformatted. rewrite decide_True by done. split_and!; [done|done| |done].
    left. apply Hd.
  - exists g. rewrite list_lookup_alter_ne by done. split; [done|].
    apply reformatted_other; try done. by left.
Qed.

Lemma alter_alter_same {A} (h g : A → A) (k : nat) (l : list A) :
  alter h k (alter g k l) = alter (λ x, h (g x)) k l.
Proof. revert k. induction l as [|x l IH]; intros [|k]; cbn; try done. by rewrite IH. Qed.


Lemma run_format_native k s f v : dp_fields s !! k = Some f → tf_value f = Some v →
  ∃ s', format_native_amount_field k s = (Ret tt, s') ∧ same_walk s s' ∧
    ∀ i g, dp_fields s !! i = Some g → ∃ g', dp_fields s' !! i = Some g' ∧
      reformatted (used_fields s) k format_native_amount v i g g'.
Proof.
  intros Hf Hv. unfold format_native_amount_field, format_amount_field, on_field, bind at 1, modify.
  set (h1 := λ f : tx_field_t, f <| tf_value ::= option_map (λ v, if strlen v =? 0 then v else format_amount v) |>).
  set (s1 := s <| dp_fields ::= alter h1 k |>).
  assert (Hf1 : dp_fields s1 !! k = Some (h1 f)) by (cbn; by rewrite list_lookup_alter_eq, Hf).
  destruct (append_ticker_spec k NATIVE_COIN_TICKER s1 (h1 f) (amount_text v) Hf1) as
    (ok & h & E & Hc & Hd & Hr); [cbn; by rewrite Hv|].
  unfold bind. rewrite E. eexists. split; [reflexivity|]. split.
  - by eapply same_walk_trans; [apply (same_walk_field s h1 k)|];
      eapply same_walk_trans; [apply same_walk_clock|apply same_walk_field].
  - subst s1. cbn [dp_fields update_field]. cbn. rewrite alter_alter_same.
    apply reformatted_alter with (f := f); try done.
    + intros x. by rewrite Hc.
    + intros x. by rewrite Hd.
    + destruct ok; [right|by left]. destruct Hr as [Hr1 Hr2]. split; [done|].
      eexists. split; [exact Hr1|reflexivity].
Qed.

Lemma run_format_timestamp k s f v : dp_fields s !! k = Some f → tf_value f = Some v →
  ∃ s', format_timestamp_field k s = (Ret tt, s') ∧ same_walk s s' ∧
    ∀ i g, dp_fields s !! i = Some g → ∃ g', dp_fields s' !! i = Some g' ∧
      reformatted (used_fields s) k format_timestamp v i g g'.
Proof.
  intros Hf Hv. unfold format_timestamp_field, bind at 1, gets.
  rewrite (field_at_some _ _ _ Hf), Hv.
  destruct (format_timestamp_value screen_size_wallet v) as [text|] eqn:E.
  - unfold bind, app_mem_alloc. destruct (heap_has _ _).
    + eexists. split; [reflexivity|]. split.
      * apply (same_walk_trans _ (s <| dp_clock ::= S |>));
          [apply same_walk_clock|apply (same_walk_field (s <| dp_clock ::= S |>))].
      * apply (reformatted_alter (used_fields s) k format_timestamp v s _ f); try done.
        right. split; [done|]. exists text. split; [done|exact E].
    + eexists. split; [reflexivity|]. split.
      * apply (same_walk_trans _ (s <| dp_clock ::= S |>));
          [apply same_walk_clock|apply (same_walk_field (s <| dp_clock ::= S |>))].
      * apply (reformatted_alter (used_fields s) k format_timestamp v s _ f); try done. by left.
  - eexists. split; [reflexivity|]. split; [apply same_walk_field|].
    apply (reformatted_alter (used_fields s) k format_timestamp v s _ f); try done. by left.
Qed.

(** Hiding a token field afterwards. *)
Lemma hide_field fields k fmt v (j : nat) (l l' : list tx_field_t) :
  (∀ i g, l !! i = Some g → ∃ g', l' !! i = Some g' ∧ reformatted fields k fmt v i g g') →
  (∀ g, l !! j = Some g → token_field g = true) →
  ∀ i g, l !! i = Some g → ∃ g', alter (λ f, f <| tf_display := false |>) j l' !! i = Some g' ∧
    reformatted fields k fmt v i g g'.
Proof.
  intros Hl Hj i g Hg. destruct (Hl i g Hg) as (g' & Hg' & C & D & V).
  destruct (decide (i = j)) as [->|Hij].
  - eexists. rewrite list_lookup_alter_eq, Hg'. split; [reflexivity|].
    split; [exact C|]. split; [right; split; [done|by apply Hj]|exact V].
  - exists g'. by rewrite list_lookup_alter_ne.
Qed.

(** The amount of a token: the formatted field is not the token's own name or admin. *)
Lemma run_format_token k s f v : used_fields s !! k = Some f → tf_value f = Some v →
  token_field f = false →
  ∃ s', format_token_amount_field k s = (Ret tt, s') ∧ same_walk s s' ∧
    (cx_unknown_token (dp_ctx s') = true ∨
     ∀ i g, dp_fields s !! i = Some g → ∃ g', dp_fields s' !! i = Some g' ∧
       reformatted (used_fields s) k format_token_amount v i g g').
Proof.
  intros Huf Hv Hnt. pose proof (used_fields_lookup _ _ _ Huf) as Hf.
  unfold format_token_amount_field, format_amount_field, on_field at 1, bind at 1, modify.
  set (h1 := λ f : tx_field_t, f <| tf_value ::= option_map (λ v, if strlen v =? 0 then v else format_amount v) |>).
  set (s1 := s <| dp_fields ::= alter h1 k |>).
  assert (Hf1 : dp_fields s1 !! k = Some (h1 f)) by (cbn; by rewrite list_lookup_alter_eq, Hf).
  assert (Hv1 : tf_value (h1 f) = Some (amount_text v)) by (cbn; by rewrite Hv).
  assert (W1 : same_walk s s1) by apply same_walk_field.
  unfold bind at 1, gets, bind at 1, get.
  rewrite !(used_fields_alter s h1 k) by done.
  assert (Hval : ∀ p i, last_index p (used_fields s) = Some i → (∀ g, p g = true → token_field g = true) →
    i ≠ k ∧ tf_value (field_at i s1) = value_at i (used_fields s)).
  { intros p i Hi Hp. destruct (last_index_some _ _ _ Hi) as (g & Hg & Pg).
    assert (Hik : i ≠ k) by (intros ->; rewrite Huf in Hg; injection Hg as <-; rewrite (Hp _ Pg) in Hnt; done).
    split; [done|]. unfold value_at. rewrite Hg. cbn. unfold field_at.
    cbn. rewrite list_lookup_alter_ne by done. by rewrite (used_fields_lookup _ _ _ Hg). }
  assert (Htok : ∀ p i, last_index p (used_fields s) = Some i →
    (∀ g, p g = true → token_field g = true) → ∀ g, dp_fields s !! i = Some g → token_field g = true).
  { intros p i Hi Hp g Hg. destruct (last_index_some _ _ _ Hi) as (g2 & Hg2 & Pg).
    apply used_fields_lookup in Hg2. rewrite Hg in Hg2. injection Hg2 as ->. by apply Hp. }
  assert (Hdone : (match instrument_of (used_fields s), admin_of (used_fields s) with
      Some _, Some _ => False | _, _ => True end) →
    ∃ s', (Ret tt, s1) = (Ret tt, s') ∧ same_walk s s' ∧
      (cx_unknown_token (dp_ctx s') = true ∨
       ∀ i g, dp_fields s !! i = Some g → ∃ g', dp_fields s' !! i = Some g' ∧
         reformatted (used_fields s) k format_token_amount v i g g')).
  { intros Hno. exists s1. split_and!; [done|done|]. right. subst s1.
    apply reformatted_alter with (f := f); try done. right. split; [done|].
    exists (amount_text v). split; [cbn; by rewrite Hv|].
    unfold shown_text. by repeat case_match. }
  assert (Hs1 : dp_fields s1 = alter h1 k (dp_fields s)) by done.
  clearbody s1.
  destruct (last_index (λ f, is_instrument_path (config_path f)) (used_fields s)) as [ii|] eqn:Ei; [|apply Hdone; unfold instrument_of; by rewrite Ei].
  destruct (last_index (λ f, is_admin_path (config_path f)) (used_fields s)) as [ai|] eqn:Ea;
    [|apply Hdone; unfold admin_of; rewrite Ea; by case_match].
  destruct (Hval _ _ Ei) as [Hik Vi]; [intros g Pg; unfold token_field; by rewrite Pg|].
  destruct (Hval _ _ Ea) as [Hak Va]; [intros g Pg; unfold token_field; by rewrite Pg, orb_true_r|].
  assert (Ii : instrument_of (used_fields s) = tf_value (field_at ii s1)) by (unfold instrument_of; by rewrite Ei).
  assert (Ia : admin_of (used_fields s) = tf_value (field_at ai s1)) by (unfold admin_of; by rewrite Ea).
  destruct (tf_value (field_at ii s1)) as [id|]; [|apply Hdone; by rewrite Ii].
  destruct (tf_value (field_at ai s1)) as [admin|]; [|apply Hdone; by rewrite Ii, Ia].
  destruct (find_ticker id admin) as [m|] eqn:Em; cycle 1.
  { eexists. split; [reflexivity|]. split; [|by left]. by eapply same_walk_trans; [exact W1|]. }
  pose proof (append_ticker_spec k (itm_ticker m) s1 (h1 f) (amount_text v) Hf1 Hv1) as Hspec.
  destruct Hspec as (ok & h & E & Hc & Hd & Hr).
  assert (Hk : ∀ i g, dp_fields s !! i = Some g → ∃ g',
      alter h k (alter h1 k (dp_fields s)) !! i = Some g' ∧
      reformatted (used_fields s) k format_token_amount v i g g').
  { rewrite alter_alter_same. apply (reformatted_alter _ _ _ _ _ _ f); try done.
    - intros x. by rewrite Hc.
    - intros x. by rewrite Hd.
    - destruct ok; [right|by left]. destruct Hr as [Hr1 Hr2]. split; [done|].
      eexists. split; [exact Hr1|]. unfold shown_text. rewrite Ii, Ia. by exists m. }
  assert (Wk : same_walk s (s1 <| dp_clock ::= S |> <| dp_fields ::= alter h k |>)).
  { eapply same_walk_trans; [exact W1|].
    eapply same_walk_trans; [apply same_walk_clock|apply same_walk_field]. }
  unfold bind at 1. rewrite E. destruct ok; cbn [negb].
  - eexists. split; [reflexivity|]. split.
    + eapply same_walk_trans; [exact Wk|].
      eapply same_walk_trans; [apply (same_walk_field _ (λ f, f <| tf_display := false |>) ii)|].
      eapply same_walk_trans; [apply (same_walk_field _ (λ f, f <| tf_display := false |>) ai)|].
      apply same_walk_ctx. intros c. cbv beta. by destruct (_ && _).
    + right. cbn. rewrite Hs1. apply hide_field; [apply hide_field; [exact Hk|]|].
      * apply (Htok _ _ Ei). intros g Pg. unfold token_field. by rewrite Pg.
      * apply (Htok _ _ Ea). intros g Pg. unfold token_field. by rewrite Pg, orb_true_r.
  - eexists. split; [reflexivity|]. split; [exact Wk|]. right. cbn. rewrite Hs1. exact Hk.
Qed.

(** One formatting callback on the field [k]. *)
Lemma run_format_spec fmt k s f v : used_fields s !! k = Some f → tf_value f = Some v →
  (fmt = format_token_amount → token_field f = false) →
  ∃ s', run_format fmt k s = (Ret tt, s') ∧ same_walk s s' ∧
    (cx_unknown_token (dp_ctx s') = true ∨
     ∀ i g, dp_fields s !! i = Some g → ∃ g', dp_fields s' !! i = Some g' ∧
       reformatted (used_fields s) k fmt v i g g').
Proof.
  intros Hu Hv Ht. pose proof (used_fields_lookup _ _ _ Hu) as Hf. destruct fmt; cbn [run_format].
  - exists s. split; [done|]. split; [apply same_walk_refl|]. right. intros i g Hg. exists g.
    split; [done|]. unfold reformatted. split; [done|]. split; [by left|].
    destruct (decide (i = k)) as [->|]; [|done]. right. split; [done|].
    exists v. rewrite Hf in Hg. injection Hg as <-. done.
  - by apply (run_format_token k s f v Hu Hv), Ht.
  - destruct (run_format_native k s f v Hf Hv) as (s' & E & Sw & R). eauto 6.
  - destruct (run_format_timestamp k s f v Hf Hv) as (s' & E & Sw & R). eauto 6.
Qed.

(** [shown_field fields g g']: the field [g] of a screen and its form [g'] after the whole loop. *)
Definition format_of (f : tx_field_t) : field_format_callback_t :=
  match tf_config f with Some c => fc_format c | None => no_format end.
Definition mandatory (f : tx_field_t) : bool :=
  match tf_config f with Some c => fc_mandatory c | None => false end.

Record shown_field (fields : list tx_field_t) (g g' : tx_field_t) : Prop := {
  sf_config : tf_config g' = tf_config g;
  sf_kept : kept_shown g g';
  sf_stored : tf_store_failed g = false;
  sf_mandatory : mandatory g = true → tf_value g ≠ None;
  sf_text : tf_display g' = true →
    match tf_value g with
    | None => tf_value g' = None
    | Some v => ∃ v', tf_value g' = Some v' ∧ shown_text fields (format_of g) v v'
    end
}.

(** The fields after the turns below [j]. *)
Definition turned (fields : list tx_field_t) (j i : nat) (g g' : tx_field_t) : Prop :=
  tf_config g' = tf_config g ∧ kept_shown g g' ∧
  (token_field g = true → tf_value g' = tf_value g) ∧
  if decide (i < j)%nat then shown_field fields g g'
  else tf_value g' = tf_value g ∧ tf_store_failed g' = tf_store_failed g.
Definition all_turned (s0 s : dp_state) (j : nat) : Prop :=
  same_walk s0 s ∧
  ∀ i g, used_fields s0 !! i = Some g → ∃ g', dp_fields s !! i = Some g' ∧
    turned (used_fields s0) j i g g'.

Lemma same_walk_used s s' i g' : same_walk s s' → dp_fields s' !! i = Some g' →
  is_Some (used_fields s !! i) → used_fields s' !! i = Some g'.
Proof.
  intros Sw Hg' (g & Hg). unfold used_fields in *. apply lookup_take_Some in Hg as [_ Hi].
  rewrite (sw_nb _ _ Sw). by apply lookup_take_Some.
Qed.

Lemma all_turned_used s0 s j : all_turned s0 s j →
  Forall2 (λ g g', tf_config g' = tf_config g ∧ (token_field g = true → tf_value g' = tf_value g))
    (used_fields s0) (used_fields s).
Proof.
  intros [Sw Ht]. apply Forall2_same_length_lookup. split.
  - unfold used_fields. rewrite !length_take, (sw_nb _ _ Sw), (sw_length _ _ Sw). done.
  - intros i g g' Hg Hg'. destruct (Ht i g Hg) as (g2 & Hg2 & C & K & V & _).
    rewrite (same_walk_used _ _ _ _ Sw Hg2) in Hg' by eauto. by injection Hg' as <-.
Qed.

Lemma token_lookup_same p l l' :
  (∀ g g', tf_config g' = tf_config g → p g' = p g) → (∀ g, p g = true → token_field g = true) →
  Forall2 (λ g g', tf_config g' = tf_config g ∧ (token_field g = true → tf_value g' = tf_value g)) l l' →
  last_index p l' ≫= (λ i, value_at i l') = last_index p l ≫= (λ i, value_at i l).
Proof.
  intros Hp Hq Hl.
  rewrite <-(last_index_ext p l l') by (eapply Forall2_impl; [exact Hl|]; intros x y [C _]; symmetry; by apply Hp).
  destruct (last_index p l) as [i|] eqn:E; [|done]. cbn.
  destruct (last_index_some _ _ _ E) as (g & Hg & Pg).
  destruct (Forall2_lookup_l _ _ _ _ _ Hl Hg) as (g' & Hg' & _ & V).
  unfold value_at. rewrite Hg, Hg'. cbn. by apply V, Hq.
Qed.

(** The token named on the screen is the same throughout the loop. *)
Lemma shown_text_same s0 s j fmt v v' : all_turned s0 s j →
  shown_text (used_fields s) fmt v v' → shown_text (used_fields s0) fmt v v'.
Proof.
  intros Hu%all_turned_used. unfold shown_text. destruct fmt; try done.
  unfold instrument_of, admin_of.
  rewrite (token_lookup_same (λ f, is_instrument_path (config_path f))
      (used_fields s0) (used_fields s)),
    (token_lookup_same (λ f, is_admin_path (config_path f)) (used_fields s0) (used_fields s)); try done.
  - intros g g' C. unfold config_path. by rewrite C.
  - intros g Pg. unfold token_field. by rewrite Pg, orb_true_r.
  - intros g g' C. unfold config_path. by rewrite C.
  - intros g Pg. unfold token_field. by rewrite Pg.
Qed.

Lemma kept_shown_trans g g1 g2 : tf_config g1 = tf_config g →
  kept_shown g g1 → kept_shown g1 g2 → kept_shown g g2.
Proof.
  intros C [K|[K T]] [K'|[K' T']]; [left|right|right|right]; rewrite ?K', ?K; try done.
  split; [done|]. unfold token_field, config_path in *. by rewrite C in T'.
Qed.

(** A field whose turn comes, left as it is. *)
Lemma turn_shown s0 s j g g1 :
  all_turned s0 s j → used_fields s0 !! j = Some g → dp_fields s !! j = Some g1 →
  tf_config g1 = tf_config g ∧ kept_shown g g1 ∧ tf_value g1 = tf_value g ∧
  tf_store_failed g1 = tf_store_failed g.
Proof.
  intros [_ Ht] Hg Hg1. destruct (Ht j g Hg) as (g2 & Hg2 & C & K & _ & R).
  rewrite Hg1 in Hg2. injection Hg2 as <-. rewrite decide_False in R by lia. naive_solver.
Qed.

(** The other fields, when the field [j] has had its turn and took the form [h] says. *)
Lemma turn_next s0 s s1 j :
  all_turned s0 s j → same_walk s s1 →
  (∀ i g1, dp_fields s !! i = Some g1 → ∃ g2, dp_fields s1 !! i = Some g2 ∧
     tf_config g2 = tf_config g1 ∧ kept_shown g1 g2 ∧
     (i ≠ j → tf_value g2 = tf_value g1 ∧ tf_store_failed g2 = tf_store_failed g1)) →
  (∀ g g1 g2, used_fields s0 !! j = Some g → dp_fields s !! j = Some g1 →
     dp_fields s1 !! j = Some g2 → tf_config g2 = tf_config g → kept_shown g g2 →
     shown_field (used_fields s0) g g2 ∧ (token_field g = true → tf_value g2 = tf_value g1)) →
  all_turned s0 s1 (S j).
Proof.
  intros Hs Sw Hall Hj. pose proof Hs as [Sw0 Ht]. split; [by eapply same_walk_trans|].
  intros i g Hg. destruct (Ht i g Hg) as (g1 & Hg1 & C & K & T & R).
  destruct (Hall i g1 Hg1) as (g2 & Hg2 & C2 & K2 & V2). exists g2. split; [done|].
  assert (C' : tf_config g2 = tf_config g) by congruence.
  assert (K' : kept_shown g g2) by exact (kept_shown_trans _ _ _ C K K2).
  split; [done|]. split; [done|]. destruct (decide (i = j)) as [->|Hij].
  - destruct (Hj g g1 g2) as [Sh Tok]; try done. rewrite decide_True by lia. split; [|done].
    intros Htok. rewrite Tok by done. by apply T.
  - destruct V2 as [V2 F2]; [done|]. split; [intros Htok; rewrite V2; by apply T|].
    destruct (decide (i < j)%nat), (decide (i < S j)%nat); try lia.
    + destruct R as [_ _ Rs Rm Rt]. split; try done. intros D2. rewrite V2. apply Rt.
      destruct K2 as [K2|[K2 _]]; congruence.
    + by rewrite V2, F2.
Qed.

(** The end of a turn, when the formatting has left the state [s1]. *)
Lemma format_field_end s0 s1 j :
  (tf_store_failed (field_at j s1) = false → cx_unknown_token (dp_ctx s1) = false →
     all_turned s0 s1 (S j)) →
  ∃ r s', (let* state := gets (field_at j) in
           let* unknown_token := ctx_of cx_unknown_token in
           if tf_store_failed state || unknown_token then
             do* modify display_fails in ret (Some 0)
           else ret None) s1 = (Ret r, s') ∧ (r = None → all_turned s0 s' (S j)) ∧
    (∀ z, r = Some z → (z = 0 ∨ z = -1) ∧ dp_clear_signing_available s' = false).
Proof.
  intros Hn. unfold bind at 1, gets at 1, bind at 1, ctx_of, gets.
  destruct (tf_store_failed (field_at j s1)), (cx_unknown_token (dp_ctx s1)); cbn [orb];
    [by exists (Some 0); eexists; split_and!; [reflexivity|done|intros z [= <-]; auto]..|]. exists None, s1. split; [done|]. split; [|done].
  intros _. by apply Hn.
Qed.

Lemma format_field_step s0 s j :
  (∀ i g, used_fields s0 !! i = Some g → token_field g = true → format_of g = no_format) →
  all_turned s0 s j → (j < length (used_fields s0))%nat →
  ∃ r s', format_field j s = (Ret r, s') ∧ (r = None → all_turned s0 s' (S j)) ∧
    (∀ z, r = Some z → (z = 0 ∨ z = -1) ∧ dp_clear_signing_available s' = false).
Proof.
  intros Hplain Hs Hj. apply lookup_lt_is_Some in Hj as [g Hg].
  destruct Hs as [Sw Ht] eqn:EHs. clear EHs. destruct (Ht j g Hg) as (g1 & Hg1 & _).
  destruct (turn_shown _ _ _ _ _ Hs Hg Hg1) as (C & K & V & F).
  unfold format_field. unfold bind at 1, gets at 1. rewrite (field_at_some _ _ _ Hg1).
  destruct (tf_store_failed g1) eqn:Ef; [by exists (Some 0); eexists; split_and!; [reflexivity|done|intros z [= <-]; auto]|].
  change (match tf_config g1 with Some c => fc_mandatory c | None => false end) with (mandatory g1).
  destruct (mandatory g1 && negb (is_set (tf_value g1))) eqn:Em; [by exists (Some (-1)); eexists; split_and!; [reflexivity|done|intros z [= <-]; auto]|].
  assert (Hm : mandatory g = true → tf_value g ≠ None).
  { intros Hm Hn. unfold mandatory in *. rewrite C, Hm, V, Hn in Em. done. }
  change (match tf_config g1 with Some c => fc_format c | None => no_format end) with (format_of g1).
  destruct (is_set (tf_value g1) && tf_display g1) eqn:Ed.
  - apply andb_true_iff in Ed as [Hset Hdisp]. destruct (tf_value g1) as [v|] eqn:Ev; [|done].
    assert (Hu1 : used_fields s !! j = Some g1) by (apply (same_walk_used s0 s); eauto).
    destruct (run_format_spec (format_of g1) j s g1 v Hu1 Ev) as (s1 & E & Sw1 & Hr).
    { intros Hfmt. destruct (token_field g1) eqn:Et; [|done].
      assert (Et' : token_field g = true) by (unfold token_field, config_path in *; by rewrite <-C).
      specialize (Hplain j g Hg Et'). unfold format_of in *. rewrite <-C, Hfmt in Hplain. done. }
    unfold bind at 1. rewrite E. apply format_field_end. intros Hok Hknown.
    destruct Hr as [Hr|Hr]; [congruence|]. apply (turn_next s0 s s1 j Hs Sw1).
    + intros i h Hh. destruct (Hr i h Hh) as (h' & Hh' & Ch & Kh & R). exists h'.
      split_and!; try done. intros Hij. by rewrite decide_False in R.
    + intros g' g1' g2 Hg' Hg1' Hg2 Cg Kg. rewrite Hg in Hg'. injection Hg' as <-.
      rewrite Hg1 in Hg1'. injection Hg1' as <-.
      destruct (Hr j g1 Hg1) as (g2' & Hg2' & _ & _ & R). rewrite Hg2 in Hg2'. injection Hg2' as <-.
      rewrite decide_True in R by done. rewrite (field_at_some _ _ _ Hg2) in Hok.
      destruct R as [R|(Fg & v' & Hv' & Hs')]; [congruence|].
      assert (Hfmt : format_of g1 = format_of g) by (unfold format_of; by rewrite C).
      rewrite Hfmt in Hs'.
      split; [split; try done|].
      * intros _. rewrite <-V. exists v'. split; [done|]. by apply (shown_text_same s0 s j).
      * intros Htok. rewrite (Hplain j g Hg Htok) in Hs'. cbn in Hs'. congruence.
  - unfold bind at 1, ret at 1. apply format_field_end. intros _ _.
    apply (turn_next s0 s s j Hs (same_walk_refl s)).
    + intros i h Hh. exists h. split_and!; try done. by left.
    + intros g' g1' g2 Hg' Hg1' Hg2 Cg Kg. rewrite Hg in Hg'. injection Hg' as <-.
      rewrite Hg1' in Hg2. injection Hg2 as <-. rewrite Hg1 in Hg1'. injection Hg1' as <-.
      split; [|done]. split; try done. intros Hd. rewrite Hd, andb_true_r in Ed.
      rewrite V in Ed |- *. by destruct (tf_value g).
Qed.

Lemma format_fields_run s0 n : ∀ s j,
  (∀ i g, used_fields s0 !! i = Some g → token_field g = true → format_of g = no_format) →
  all_turned s0 s j → (j + n ≤ length (used_fields s0))%nat →
  ∃ r s', format_fields (seq j n) s = (Ret r, s') ∧ (r = None → all_turned s0 s' (j + n)) ∧
    (∀ z, r = Some z → (z = 0 ∨ z = -1) ∧ dp_clear_signing_available s' = false).
Proof.
  induction n as [|n IH]; intros s j Hplain Hs Hn.
  - exists None, s. split; [done|]. rewrite Nat.add_0_r. done.
  - destruct (format_field_step s0 s j Hplain Hs) as (r & s1 & E & Hnone & Hsome); [lia|].
    cbn [seq format_fields]. unfold bind. rewrite E. destruct r as [r|].
    + exists (Some r), s1. by split_and!.
    + destruct (IH s1 (S j) Hplain (Hnone eq_refl)) as (r & s2 & E2 & H2); [lia|].
      exists r, s2. rewrite Nat.add_succ_comm in H2. by split.
Qed.

(** ** The entry points *)

(** What the application guarantees between two parts: the array has its fixed size, and a
    screen put off to a disclosed contract is one of the table. *)
Record dp_ready (s : dp_state) : Prop := {
  rd_fields : length (dp_fields s) = MAX_DISPLAY_FIELDS_NB;
  rd_conf : ∀ conf, dp_md_conf s = Some conf → conf ∈ DISPLAY_CONFIGS;
  rd_deferred : is_set (dp_md_identifiers s) = is_set (dp_md_conf s)
}.

Lemma walking_ready s0 s : walking s0 s → dp_ready s.
Proof. intros []. by split. Qed.
Lemma reset_ready s : dp_ready (reset_display_parser_state s).
Proof. by split. Qed.
Lemma same_ready s s' : length (dp_fields s') = length (dp_fields s) → dp_md_conf s' = dp_md_conf s →
  dp_md_identifiers s' = dp_md_identifiers s → dp_ready s → dp_ready s'.
Proof. intros F C I []. split; rewrite ?F, ?C, ?I; done. Qed.

(** The context starts empty and keeps the invariant of the walk. *)
Lemma start_of_parse s : dp_ready s → ∃ s1, (do* on_ctx (λ _, ctx_zero) in init_field_path) s = (Ret tt, s1) ∧
  walking s1 s1 ∧ dp_store s1 = dp_store s ∧
  dp_clear_signing_available s1 = dp_clear_signing_available s ∧
  dp_display_failed s1 = dp_display_failed s.
Proof.
  intros [F C I]. eexists. split; [reflexivity|]. split; [|done]. split; try done.
  intros path. cbn. destruct (heap_has _ _); [|done]. intros [= <-].
  unfold MAX_FIELD_PATH_LEN. cbn. lia.
Qed.

Lemma plain_tokens : Forall (λ conf, Forall (λ c,
    is_instrument_path (fc_path c) || is_admin_path (fc_path c) = true → fc_format c = no_format)
  (PREAPPROVAL_ASSET_FIELD :: dc_fields conf)) DISPLAY_CONFIGS.
Proof. unfold DISPLAY_CONFIGS. repeat constructor; vm_compute; congruence. Qed.

(** The fields of a screen are those of its configuration. *)
Lemma screen_fields conf s : conf ∈ DISPLAY_CONFIGS → screen conf s →
  length (dp_fields s) = MAX_DISPLAY_FIELDS_NB →
  Forall2 (λ c f, tf_display f = true ∧
      (tf_config f = Some c ∨ tf_config f = Some PREAPPROVAL_ASSET_FIELD)) (dc_fields conf) (used_fields s).
Proof.
  intros Hin Hsc Hl. pose proof (proj1 (Forall_forall _ _) display_configs_fit conf Hin) as Hle.
  cbv beta in Hle. apply Forall2_same_length_lookup. split.
  - unfold used_fields. rewrite length_take, (sc_nb _ _ Hsc), Hl. lia.
  - intros i c f Hc Hf. destruct (sc_config _ _ Hsc i c Hc) as (f' & Hf' & Hd & E).
    rewrite (used_fields_lookup _ _ _ Hf) in Hf'. by injection Hf' as <-.
Qed.

Lemma screen_plain conf s : conf ∈ DISPLAY_CONFIGS → screen conf s →
  length (dp_fields s) = MAX_DISPLAY_FIELDS_NB →
  ∀ i g, used_fields s !! i = Some g → token_field g = true → format_of g = no_format.
Proof.
  intros Hin Hsc Hl i g Hg. pose proof (screen_fields _ _ Hin Hsc Hl) as Hall.
  destruct (Forall2_lookup_r _ _ _ _ _ Hall Hg) as (c & Hc & _ & Ec).
  pose proof (proj1 (Forall_forall _ _) plain_tokens conf Hin) as [Hp Hcs]%Forall_cons_1.
  pose proof (proj1 (Forall_forall _ _) Hcs c (list_elem_of_lookup_2 _ _ _ Hc)) as Hcp.
  unfold token_field, config_path, format_of. destruct Ec as [->| ->]; [exact Hcp|exact Hp].
Qed.

(** Formatting never touches the values check. *)
Section FormatStore.
Variable st : store_t.
Abbreviation on_store := (λ s : dp_state, dp_store s = st).

Lemma fs_modify f : (∀ s, dp_store (f s) = dp_store s) → keeps on_store (modify f).
Proof. intros Hf. apply safe_modify. intros s Hs. by rewrite Hf. Qed.
Lemma fs_alloc n : keeps on_store (app_mem_alloc n).
Proof. intros s Hs. by split. Qed.
#[local] Hint Extern 1 (safe _ _ (on_field _ _)) => apply fs_modify; done : safe.
#[local] Hint Extern 1 (safe _ _ (on_ctx _)) => apply fs_modify; done : safe.
#[local] Hint Extern 1 (safe _ _ (modify _)) => apply fs_modify; done : safe.
#[local] Hint Extern 1 (safe _ _ (ctx_of _)) => apply safe_gets : safe.
#[local] Hint Extern 1 (safe _ _ (ret _)) => by apply safe_ret : safe.
#[local] Hint Resolve fs_alloc : safe.

Lemma append_ticker_store i t : keeps on_store (append_ticker i t).
Proof. unfold append_ticker. safe_steps. Qed.
#[local] Hint Resolve append_ticker_store : safe.

Lemma run_format_store cb i : keeps on_store (run_format cb i).
Proof.
  destruct cb; cbn [run_format]; [eauto with safe|..].
  - unfold format_token_amount_field, format_amount_field.
    apply safe_seq; [eauto with safe|intros _]. apply safe_seq; [eauto with safe|intros fields].
    apply safe_seq; [apply (safe_keeps _ _ _ (safe_get _))|intros s].
    repeat case_match; eauto with safe. safe_steps.
  - unfold format_native_amount_field, format_amount_field. safe_steps.
  - unfold format_timestamp_field. apply safe_seq; [eauto with safe|intros f].
    repeat case_match; eauto with safe. safe_steps.
Qed.
#[local] Hint Resolve run_format_store : safe.

Lemma format_fields_store ids : keeps on_store (format_fields ids).
Proof.
  induction ids as [|i ids IH]; cbn [format_fields]; [eauto with safe|].
  apply safe_seq; [unfold format_field; safe_steps|]. intros []; [eauto with safe|done].
Qed.
End FormatStore.

(** What a turned on clear signing rests on. *)
Definition screen_shown (s s' : dp_state) : Prop :=
  ∃ conf fields fields', conf ∈ DISPLAY_CONFIGS ∧
    Forall2 (λ c f, tf_display f = true ∧
      (tf_config f = Some c ∨ tf_config f = Some PREAPPROVAL_ASSET_FIELD)) (dc_fields conf) fields ∧
    dp_store s' = values_bind_from_display fields (dc_destination conf) (dc_amount_check conf)
                    (dp_store s) ∧
    Forall2 (shown_field fields) fields fields' ∧
    dp_pairs s' = Some (omap shown_pair fields').

(** A part binds the values check at most once. *)
Definition store_bound (s s' : dp_state) : Prop :=
  dp_store s' = dp_store s ∨
  ∃ fields d c, dp_store s' = values_bind_from_display fields d c (dp_store s).

Lemma format_and_populate_run conf s : conf ∈ DISPLAY_CONFIGS → screen conf s →
  length (dp_fields s) = MAX_DISPLAY_FIELDS_NB →
  ∃ r s', format_and_populate_display_items s = (Ret r, s') ∧ dp_ready s' ∧ (r = 0 ∨ r = -1) ∧
    store_bound s s' ∧ (dp_clear_signing_available s' = true → r = 0 ∧ screen_shown s s').
Proof.
  intros Hin Hsc Hl. pose proof (screen_fields _ _ Hin Hsc Hl) as Hfields.
  pose proof (screen_plain _ _ Hin Hsc Hl) as Hplain.
  set (s1 := s <| dp_store ::= values_bind_from_display (used_fields s)
                    (cx_destination (dp_ctx s)) (cx_amount_check (dp_ctx s)) |>).
  assert (Hnb : length (used_fields s1) = cx_nb_fields (dp_ctx s1)).
  { change (length (used_fields s) = cx_nb_fields (dp_ctx s)).
    rewrite (sc_nb _ _ Hsc). symmetry. exact (Forall2_length _ _ _ Hfields). }
  assert (H01 : all_turned s1 s1 0).
  { split; [apply same_walk_refl|]. intros i g Hg. exists g. split; [by apply used_fields_lookup|].
    split; [done|]. split; [by left|]. split; [done|]. rewrite decide_False by lia. done. }
  destruct (format_fields_run s1 (cx_nb_fields (dp_ctx s1)) s1 0 Hplain H01) as
    (r & s2 & E & Hnone & Hsome); [rewrite Hnb; lia|].
  unfold format_and_populate_display_items.
  unfold bind at 1, modify at 1. fold s1. unfold bind at 1, ctx_of at 1, gets at 1.
  destruct (cx_unreadable (dp_ctx s1)).
  { eexists _, _. split; [reflexivity|]. split; [apply reset_ready|]. split; [by left|].
    split; [right; by eexists _, _, _|done]. }
  pose proof (format_fields_store (dp_store s1) (seq 0 (cx_nb_fields (dp_ctx s1))) s1 eq_refl) as Hst.
  rewrite E in Hst. destruct Hst as [Hst _].
  unfold bind at 1, bind at 1, ctx_of, gets. rewrite E.
  eexists _, _. split; [reflexivity|]. split; [apply reset_ready|].
  assert (Hb : ∀ s', dp_store s' = dp_store s2 → store_bound s s').
  { intros s' Hs'. right. rewrite Hs', Hst. by eexists _, _, _. }
  destruct r as [r|].
  { destruct (Hsome r eq_refl) as [Hr Ha]. split; [exact Hr|]. split; [by apply Hb|]. cbn. congruence. }
  split; [by left|]. split; [by apply Hb|]. intros _. split; [done|]. destruct (Hnone eq_refl) as [Sw Ht].
  exists conf, (used_fields s), (used_fields s2). split; [done|]. split; [done|].
  split; [|split; [|done]].
  - cbn. rewrite (sw_store _ _ Sw). cbn. by rewrite (sc_destination _ _ Hsc), (sc_amount_check _ _ Hsc).
  - apply Forall2_same_length_lookup. split.
    { unfold used_fields. by rewrite !length_take, (sw_nb _ _ Sw), (sw_length _ _ Sw). }
    intros i g g' Hg Hg'. destruct (Ht i g Hg) as (g2 & Hg2 & _ & _ & _ & R).
    rewrite (used_fields_lookup _ _ _ Hg') in Hg2. injection Hg2 as <-.
    rewrite decide_True in R; [exact R|]. rewrite <-Hnb. by apply lookup_lt_Some in Hg.
Qed.

(** A parse, whatever decodes the part, so long as the walk keeps its invariant. *)
Lemma process_display_parsing_run decode s :
  (∀ s1, keeps (walking s1) decode) → dp_ready s → dp_clear_signing_available s = false →
  match process_display_parsing decode s with
  | (Ret r, s') => dp_ready s' ∧ (r = 0 ∨ r = -1) ∧ store_bound s s' ∧
      (dp_clear_signing_available s' = true → r = 0 ∧ screen_shown s s')
  | (Abort, _) => True
  | (Fail, _) | (NoFuel, _) => False
  end.
Proof.
  intros Hdec Hr Ha. destruct (start_of_parse s Hr) as (s1 & E1 & Hw & St & Av & _).
  unfold process_display_parsing. 
  assert (Eassoc : ∀ (A : Type) (k : DM A), (do* on_ctx (λ _, ctx_zero) in do* init_field_path in k) s = k s1).
  { intros A k. unfold bind in E1 |- *. destruct (on_ctx _ s) as [[]]; try done.
    by rewrite E1. }
  rewrite Eassoc. unfold bind at 1, attempt. specialize (Hdec s1 s1 Hw).
  destruct (decode s1) as [[[]| | |] s2]; try done.
  - destruct Hdec as [Hw2 _]. unfold bind at 1, on_ctx, modify at 1.
    set (s3 := s2 <| dp_ctx ::= clean_ctx |>).
    assert (Hw3 : walking s1 s3) by (apply walk_ctx; done).
    clearbody s3. unfold bind at 1, ctx_of, gets.
    destruct (cx_has_fields (dp_ctx s3)) eqn:Eh; cbn [negb].
    2:{ split; [apply (same_ready s3), (walking_ready _ _ Hw3); done|]. split; [by left|].
        split; [|done]. left. cbn. by rewrite (wk_store _ _ Hw3). }
    destruct (wk_screen _ _ Hw3 Eh) as (conf & Hin & Hsc).
    destruct (format_and_populate_run conf s3 Hin Hsc (wk_fields _ _ Hw3)) as
      (r & s4 & E4 & Hr4 & Hr01 & Hb4 & Hs4). unfold bind at 1. rewrite E4.
    assert (Hb : ∀ s', dp_store s' = dp_store s4 → store_bound s s').
    { intros s' Hs'. unfold store_bound. rewrite Hs', <- St, <- (wk_store _ _ Hw3). exact Hb4. }
    destruct Hr01 as [-> | ->]; cbn [Z.eqb negb].
    + split; [apply (same_ready s4); done|]. split; [by left|]. split; [by apply Hb|]. intros Ha4.
      destruct (Hs4 Ha4) as [_ (conf' & fs & fs' & Hc' & Hf' & Hs' & Hsh & Hp)].
      split; [done|]. exists conf', fs, fs'. split_and!; try done.
      cbn. rewrite Hs', (wk_store _ _ Hw3). by rewrite St.
    + split; [done|]. split; [by right|]. split; [by apply Hb|]. intros Ha4. by destruct (Hs4 Ha4).
  - split; [apply reset_ready|]. split; [by right|].
    split; [left; cbn; by rewrite (wk_store _ _ Hdec)|]. cbn. rewrite (wk_available _ _ Hdec). congruence.
Qed.

Definition parsed (s : dp_state) (o : outcome Z * dp_state) : Prop :=
  match o with
  | (Ret r, s') => dp_ready s' ∧ (r = 0 ∨ r = -1) ∧ store_bound s s' ∧
      (dp_clear_signing_available s = true → s' = s) ∧
      (dp_clear_signing_available s = false → dp_clear_signing_available s' = true →
       r = 0 ∧ screen_shown s s')
  | (Abort, _) => True
  | (Fail, _) | (NoFuel, _) => False
  end.
Lemma process_parsed decode s : (∀ s1, keeps (walking s1) decode) → dp_ready s →
  dp_clear_signing_available s = false → parsed s (process_display_parsing decode s).
Proof.
  intros Hd Hr Ha. pose proof (process_display_parsing_run decode s Hd Hr Ha) as Hp.
  unfold parsed. repeat case_match; try done; destruct Hp as (? & ? & ? & Hs); split_and!; try done; congruence.
Qed.
Lemma node_parse_run buf s : dp_ready s → parsed s (parse_node_for_display buf s).
Proof.
  intros Hr. unfold parse_node_for_display, bind at 1, get, display_busy.
  destruct (dp_clear_signing_available s) eqn:Ha; [by split_and!; [|left|left|..|congruence]|].
  case_match; [by split_and!; [|left|left|..|congruence]|].
  unfold bind at 1, modify at 1.
  match goal with |- parsed _ (process_display_parsing ?decode _) =>
    pose proof (process_parsed decode (reset_display_parser_state s)) as Hp end.
  unfold parsed in *. rewrite Ha. destruct (process_display_parsing _ _) as [[r| | |] s'];
    (destruct Hp as (? & ? & ? & ? & Hs) || apply Hp); try done;
    try (intros s1; apply safe_seq; [apply dp_node_msg_safe|intros; by apply safe_ret]);
    try apply reset_ready.
  split_and!; try done. intros _. by apply Hs.
Qed.
Lemma contract_parse_run buf s : dp_ready s → parsed s (parse_input_contract_for_display buf s).
Proof.
  intros Hr. unfold parse_input_contract_for_display, bind at 1, get, display_busy.
  destruct (dp_clear_signing_available s) eqn:Ha; [by split_and!; [|left|left|..|congruence]|].
  case_match; [by split_and!; [|left|left|..|congruence]|].
  apply process_parsed; [|done|done].
  intros s1. apply safe_seq; [apply dp_input_contract_msg_safe|intros; by apply safe_ret].
Qed.

(** C32: Displaying a node part or a disclosed contract always comes to an end, whatever the
    bytes are and whatever the heap and stack do: it answers 0 or -1 (or stops the
    application on its own assertion) and leaves the parser in order for the next part, its
    field array whole and any screen that was put off one of the table. *)
Theorem display_parse_is_safe buf s parse : dp_ready s →
  parse = parse_node_for_display buf ∨ parse = parse_input_contract_for_display buf →
  match parse s with
  | (Ret r, s') => dp_ready s' ∧ (r = 0 ∨ r = -1)
  | (Abort, _) => True
  | (Fail, _) | (NoFuel, _) => False
  end.
Proof.
  intros Hr [-> | ->]; [pose proof (node_parse_run buf s Hr) as Hp
    |pose proof (contract_parse_run buf s Hr) as Hp]; unfold parsed in Hp;
    repeat case_match; naive_solver.
Qed.

(** C18: A part that turns clear signing on has answered 0 and filled the screen of one
    configuration of the table: every mandatory field of it was found in the transaction, none failed to
    be stored or formatted, the lines handed to the screen are exactly the fields that have
    a value, each with the text its format gives (a token and its admin may be replaced by
    the ticker), and the values check was bound to the very values the lines were formatted
    from. *)
Theorem clear_screen_is_complete buf s parse r s' : dp_ready s →
  parse = parse_node_for_display buf ∨ parse = parse_input_contract_for_display buf →
  parse s = (Ret r, s') →
  dp_clear_signing_available s = false → dp_clear_signing_available s' = true →
  r = 0 ∧ screen_shown s s'.
Proof.
  intros Hr [-> | ->] E Ha Ha'; [pose proof (node_parse_run buf s Hr) as Hp
    |pose proof (contract_parse_run buf s Hr) as Hp]; rewrite E in Hp; naive_solver.
Qed.

(** ** Which screen opens *)

Definition opened (conf : display_config_t) (s : dp_state) : Prop :=
  cx_has_fields (dp_ctx s) = true ∧ screen conf s.

Lemma opened_keeps conf s s' : dp_ctx s' = dp_ctx s → dp_fields s' = dp_fields s →
  opened conf s → opened conf s'.
Proof.
  intros C F [Hh Hs]. split; [congruence|]. by apply (screen_same conf s); rewrite ?C.
Qed.
Lemma opened_on_field conf i f : (∀ x, tf_config (f x) = tf_config x) →
  (∀ x, tf_display (f x) = tf_display x) → keeps (opened conf) (on_field i f).
Proof. intros Hf Hd. apply safe_modify. intros s [Hh Hs]. split; [done|]. by apply screen_on_field. Qed.
Lemma opened_alloc conf n : keeps (opened conf) (app_mem_alloc n).
Proof. intros s Hs. split; [by apply (opened_keeps conf s)|done]. Qed.

Lemma set_display_config_opens conf u s s' : conf ∈ DISPLAY_CONFIGS →
  length (dp_fields s) = MAX_DISPLAY_FIELDS_NB → set_display_config conf s = (Ret u, s') →
  opened conf s'.
Proof.
  intros Hc Hl E.
  assert (Hrest : keeps (opened conf) (fill_screen conf)).
  { apply safe_seq.
    { apply safe_seq; [apply opened_alloc|]. intros ok. apply safe_seq; [|intros; by apply safe_ret].
      apply safe_modify. intros s1. by apply opened_keeps. }
    intros ok. apply safe_seq; [apply safe_assert|]. intros _. case_match; [|by apply safe_ret].
    apply safe_seq.
    { apply safe_modify. intros s1 [Hh Hs]. split; [done|]. by apply screen_preapproval. }
    intros _. unfold set_field_value. safe_steps; eauto using opened_alloc, opened_on_field.
    all: by apply opened_on_field. }
  assert (Ho : opened conf (open_screen conf s)) by (split; [done|by apply open_screen_screen]).
  specialize (Hrest _ Ho).
  change (set_display_config conf s) with (fill_screen conf (open_screen conf s)) in E.
  rewrite E in Hrest. apply Hrest.
Qed.

(** The text of a C string, up to its terminator. *)
Definition text_of (p : option bytes) : option bytes := option_map c_str p.
(** Two names that are there and agree. *)
Definition same_name (a b : option bytes) : Prop := ∃ t, text_of a = Some t ∧ text_of b = Some t.

Lemma opt_eqb_spec a b : opt_eqb a b = true ↔ same_name a b.
Proof.
  unfold opt_eqb, same_name. destruct a as [a|], b as [b|]; cbn;
    try (split; [done|by intros (t & ? & ?)]).
  rewrite str_eqb_spec. split; [intros ->; by exists (c_str b)|]. by intros (t & [= ->] & [= ->]).
Qed.
Lemma opt_str_eqb_spec a b : opt_str_eqb a b = true ↔ same_name a (Some b).
Proof. apply (opt_eqb_spec a (Some b)). Qed.

(** The record of [id] is the argument of the action of the node of the context: the choice it exercises, on one of
    the templates the configuration lists, or the template it creates. *)
Definition names_action (c : pb_callback_context_t) (conf : display_config_t) (id : Identifier)
  : Prop :=
  match cx_node_choice_id c with
  | Some choice => same_name (entity_name id) (Some choice) ∧
      ∃ t, t ∈ dc_node_identifiers conf ∧ same_name (Some (idc_module t)) (cx_node_module c) ∧
        same_name (Some (idc_entity t)) (cx_node_entity c)
  | None => same_name (module_name id) (cx_node_module c) ∧
            same_name (entity_name id) (cx_node_entity c)
  end.
Definition identified (id : Identifier) (config : identifier_config_t) : Prop :=
  same_name (module_name id) (Some (idc_module config)) ∧
  same_name (entity_name id) (Some (idc_entity config)).

Lemma is_node_template_spec c m e : is_node_template c m e = true ↔
  same_name m (cx_node_module c) ∧ same_name e (cx_node_entity c).
Proof. unfold is_node_template. by rewrite andb_true_iff, !opt_eqb_spec. Qed.
Lemma match_identifier_spec id config : match_identifier id config = true ↔ identified id config.
Proof. unfold match_identifier, identified. by rewrite andb_true_iff, !opt_str_eqb_spec. Qed.
Lemma config_matches_spec c conf id :
  config_matches_node_action c conf id = true ↔ names_action c conf id.
Proof.
  unfold config_matches_node_action, names_action.
  destruct (cx_node_choice_id c) as [choice|]; [|apply is_node_template_spec].
  rewrite andb_true_iff, opt_eqb_spec, existsb_exists.
  setoid_rewrite <-list_elem_of_In. setoid_rewrite is_node_template_spec. tauto.
Qed.

(** C22: A screen opens only for the action of the node it is read from.  When the record of
    [id] opens the screen of [conf], either the configuration needs nothing else, is named
    by the record, and the node exercises that very choice on one of the listed templates
    (or creates that very template); or the screen had been put off to a disclosed
    contract, and this record is of one of the awaited contract types, is the template the
    contract was created from, and its contract id is the one the exercise named. *)
Theorem screen_names_the_action id s s' : dp_ready s → cx_has_fields (dp_ctx s) = false →
  find_tx_type_and_config id s = (Ret tt, s') → cx_has_fields (dp_ctx s') = true →
  ∃ conf, conf ∈ DISPLAY_CONFIGS ∧ screen conf s' ∧
    (dc_metadata_contract_identifiers conf = [] ∧ identified id (dc_identifier conf) ∧
       names_action (dp_ctx s) conf id
     ∨ dp_md_conf s = Some conf ∧
       (∃ ids config, dp_md_identifiers s = Some ids ∧ config ∈ ids ∧ identified id config) ∧
       same_name (module_name id) (cx_node_module (dp_ctx s)) ∧
       same_name (entity_name id) (cx_node_entity (dp_ctx s)) ∧
       same_name (cx_last_parsed_contract_id (dp_ctx s)) (dp_expected_contract_id s)).
Proof.
  intros Hr Hno E Hyes. unfold find_tx_type_and_config, bind at 1, get in E. rewrite Hno in E.
  destruct (match dp_md_identifiers s with Some ids => _ | None => _ end) eqn:Ed.
  - destruct (dp_md_conf s) as [conf|] eqn:Ec; [|done].
    pose proof (rd_conf _ Hr conf Ec) as Hin. exists conf. split; [done|].
    split; [by apply (set_display_config_opens conf tt s s' Hin (rd_fields _ Hr))|]. right.
    destruct (dp_md_identifiers s) as [ids|]; [|done].
    apply existsb_exists in Ed as (config & Hids & [[Hid Hcid]%andb_true_iff Ht]%andb_true_iff).
    apply match_identifier_spec in Hid. apply opt_eqb_spec in Hcid.
    apply is_node_template_spec in Ht as [Hm He]. apply list_elem_of_In in Hids. eauto 10.
  - destruct (find _ DISPLAY_CONFIGS) as [conf|] eqn:Ef; [|injection E as <-; congruence].
    apply find_some in Ef as [Hin [Hid Hact]%andb_true_iff]. apply list_elem_of_In in Hin.
    destruct (dc_metadata_contract_identifiers conf) as [|i ids] eqn:Em.
    + exists conf. split; [done|].
      split; [by apply (set_display_config_opens conf tt s s' Hin (rd_fields _ Hr))|]. left.
      split; [done|]. split; [by apply match_identifier_spec|by apply config_matches_spec].
    + exfalso. unfold bind, modify, strdup_if, app_mem_strdup in E. destruct (cx_last_parsed_contract_id _);
        injection E as <-; cbn in Hyes; congruence.
Qed.
End Parser.

(** ** The path names one field

    [split_path cur p]: the labels of the rest [p] of a path, [cur] being the part read of
    the first one. *)

Fixpoint split_path (cur p : bytes) : list bytes :=
  match p with
  | [] => [cur]
  | c :: p =>
      if c =? 92 then match p with [] => [cur] | d :: p => split_path (cur ++ [d]) p end
      else if c =? dot_char then cur :: split_path [] p
      else split_path (cur ++ [c]) p
  end.

(** A label the path can tell from others. *)
Definition plain_label (l : bytes) : Prop := l ≠ [] ∧ no_nul l ∧ 92 ∉ l.
Definition push_all (labels : list bytes) (c : pb_callback_context_t) : pb_callback_context_t :=
  foldl (λ c l, push_path l c) c labels.

Lemma split_path_escaped l : 92 ∉ l → ∀ cur p,
  split_path cur (escape_dots l ++ p) = split_path (cur ++ l) p.
Proof.
  induction l as [|c l IH]; intros Hl cur p; [by rewrite app_nil_r|].
  apply not_elem_of_cons in Hl as [Hc Hl]. rewrite (cons_middle c cur l), app_assoc, <-IH by done.
  unfold escape_dots. cbn [flat_map]. destruct (Z.eqb_spec c dot_char) as [->|Hd]; cbn [app split_path].
  - done.
  - rewrite (proj2 (Z.eqb_neq c 92)) by done. by rewrite (proj2 (Z.eqb_neq c dot_char)).
Qed.

(** Pushing one more label. *)
Lemma push_path_some l c path : plain_label l → cx_has_fields c = true →
  cx_field_path c = Some path → cx_unreadable (push_path l c) = false →
  cx_has_fields (push_path l c) = true ∧ cx_unreadable c = false ∧
  cx_field_path (push_path l c) =
    Some ((if (0 <? length path)%nat then path ++ [dot_char] else path) ++ escape_dots l).
Proof.
  intros (_ & Hz & _) Hh Hp. unfold push_path. rewrite Hh, Hp, c_str_id by done.
  destruct (MAX_FIELD_PATH_LEN <=? _)%nat; [done|]. intros Hu. split; [exact Hh|]. by split.
Qed.
Lemma push_all_readable labels : ∀ c, cx_unreadable (push_all labels c) = false →
  cx_unreadable c = false.
Proof.
  induction labels as [|l labels IH]; intros c Hu; [done|]. apply IH in Hu. revert Hu.
  unfold push_path. by repeat case_match.
Qed.

Lemma split_push_all labels : ∀ c path, Forall plain_label labels → path ≠ [] →
  cx_has_fields c = true → cx_field_path c = Some path →
  cx_unreadable (push_all labels c) = false →
  ∃ p, cx_field_path (push_all labels c) = Some (path ++ p) ∧
    ∀ cur, split_path cur p = cur :: labels.
Proof.
  induction labels as [|l labels IH]; intros c path Hl Hne Hh Hp Hu.
  { exists []. by rewrite app_nil_r. }
  apply Forall_cons in Hl as [Hl Hls]. change (push_all (l :: labels) c) with
    (push_all labels (push_path l c)) in *.
  destruct (push_path_some l c path Hl Hh Hp (push_all_readable _ _ Hu)) as (Hh' & _ & Hp').
  destruct path as [|b path]; [done|].
  destruct (IH (push_path l c) (((b :: path) ++ [dot_char]) ++ escape_dots l) Hls) as (p & Ep & Hs); try done.
  exists (dot_char :: escape_dots l ++ p). split.
  - rewrite Ep. cbn. by rewrite <-!app_assoc.
  - intros cur. destruct Hl as (_ & _ & Hl). cbn [split_path Z.eqb]. f_equal.
    change (split_path [] (escape_dots l ++ p) = l :: labels).
    by rewrite split_path_escaped, Hs.
Qed.

Lemma path_of_labels labels c : Forall plain_label labels → cx_has_fields c = true →
  cx_field_path c = Some [] → cx_unreadable (push_all labels c) = false →
  ∃ p, cx_field_path (push_all labels c) = Some p ∧
    match labels with [] => p = [] | _ => p ≠ [] ∧ split_path [] p = labels end.
Proof.
  intros Hl Hh Hp Hu. destruct labels as [|l labels]; [by exists []|].
  apply Forall_cons in Hl as [Hl Hls]. change (push_all (l :: labels) c) with
    (push_all labels (push_path l c)) in *.
  destruct (push_path_some l c [] Hl Hh Hp (push_all_readable _ _ Hu)) as (Hh' & _ & Hp').
  cbn [length Nat.ltb Nat.leb app] in Hp'. destruct Hl as (Hne & _ & Hb).
  assert (He : escape_dots l ≠ []).
  { destruct l as [|b l]; [done|]. unfold escape_dots. cbn. by case_match. }
  destruct (split_push_all labels _ _ Hls He Hh' Hp' Hu) as (p & Ep & Hs).
  exists (escape_dots l ++ p). split; [done|]. split.
  - by destruct (escape_dots l).
  - by rewrite split_path_escaped, Hs.
Qed.

(** C33: Two different sequences of labels never give the same field path, as long as the
    labels hold no backslash: the dots of a label are escaped, so a record cannot pass a
    field off as another by writing a dot in its name. *)
Theorem path_names_one_field labels1 labels2 c :
  Forall plain_label labels1 → Forall plain_label labels2 →
  cx_has_fields c = true → cx_field_path c = Some [] →
  cx_unreadable (push_all labels1 c) = false → cx_unreadable (push_all labels2 c) = false →
  cx_field_path (push_all labels1 c) = cx_field_path (push_all labels2 c) → labels1 = labels2.
Proof.
  intros H1 H2 Hh Hp U1 U2 E.
  destruct (path_of_labels labels1 c) as (p1 & E1 & R1); try done.
  destruct (path_of_labels labels2 c) as (p2 & E2 & R2); try done.
  rewrite E1, E2 in E. injection E as ->.
  destruct labels1, labels2; [done|by destruct R2|by destruct R1|].
  destruct R1 as [_ R1], R2 as [_ R2]. congruence.
Qed.

(** ** Witnesses *)

Definition open_ctx : pb_callback_context_t :=
  ctx_zero <| cx_has_fields := true |> <| cx_field_path := Some [] |>.
Lemma path_names_one_field_witness :
  cx_field_path (push_all [lit "transfer"; lit "amount"] open_ctx) = Some (lit "transfer.amount") ∧
  [lit "transfer"; lit "amount"] = [lit "transfer"; lit "amount"].
Proof.
  split; [vm_compute; reflexivity|].
  apply (path_names_one_field _ _ open_ctx); try (vm_compute; reflexivity);
    repeat constructor; try (vm_compute; congruence);
    apply (bool_decide_eq_true_1 (92 ∉ _)); vm_compute; reflexivity.
Defined.

(** A backslash is not escaped, so with one two sequences do share a path. *)
Example backslash_paths_collide :
  cx_field_path (push_all [[97; 92]; [98]] open_ctx) = cx_field_path (push_all [[97; dot_char; 98]] open_ctx) ∧
  cx_unreadable (push_all [[97; 92]; [98]] open_ctx) = false.
Proof. vm_compute. auto. Qed.

(** A transfer of Canton Coin: the node exercises the choice, and its argument is the
    record of the screen. *)
Definition wire_identifier (m e : string) : bytes :=
  wire_string 1 "pkg" ++ wire_string 2 m ++ wire_string 3 e.
Definition wire_transfer : bytes :=
  wire_string 1 "1" ++ wire_bytes NODE_V1_TAG (wire_bytes NODE_V1_EXERCISE_TAG (
    wire_string 2 "00c1" ++
    wire_bytes 4 (wire_identifier "Splice.ExternalPartyAmuletRules" "ExternalPartyAmuletRules") ++
    wire_string 9 "ExternalPartyAmuletRules_CreateTransferCommand" ++
    wire_bytes 10 (wire_record (
      wire_bytes 1 (wire_identifier "Splice.ExternalPartyAmuletRules"
                      "ExternalPartyAmuletRules_CreateTransferCommand") ++
      wire_field "sender" (wire_party "alice") ++ wire_field "receiver" (wire_party "bob") ++
      wire_field "amount" (wire_numeric "12.5000"))))).

Definition sample_dp : dp_state :=
  {| dp_clock := 0; dp_store := sample_store;
     dp_fields := replicate MAX_DISPLAY_FIELDS_NB tx_field_zero; dp_md_identifiers := None;
     dp_md_conf := None; dp_expected_contract_id := None; dp_clear_signing_available := false;
     dp_display_failed := false; dp_pairs := None; dp_review_title := []; dp_review_finish := [];
     dp_ctx := ctx_zero; dp_labels := [] |}.
Lemma sample_dp_ready : dp_ready sample_dp.
Proof. by split. Qed.

Definition toy_screen : Screen := false.
Abbreviation toy_parse := (@parse_node_for_display toy_sha roomy toy_screen).
Definition line (label text : string) : nbgl_contentTagValue_t :=
  {| item := lit label; value := lit text |}.
Example transfer_is_shown :
  let '(r, s') := toy_parse wire_transfer sample_dp in
  r = Ret 0 ∧ dp_review_title s' = NATIVE_COIN_TRANSFER_REVIEW_TITLE ∧
  dp_pairs s' = Some [line "From" "alice"; line "Amount" "12.5 CC"; line "To" "bob"].
Proof. vm_compute. auto. Qed.

Definition after_transfer : dp_state := Eval vm_compute in snd (toy_parse wire_transfer sample_dp).
Lemma after_transfer_eq : toy_parse wire_transfer sample_dp = (Ret 0, after_transfer).
Proof. vm_compute. reflexivity. Qed.

Lemma display_parse_is_safe_witness : dp_ready after_transfer.
Proof.
  pose proof (@display_parse_is_safe toy_sha roomy toy_screen wire_transfer sample_dp _ sample_dp_ready
    (or_introl eq_refl)) as Hp. rewrite after_transfer_eq in Hp. exact (proj1 Hp).
Defined.

Lemma clear_screen_is_complete_witness : @screen_shown toy_sha toy_screen sample_dp after_transfer.
Proof.
  exact (proj2 (@clear_screen_is_complete toy_sha roomy toy_screen wire_transfer sample_dp _ 0
    after_transfer sample_dp_ready (or_introl eq_refl) after_transfer_eq eq_refl eq_refl)).
Defined.

(** The state in which the record of the transfer is met. *)
Definition transfer_action : dp_state := sample_dp <| dp_ctx ::= λ c,
  c <| cx_node_module := Some (lit "Splice.ExternalPartyAmuletRules") |>
    <| cx_node_entity := Some (lit "ExternalPartyAmuletRules") |>
    <| cx_node_choice_id := Some (lit "ExternalPartyAmuletRules_CreateTransferCommand") |> |>.
Definition transfer_record : Identifier := {| package_id := None;
  module_name := Some (lit "Splice.ExternalPartyAmuletRules");
  entity_name := Some (lit "ExternalPartyAmuletRules_CreateTransferCommand") |}.
Lemma screen_names_the_action_witness :
  ∃ conf, conf ∈ DISPLAY_CONFIGS ∧
    screen conf (snd (@find_tx_type_and_config roomy transfer_record transfer_action)).
Proof.
  destruct (@screen_names_the_action roomy transfer_record transfer_action
    (snd (@find_tx_type_and_config roomy transfer_record transfer_action)))
    as (conf & Hin & Hs & _); [by split|vm_compute; reflexivity..|]. by exists conf.
Defined.
