(* ===== verification/Sheet.v ===== *)
(** * What a node puts on the screen

    The display parser finds the record that says what a node does, opens a screen for it and
    reads the fields of that screen by their label paths.  Here is what the screen shows as a
    function of the data of the node: which configuration a record opens, which values are
    found under which path, the fields they fill, and the lines.  Nothing here knows of
    bytes, callbacks or memory; [ScreenRead] shows that the parser does just this. *)

From S2P Require Import Prelude Constants Utils DisplayConfig DisplayFormat Pb Messages.
From S2P Require Import CanonicalHash TreeCheck ValuesCheck HashingParser DisplayParser ValueHash NodeHash.

(** ** The action of a node *)

Record action := {
  ac_contract_id : option bytes; ac_module : option bytes; ac_entity : option bytes;
  ac_choice : option bytes
}.
Definition create_action (c : Node_CreateCb hcb) : action :=
  {| ac_contract_id := c_contract_id c; ac_module := module_name (c_template_id c);
     ac_entity := entity_name (c_template_id c); ac_choice := None |}.
Definition exercise_action (e : Node_ExerciseCb hcb) : action :=
  {| ac_contract_id := e_contract_id e; ac_module := module_name (e_template_id e);
     ac_entity := entity_name (e_template_id e); ac_choice := e_choice_id e |}.

(** The record is that of the template the node is of. *)
Definition of_template (a : action) (m e : option bytes) : bool :=
  opt_eqb m (ac_module a) && opt_eqb e (ac_entity a).
(** A create opens a screen by its template, an exercise by its choice on a listed template. *)
Definition acts_on (a : action) (conf : display_config_t) (id : Identifier) : bool :=
  match ac_choice a with
  | None => of_template a (module_name id) (entity_name id)
  | Some choice =>
      existsb (λ n, of_template a (Some (idc_module n)) (Some (idc_entity n)))
        (dc_node_identifiers conf) && opt_eqb (entity_name id) (Some choice)
  end.
Definition chosen (a : action) (id : Identifier) : option display_config_t :=
  List.find (λ conf, match_identifier id (dc_identifier conf) && acts_on a conf id) DISPLAY_CONFIGS.
(** The screen [conf] was put off until the contract [expected] is disclosed. *)
Definition awaited (a : action) (conf : display_config_t) (expected : option bytes)
    (id : Identifier) : bool :=
  existsb (match_identifier id) (dc_metadata_contract_identifiers conf) &&
  opt_eqb (ac_contract_id a) expected && of_template a (module_name id) (entity_name id).

(** ** The sheet

    What is known while the values of a node are read: the screen that is open, the one that
    is put off, whether a label was of no use, and what was found under which path. *)

Inductive found := Found_text (t : bytes) | Found_time (z : Z) | Found_other.
Record sheet := {
  sh_conf : option display_config_t;
  sh_put_off : option (display_config_t * option bytes);
  sh_bad : bool;
  sh_found : list (bytes * found)
}.
#[export] Instance eta_sheet : Eta sheet := λ s,
  Build_sheet (sh_conf s) (sh_put_off s) (sh_bad s) (sh_found s).
Definition blank (put_off : option (display_config_t * option bytes)) : sheet :=
  {| sh_conf := None; sh_put_off := put_off; sh_bad := false; sh_found := [] |}.
Definition is_open (sh : sheet) : bool := is_set (sh_conf sh).

(** The asset of a pre-approval is fixed by the application. *)
Definition presets (conf : display_config_t) : list (bytes * found) :=
  if str_eqb (dc_review_title conf) PREAPPROVAL_PROPOSAL_REVIEW_TITLE
  then [(fc_path PREAPPROVAL_ASSET_FIELD, Found_text PREAPPROVAL_ASSET_FIELD_VALUE)] else [].
Definition opens (conf : display_config_t) (sh : sheet) : sheet :=
  sh <| sh_conf := Some conf |> <| sh_found := presets conf |>.

(** A record is met. *)
Definition meet (a : action) (id : Identifier) (sh : sheet) : sheet :=
  if is_open sh then sh
  else
    let by_itself :=
      match chosen a id with
      | None => sh
      | Some conf =>
          match dc_metadata_contract_identifiers conf with
          | [] => opens conf sh
          | _ => sh <| sh_put_off := Some (conf, option_map c_str (ac_contract_id a)) |>
          end
      end in
    match sh_put_off sh with
    | Some (conf, expected) => if awaited a conf expected id then opens conf sh else by_itself
    | None => by_itself
    end.

(** A label leads to a path, of which every dot is escaped; no path is kept before a screen
    is open. *)
Definition bad_segment (l : bytes) : bool := (length l =? 0)%nat || negb (no_nulb l).
Definition path_under (path l : bytes) : bytes :=
  (if (0 <? length path)%nat then path ++ [dot_char] else path) ++ escape_dots l.
Definition path_overflows (path l : bytes) : bool :=
  (MAX_FIELD_PATH_LEN <=? length path + 1 + length (escape_dots l))%nat.
Definition useless (sh : sheet) : sheet := sh <| sh_bad := true |>.
Definition label (path l : bytes) (sh : sheet) : bytes * sheet :=
  if bad_segment l then (path, useless sh)
  else if negb (is_open sh) then (path, sh)
  else if path_overflows path l then (path, useless sh) else (path_under path l, sh).

(** What a value fills a field with: an optional is found through what it holds. *)
Definition found_in (v : value) : option found :=
  match v with
  | V_party t | V_numeric t | V_text t => Some (Found_text t)
  | V_timestamp z => Some (Found_time z)
  | V_optional _ => None
  | _ => Some Found_other
  end.
Definition note (path : bytes) (v : value) (sh : sheet) : sheet :=
  match found_in v with
  | Some f => if is_open sh then sh <| sh_found ::= λ l, l ++ [(path, f)] |> else sh
  | None => sh
  end.

(** Reading a value: records are entered once a screen is open, optionals and text maps
    always, everything else never. *)
Fixpoint walk (a : action) (path : bytes) (v : value) (sh : sheet) : sheet :=
  match v with
  | V_record id fields =>
      let sh := meet a id sh in
      if is_open sh then
        fold_left (λ sh '(l, v), let '(p, sh) := label path l sh in note p v (walk a p v sh))
          fields sh
      else sh
  | V_optional (Some v) => note path v (walk a path v sh)
  | V_text_map entries =>
      fold_left (λ sh '(k, v), let '(p, sh) := label path k sh in note p v (walk a p v sh))
        entries sh
  | _ => sh
  end.
(** One field of a record, or one entry of a map. *)
Definition entry (a : action) (path : bytes) (sh : sheet) (e : bytes * value) : sheet :=
  let '(p, sh') := label path (fst e) sh in note p (snd e) (walk a p (snd e) sh').

(** The sheet of a node, and of a disclosed contract for a screen that was put off. *)
Definition node_sheet (n : node) : sheet :=
  match n with
  | N_create c v => walk (create_action c) [] v (blank None)
  | N_exercise e v _ => walk (exercise_action e) [] v (blank None)
  | _ => blank None
  end.
Definition contract_sheet (put_off : display_config_t * option bytes) (c : Node_CreateCb hcb)
    (v : value) : sheet :=
  note [] v (walk (create_action c) [] v (blank (Some put_off))).

(** ** An open screen

    Once a screen is open, what a value adds to the sheet is a function of the value and its
    path alone. *)

Inductive sighting := Seen_at (path : bytes) (f : found) | Useless_label.
Definition see (sh : sheet) (x : sighting) : sheet :=
  match x with
  | Seen_at path f => sh <| sh_found ::= λ l, l ++ [(path, f)] |>
  | Useless_label => useless sh
  end.
Definition label_sights (path l : bytes) : list sighting :=
  if bad_segment l || path_overflows path l then [Useless_label] else [].
Definition label_to (path l : bytes) : bytes :=
  if bad_segment l || path_overflows path l then path else path_under path l.
Definition sight (path : bytes) (v : value) : list sighting :=
  match found_in v with Some f => [Seen_at path f] | None => [] end.
Fixpoint sightings (path : bytes) (v : value) : list sighting :=
  match v with
  | V_record _ l | V_text_map l =>
      flat_map (λ '(k, v), label_sights path k ++ sightings (label_to path k) v ++
                           sight (label_to path k) v) l
  | V_optional (Some v) => sightings path v ++ sight path v
  | _ => []
  end.

Lemma see_open l sh : is_open (foldl see sh l) = is_open sh.
Proof. revert sh. induction l as [|x l IH]; intros sh; cbn; [done|]. rewrite IH. by destruct x. Qed.
Lemma label_sees path l sh : is_open sh = true →
  label path l sh = (label_to path l, foldl see sh (label_sights path l)).
Proof.
  intros Ho. unfold label, label_to, label_sights. rewrite Ho. cbn [negb].
  destruct (bad_segment l); [done|]. by destruct (path_overflows path l).
Qed.
Lemma note_sees path v sh : is_open sh = true → note path v sh = foldl see sh (sight path v).
Proof. intros Ho. unfold note, sight. destruct (found_in v); [|done]. by rewrite Ho. Qed.
Lemma meet_open a id sh : is_open sh = true → meet a id sh = sh.
Proof. intros Ho. unfold meet. by rewrite Ho. Qed.

Lemma walk_entries a path l sh :
  fold_left (λ sh '(k, v), let '(p, sh) := label path k sh in note p v (walk a p v sh)) l sh =
  fold_left (entry a path) l sh.
Proof. revert sh. induction l as [|[k v] l IH]; intros sh; cbn [fold_left]; [done|]. apply IH. Qed.
Lemma entries_see a path l : ∀ sh, is_open sh = true →
  Forall (λ e, ∀ path sh, is_open sh = true → walk a path (snd e) sh = foldl see sh (sightings path (snd e))) l →
  fold_left (entry a path) l sh = foldl see sh (flat_map (λ '(k, v), label_sights path k ++
    sightings (label_to path k) v ++ sight (label_to path k) v) l).
Proof.
  induction l as [|[k v] l IH]; intros sh Ho Hl; cbn [fold_left flat_map]; [done|].
  apply Forall_cons in Hl as [Hv Hl]. cbn [snd] in Hv. unfold entry at 2. cbn [fst snd].
  rewrite label_sees, Hv, note_sees by (done || by rewrite ?see_open).
  rewrite IH by (done || by rewrite !see_open). by rewrite !foldl_app.
Qed.
Lemma walk_sees a : ∀ v path sh, is_open sh = true → walk a path v sh = foldl see sh (sightings path v).
Proof.
  fix IH 1. intros v path sh Ho.
  assert (Hs : ∀ l : list (bytes * value), (fix all (l : list (bytes * value)) := match l with
      [] => True | e :: l => (∀ path sh, is_open sh = true →
        walk a path (snd e) sh = foldl see sh (sightings path (snd e))) ∧ all l end) l →
    fold_left (entry a path) l sh = foldl see sh (flat_map (λ '(k, v), label_sights path k ++
      sightings (label_to path k) v ++ sight (label_to path k) v) l)).
  { intros l Hall. apply entries_see; [done|]. induction l as [|e l IHl]; constructor; [apply Hall|].
    apply IHl, Hall. }
  destruct v as [| | | | | | | | |[v|]|l|l|l|id l|id c v|id c]; try done; cbn [walk sightings].
  - rewrite IH by done. rewrite note_sees by by rewrite see_open. by rewrite foldl_app.
  - rewrite walk_entries. apply Hs. induction l as [|[k v] l IHl]; [done|]. split; [apply IH|apply IHl].
  - rewrite meet_open by done. rewrite Ho, walk_entries. apply Hs.
    induction l as [|[k v] l IHl]; [done|]. split; [apply IH|apply IHl].
Qed.
Lemma walk_open a v path sh : is_open sh = true → is_open (walk a path v sh) = true.
Proof. intros Ho. by rewrite walk_sees, see_open. Qed.
(** The sheet of a record that opens a screen. *)
Lemma walk_record a id fields sh conf : is_open (meet a id sh) = true → sh_conf (meet a id sh) = Some conf →
  walk a [] (V_record id fields) sh = foldl see (meet a id sh) (sightings [] (V_record id fields)).
Proof.
  intros Ho Hc. rewrite <- (walk_sees a) by done. cbn [walk]. by rewrite (meet_open _ _ (meet _ _ _)).
Qed.

(** ** The fields

    A field takes the first text or time found under its path; a second one, a value of
    another kind or a text that is too long spoils it. *)

Definition at_path (c : field_config_t) (l : list (bytes * found)) : list found :=
  omap (λ '(p, f), if str_eqb (fc_path c) p then Some f else None) l.
Definition fills (f : found) : bool := match f with Found_other => false | _ => true end.
Definition filling (f : found) : option (bytes * Z) :=
  match f with
  | Found_text t =>
      if (strlen t =? 0) || (Z.of_nat MAX_FIELD_VALUE_LEN <? strlen t) then None
      else Some (t, strlen t + 1)
  | Found_time z => Some (be64 (u64 z), 8)
  | Found_other => None
  end.
Definition overlong (f : found) : bool :=
  match f with Found_text t => Z.of_nat MAX_FIELD_VALUE_LEN <? strlen t | _ => false end.
Definition field_of (c : field_config_t) (fs : list found) : tx_field_t :=
  let first := List.find fills fs in
  {| tf_value := option_map fst (first ≫= filling);
     tf_value_len := from_option snd 0 (first ≫= filling);
     tf_config := Some c;
     tf_matched := is_set first;
     tf_display := true;
     tf_store_failed := existsb (λ f, negb (fills f)) fs ||
       (1 <? length (filter (λ f, fills f = true) fs))%nat || from_option overlong false first |}.
Definition sheet_fields (sh : sheet) : list tx_field_t :=
  match sh_conf sh with
  | Some conf => map (λ c, field_of c (at_path c (sh_found sh))) (dc_fields conf)
  | None => []
  end.

(** ** The lines *)

Section Lines.
Context `{Screen}.

Definition ticker_of (fields : list tx_field_t) : option instrument_to_ticker_mapping_t :=
  match instrument_of fields, admin_of fields with
  | Some id, Some admin => find_ticker id admin
  | _, _ => None
  end.
(** A token amount is shown with the ticker, which replaces the fields of the token. *)
Definition token_format (fmt : field_format_callback_t) : bool :=
  match fmt with format_token_amount => true | _ => false end.
Definition token_amount (f : tx_field_t) : bool := is_set (tf_value f) && token_format (format_of f).
Definition shows_ticker (fields shown : list tx_field_t) : bool :=
  is_set (ticker_of fields) && existsb token_amount shown.
Definition names_token (fields : list tx_field_t) (i : nat) : bool :=
  bool_decide (last_index (λ f, is_instrument_path (config_path f)) fields = Some i) ||
  bool_decide (last_index (λ f, is_admin_path (config_path f)) fields = Some i).
Definition replaced (fields shown : list tx_field_t) (i : nat) : bool :=
  shows_ticker fields shown && names_token fields i.

(** The text of a value, unless it cannot be written. *)
Definition text_as (fields : list tx_field_t) (fmt : field_format_callback_t) (v : bytes)
  : option bytes :=
  match fmt with
  | no_format => Some v
  | format_native_amount => Some (with_ticker (amount_text v) NATIVE_COIN_TICKER)
  | format_token_amount =>
      match instrument_of fields, admin_of fields with
      | Some id, Some admin =>
          option_map (λ m, with_ticker (amount_text v) (itm_ticker m)) (find_ticker id admin)
      | _, _ => Some (amount_text v)
      end
  | format_timestamp => format_timestamp_value screen_size_wallet v
  end.
(** A field in order, with the text of its value when it has one. *)
Definition field_text (fields : list tx_field_t) (f : tx_field_t) : option (option bytes) :=
  if tf_store_failed f then None
  else match tf_value f with
       | None => if mandatory f then None else Some None
       | Some v => option_map Some (text_as fields (format_of f) v)
       end.
Definition line_of (fields : list tx_field_t) (i : nat) (f : tx_field_t)
  : option nbgl_contentTagValue_t :=
  match replaced fields fields i, field_text fields f, tf_config f ≫= fc_item_name with
  | false, Some (Some text), Some name => Some {| item := name; DisplayParser.value := text |}
  | _, _, _ => None
  end.
(** The lines of the screen, when every field is in order. *)
Definition screen_lines (fields : list tx_field_t) : option (list nbgl_contentTagValue_t) :=
  if forallb (λ f, is_set (field_text fields f)) fields
  then Some (omap id (imap (line_of fields) fields)) else None.

Record review := {
  rv_pairs : list nbgl_contentTagValue_t; rv_title : bytes; rv_finish : bytes }.
(** A token transfer in the native coin has a title of its own. *)
Definition in_native_coin (conf : display_config_t) (fields : list tx_field_t) : bool :=
  shows_ticker fields fields &&
  match ticker_of fields with
  | Some m => str_eqb (itm_ticker m) NATIVE_COIN_TICKER &&
              str_eqb (dc_review_title conf) TOKEN_TRANSFER_REVIEW_TITLE
  | None => false
  end.
Definition review_of (sh : sheet) : option review :=
  match sh_conf sh with
  | Some conf =>
      if sh_bad sh then None
      else option_map (λ lines,
        if in_native_coin conf (sheet_fields sh)
        then {| rv_pairs := lines; rv_title := NATIVE_COIN_TRANSFER_REVIEW_TITLE;
                rv_finish := NATIVE_COIN_TRANSFER_REVIEW_FINISH |}
        else {| rv_pairs := lines; rv_title := dc_review_title conf;
                rv_finish := dc_review_finish conf |}) (screen_lines (sheet_fields sh))
  | None => None
  end.
End Lines.
