(* ===== verification/ScreenFormat.v ===== *)
(** * The lines of a sheet

    The two loops that format the fields of a screen and fill its pairs, on a device whose
    memory suffices: they fail when [Sheet.screen_lines] has no lines, and otherwise the
    pairs are those lines and the titles those of [Sheet.review_of]. *)

From S2P Require Import Prelude Constants Utils DisplayConfig DisplayFormat Pb Messages.
From S2P Require Import CanonicalHash TreeCheck ValuesCheck HashingParser HashLogic DisplayParser.
From S2P Require Import ValueHash NodeHash Sheet.

Section Format.
Context `{Sha256} `{Device} `{!Plenty} `{Screen}.

(** ** One field *)

(** The title a token transfer gets with the ticker of the field formatted with [fmt]. *)
Definition titled (fields : list tx_field_t) (fmt : field_format_callback_t)
    (titles : bytes * bytes) : bytes * bytes :=
  match token_format fmt, ticker_of fields with
  | true, Some m =>
      if str_eqb (itm_ticker m) NATIVE_COIN_TICKER && str_eqb (fst titles) TOKEN_TRANSFER_REVIEW_TITLE
      then (NATIVE_COIN_TRANSFER_REVIEW_TITLE, NATIVE_COIN_TRANSFER_REVIEW_FINISH) else titles
  | _, _ => titles
  end.
Definition titles_of (s : dp_state) : bytes * bytes :=
  (cx_review_title (dp_ctx s), cx_review_finish (dp_ctx s)).
Definition hides (fields : list tx_field_t) (fmt : field_format_callback_t) (i : nat) : bool :=
  token_format fmt && is_set (ticker_of fields) && names_token fields i.

(** The field [k] of [s] was written as [t] in [s']. *)
Record written_as (fields : list tx_field_t) (k : nat) (fmt : field_format_callback_t) (t : bytes)
    (s s' : dp_state) : Prop := {
  wa_same : same_walk s s';
  wa_known : cx_unknown_token (dp_ctx s') = cx_unknown_token (dp_ctx s);
  wa_titles : titles_of s' = titled fields fmt (titles_of s);
  wa_fields : ∀ i g, dp_fields s !! i = Some g → ∃ g', dp_fields s' !! i = Some g' ∧
    tf_config g' = tf_config g ∧ tf_store_failed g' = tf_store_failed g ∧
    tf_value g' = (if decide (i = k) then Some t else tf_value g) ∧
    tf_display g' = tf_display g && negb (hides fields fmt i)
}.
Definition fails_at (k : nat) (s' : dp_state) : Prop :=
  cx_unknown_token (dp_ctx s') = true ∨ tf_store_failed (field_at k s') = true.
Definition formats (k : nat) (fmt : field_format_callback_t) (v : bytes) (s s' : dp_state) : Prop :=
  match text_as (used_fields s) fmt v with
  | Some t => written_as (used_fields s) k fmt t s s'
  | None => fails_at k s'
  end.

Lemma fields_altered (k i : nat) t (h : tx_field_t → tx_field_t) (l : list tx_field_t) g (b : bool) :
  l !! i = Some g → b = false →
  (∀ x, tf_config (h x) = tf_config x) → (∀ x, tf_display (h x) = tf_display x) →
  (∀ x, l !! k = Some x → tf_value (h x) = Some t ∧ tf_store_failed (h x) = tf_store_failed x) →
  ∃ g', alter h k l !! i = Some g' ∧ tf_config g' = tf_config g ∧
    tf_store_failed g' = tf_store_failed g ∧
    tf_value g' = (if decide (i = k) then Some t else tf_value g) ∧
    tf_display g' = tf_display g && negb b.
Proof.
  intros Hg -> Hc Hd Hv. rewrite andb_true_r. destruct (decide (i = k)) as [->|Hi].
  - exists (h g). rewrite list_lookup_alter_eq, Hg. destruct (Hv g Hg). by rewrite Hc, Hd.
  - exists g. by rewrite list_lookup_alter_ne.
Qed.

Lemma append_ticker_run k ticker s f v : dp_fields s !! k = Some f → tf_value f = Some v →
  ∃ h, append_ticker k ticker s = (Ret true, s <| dp_clock ::= S |> <| dp_fields ::= alter h k |>) ∧
    (∀ x, tf_config (h x) = tf_config x) ∧ (∀ x, tf_display (h x) = tf_display x) ∧
    (∀ x, tf_value (h x) = Some (with_ticker v ticker)) ∧
    ∀ x, tf_store_failed (h x) = tf_store_failed x.
Proof.
  intros Hf Hv. unfold append_ticker, bind, gets, app_mem_alloc.
  rewrite (field_at_some _ _ _ Hf), Hv, heap_ok. cbn [default]. eexists. by split_and!.
Qed.

Lemma plain_run k s f v : used_fields s !! k = Some f → tf_value f = Some v →
  written_as (used_fields s) k no_format v s s.
Proof.
  intros Hf%used_fields_lookup Hv. split; try done.
  intros i g Hg. exists g. rewrite andb_true_r. split_and!; try done.
  destruct (decide (i = k)) as [->|]; [|done]. congruence.
Qed.
Lemma native_run k s f v : used_fields s !! k = Some f → tf_value f = Some v →
  ∃ s', format_native_amount_field k s = (Ret tt, s') ∧ formats k format_native_amount v s s'.
Proof.
  intros Hf%used_fields_lookup Hv. unfold format_native_amount_field, format_amount_field, on_field, bind at 1, modify.
  set (h1 := λ f : tx_field_t, f <| tf_value ::= option_map (λ v, if strlen v =? 0 then v else format_amount v) |>).
  set (s1 := s <| dp_fields ::= alter h1 k |>).
  assert (Hf1 : dp_fields s1 !! k = Some (h1 f)) by (cbn; by rewrite list_lookup_alter_eq, Hf).
  destruct (append_ticker_run k NATIVE_COIN_TICKER s1 (h1 f) (amount_text v) Hf1) as
    (h & E & Hc & Hd & Hv' & Hs); [cbn; by rewrite Hv|].
  unfold bind. rewrite E. eexists. split; [reflexivity|]. unfold formats. cbn [text_as]. split; try done.
  - by eapply same_walk_trans; [apply (same_walk_field s h1 k)|];
      eapply same_walk_trans; [apply same_walk_clock|apply same_walk_field].
  - intros i g Hg.
    destruct (fields_altered k i (with_ticker (amount_text v) NATIVE_COIN_TICKER) (λ x, h (h1 x))
      (dp_fields s) g false Hg eq_refl) as (g' & Hg' & R).
    { intros x. by rewrite Hc. } { intros x. by rewrite Hd. } { intros x Hx. by rewrite Hv', Hs. }
    exists g'. rewrite <- alter_alter_same in Hg'. by split.
Qed.
Lemma timestamp_run k s f v : used_fields s !! k = Some f → tf_value f = Some v →
  ∃ s', format_timestamp_field k s = (Ret tt, s') ∧ formats k format_timestamp v s s'.
Proof.
  intros Hf%used_fields_lookup Hv. unfold format_timestamp_field, bind at 1, gets, formats.
  rewrite (field_at_some _ _ _ Hf), Hv. cbn [text_as].
  destruct (format_timestamp_value screen_size_wallet v) as [text|].
  - unfold bind, app_mem_alloc. rewrite heap_ok. eexists. split; [reflexivity|]. split; try done.
    + apply (same_walk_trans _ (s <| dp_clock ::= S |>));
        [apply same_walk_clock|apply (same_walk_field (s <| dp_clock ::= S |>))].
    + intros i g Hg. by apply (fields_altered k i text _ _ g false).
  - eexists. split; [reflexivity|]. right. unfold field_at. cbn. by rewrite list_lookup_alter_eq, Hf.
Qed.

(** Hiding the fields of the token. *)
Lemma hide_lookup (l : list tx_field_t) j i g : l !! i = Some g →
  ∃ g', alter (λ f, f <| tf_display := false |>) j l !! i = Some g' ∧
    tf_config g' = tf_config g ∧ tf_store_failed g' = tf_store_failed g ∧ tf_value g' = tf_value g ∧
    tf_display g' = tf_display g && negb (bool_decide (j = i)).
Proof.
  intros Hg. destruct (decide (j = i)) as [->|Hj].
  - eexists. rewrite list_lookup_alter_eq, Hg, bool_decide_true, andb_false_r by done. by split_and!.
  - exists g. rewrite list_lookup_alter_ne, bool_decide_false, andb_true_r by done. done.
Qed.
Lemma bool_decide_some (i j : nat) : bool_decide (Some i = Some j) = bool_decide (i = j).
Proof. apply bool_decide_ext. split; congruence. Qed.
Lemma token_index p fields k i f : fields !! k = Some f → token_field f = false →
  (∀ g, p g = true → token_field g = true) → last_index p fields = Some i → i ≠ k.
Proof.
  intros Hf Ht Hp Hi ->. destruct (last_index_some _ _ _ Hi) as (g & Hg & Pg%Hp).
  rewrite Hf in Hg. injection Hg as <-. congruence.
Qed.

Lemma token_run k s f v : used_fields s !! k = Some f → tf_value f = Some v → token_field f = false →
  ∃ s', format_token_amount_field k s = (Ret tt, s') ∧ formats k format_token_amount v s s'.
Proof.
  intros Huf Hv Hnt. pose proof (used_fields_lookup _ _ _ Huf) as Hf.
  unfold format_token_amount_field, format_amount_field, on_field at 1, bind at 1, modify.
  set (h1 := λ f : tx_field_t, f <| tf_value ::= option_map (λ v, if strlen v =? 0 then v else format_amount v) |>).
  set (s1 := s <| dp_fields ::= alter h1 k |>).
  assert (Hf1 : dp_fields s1 !! k = Some (h1 f)) by (cbn; by rewrite list_lookup_alter_eq, Hf).
  assert (Hv1 : tf_value (h1 f) = Some (amount_text v)) by (cbn; by rewrite Hv).
  unfold bind at 1, gets, bind at 1, get.
  rewrite !(used_fields_alter s h1 k) by done.
  assert (Hval : ∀ p i, last_index p (used_fields s) = Some i → (∀ g, p g = true → token_field g = true) →
    tf_value (field_at i s1) = value_at i (used_fields s)).
  { intros p i Hi Hp. pose proof (token_index _ _ _ _ _ Huf Hnt Hp Hi) as Hik.
    destruct (last_index_some _ _ _ Hi) as (g & Hg & _).
    unfold value_at. rewrite Hg. cbn. unfold field_at. cbn.
    rewrite list_lookup_alter_ne by done. by rewrite (used_fields_lookup _ _ _ Hg). }
  assert (Hinst : ∀ g, is_instrument_path (config_path g) = true → token_field g = true)
    by (intros g Pg; unfold token_field; by rewrite Pg).
  assert (Hadm : ∀ g, is_admin_path (config_path g) = true → token_field g = true)
    by (intros g Pg; unfold token_field; by rewrite Pg, orb_true_r).
  assert (Hplain : text_as (used_fields s) format_token_amount v = Some (amount_text v) →
    ticker_of (used_fields s) = None → formats k format_token_amount v s s1).
  { intros Et Ek. unfold formats. rewrite Et. split; try done; [apply same_walk_field|..].
    - unfold titled. by rewrite Ek.
    - intros i g Hg. apply (fields_altered k i _ _ _ g (hides _ _ i)); try done.
      + unfold hides. by rewrite Ek.
      + intros x Hx. split; [|done]. cbn. rewrite Hf in Hx. injection Hx as <-. by rewrite Hv. }
  unfold formats, text_as, ticker_of in *.
  destruct (last_index (λ f, is_instrument_path (config_path f)) (used_fields s)) as [ii|] eqn:Ei;
    [|assert (E : instrument_of (used_fields s) = None) by (unfold instrument_of; by rewrite Ei);
      rewrite E in *; exists s1; split; [done|by apply Hplain]].
  destruct (last_index (λ f, is_admin_path (config_path f)) (used_fields s)) as [ai|] eqn:Ea;
    [|assert (E : admin_of (used_fields s) = None) by (unfold admin_of; by rewrite Ea);
      rewrite E in *; exists s1; split; [done|destruct (instrument_of _); by apply Hplain]].
  rewrite (Hval _ _ Ei Hinst), (Hval _ _ Ea Hadm).
  assert (Ii : instrument_of (used_fields s) = value_at ii (used_fields s)) by (unfold instrument_of; by rewrite Ei).
  assert (Ia : admin_of (used_fields s) = value_at ai (used_fields s)) by (unfold admin_of; by rewrite Ea).
  rewrite Ii, Ia in *.
  destruct (value_at ii (used_fields s)) as [id|]; [|exists s1; split; [done|by apply Hplain]].
  destruct (value_at ai (used_fields s)) as [admin|]; [|exists s1; split; [done|by apply Hplain]].
  destruct (find_ticker id admin) as [m|] eqn:Em; cbn [option_map].
  2: { eexists. split; [reflexivity|]. by left. }
  destruct (append_ticker_run k (itm_ticker m) s1 (h1 f) (amount_text v) Hf1 Hv1) as
    (h & E & Hc & Hd & Hv' & Hs).
  unfold bind at 1. rewrite E. cbn [negb]. eexists. split; [reflexivity|].
  assert (Et : ticker_of (used_fields s) = Some m) by (unfold ticker_of; by rewrite Ii, Ia).
  split.
  - eapply same_walk_trans; [apply (same_walk_field s h1 k)|].
    eapply same_walk_trans; [apply same_walk_clock|].
    eapply same_walk_trans; [apply (same_walk_field _ h k)|].
    eapply same_walk_trans; [apply (same_walk_field _ (λ f, f <| tf_display := false |>) ii)|].
    eapply same_walk_trans; [apply (same_walk_field _ (λ f, f <| tf_display := false |>) ai)|].
    apply same_walk_ctx. intros c. cbv beta. by destruct (_ && _).
  - cbn. by destruct (_ && _).
  - unfold titled, titles_of. rewrite Et. cbn. by destruct (_ && _).
  - intros i g Hg. cbn. rewrite alter_alter_same.
    destruct (fields_altered k i (with_ticker (amount_text v) (itm_ticker m)) (λ x, h (h1 x))
      (dp_fields s) g false Hg eq_refl) as (g1 & Hg1 & C1 & F1 & V1 & D1).
    { intros x. by rewrite Hc. } { intros x. by rewrite Hd. } { intros x Hx. by rewrite Hv', Hs. }
    destruct (hide_lookup _ ii _ _ Hg1) as (g2 & Hg2 & C2 & F2 & V2 & D2).
    destruct (hide_lookup _ ai _ _ Hg2) as (g3 & Hg3 & C3 & F3 & V3 & D3).
    exists g3. split; [done|]. rewrite C3, C2, F3, F2, V3, V2. split_and!; try done.
    rewrite D3, D2, D1. unfold hides, names_token. rewrite Et, Ei, Ea, !bool_decide_some. cbn [token_format is_set andb].
    by rewrite negb_orb, !andb_true_r, andb_assoc.
Qed.

Lemma format_run k fmt s f v : used_fields s !! k = Some f → tf_value f = Some v →
  (fmt = format_token_amount → token_field f = false) →
  ∃ s', run_format fmt k s = (Ret tt, s') ∧ formats k fmt v s s'.
Proof.
  intros Hu Hv Ht. destruct fmt; cbn [run_format].
  - exists s. split; [done|]. by apply (plain_run k s f).
  - by apply (token_run k s f), Ht.
  - by apply (native_run k s f).
  - by apply (timestamp_run k s f).
Qed.

(** ** The loop

    From the state [s0] whose fields are all shown and name their token plainly. *)

Section Loop.
Variable s0 : dp_state.
Let fields := used_fields s0.
Hypothesis shown_at_first : ∀ i g, fields !! i = Some g → tf_display g = true.
Hypothesis plain : ∀ i g, fields !! i = Some g → token_field g = true → format_of g = no_format.
Hypothesis known : cx_unknown_token (dp_ctx s0) = false.

Definition titles_shown (l : list tx_field_t) : bytes * bytes :=
  if shows_ticker fields l then titled fields format_token_amount (titles_of s0) else titles_of s0.
(** After the turns below [j]. *)
Record turned_to (j : nat) (s : dp_state) : Prop := {
  to_same : same_walk s0 s;
  to_known : cx_unknown_token (dp_ctx s) = false;
  to_titles : titles_of s = titles_shown (take j fields);
  to_fields : ∀ i g, fields !! i = Some g → ∃ g', dp_fields s !! i = Some g' ∧
    tf_config g' = tf_config g ∧ tf_store_failed g' = tf_store_failed g ∧
    tf_value g' = (if decide (i < j)%nat then default None (field_text fields g) else tf_value g) ∧
    tf_display g' = negb (replaced fields (take j fields) i)
}.

Lemma token_text g i : fields !! i = Some g → token_field g = true → field_text fields g ≠ None →
  default None (field_text fields g) = tf_value g.
Proof.
  intros Hg Ht. unfold field_text. rewrite (plain i g Hg Ht). cbn.
  destruct (tf_store_failed g); [done|]. destruct (tf_value g); [done|]. by destruct (mandatory g).
Qed.
Lemma names_token_field i g : fields !! i = Some g → names_token fields i = true → token_field g = true.
Proof.
  unfold names_token. intros Hg [E|E]%orb_true_iff; apply bool_decide_eq_true in E;
    apply last_index_some in E as (g' & Hg' & P); rewrite Hg in Hg'; injection Hg' as <-;
    unfold token_field; rewrite P; [done|apply orb_true_r].
Qed.
Definition in_order (l : list tx_field_t) : Prop := Forall (λ g, field_text fields g ≠ None) l.

Lemma turned_used j s : turned_to j s → in_order (take j fields) →
  Forall2 (λ g g', tf_config g' = tf_config g ∧ (token_field g = true → tf_value g' = tf_value g))
    fields (used_fields s).
Proof.
  intros [Sw _ _ Hf] Ho. apply Forall2_same_length_lookup. split.
  - unfold fields, used_fields. rewrite !length_take, (sw_nb _ _ Sw), (sw_length _ _ Sw). done.
  - intros i g g' Hg Hg'. destruct (Hf i g Hg) as (g2 & Hg2 & C & _ & V & _).
    rewrite (same_walk_used _ _ _ _ Sw Hg2) in Hg' by eauto. injection Hg' as <-.
    split; [done|]. intros Ht. rewrite V. destruct (decide (i < j)%nat) as [Hij|]; [|done].
    apply (token_text g i Hg Ht). eapply Forall_lookup_1 in Ho; [exact Ho|].
    rewrite lookup_take_lt by done. exact Hg.
Qed.
Lemma same_config_instrument g g' : tf_config g' = tf_config g →
  is_instrument_path (config_path g') = is_instrument_path (config_path g).
Proof. unfold config_path. by intros ->. Qed.
Lemma same_config_admin g g' : tf_config g' = tf_config g →
  is_admin_path (config_path g') = is_admin_path (config_path g).
Proof. unfold config_path. by intros ->. Qed.
Lemma turned_token j s : turned_to j s → in_order (take j fields) →
  instrument_of (used_fields s) = instrument_of fields ∧ admin_of (used_fields s) = admin_of fields ∧
  ∀ i, names_token (used_fields s) i = names_token fields i.
Proof.
  intros Ht Ho. pose proof (turned_used j s Ht Ho) as Hu. unfold instrument_of, admin_of. split_and!.
  - apply (token_lookup_same (λ f, is_instrument_path (config_path f))); [apply same_config_instrument| |done].
    intros g Pg. unfold token_field. by rewrite Pg.
  - apply (token_lookup_same (λ f, is_admin_path (config_path f))); [apply same_config_admin| |done].
    intros g Pg. unfold token_field. by rewrite Pg, orb_true_r.
  - intros i. unfold names_token.
    rewrite <- (last_index_ext (λ f, is_instrument_path (config_path f)) fields (used_fields s)),
      <- (last_index_ext (λ f, is_admin_path (config_path f)) fields (used_fields s)); [done|..];
      (eapply Forall2_impl; [exact Hu|]); intros x y [C _]; cbn; symmetry;
      [by apply same_config_admin|by apply same_config_instrument].
Qed.

Lemma shows_ticker_snoc l g : shows_ticker fields (l ++ [g]) =
  shows_ticker fields l || (is_set (ticker_of fields) && token_amount g).
Proof.
  unfold shows_ticker. rewrite existsb_app. cbn. rewrite orb_false_r. by destruct (is_set _), (existsb _ _).
Qed.
Lemma replaced_snoc l g i : replaced fields (l ++ [g]) i =
  replaced fields l i || (is_set (ticker_of fields) && token_amount g && names_token fields i).
Proof.
  unfold replaced. rewrite shows_ticker_snoc.
  by destruct (shows_ticker _ l), (is_set _), (token_amount g), (names_token _ i).
Qed.
(** Changing the titles twice is changing them once. *)
Lemma titled_twice t : titled fields format_token_amount (titled fields format_token_amount t) =
  titled fields format_token_amount t.
Proof.
  unfold titled. cbn [token_format]. destruct (ticker_of fields) as [m|]; [|done].
  destruct (str_eqb (itm_ticker m) NATIVE_COIN_TICKER); cbn [andb]; [|done].
  destruct (str_eqb (fst t) TOKEN_TRANSFER_REVIEW_TITLE) eqn:E; [|by rewrite E].
  by destruct (str_eqb _ _).
Qed.
Lemma titles_snoc l g : titles_shown (l ++ [g]) =
  if token_amount g then titled fields format_token_amount (titles_shown l) else titles_shown l.
Proof.
  unfold titles_shown. rewrite shows_ticker_snoc. destruct (token_amount g); [|by rewrite andb_false_r, orb_false_r].
  rewrite andb_true_r. unfold shows_ticker. destruct (ticker_of fields) as [m|] eqn:E; cbn [is_set andb].
  - rewrite orb_true_r. destruct (existsb _ l); [|done]. by rewrite titled_twice.
  - unfold titled. by rewrite E.
Qed.

(** A turn that writes the field [j] as it should. *)
Lemma turn_wrote j g s s' : turned_to j s → fields !! j = Some g → same_walk s s' →
  cx_unknown_token (dp_ctx s') = false →
  titles_of s' = (if token_amount g then titled fields format_token_amount (titles_of s) else titles_of s) →
  (∀ i g1, dp_fields s !! i = Some g1 → ∃ g2, dp_fields s' !! i = Some g2 ∧
     tf_config g2 = tf_config g1 ∧ tf_store_failed g2 = tf_store_failed g1 ∧
     tf_value g2 = (if decide (i = j) then default None (field_text fields g) else tf_value g1) ∧
     tf_display g2 = tf_display g1 &&
       negb (is_set (ticker_of fields) && token_amount g && names_token fields i)) →
  turned_to (S j) s'.
Proof.
  intros [Sw _ Ti Hf] Hg Sw' Hk Ht Hf'. rewrite Ti in Ht. split.
  - by eapply same_walk_trans.
  - done.
  - by rewrite (take_S_r _ _ _ Hg), titles_snoc.
  - intros i h Hh. destruct (Hf i h Hh) as (g1 & Hg1 & C & F & V & D).
    destruct (Hf' i g1 Hg1) as (g2 & Hg2 & C' & F' & V' & D'). exists g2.
    rewrite C', F', V', D', C, F, V, D. split_and!; try done.
    + destruct (decide (i = j)) as [->|Hij].
      * rewrite Hg in Hh. injection Hh as <-. by rewrite decide_True by lia.
      * destruct (decide (i < j)%nat), (decide (i < S j)%nat); done || lia.
    + by rewrite (take_S_r _ _ _ Hg), replaced_snoc, negb_orb.
Qed.
Lemma turn_ends j s : cx_unknown_token (dp_ctx s) = false → tf_store_failed (field_at j s) = false →
  (let* state := gets (field_at j) in
   let* unknown_token := ctx_of cx_unknown_token in
   if tf_store_failed state || unknown_token then
     do* modify display_fails in ret (Some 0)
   else ret None) s = (Ret None, s).
Proof. intros Hk Hf. unfold bind, gets, ctx_of, gets. by rewrite Hk, Hf. Qed.
Lemma turn_fails j s : fails_at j s →
  ∃ s', (let* state := gets (field_at j) in
   let* unknown_token := ctx_of cx_unknown_token in
   if tf_store_failed state || unknown_token then
     do* modify display_fails in ret (Some 0)
   else ret None) s = (Ret (Some 0), s') ∧ dp_clear_signing_available s' = false.
Proof.
  intros Hf. unfold bind, gets, ctx_of, gets.
  assert (E : tf_store_failed (field_at j s) || cx_unknown_token (dp_ctx s) = true)
    by (destruct Hf as [-> | ->]; [apply orb_true_r|done]).
  rewrite E. eexists. by split.
Qed.

Definition stepped (j : nat) (g : tx_field_t) (o : outcome (option Z) * dp_state) : Prop :=
  match field_text fields g with
  | Some _ => fst o = Ret None ∧ turned_to (S j) (snd o)
  | None => (∃ r, fst o = Ret (Some r)) ∧ dp_clear_signing_available (snd o) = false
  end.
Lemma step_fails j g o s' r : field_text fields g = None → o = (Ret (Some r), s') →
  dp_clear_signing_available s' = false → stepped j g o.
Proof. unfold stepped. intros -> -> Ha. split; [by exists r|done]. Qed.

Lemma field_step j g s : turned_to j s → in_order (take j fields) → fields !! j = Some g →
  stepped j g (format_field j s).
Proof.
  intros Ht Ho Hg. pose proof Ht as [Sw Hk _ Hf]. destruct (Hf j g Hg) as (g1 & Hg1 & C & F & V & D).
  rewrite decide_False in V by lia. unfold format_field, bind at 1, gets at 1.
  rewrite (field_at_some _ _ _ Hg1). change (match tf_config g1 with Some c => fc_mandatory c | None => false end) with (mandatory g1).
  change (match tf_config g1 with Some c => fc_format c | None => no_format end) with (format_of g1).
  assert (Em : mandatory g1 = mandatory g) by (unfold mandatory; by rewrite C).
  assert (Efm : format_of g1 = format_of g) by (unfold format_of; by rewrite C).
  rewrite F, V, Em, Efm.
  destruct (tf_store_failed g) eqn:Ef.
  { eapply step_fails; [unfold field_text; by rewrite Ef|reflexivity|done]. }
  assert (Hkeep : field_text fields g = Some (tf_value g) → token_amount g = false →
    stepped j g (Ret None, s)).
  { intros Et Ea. unfold stepped. rewrite Et. split; [done|].
    apply (turn_wrote j g s s); try done; [by rewrite Ea|].
    intros i g2 Hg2. exists g2. rewrite Et, Ea, andb_false_r. cbn [default negb andb].
    rewrite andb_true_r. split_and!; try done. destruct (decide (i = j)) as [->|]; [|done].
    rewrite Hg1 in Hg2. injection Hg2 as <-. exact V. }
  destruct (tf_value g) as [v|] eqn:Ev; cbn [is_set negb andb].
  2: { destruct (mandatory g) eqn:Eg; cbn [andb].
       - eapply step_fails; [unfold field_text; by rewrite Ef, Ev, Eg|reflexivity|done].
       - unfold bind at 1, ret at 1. rewrite turn_ends; [|done|by rewrite (field_at_some _ _ _ Hg1), F].
         apply Hkeep; [unfold field_text; by rewrite Ef, Ev, Eg|unfold token_amount; by rewrite Ev]. }
  rewrite andb_false_r. destruct (tf_display g1) eqn:Ed; cbn [andb].
  2: { symmetry in D. apply negb_false_iff in D. unfold replaced in D. apply andb_true_iff in D as [_ D].
       pose proof (names_token_field j g Hg D) as Htok. pose proof (plain j g Hg Htok) as Hp.
       unfold bind at 1, ret at 1. rewrite turn_ends; [|done|by rewrite (field_at_some _ _ _ Hg1), F].
       apply Hkeep; [unfold field_text; by rewrite Ef, Ev, Hp|unfold token_amount; by rewrite Hp, andb_false_r]. }
  assert (Hu : used_fields s !! j = Some g1) by (apply (same_walk_used s0 s); eauto).
  destruct (turned_token j s Ht Ho) as (Ei & Ea & En).
  assert (Et : text_as (used_fields s) (format_of g) v = text_as fields (format_of g) v)
    by (unfold text_as; by rewrite Ei, Ea).
  assert (Ek : ticker_of (used_fields s) = ticker_of fields) by (unfold ticker_of; by rewrite Ei, Ea).
  destruct (format_run j (format_of g) s g1 v Hu V) as (s1 & E & Hr).
  { intros Hfmt. destruct (token_field g1) eqn:Etk; [|done].
    assert (Etk' : token_field g = true) by (unfold token_field, config_path in *; by rewrite <- C).
    rewrite (plain j g Hg Etk') in Hfmt. done. }
  unfold bind at 1. rewrite E. unfold formats in Hr. rewrite Et in Hr.
  destruct (text_as fields (format_of g) v) as [t|] eqn:Ex.
  - destruct Hr as [Sw1 K1 T1 R1]. destruct (R1 j g1 Hg1) as (g2 & Hg2 & _ & F2 & _).
    rewrite turn_ends; [|congruence|rewrite (field_at_some _ _ _ Hg2); congruence].
    assert (Eft : field_text fields g = Some (Some t)) by (unfold field_text; by rewrite Ef, Ev, Ex).
    unfold stepped. rewrite Eft. split; [done|]. cbn [snd].
    apply (turn_wrote j g s s1); try done; [congruence|..].
    + rewrite T1. unfold titled, token_amount. rewrite Ev, Ek. cbn [is_set andb].
      by destruct (token_format (format_of g)).
    + intros i g3 Hg3. destruct (R1 i g3 Hg3) as (g4 & Hg4 & C4 & F4 & V4 & D4). exists g4.
      rewrite Eft. split_and!; try done. rewrite D4. unfold hides, token_amount. rewrite Ek, En, Ev. cbn [is_set andb].
      do 2 f_equal. by rewrite (andb_comm (token_format _)).
  - destruct (turn_fails j s1 Hr) as (s2 & -> & Ha). eapply step_fails; [|reflexivity|done].
    unfold field_text. by rewrite Ef, Ev, Ex.
Qed.

Definition all_in_order : bool := forallb (λ g, is_set (field_text fields g)) fields.
Lemma loop_run n : ∀ j s, turned_to j s → in_order (take j fields) → (j + n = length fields)%nat →
  let o := format_fields (seq j n) s in
  if all_in_order then fst o = Ret None ∧ turned_to (length fields) (snd o)
  else (∃ r, fst o = Ret (Some r)) ∧ dp_clear_signing_available (snd o) = false.
Proof.
  induction n as [|n IH]; intros j s Ht Ho Hn; cbn [seq format_fields].
  - rewrite Nat.add_0_r in Hn. rewrite take_ge in Ho by lia.
    assert (E : all_in_order = true).
    { apply forallb_forall. intros g Hg%list_elem_of_In. eapply Forall_forall in Ho; [|exact Hg].
      by destruct (field_text fields g). }
    rewrite E. by subst j.
  - destruct (lookup_lt_is_Some_2 fields j) as [g Hg]; [lia|].
    pose proof (field_step j g s Ht Ho Hg) as Hs. unfold stepped in Hs. unfold bind.
    destruct (format_field j s) as [o s1]. cbn [fst snd] in Hs.
    destruct (field_text fields g) as [t|] eqn:Et.
    + destruct Hs as [-> Ht1]. apply IH; [done| |lia].
      rewrite (take_S_r _ _ _ Hg). apply Forall_app. split; [done|]. by constructor; [rewrite Et|].
    + destruct Hs as [[r ->] Ha].
      assert (E : all_in_order = false).
      { apply not_true_iff_false. intros Hall. apply (proj1 (forallb_forall _ _)) with (x := g) in Hall;
          [by rewrite Et in Hall|]. by apply list_elem_of_In, list_elem_of_lookup_2 with j. }
      rewrite E. cbn. split; [by exists r|done].
Qed.
End Loop.

(** ** The screen *)

(** The state [s] holds the fields of the open sheet [sh]. *)
Record holds_sheet (conf : display_config_t) (sh : sheet) (s : dp_state) : Prop := {
  hs_conf : sh_conf sh = Some conf;
  hs_fields : used_fields s = sheet_fields sh;
  hs_nb : cx_nb_fields (dp_ctx s) = length (dc_fields conf);
  hs_titles : titles_of s = (dc_review_title conf, dc_review_finish conf);
  hs_destination : cx_destination (dp_ctx s) = dc_destination conf;
  hs_amount_check : cx_amount_check (dp_ctx s) = dc_amount_check conf;
  hs_bad : cx_unreadable (dp_ctx s) = sh_bad sh;
  hs_known : cx_unknown_token (dp_ctx s) = false
}.
(** What a screen that was filled leaves, and one that was not. *)
Definition filled (rv : option review) (r : Z) (s' : dp_state) : Prop :=
  match rv with
  | Some rv => r = 0 ∧ dp_clear_signing_available s' = true ∧ dp_pairs s' = Some (rv_pairs rv) ∧
      titles_of s' = (rv_title rv, rv_finish rv)
  | None => dp_clear_signing_available s' = false
  end.

Lemma field_of_lookup sh conf i g : sh_conf sh = Some conf → sheet_fields sh !! i = Some g →
  ∃ c, c ∈ dc_fields conf ∧ tf_config g = Some c ∧ tf_display g = true.
Proof.
  unfold sheet_fields. intros ->. rewrite list_lookup_fmap_Some. intros (c & -> & Hc).
  exists c. by split_and!; [eapply list_elem_of_lookup_2|..].
Qed.
Lemma sheet_plain sh conf i g : conf ∈ DISPLAY_CONFIGS → sh_conf sh = Some conf →
  sheet_fields sh !! i = Some g → token_field g = true → format_of g = no_format.
Proof.
  intros Hin Hc (c & Hcf & Ec & _)%(field_of_lookup sh conf i g Hc).
  pose proof (proj1 (Forall_forall _ _) plain_tokens conf Hin) as [_ Hcs]%Forall_cons_1.
  pose proof (proj1 (Forall_forall _ _) Hcs c Hcf) as Hp.
  unfold token_field, config_path, format_of. by rewrite Ec.
Qed.
Lemma lines_shown fields l' : length l' = length fields →
  (∀ i g g', fields !! i = Some g → l' !! i = Some g' → shown_pair g' = line_of fields i g) →
  omap shown_pair l' = omap id (imap (line_of fields) fields).
Proof.
  intros Hl Hp. assert (E : map shown_pair l' = imap (line_of fields) fields).
  { apply list_eq. intros i. rewrite list_lookup_imap, list_lookup_fmap.
    destruct (fields !! i) as [g|] eqn:Eg.
    - destruct (lookup_lt_is_Some_2 l' i) as [g' Eg']; [rewrite Hl; by eapply lookup_lt_Some|].
      rewrite Eg'. cbn. f_equal. by apply Hp.
    - by rewrite (lookup_ge_None_2 l') by (rewrite Hl; by apply lookup_ge_None). }
  rewrite <- E. clear. induction l' as [|g l IH]; [done|]. cbn. by rewrite IH.
Qed.

Lemma screen_filled conf sh s : conf ∈ DISPLAY_CONFIGS → holds_sheet conf sh s →
  ∃ r s', format_and_populate_display_items s = (Ret r, s') ∧ filled (review_of sh) r s' ∧
    dp_store s' = values_bind_from_display (sheet_fields sh) (dc_destination conf)
                    (dc_amount_check conf) (dp_store s) ∧
    dp_md_identifiers s' = None ∧ dp_md_conf s' = None ∧
    dp_fields s' = replicate MAX_DISPLAY_FIELDS_NB tx_field_zero.
Proof.
  intros Hin [Hc Hf Hnb Hti Hd Ha Hb Hk].
  set (s1 := s <| dp_store ::= values_bind_from_display (used_fields s)
                    (cx_destination (dp_ctx s)) (cx_amount_check (dp_ctx s)) |>).
  assert (Est : dp_store s1 = values_bind_from_display (sheet_fields sh) (dc_destination conf)
                    (dc_amount_check conf) (dp_store s)) by (cbn; by rewrite Hf, Hd, Ha).
  unfold format_and_populate_display_items, review_of. rewrite Hc.
  unfold bind at 1, modify at 1. fold s1. unfold bind at 1, ctx_of at 1, gets at 1.
  change (cx_unreadable (dp_ctx s1)) with (cx_unreadable (dp_ctx s)). rewrite Hb.
  destruct (sh_bad sh).
  { eexists _, _. split; [reflexivity|]. split; [done|]. split; [exact Est|done]. }
  unfold bind at 1, bind at 1, ctx_of, gets. change (cx_nb_fields (dp_ctx s1)) with (cx_nb_fields (dp_ctx s)).
  assert (Hu : used_fields s1 = sheet_fields sh) by exact Hf.
  assert (Hlen : length (used_fields s1) = length (dc_fields conf)).
  { rewrite Hu. unfold sheet_fields. by rewrite Hc, length_map. }
  assert (Ht0 : turned_to s1 0 s1).
  { split; try done; [unfold titles_shown, shows_ticker; cbn; by rewrite andb_false_r|].
    intros i g Hg. exists g. split; [by apply used_fields_lookup|].
    destruct (field_of_lookup sh conf i g Hc) as (_ & _ & _ & Dg); [by rewrite <- Hu|].
    rewrite Dg. split_and!; try done. unfold replaced, shows_ticker. cbn. by rewrite andb_false_r. }
  pose proof (loop_run s1 (λ i g Hg, sheet_plain sh conf i g Hin Hc
    (eq_trans (f_equal (λ l, l !! i) (eq_sym Hu)) Hg)) (length (dc_fields conf)) 0%nat s1 Ht0) as Hr.
  rewrite Hnb. cbn zeta in Hr. unfold all_in_order in Hr. rewrite Hu in Hr.
  pose proof (format_fields_store (dp_store s1) (seq 0 (length (dc_fields conf))) s1 eq_refl) as Hst.
  unfold screen_lines.
  destruct (format_fields _ s1) as [o s2]. cbn [fst snd] in Hr, Hst.
  destruct (forallb _ (sheet_fields sh)).
  - destruct Hr as [-> [Sw K Ti F]]; [constructor|by rewrite <- Hu, Hlen|].
    destruct Hst as [Hst _]. eexists _, _. split; [reflexivity|].
    assert (Hfilled : omap shown_pair (used_fields s2) =
      omap id (imap (line_of (sheet_fields sh)) (sheet_fields sh))).
    { apply lines_shown.
      - rewrite <- Hu. unfold used_fields. by rewrite !length_take, (sw_nb _ _ Sw), (sw_length _ _ Sw).
      - intros i g g' Hg Hg'. rewrite <- Hu in Hg. destruct (F i g Hg) as (g2 & Hg2 & C & _ & V & D).
        rewrite (used_fields_lookup _ _ _ Hg') in Hg2. injection Hg2 as <-.
        unfold shown_pair, line_of. rewrite C, V, D, Hu. rewrite decide_True.
        2: { rewrite Hu in Hg. by eapply lookup_lt_Some. }
        rewrite take_ge by done. destruct (replaced (sheet_fields sh) (sheet_fields sh) i); [done|].
        cbn [negb]. by destruct (field_text (sheet_fields sh) g) as [[t|]|]. }
    rewrite take_ge in Ti by by rewrite Hu. unfold titles_shown in Ti. rewrite Hu in Ti.
    change (titles_of s1) with (titles_of s) in Ti. rewrite Hti in Ti.
    split; [|split; [exact (eq_trans Hst Est)|done]]. cbn [option_map filled].
    assert (Et : ∀ rv, titles_of s2 = (rv_title rv, rv_finish rv) →
      rv_pairs rv = omap id (imap (line_of (sheet_fields sh)) (sheet_fields sh)) →
      filled (Some rv) 0 (reset_display_parser_state (populate s2))).
    { intros rv Et Ep. split_and!; try done. cbn. by rewrite Hfilled, Ep. }
    apply Et; rewrite ?Ti; unfold in_native_coin, titled, shows_ticker; cbn [token_format fst];
      destruct (ticker_of (sheet_fields sh)) as [m|]; cbn [is_set andb];
      repeat case_match; done.
  - destruct Hr as [[r ->] Hoff]; [constructor|by rewrite <- Hu, Hlen|].
    destruct Hst as [Hst _]. eexists _, _. split; [reflexivity|]. split; [exact Hoff|].
    split; [exact (eq_trans Hst Est)|done].
Qed.
End Format.
