(* ===== verification/ScreenRead.v ===== *)
(** * Reading a screen

    The display parser on a node, or a disclosed contract, on the wire, on a device whose
    memory suffices: whatever its well-formed values are, it fills the fields of [Sheet.node_sheet] and
    shows the lines of [Sheet.review_of]. *)

From S2P Require Import Prelude Constants Utils DisplayConfig DisplayFormat Pb Wire WireLogic Messages.
From S2P Require Import CanonicalHash TreeCheck ValuesCheck HashingParser HashLogic DisplayParser.
From S2P Require Import ValueHash NodeHash ReadLogic Sheet ScreenFormat.

Section Read.
Context `{Sha256} `{Device} `{!Plenty} `{Screen}.
Abbreviation steps := (step_to False).

(** ** What the parser knows

    [drawn sh s]: the state [s] knows what the sheet [sh] says. *)

Definition spare (l : list tx_field_t) : list tx_field_t :=
  replicate (MAX_DISPLAY_FIELDS_NB - length l) tx_field_zero.
Definition all_fields (sh : sheet) : list tx_field_t := sheet_fields sh ++ spare (sheet_fields sh).
Definition put_off_as (o : option (display_config_t * option bytes)) (s : dp_state) : Prop :=
  match o with
  | Some (conf, expected) => conf ∈ DISPLAY_CONFIGS ∧ dp_md_conf s = Some conf ∧
      dp_md_identifiers s = Some (dc_metadata_contract_identifiers conf) ∧
      dp_expected_contract_id s = expected
  | None => dp_md_conf s = None ∧ dp_md_identifiers s = None
  end.
Definition open_as (o : option display_config_t) (s : dp_state) : Prop :=
  match o with
  | Some conf => conf ∈ DISPLAY_CONFIGS ∧ cx_nb_fields (dp_ctx s) = length (dc_fields conf) ∧
      titles_of s = (dc_review_title conf, dc_review_finish conf) ∧
      cx_destination (dp_ctx s) = dc_destination conf ∧
      cx_amount_check (dp_ctx s) = dc_amount_check conf
  | None => True
  end.
Record drawn (sh : sheet) (s : dp_state) : Prop := {
  dr_has : cx_has_fields (dp_ctx s) = is_open sh;
  dr_open : open_as (sh_conf sh) s;
  dr_fields : dp_fields s = all_fields sh;
  dr_bad : cx_unreadable (dp_ctx s) = sh_bad sh;
  dr_known : cx_unknown_token (dp_ctx s) = false;
  dr_put_off : put_off_as (sh_put_off sh) s
}.
(** The action of the node, as the parser remembers it. *)
Definition identity_of (c : pb_callback_context_t) : list (option bytes) :=
  [cx_last_parsed_contract_id c; cx_node_module c; cx_node_entity c; cx_node_choice_id c].
Definition acting (a : action) (c : pb_callback_context_t) : Prop :=
  identity_of c = map (option_map c_str) [ac_contract_id a; ac_module a; ac_entity a; ac_choice a].

(** What reading a value leaves alone. *)
Record kept (s s' : dp_state) : Prop := {
  kp_store : dp_store s' = dp_store s;
  kp_available : dp_clear_signing_available s' = dp_clear_signing_available s;
  kp_failed : dp_display_failed s' = dp_display_failed s;
  kp_title : dp_review_title s' = dp_review_title s;
  kp_finish : dp_review_finish s' = dp_review_finish s;
  kp_path : cx_field_path (dp_ctx s') = cx_field_path (dp_ctx s);
  kp_depth : cx_record_depth (dp_ctx s') = cx_record_depth (dp_ctx s);
  kp_labels : dp_labels s' = dp_labels s;
  kp_action : identity_of (dp_ctx s') = identity_of (dp_ctx s)
}.
#[export] Instance kept_preorder : PreOrder kept.
Proof. split; [by split|]. intros s1 s2 s3 [] []. split; congruence. Qed.
Definition dp_idle (s s' : dp_state) : Prop := s' = s <| dp_clock := dp_clock s' |>.
#[export] Instance dp_idle_preorder : PreOrder dp_idle.
Proof.
  split.
  - intros []. reflexivity.
  - unfold dp_idle. intros s1 s2 s3 E2 E3. rewrite E3 at 1. rewrite E2 at 1. reflexivity.
Qed.
Lemma dp_idle_kept s s' : dp_idle s s' → kept s s'.
Proof. unfold dp_idle. intros ->. by split. Qed.
Lemma kept_acting a s s' : kept s s' → acting a (dp_ctx s) → acting a (dp_ctx s').
Proof. intros K. unfold acting. by rewrite (kp_action _ _ K). Qed.

(** A change of what the sheet does not speak of. *)
Lemma drawn_same sh s s' : drawn sh s → dp_ctx s' = dp_ctx s → dp_fields s' = dp_fields s →
  dp_md_conf s' = dp_md_conf s → dp_md_identifiers s' = dp_md_identifiers s →
  dp_expected_contract_id s' = dp_expected_contract_id s → drawn sh s'.
Proof.
  intros [Hh Ho Hf Hb Hk Hp] Ec Ef Em Ei Ee. split; unfold open_as, put_off_as, titles_of in *;
    rewrite ?Ec, ?Ef, ?Em, ?Ei, ?Ee; done.
Qed.
Lemma dp_idle_drawn sh s s' : dp_idle s s' → drawn sh s → drawn sh s'.
Proof. unfold dp_idle. intros -> Hd. by apply (drawn_same sh s). Qed.
Lemma drawn_ctx sh s f : drawn sh s →
  (∀ c, cx_has_fields (f c) = cx_has_fields c) → (∀ c, cx_nb_fields (f c) = cx_nb_fields c) →
  (∀ c, cx_review_title (f c) = cx_review_title c) → (∀ c, cx_review_finish (f c) = cx_review_finish c) →
  (∀ c, cx_destination (f c) = cx_destination c) → (∀ c, cx_amount_check (f c) = cx_amount_check c) →
  (∀ c, cx_unreadable (f c) = cx_unreadable c) → (∀ c, cx_unknown_token (f c) = cx_unknown_token c) →
  drawn sh (s <| dp_ctx ::= f |>).
Proof.
  intros [Hh Ho Hf Hb Hk Hp] E1 E2 E3 E4 E5 E6 E7 E8. split; unfold open_as, titles_of in *; cbn;
    rewrite ?E1, ?E2, ?E3, ?E4, ?E5, ?E6, ?E7, ?E8; done.
Qed.
Lemma drawn_useless sh s : drawn sh s → drawn (useless sh) (s <| dp_ctx ::= unreadable |>).
Proof. intros []. by split. Qed.

(** *** Memory *)

Lemma dp_alloc n s : steps s (pb_realloc n : DM unit) (λ _ s', dp_idle s s').
Proof.
  unfold pb_realloc, dp_realloc, step_to. rewrite heap_ok. right. exists tt. eexists.
  split; [done|]. by destruct s.
Qed.
Lemma dp_room s : steps s stack_has_room (λ _ s', dp_idle s s').
Proof.
  unfold stack_has_room, step_to. rewrite stack_ok. right. exists tt. eexists.
  split; [done|]. by destruct s.
Qed.
Lemma strdup_gives p : gives False dp_idle (strdup_if p) (option_map c_str p).
Proof.
  intros s. right. exists (option_map c_str p). destruct p as [p|].
  - unfold strdup_if, app_mem_strdup, bind, app_mem_alloc. rewrite heap_ok. eexists. split; [done|].
    split; [done|]. by destruct s.
  - exists s. split; [done|]. split; [done|reflexivity].
Qed.

(** The action of a node. *)
Definition with_action (a : action) (c : pb_callback_context_t) : pb_callback_context_t :=
  c <| cx_last_parsed_contract_id := option_map c_str (ac_contract_id a) |>
    <| cx_node_module := option_map c_str (ac_module a) |>
    <| cx_node_entity := option_map c_str (ac_entity a) |>
    <| cx_node_choice_id := option_map c_str (ac_choice a) |>.
Lemma identity_set a id s : module_name id = ac_module a → entity_name id = ac_entity a →
  steps s (set_node_identity (ac_contract_id a) (Some id) (ac_choice a))
    (λ _ s', ∃ clock, s' = s <| dp_clock := clock |> <| dp_ctx ::= with_action a |>).
Proof.
  intros Em Ee. unfold set_node_identity.
  change (Some id ≫= module_name) with (module_name id). change (Some id ≫= entity_name) with (entity_name id).
  rewrite Em, Ee.
  eapply step_bind; [apply strdup_gives|]. intros ? s1 [-> Hi1].
  eapply step_bind; [apply strdup_gives|]. intros ? s2 [-> Hi2].
  eapply step_bind; [apply strdup_gives|]. intros ? s3 [-> Hi3].
  eapply step_bind; [apply strdup_gives|]. intros ? s4 [-> Hi4].
  assert (Hi : dp_idle s s4) by (do 3 (etrans; [eassumption|]); done).
  apply step_modify. rewrite Hi. by exists (dp_clock s4).
Qed.
Lemma with_action_acting a c : acting a (with_action a c).
Proof. done. Qed.

(** ** Filling a field *)

(** What one more thing found under the path of a field does to the field. *)
Definition put_found (f : found) (x : tx_field_t) : tx_field_t :=
  if negb (fills f) || tf_matched x then x <| tf_store_failed := true |>
  else
    let x := x <| tf_matched := true |> in
    match filling f with
    | Some (b, n) => x <| tf_value := Some b |> <| tf_value_len := n |>
    | None => if overlong f then x <| tf_store_failed := true |> else x
    end.
Lemma find_snoc {A} (p : A → bool) l x : List.find p (l ++ [x]) =
  match List.find p l with Some y => Some y | None => if p x then Some x else None end.
Proof. induction l as [|y l IH]; cbn; [done|]. by destruct (p y). Qed.
Lemma filter_fills l : length (filter (λ f, fills f = true) l) = 0%nat ↔ List.find fills l = None.
Proof.
  induction l as [|f l IH]; [done|]. rewrite filter_cons. cbn. destruct (fills f); case_decide; done.
Qed.
Lemma field_of_snoc c fs f : field_of c (fs ++ [f]) = put_found f (field_of c fs).
Proof.
  unfold field_of, put_found. rewrite find_snoc, existsb_app, filter_app, length_app. cbn [existsb tf_matched].
  rewrite orb_false_r. pose proof (filter_fills fs) as Hn. destruct (fills f) eqn:Ef; cbn [negb orb].
  - rewrite filter_cons, Ef. rewrite decide_True by done. cbn [filter list_filter length].
    destruct (List.find fills fs) as [g|] eqn:Eg; cbn [is_set].
    + assert (length (filter (λ f, fills f = true) fs) ≠ 0%nat) by (rewrite Hn; done).
      rewrite (proj2 (Nat.ltb_lt _ _)) by lia. unfold update_field. cbn.
      by rewrite orb_true_r.
    + rewrite (proj2 Hn) by done. cbn. rewrite !orb_false_r.
      destruct f as [t|z|]; try done; cbn in *.
      * destruct (strlen t =? 0) eqn:E0; cbn; destruct (_ <? strlen t) eqn:E1; cbn; rewrite ?orb_true_r, ?orb_false_r; try done.
      * by rewrite orb_false_r.
  - rewrite filter_cons, Ef. rewrite decide_False by done. cbn. rewrite Nat.add_0_r, orb_true_r. cbn.
    by destruct (List.find fills fs).
Qed.

Lemma fields_ext s h h' i : (∀ x, dp_fields s !! i = Some x → h x = h' x) →
  s <| dp_fields ::= alter h i |> = s <| dp_fields ::= alter h' i |>.
Proof.
  intros E. destruct s. unfold update_field; cbn in *. f_equal. by apply list_alter_ext.
Qed.
Lemma fields_twice s h h' i : s <| dp_fields ::= alter h i |> <| dp_fields ::= alter h' i |> =
  s <| dp_fields ::= alter (λ x, h' (h x)) i |>.
Proof. destruct s. unfold update_field; cbn. f_equal. apply alter_alter_same. Qed.
(** A text is taken over, one of the application or a timestamp is copied. *)
Lemma take_value_run i t s x : dp_fields s !! i = Some x →
  take_field_value i t s = (Ret tt, s <| dp_fields ::= alter (put_found (Found_text t)) i |>).
Proof.
  intros Hx. unfold take_field_value, bind at 1, gets. rewrite (field_at_some _ _ _ Hx).
  assert (Hput : ∀ h, (∀ y, y = x → h y = put_found (Found_text t) y) →
    s <| dp_fields ::= alter h i |> = s <| dp_fields ::= alter (put_found (Found_text t)) i |>).
  { intros h Eh. apply fields_ext. intros y Hy. rewrite Hx in Hy. injection Hy as <-. by apply Eh. }
  destruct (tf_matched x) eqn:Em.
  - unfold on_field, modify. rewrite (Hput (λ f, f <| tf_store_failed := true |>)); [done|].
    intros y ->. unfold put_found. by rewrite Em.
  - unfold on_field, bind, modify. destruct (strlen t =? 0) eqn:E0.
    + rewrite (Hput (λ f, f <| tf_matched := true |>)); [done|]. intros y ->. unfold put_found. cbn.
      rewrite Em, E0. cbn. rewrite (proj2 (Z.ltb_ge _ _)); [done|]. unfold MAX_FIELD_VALUE_LEN. lia.
    + destruct (Z.of_nat MAX_FIELD_VALUE_LEN <? strlen t) eqn:E1.
      * rewrite fields_twice, Hput; [done|]. intros y ->. unfold put_found. cbn. by rewrite Em, E0, E1.
      * rewrite fields_twice, Hput; [done|]. intros y ->. unfold put_found. cbn. by rewrite Em, E0, E1.
Qed.
Lemma set_value_run i v f s x : dp_fields s !! i = Some x →
  match v with
  | stored_text t => f = Found_text t ∧ c_str t = t ∧ strlen t ≤ Z.of_nat MAX_FIELD_VALUE_LEN
  | stored_timestamp z => f = Found_time z
  end →
  steps s (set_field_value i v)
    (λ _ s', ∃ clock, s' = s <| dp_clock := clock |> <| dp_fields ::= alter (put_found f) i |>).
Proof.
  intros Hx Hf. unfold set_field_value. apply step_gets. rewrite (field_at_some _ _ _ Hx).
  assert (Hput : ∀ h clock, (∀ y, y = x → h y = put_found f y) → ∃ clock',
    s <| dp_clock := clock |> <| dp_fields ::= alter h i |> =
    s <| dp_clock := clock' |> <| dp_fields ::= alter (put_found f) i |>).
  { intros h clock Eh. exists clock. apply fields_ext. intros y Hy. cbn in Hy. rewrite Hx in Hy.
    injection Hy as <-. by apply Eh. }
  assert (Hput0 : ∀ h, (∀ y, y = x → h y = put_found f y) → ∃ clock',
    s <| dp_fields ::= alter h i |> =
    s <| dp_clock := clock' |> <| dp_fields ::= alter (put_found f) i |>).
  { intros h Eh. destruct (Hput h (dp_clock s) Eh) as [clock E]. exists clock. rewrite <- E. by destruct s. }
  destruct (tf_matched x) eqn:Em.
  { unfold on_field. apply step_modify, Hput0. intros y ->.
    unfold put_found. rewrite Em. by destruct (fills f). }
  unfold on_field. apply step_set.
  assert (Hstore : ∀ b n, filling f = Some (b, n) → fills f = true →
    steps (s <| dp_fields ::= alter (λ f, f <| tf_matched := true |>) i |>)
      (let* ok := app_mem_alloc n in
       if ok : bool
       then modify (λ s, s <| dp_fields ::= alter (λ f, f <| tf_value := Some b |> <| tf_value_len := n |>) i |>)
       else modify (λ s, s <| dp_fields ::= alter (λ f, f <| tf_store_failed := true |>) i |>))
      (λ _ s', ∃ clock, s' = s <| dp_clock := clock |> <| dp_fields ::= alter (put_found f) i |>)).
  { intros b n Eb Ef. unfold step_to, bind, app_mem_alloc. rewrite heap_ok. right. exists tt. eexists.
    split; [reflexivity|]. cbn zeta.
    destruct (Hput (λ x, x <| tf_matched := true |> <| tf_value := Some b |> <| tf_value_len := n |>)
      (S (dp_clock s))) as (clock & E).
    { intros y ->. unfold put_found. by rewrite Ef, Em, Eb. }
    exists clock. rewrite <- E.
    exact (fields_twice (s <| dp_clock := S (dp_clock s) |>) (λ f, f <| tf_matched := true |>)
      (λ f, f <| tf_value := Some b |> <| tf_value_len := n |>) i). }
  destruct v as [t|z].
  - destruct Hf as (-> & Et & Hlen). destruct (strlen t =? 0) eqn:E0.
    + right. exists tt. eexists. split; [reflexivity|]. apply Hput0.
      intros y ->. unfold put_found. cbn. rewrite Em, E0. cbn. by rewrite (proj2 (Z.ltb_ge _ _)).
    + rewrite Et. apply Hstore; [|done]. cbn. by rewrite E0, (proj2 (Z.ltb_ge _ _)).
  - subst f. apply Hstore; done.
Qed.

(** *** The field of a path *)

Definition on_path (path : bytes) (c : field_config_t) : Prop := str_eqb (fc_path c) path = true.
#[local] Instance on_path_dec path c : Decision (on_path path c).
Proof. unfold on_path. apply _. Defined.
Definition field_index (path : bytes) (l : list field_config_t) : option nat :=
  option_map fst (list_find (on_path path) l).
Lemma field_index_cons path c l : field_index path (c :: l) =
  if str_eqb (fc_path c) path then Some 0%nat else option_map S (field_index path l).
Proof.
  unfold field_index. cbn [list_find]. case_decide as Hd; unfold on_path in Hd.
  - by rewrite Hd.
  - apply not_true_is_false in Hd. rewrite Hd. by destruct (list_find _ l) as [[]|].
Qed.
Lemma configs_apart conf : conf ∈ DISPLAY_CONFIGS →
  NoDup (map (λ c, c_str (fc_path c)) (dc_fields conf)).
Proof.
  assert (Hall : Forall (λ conf, NoDup (map (λ c, c_str (fc_path c)) (dc_fields conf))) DISPLAY_CONFIGS).
  { apply (bool_decide_unpack _). vm_compute. constructor. }
  intros Hin. by eapply Forall_forall in Hall.
Qed.
Lemma at_path_snoc c l path f : at_path c (l ++ [(path, f)]) =
  at_path c l ++ (if str_eqb (fc_path c) path then [f] else []).
Proof. unfold at_path. rewrite omap_app. cbn. by destruct (str_eqb (fc_path c) path). Qed.
Lemma fields_noted path f found l : NoDup (map (λ c, c_str (fc_path c)) l) →
  map (λ c, field_of c (at_path c (found ++ [(path, f)]))) l =
  match field_index path l with
  | Some i => alter (put_found f) i (map (λ c, field_of c (at_path c found)) l)
  | None => map (λ c, field_of c (at_path c found)) l
  end.
Proof.
  assert (Hskip : ∀ l, (∀ c, c ∈ l → str_eqb (fc_path c) path = false) →
    map (λ c, field_of c (at_path c (found ++ [(path, f)]))) l = map (λ c, field_of c (at_path c found)) l).
  { intros l'. induction l' as [|c l' IH]; intros Hc; cbn [map]; [done|].
    rewrite at_path_snoc, (Hc c), app_nil_r, IH; [done|set_solver|set_solver]. }
  induction l as [|c l IH]; intros Hnd; cbn [map] in *; [done|]. apply NoDup_cons in Hnd as [Hc Hnd].
  rewrite field_index_cons, at_path_snoc. destruct (str_eqb (fc_path c) path) eqn:Ec.
  - rewrite field_of_snoc. cbn. f_equal. apply Hskip. intros c' Hc'. apply not_true_is_false.
    intros E'. apply Hc. apply str_eqb_spec in Ec, E'. rewrite Ec, <- E'.
    apply list_elem_of_In, (in_map (λ c, c_str (fc_path c))), list_elem_of_In. exact Hc'.
  - rewrite app_nil_r, IH by done. by destruct (field_index path l).
Qed.
Lemma used_all conf sh s : sh_conf sh = Some conf → drawn sh s → used_fields s = sheet_fields sh.
Proof.
  intros Hc [_ Ho Hf _ _ _]. rewrite Hc in Ho. destruct Ho as (_ & Hn & _).
  unfold used_fields. rewrite Hf, Hn. unfold all_fields. apply take_app_length'.
  unfold sheet_fields. by rewrite Hc, length_map.
Qed.
Lemma find_field path sh conf s : sh_conf sh = Some conf → drawn sh s →
  find_field_by_path path s = field_index path (dc_fields conf).
Proof.
  intros Hc Hd. unfold find_field_by_path. rewrite (dr_has _ _ Hd). unfold is_open. rewrite Hc. cbn [is_set].
  rewrite (used_all conf sh s Hc Hd). unfold sheet_fields. rewrite Hc.
  induction (dc_fields conf) as [|c l IH]; [done|]. rewrite field_index_cons, <- IH. cbn [map list_find].
  case_decide as Hdec; cbn [config_path field_of tf_config] in Hdec; unfold config_path in Hdec; cbn in Hdec.
  - by rewrite Hdec.
  - apply not_true_is_false in Hdec. rewrite Hdec. by destruct (list_find _ (map _ l)) as [[]|].
Qed.
Lemma index_field path sh conf i : sh_conf sh = Some conf → field_index path (dc_fields conf) = Some i →
  (i < length (sheet_fields sh))%nat.
Proof.
  intros Hc Hi. unfold sheet_fields. rewrite Hc, length_map. unfold field_index in Hi.
  destruct (list_find _ (dc_fields conf)) as [[j c]|] eqn:E; [|done]. injection Hi as <-.
  apply list_find_Some in E as (E & _). by eapply lookup_lt_Some.
Qed.

(** What the value of a field was decoded as. *)
Definition decoded_as (v : value) (r : cbValue dcb) : Prop :=
  which_sum r = value_tag v ∧
  match v with
  | V_party t | V_numeric t | V_text t => v_union r = U_str (Some t)
  | V_timestamp z => v_union r = U_int z
  | _ => True
  end.
Lemma field_written v r f i s x : dp_fields s !! i = Some x → decoded_as v r → found_in v = Some f →
  steps s (let str := match v_union r with U_str p => p | _ => None end in
    if (which_sum r =? VALUE_PARTY_TAG) || (which_sum r =? VALUE_NUMERIC_TAG) ||
       (which_sum r =? VALUE_TEXT_TAG) then
      match str with
      | Some str => take_field_value i str
      | None => abort
      end
    else if which_sum r =? VALUE_TIMESTAMP_TAG then
      set_field_value i (stored_timestamp (match v_union r with U_int t => t | _ => 0 end))
    else if which_sum r =? VALUE_OPTIONAL_TAG then ret tt
    else on_field i (λ f, f <| tf_store_failed := true |>))
    (λ _ s', ∃ clock, s' = s <| dp_clock := clock |> <| dp_fields ::= alter (put_found f) i |>).
Proof.
  intros Hx [-> Hr] Hf. cbn zeta.
  assert (Hother : f = Found_other → steps s (on_field i (λ f, f <| tf_store_failed := true |>))
    (λ _ s', ∃ clock, s' = s <| dp_clock := clock |> <| dp_fields ::= alter (put_found f) i |>)).
  { intros ->. right. exists tt. eexists. split; [reflexivity|]. exists (dp_clock s). by destruct s. }
  assert (Htext : ∀ t, f = Found_text t → steps s (take_field_value i t)
    (λ _ s', ∃ clock, s' = s <| dp_clock := clock |> <| dp_fields ::= alter (put_found f) i |>)).
  { intros t ->. right. exists tt. eexists. split; [by eapply take_value_run|].
    exists (dp_clock s). by destruct s. }
  destruct v; injection Hf as <- || done; cbn; try (by apply Hother); try (rewrite Hr; by apply Htext).
  rewrite Hr. by eapply set_value_run.
Qed.
Lemma note_read path v r sh s : drawn sh s → cx_field_path (dp_ctx s) = Some path → decoded_as v r →
  steps s (find_tx_field r) (λ _ s', drawn (note path v sh) s' ∧ kept s s').
Proof.
  intros Hd Hp Hr. assert (Hsame : steps s (ret tt : DM unit) (λ _ s', drawn sh s' ∧ kept s s'))
    by by apply step_ret.
  unfold find_tx_field, note. apply (step_gets False s (λ s, s)). rewrite (dr_has _ _ Hd), Hp.
  unfold is_open. destruct (sh_conf sh) as [conf|] eqn:Hc; cbn [is_set]; [|by destruct (found_in v)].
  rewrite (find_field path sh conf s Hc Hd). pose proof Hd as [Hh Ho Hf Hb Hk Hpo]. rewrite Hc in Ho.
  assert (Hin : conf ∈ DISPLAY_CONFIGS) by apply Ho.
  destruct (found_in v) as [f|] eqn:Ef.
  2: { destruct (field_index path _); [|done]. destruct Hr as [-> _]. by destruct v. }
  set (sh' := sh <| sh_found ::= λ l, l ++ [(path, f)] |>).
  pose proof (fields_noted path f (sh_found sh) (dc_fields conf) (configs_apart conf Hin)) as En.
  assert (Es : sheet_fields sh' = match field_index path (dc_fields conf) with
    | Some i => alter (put_found f) i (sheet_fields sh) | None => sheet_fields sh end).
  { unfold sheet_fields, sh'. cbn [sh_conf sh_found update_field]. cbn. rewrite Hc. exact En. }
  assert (Hdone : ∀ s', dp_fields s' = all_fields sh' →
    (∃ clock l, s' = s <| dp_clock := clock |> <| dp_fields := l |>) → drawn sh' s' ∧ kept s s').
  { intros s' Ef' (clock & l & ->). split; [|by split]. split; try done. unfold open_as in *.
    change (sh_conf sh') with (sh_conf sh). by rewrite Hc. }
  destruct (field_index path (dc_fields conf)) as [i|] eqn:Ei.
  - pose proof (index_field path sh conf i Hc Ei) as Hi.
    destruct (lookup_lt_is_Some_2 (sheet_fields sh) i Hi) as [x Hx].
    assert (Hx' : dp_fields s !! i = Some x) by (rewrite Hf; unfold all_fields; by apply lookup_app_l_Some).
    eapply step_weaken; [exact (field_written v r f i s x Hx' Hr Ef)|]. intros _ s' [clock ->].
    apply Hdone; [|by eexists _, _]. cbn. rewrite Hf. unfold all_fields, spare.
    rewrite alter_app_l by done. by rewrite Es, length_alter.
  - apply step_ret, Hdone; [by rewrite Hf; unfold all_fields; rewrite Es|].
    exists (dp_clock s), (dp_fields s). by destruct s.
Qed.

(** ** Opening a screen *)

Definition preset (conf : display_config_t) (l : list tx_field_t) : list tx_field_t :=
  if str_eqb (dc_review_title conf) PREAPPROVAL_PROPOSAL_REVIEW_TITLE
  then alter (put_found (Found_text PREAPPROVAL_ASSET_FIELD_VALUE)) PREAPPROVAL_ASSET_FIELD_INDEX
         (alter (λ f, f <| tf_config := Some PREAPPROVAL_ASSET_FIELD |>) PREAPPROVAL_ASSET_FIELD_INDEX l)
  else l.
Lemma preset_fields conf : conf ∈ DISPLAY_CONFIGS →
  preset conf (init_fields (dc_fields conf) (replicate MAX_DISPLAY_FIELDS_NB tx_field_zero)) =
  all_fields (opens conf (blank None)).
Proof.
  assert (Hall : Forall (λ conf,
    preset conf (init_fields (dc_fields conf) (replicate MAX_DISPLAY_FIELDS_NB tx_field_zero)) =
    all_fields (opens conf (blank None))) DISPLAY_CONFIGS).
  { unfold DISPLAY_CONFIGS. repeat (constructor; [vm_compute; reflexivity|]). constructor. }
  intros Hin. by eapply Forall_forall in Hall.
Qed.

Lemma screen_opens conf sh s : conf ∈ DISPLAY_CONFIGS → sh_conf sh = None → drawn sh s →
  steps s (set_display_config conf) (λ _ s', drawn (opens conf sh) s' ∧ kept s s').
Proof.
  intros Hin Hn Hd. pose proof Hd as [Hh Ho Hf Hb Hk Hp].
  assert (Ef : dp_fields s = replicate MAX_DISPLAY_FIELDS_NB tx_field_zero).
  { rewrite Hf. unfold all_fields, sheet_fields, spare. rewrite Hn. cbn. done. }
  assert (Hdone : ∀ s' clock, s' = (open_screen conf s) <| dp_clock := clock |> <| dp_pairs := Some [] |>
      <| dp_fields := all_fields (opens conf sh) |> → drawn (opens conf sh) s' ∧ kept s s').
  { intros s' clock ->. split; [|by split]. by split. }
  assert (Ea : all_fields (opens conf sh) = preset conf (dp_fields (open_screen conf s))).
  { unfold open_screen. cbn [dp_fields update_field]. cbn. rewrite Ef. symmetry. by apply preset_fields. }
  enough (Hfill : steps (open_screen conf s) (fill_screen conf)
    (λ _ s', drawn (opens conf sh) s' ∧ kept s s')) by exact Hfill.
  unfold fill_screen. eapply (step_bind _ _ _ _ (λ ok s', ok = true ∧ ∃ clock,
    s' = (open_screen conf s) <| dp_clock := clock |> <| dp_pairs := Some [] |>)).
  { unfold init_transaction_pairs, step_to, bind, app_mem_alloc. rewrite heap_ok. right.
    eexists _, _. split; [reflexivity|]. split; [done|]. by eexists. }
  intros ok s1 [-> [clock ->]]. unfold preset in Ea.
  destruct (str_eqb (dc_review_title conf) PREAPPROVAL_PROPOSAL_REVIEW_TITLE) eqn:Et.
  - apply step_pure, step_set. set (s1 := (open_screen conf s) <| dp_clock := clock |> <| dp_pairs := Some [] |>).
    set (s2 := s1 <| dp_fields ::= _ |>).
    destruct (lookup_lt_is_Some_2 (dp_fields s2) PREAPPROVAL_ASSET_FIELD_INDEX) as [x Hx].
    { unfold s2, s1, open_screen. cbn. unfold init_fields. rewrite length_alter, length_imap, Ef. unfold PREAPPROVAL_ASSET_FIELD_INDEX, MAX_DISPLAY_FIELDS_NB. cbn. lia. }
    eapply step_weaken; [by apply (set_value_run _ _ (Found_text PREAPPROVAL_ASSET_FIELD_VALUE) s2 x)|].
    intros _ s' [clock' ->]. apply (Hdone _ clock'). rewrite Ea. done.
  - apply step_pure, step_ret, (Hdone _ clock). by rewrite Ea.
Qed.
(** *** The action of the node *)

Lemma opt_eqb_text a b : opt_eqb a (option_map c_str b) = opt_eqb a b.
Proof. destruct a, b; try done. cbn. unfold str_eqb. by rewrite c_str_idemp. Qed.
Lemma text_eqb_opt a b : opt_eqb (option_map c_str a) b = opt_eqb a b.
Proof. destruct a, b; try done. cbn. unfold str_eqb. by rewrite c_str_idemp. Qed.
Lemma node_template a c m e : acting a c → is_node_template c m e = of_template a m e.
Proof. intros [= _ Em Ee _]. unfold is_node_template, of_template. by rewrite Em, Ee, !opt_eqb_text. Qed.
Lemma node_action a c conf id : acting a c → config_matches_node_action c conf id = acts_on a conf id.
Proof.
  intros Ha. pose proof (node_template a c) as Ht. pose proof Ha as [= _ _ _ Ec].
  unfold config_matches_node_action, acts_on. rewrite Ec, opt_eqb_text.
  destruct (ac_choice a) as [choice|]; cbn [option_map]; [|by apply Ht]. f_equal.
  induction (dc_node_identifiers conf) as [|n l IH]; cbn; [done|]. by rewrite IH, Ht.
Qed.
Lemma find_same {A} (p q : A → bool) l : (∀ x, p x = q x) → List.find p l = List.find q l.
Proof. intros E. induction l as [|x l IH]; cbn; [done|]. by rewrite E, IH. Qed.
Lemma existsb_guarded {A} (p : A → bool) b1 b2 l :
  existsb (λ x, p x && b1 && b2) l = existsb p l && b1 && b2.
Proof. induction l as [|x l IH]; cbn; [done|]. rewrite IH. by destruct (p x), b1, b2, (existsb p l). Qed.

Lemma meet_read a id sh s : drawn sh s → acting a (dp_ctx s) →
  steps s (find_tx_type_and_config id) (λ _ s', drawn (meet a id sh) s' ∧ kept s s').
Proof.
  intros Hd Ha. unfold find_tx_type_and_config, meet.
  apply (step_gets False s (λ s, s)). rewrite (dr_has _ _ Hd). unfold is_open at 1 2.
  destruct (sh_conf sh) as [conf|] eqn:Hn; cbn [is_set]; [by apply step_ret|].
  pose proof (dr_put_off _ _ Hd) as Hp.
  rewrite (find_same _ (λ conf, match_identifier id (dc_identifier conf) && acts_on a conf id))
    by (intros conf; by rewrite (node_action a)).
  fold (chosen a id). set (self := match chosen a id with None => sh | _ => _ end).
  assert (Hself : steps s (match chosen a id with
      | None => ret tt
      | Some config => match dc_metadata_contract_identifiers config with
          | [] => set_display_config config
          | ids => do* modify (λ s, s <| dp_md_identifiers := Some ids |> <| dp_md_conf := Some config |>
                                      <| dp_expected_contract_id := None |>) in
                   let* expected := strdup_if (cx_last_parsed_contract_id (dp_ctx s)) in
                   modify (λ s, s <| dp_expected_contract_id := expected |>)
          end
      end) (λ _ s', drawn self s' ∧ kept s s')).
  { subst self. destruct (chosen a id) as [conf|] eqn:Ec; [|by apply step_ret].
    assert (Hin : conf ∈ DISPLAY_CONFIGS) by (apply List.find_some in Ec as [Hin _]; by apply list_elem_of_In).
    destruct (dc_metadata_contract_identifiers conf) as [|i ids] eqn:Em; [by apply screen_opens|].
    apply step_set. pose proof Ha as [= Ecid _ _ _]. rewrite Ecid.
    eapply step_bind; [apply strdup_gives|]. intros ? s1 [-> Hi]. apply step_modify.
    unfold dp_idle in Hi. rewrite Hi. split; [|by split].
    destruct Hd as [Hh Ho Hf Hb Hk _]. split; cbn; [unfold is_open; cbn; by rewrite Hh|by rewrite Hn|done|done|done|].
    rewrite Em. split_and!; try done. destruct (ac_contract_id a); cbn; by rewrite ?c_str_idemp. }
  destruct (sh_put_off sh) as [[conf expected]|]; cbn [put_off_as] in Hp.
  - destruct Hp as (Hin & -> & -> & ->). rewrite (node_template a) by done.
    pose proof Ha as [= Ecid _ _ _]. rewrite Ecid in Hself |- *. rewrite text_eqb_opt, existsb_guarded. fold (awaited a conf expected id).
    destruct (awaited a conf expected id); [by apply screen_opens|exact Hself].
  - destruct Hp as (-> & ->). exact Hself.
Qed.
End Read.
