(* ===== verification/ScreenWalk.v ===== *)
(** * Walking over a value

    The display parser on a value on the wire, on a device whose memory suffices: it meets the
    records, follows the labels and notes what it finds as [Sheet.walk] says. *)

From S2P Require Import Prelude Constants Utils DisplayConfig DisplayFormat Pb Wire WireLogic Messages.
From S2P Require Import CanonicalHash TreeCheck ValuesCheck HashingParser HashLogic DisplayParser.
From S2P Require Import ValueHash ValueCode NodeHash ReadLogic Sheet ScreenFormat ScreenRead.

(** Under a label, and back. *)
Lemma label_back path l sh : take (length path) (fst (label path l sh)) = path.
Proof.
  unfold label. destruct (bad_segment l); [apply firstn_all|]. destruct (negb (is_open sh)); [apply firstn_all|].
  destruct (path_overflows path l); [apply firstn_all|]. unfold path_under. cbn [fst].
  destruct path as [|b path]; [done|]. cbn [length Nat.ltb Nat.leb]. rewrite <- app_assoc.
  apply (take_app_length (b :: path)).
Qed.
Lemma label_open path l sh : is_open (snd (label path l sh)) = is_open sh.
Proof. unfold label. by repeat case_match. Qed.
Lemma note_open path v sh : is_open (note path v sh) = is_open sh.
Proof. unfold note. by repeat case_match. Qed.
Lemma entry_open a path sh e : is_open sh = true → is_open (entry a path sh e) = true.
Proof.
  intros Ho. unfold entry. pose proof (label_open path (fst e) sh) as El.
  destruct (label path (fst e) sh) as [p sh']. rewrite note_open. apply walk_open. by rewrite <- Ho.
Qed.

Section Walk.
Context `{Sha256} `{Device} `{!Plenty} `{Screen}.
Variable a : action.
Abbreviation steps := (step_to False).

(** ** At work

    The state in which a value under [path] is read; a closed screen has no open record. *)

Record at_work (path : bytes) (sh : sheet) (s : dp_state) : Prop := {
  aw_drawn : drawn sh s;
  aw_action : acting a (dp_ctx s);
  aw_path : cx_field_path (dp_ctx s) = Some path;
  aw_u8 : is_u8 (cx_record_depth (dp_ctx s));
  aw_depth : is_open sh = false → cx_record_depth (dp_ctx s) = 0
}.
Lemma at_work_kept path sh sh' s s' : at_work path sh s → kept s s' → drawn sh' s' →
  (is_open sh = true → is_open sh' = true) → at_work path sh' s'.
Proof.
  intros [Hd Ha Hp Hu He] K Hd' Hm. split; [done|by eapply kept_acting|..].
  - by rewrite (kp_path _ _ K).
  - by rewrite (kp_depth _ _ K).
  - intros E. rewrite (kp_depth _ _ K). apply He. destruct (is_open sh); [by rewrite Hm in E|done].
Qed.

(** Reading what is not followed counts the values, and takes memory. *)
Definition dp_quiet (s s' : dp_state) : Prop :=
  s' = s <| dp_clock := dp_clock s' |>
         <| dp_ctx ::= λ c, c <| cx_values_opened := cx_values_opened (dp_ctx s') |> |>.
#[export] Instance dp_quiet_preorder : PreOrder dp_quiet.
Proof.
  split.
  - intros []. unfold dp_quiet, update_field. cbn. by destruct dp_ctx.
  - unfold dp_quiet. intros s1 s2 s3 E2 E3. rewrite E3 at 1. rewrite E2 at 1. reflexivity.
Qed.
Lemma idle_quiet s s' : dp_idle s s' → dp_quiet s s'.
Proof. unfold dp_idle. intros ->. destruct s. unfold dp_quiet, update_field. cbn. by destruct dp_ctx. Qed.
Lemma quiet_kept s s' : dp_quiet s s' → kept s s'.
Proof. unfold dp_quiet. intros ->. by split. Qed.
Lemma quiet_drawn sh s s' : dp_quiet s s' → drawn sh s → drawn sh s'.
Proof. unfold dp_quiet. intros -> Hd. apply drawn_ctx; [by apply (drawn_same sh s)|done..]. Qed.
Lemma quiet_work path sh s s' : dp_quiet s s' → at_work path sh s → at_work path sh s'.
Proof.
  intros Hq Hw. apply (at_work_kept path sh sh s); [done|by apply quiet_kept| |done].
  by eapply quiet_drawn, aw_drawn.
Qed.
Lemma dp_quiet_alloc n s : steps s (pb_realloc n : DM unit) (λ _ s', dp_quiet s s').
Proof. eapply step_weaken; [apply dp_alloc|]. intros [] s'. apply idle_quiet. Qed.
Lemma dp_quiet_room s : steps s stack_has_room (λ _ s', dp_quiet s s').
Proof. eapply step_weaken; [apply dp_room|]. intros [] s'. apply idle_quiet. Qed.
Definition value_opened (s : dp_state) : dp_state :=
  s <| dp_ctx ::= λ c, c <| cx_values_opened ::= λ n, u32 (n + 1) |> |>.
Lemma opened_quiet s : dp_quiet s (value_opened s).
Proof. destruct s. unfold dp_quiet, value_opened, update_field. cbn. by destruct dp_ctx. Qed.

(** ** A label *)

Definition at_label (p : bytes) (labels : list label_read_t) (s : dp_state) : dp_state :=
  s <| dp_ctx ::= λ c, c <| cx_field_path := Some p |> |> <| dp_labels := labels |>.
Lemma label_kept p labels s s' : kept (at_label p labels s) s' →
  ∀ path, cx_field_path (dp_ctx s) = Some path → take (length path) p = path → dp_labels s = tail labels →
  kept s (s' <| dp_labels ::= tail |> <| dp_ctx ::= cut_path (length path) |>).
Proof.
  intros [Ks Kv Kf Kt Ki Kp Kd Kl Ka] path Ep Et El. split; try done; cbn.
  - rewrite Kp. cbn. by rewrite Et.
  - by rewrite Kl.
Qed.
Lemma kept_cut n s s' : kept s s' → kept (s <| dp_ctx ::= cut_path n |>) (s' <| dp_ctx ::= cut_path n |>).
Proof. intros [Ks Kv Kf Kt Ki Kp Kd Kl Ka]. split; try done. cbn. by rewrite Kp. Qed.
Definition seen (s : dp_state) : label_read_t :=
  {| lr_seen := true; lr_values_before := cx_values_opened (dp_ctx s) |}.
Definition pushed (s : dp_state) : dp_state :=
  s <| dp_labels ::= λ l, {| lr_seen := false; lr_values_before := cx_values_opened (dp_ctx s) |} :: l |>.

Lemma marked s : mark_segment (pushed s) = (Ret tt, s <| dp_labels := seen s :: dp_labels s |>).
Proof. unfold mark_segment, bind, modify. cbn. by rewrite Z.eqb_refl. Qed.

Lemma label_walked l path sh s : fits l = true → at_work path sh s →
  steps (pushed s) (decode_record_field_label l) (λ sub s', sub = [] ∧
    at_work (fst (label path l sh)) (snd (label path l sh)) s' ∧
    kept (at_label (fst (label path l sh)) (seen s :: dp_labels s) s) s').
Proof.
  intros Hf [Hd Ha Hp Hu He]. unfold decode_record_field_label, step_to, bind at 1 2. rewrite marked.
  set (s1 := s <| dp_labels := seen s :: dp_labels s |>).
  assert (Hd1 : drawn sh s1) by by apply (drawn_same sh s).
  assert (K1 : ∀ p f, cx_field_path (f (dp_ctx s)) = Some p →
    cx_record_depth (f (dp_ctx s)) = cx_record_depth (dp_ctx s) →
    identity_of (f (dp_ctx s)) = identity_of (dp_ctx s) →
    kept (at_label p (seen s :: dp_labels s) s) (s1 <| dp_ctx ::= f |>)) by by split.
  change (steps s1 (read_path_segment l) (λ sub s', sub = [] ∧
    at_work (fst (label path l sh)) (snd (label path l sh)) s' ∧
    kept (at_label (fst (label path l sh)) (seen s :: dp_labels s) s) s')).
  unfold read_path_segment. unfold fits in Hf. rewrite (proj2 (Nat.leb_gt _ _)) by by apply Nat.ltb_lt.
  eapply step_of_option; [rewrite <- (app_nil_r l) at 2; apply pb_read_app|]. cbn iota beta.
  change ((length l =? 0)%nat || negb (no_nulb l)) with (bad_segment l). unfold label.
  destruct (bad_segment l) eqn:Eb; unfold on_ctx; apply step_set, step_ret; (split; [done|]).
  { split; [|by apply K1]. split; try done. by apply drawn_useless. }
  apply orb_false_iff in Eb as [_ Eb%negb_false_iff%no_nulb_spec].
  assert (Ep : push_path l (dp_ctx s1) = if negb (is_open sh) then dp_ctx s1
    else if path_overflows path l then unreadable (dp_ctx s1)
    else (dp_ctx s1) <| cx_field_path := Some (path_under path l) |>).
  { unfold push_path. change (dp_ctx s1) with (dp_ctx s). rewrite (dr_has _ _ Hd), Hp, c_str_id by done.
    by destruct (is_open sh). }
  assert (Es : ∀ c, push_path l (dp_ctx s1) = c → s1 <| dp_ctx ::= push_path l |> = s1 <| dp_ctx := c |>)
    by by intros ? <-.
  rewrite (Es _ Ep). clear Ep Es.
  destruct (negb (is_open sh)); [|destruct (path_overflows path l)]; cbn [fst snd].
  - split; [by split|by apply (K1 _ id)].
  - split; [|by apply (K1 _ unreadable)]. split; try done. by apply drawn_useless.
  - split; [|by apply (K1 _ (λ c, c <| cx_field_path := Some (path_under path l) |>))].
    split; try done. by apply (drawn_ctx sh s1 (λ c, c <| cx_field_path := Some (path_under path l) |>)).
Qed.

(** ** What is under a label *)

Lemma step_runs {A B} s s' (m : DM A) x (k : A → DM B) Q : m s = (Ret x, s') → steps s' (k x) Q →
  steps s (bind m k) Q.
Proof. intros E. unfold step_to, bind. by rewrite E. Qed.
Lemma pop_seen p labels s s' : kept (at_label p labels s) s' →
  pop_label s' = (Ret (match labels with lr :: _ => lr_seen lr | [] => false end),
                  s' <| dp_labels ::= tail |>).
Proof. intros K. unfold pop_label, bind, gets, modify. by rewrite (kp_labels _ _ K). Qed.

Definition scans (fuel : nat) : Prop := ∀ v path sh s v0, (length (wire_value v) ≤ fuel)%nat →
  value_wf v = true → measured (wire_value v) → which_sum v0 = 0 →
  cb_sum v0 = Some decode_value_variant_cb → at_work path sh s →
  fields_to False s (Value_fields (run fuel) (run_sum fuel)) (wire_value v) v0
    (λ r s', decoded_as v r ∧ drawn (walk a path v sh) s' ∧ kept s s').
(** What [entry] says of the rest of a sheet, before the value is noted. *)
Definition under_label (path l : bytes) (v : value) (sh : sheet) (s : dp_state)
    (rf : cbLabelled dcb) (s' : dp_state) : Prop :=
  decoded_as v (lb_value rf) ∧
  drawn (walk a (fst (label path l sh)) v (snd (label path l sh))) s' ∧
  kept (at_label (fst (label path l sh)) (seen s :: dp_labels s) s) s'.
Definition entry_start (c : dcb) : cbLabelled dcb :=
  cbLabelled_zero <| lb_label := Some c |> <| lb_value := variant_value |>.

Lemma entry_walked fuel c l v path sh s : (∀ stream, run fuel c stream = decode_record_field_label stream) →
  scans fuel → (length (wire_value v) ≤ fuel)%nat → fits l = true → value_wf v = true →
  measured (wire_entry l (wire_value v)) → at_work path sh s →
  steps (pushed s) (pb_decode_inner (Labelled_fields (run fuel) (run_sum fuel))
      (wire_entry l (wire_value v)) (entry_start c)) (under_label path l v sh s).
Proof.
  intros Ec Hscan Hl Hf Hwf [Hml%measured_bytes Hm%measured_bytes]%measured_app Hw.
  set (p := fst (label path l sh)). set (sh' := snd (label path l sh)).
  apply (λ (h : fields_to _ _ _ _ _ _), h _ (le_n _)). unfold wire_entry.
  eapply (fields_to_bytes _ _ _ _ _ _ _ _ (λ r s', r = entry_start c ∧ at_work p sh' s' ∧
    kept (at_label p (seen s :: dp_labels s) s) s')); [done|reflexivity| |].
  - apply (step_called _ (pushed s) _ (run fuel c)); [done|done|].
    rewrite Ec. by apply label_walked.
  - intros ? s1 (-> & W1 & K1). eapply fields_to_last; [done|reflexivity|].
    unfold h_value. apply (step_submsg _ _ _ _ _ _ (under_label path l v sh s)); [done|]. unfold dec_static.
    eapply step_bind; [apply (λ (h : fields_to _ _ _ _ _ _), h _ (le_n _)); by apply (Hscan v p sh' s1)|].
    intros r s2 (Hr2 & D2 & K2). apply step_ret. split; [done|]. split; [done|by etrans].
Qed.
Lemma entry_noted path l v rf sh s s' : cx_field_path (dp_ctx s) = Some path →
  under_label path l v sh s rf s' →
  steps (s' <| dp_labels ::= tail |>)
    (do* find_tx_field (lb_value rf) in do* on_ctx (cut_path (length path)) in ret ([] : istream))
    (λ sub s2, sub = [] ∧ drawn (entry a path sh (l, v)) s2 ∧ kept s s2).
Proof.
  unfold under_label, entry. cbn [fst snd]. pose proof (label_back path l sh) as Eb.
  destruct (label path l sh) as [p sh']. cbn [fst snd] in *. intros Hp (Hr & D & K).
  set (s1 := s' <| dp_labels ::= tail |>).
  assert (D1 : drawn (walk a p v sh') s1) by by apply (drawn_same _ s').
  assert (Hp1 : cx_field_path (dp_ctx s1) = Some p) by apply (kp_path _ _ K).
  eapply step_bind; [by apply (note_read p v (lb_value rf))|]. intros _ s2 [D2 K2].
  unfold on_ctx. apply step_set, step_ret. split; [done|]. split; [by apply drawn_ctx|].
  etrans; [by apply (label_kept p _ s s' K path Hp Eb)|by apply kept_cut].
Qed.

Lemma field_walked fuel l v path sh s : scans fuel → (length (wire_value v) ≤ fuel)%nat →
  fits l = true → value_wf v = true → measured (wire_entry l (wire_value v)) → at_work path sh s →
  is_open sh = true →
  steps s (decode_record_field (run fuel) (run_sum fuel) (wire_entry l (wire_value v)))
    (λ sub s', sub = [] ∧ drawn (entry a path sh (l, v)) s' ∧ kept s s').
Proof.
  intros Hscan Hl Hf Hwf Hm Hw Ho. unfold decode_record_field, ctx_of.
  apply step_gets. rewrite (dr_has _ _ (aw_drawn _ _ _ Hw)), Ho. cbn [negb].
  eapply step_bind; [apply dp_quiet_room|]. intros [] s1 Hq. apply step_gets.
  assert (Hw1 : at_work path sh s1) by by eapply quiet_work.
  unfold parent_len. rewrite (aw_path _ _ _ Hw1). unfold push_label. apply step_set. change (_ <| dp_labels ::= _ |>) with (pushed s1).
  pose proof (wire_value_nonempty v). destruct fuel as [|fuel]; [lia|].
  eapply step_bind; [by apply (entry_walked (S fuel) decode_record_field_label_cb l v path sh s1)|].
  intros rf s2 Hu. pose proof Hu as (_ & _ & K2).
  eapply step_runs; [by eapply pop_seen|]. cbn [lr_seen seen]. apply step_pure.
  eapply step_weaken; [by apply (entry_noted path l v rf sh s1); [apply Hw1|]|].
  intros sub s3 (-> & D3 & K3). split; [done|]. split; [done|]. etrans; [by apply quiet_kept|done].
Qed.
Lemma map_entry_walked fuel l v path sh s : scans fuel → (length (wire_value v) ≤ fuel)%nat →
  fits l = true → value_wf v = true → measured (wire_entry l (wire_value v)) → at_work path sh s →
  steps s (decode_value_text_map (run fuel) (run_sum fuel) (wire_entry l (wire_value v)))
    (λ sub s', sub = [] ∧ drawn (entry a path sh (l, v)) s' ∧ kept s s').
Proof.
  intros Hscan Hl Hf Hwf Hm Hw. unfold decode_value_text_map, ctx_of.
  eapply step_bind; [apply dp_quiet_room|]. intros [] s1 Hq. apply step_gets.
  assert (Hw1 : at_work path sh s1) by by eapply quiet_work.
  unfold parent_len. rewrite (aw_path _ _ _ Hw1). unfold push_label. apply step_set. change (_ <| dp_labels ::= _ |>) with (pushed s1).
  pose proof (wire_value_nonempty v). destruct fuel as [|fuel]; [lia|].
  eapply step_bind; [by apply (entry_walked (S fuel) decode_textmap_key_cb l v path sh s1)|].
  intros rf s2 Hu. pose proof Hu as (_ & _ & K2).
  eapply step_runs; [by eapply pop_seen|]. cbn [lr_seen seen]. apply step_gets, step_pure.
  eapply step_weaken; [by apply (entry_noted path l v rf sh s1); [apply Hw1|]|].
  intros sub s3 (-> & D3 & K3). split; [done|]. split; [done|]. etrans; [by apply quiet_kept|done].
Qed.
(** The entries of a record or of a map, each read by the callback [f]. *)
Definition entries_wire (tag : Z) (l : list (bytes * value)) : bytes :=
  flat_map (λ '(k, v), wire_bytes tag (wire_entry k (wire_value v))) l.
Definition entry_ready (fuel : nat) (e : bytes * value) : Prop :=
  (length (wire_value (snd e)) ≤ fuel)%nat ∧ fits (fst e) = true ∧ value_wf (snd e) = true ∧
  measured (wire_entry (fst e) (wire_value (snd e))).
Lemma entries_read {R} (handler : Z → option (field_handler dp_state R)) tag callback f r0 fuel path
    (P : sheet → Prop) l : 0 < tag < 2 ^ 29 → handler tag = Some (h_callback callback) →
  callback r0 = Some f → (∀ sh e, P sh → P (entry a path sh e)) →
  (∀ k v sh s, entry_ready fuel (k, v) → at_work path sh s → P sh →
     steps s (f (wire_entry k (wire_value v)))
       (λ sub s', sub = [] ∧ drawn (entry a path sh (k, v)) s' ∧ kept s s')) →
  Forall (entry_ready fuel) l → ∀ sh s, at_work path sh s → P sh →
  fields_to False s handler (entries_wire tag l) r0
    (λ r s', r = r0 ∧ drawn (fold_left (entry a path) l sh) s' ∧ kept s s').
Proof.
  intros Ht Eh Ec HP Hf Hl. induction Hl as [|[k v] l He Hl IH]; intros sh s Hw Hs.
  { apply fields_to_nil. by split_and!; [|apply Hw|]. }
  unfold entries_wire in *. cbn [flat_map fold_left].
  eapply (fields_to_bytes _ _ _ _ _ _ _ _ (λ r s', r = r0 ∧ drawn (entry a path sh (k, v)) s' ∧ kept s s'));
    [done|exact Eh| |].
  - apply (step_called _ s callback f); [apply He|done|]. by apply Hf.
  - intros ? s1 (-> & D1 & K1) fl Hfl. eapply step_weaken.
    + apply (IH (entry a path sh (k, v)) s1); [|by apply HP|done].
      eapply at_work_kept; [done|done|done|]. apply entry_open.
    + intros r s2 (-> & D2 & K2). split; [done|]. split; [done|by etrans].
Qed.
(** A record that opens no screen is passed over. *)
Lemma closed_fields_read fuel l sh s : Forall (entry_ready fuel) l → drawn sh s → is_open sh = false →
  fields_to False s (record_fields (run (S fuel))) (entries_wire 2 l)
    (Some decode_record_id_field_cb, Some decode_record_field_cb)
    (λ r s', r = (Some decode_record_id_field_cb, Some decode_record_field_cb) ∧ s' = s).
Proof.
  intros Hl Hd Ho. induction Hl as [|[k v] l He Hl IH]; [by apply fields_to_nil|].
  unfold entries_wire. cbn [flat_map].
  eapply (fields_to_bytes _ _ _ _ _ _ _ _ (λ r s', r = (Some decode_record_id_field_cb, Some decode_record_field_cb)
    ∧ s' = s)); [done|reflexivity| |by intros ? ? [-> ->]].
  apply (step_left _ s _ (run (S fuel) decode_record_field_cb)); [apply He|done|].
  change (run (S fuel) decode_record_field_cb) with (decode_record_field (run fuel) (run_sum fuel)).
  unfold decode_record_field, ctx_of. apply step_gets. rewrite (dr_has _ _ Hd), Ho. by apply step_ret.
Qed.

(** The name of a record is looked at when no other record is open. *)
Lemma record_id_read id sh s : measured (wire_ident id) → drawn sh s → acting a (dp_ctx s) →
  (is_open sh = false → cx_record_depth (dp_ctx s) = 1) →
  steps s (decode_record_id_field (wire_ident id)) (λ sub s', sub = [] ∧
    drawn (meet a id sh) s' ∧ kept s s').
Proof.
  intros Hm Hd Ha Hdep. unfold decode_record_id_field, ctx_of.
  eapply step_bind; [apply (parses_inner False dp_quiet _ _ _ _ (ident_parses False dp_quiet dp_quiet_alloc id Hm))|].
  intros ? s1 [-> Hq]. pose proof (quiet_kept _ _ Hq) as K1.
  pose proof (quiet_drawn _ _ _ Hq Hd) as D1. pose proof (kept_acting _ _ _ K1 Ha) as A1.
  apply step_gets. rewrite (kp_depth _ _ K1).
  destruct (Z.eqb_spec (cx_record_depth (dp_ctx s)) 1) as [E|E].
  - eapply step_bind; [by apply (meet_read a id sh s1)|]. intros _ s2 [D2 K2].
    apply step_ret. split; [done|]. split; [done|by etrans].
  - apply step_pure, step_ret. rewrite meet_open; [done|].
    destruct (is_open sh); [done|]. by rewrite Hdep in E.
Qed.
Definition record_start : option dcb * option dcb :=
  (Some decode_record_id_field_cb, Some decode_record_field_cb).
Lemma record_fields_read fuel path l sh s : scans fuel → Forall (entry_ready fuel) l →
  drawn sh s → acting a (dp_ctx s) → cx_field_path (dp_ctx s) = Some path → is_u8 (cx_record_depth (dp_ctx s)) →
  fields_to False s (record_fields (run (S fuel))) (entries_wire 2 l) record_start
    (λ r s', r = record_start ∧
       drawn (if is_open sh then fold_left (entry a path) l sh else sh) s' ∧ kept s s').
Proof.
  intros Hscan Hl Hd Ha Hp Hu. destruct (is_open sh) eqn:Eo.
  - eapply (entries_read _ _ _ (run (S fuel) decode_record_field_cb) _ fuel path (λ sh, is_open sh = true));
      [done|reflexivity|done|intros ? ?; apply entry_open| |done| |done].
    + intros k v sh' s' (Hlv & Hf & Hwf & Hm) Hw Ho. by apply (field_walked fuel).
    + split; try done. by rewrite Eo.
  - intros fl Hfl. eapply step_weaken; [by apply (closed_fields_read fuel l sh s)|].
    by intros r s' [-> ->].
Qed.
Lemma record_opened fuel id fields path sh s v0 : scans fuel → Forall (entry_ready fuel) fields →
  measured (wire_ident id) → at_work path sh s →
  steps s (decode_value_variant (run (S fuel)) VALUE_RECORD_TAG
      (wire_bytes 1 (wire_ident id) ++ entries_wire 2 fields) v0)
    (λ p s', fst p = [] ∧ which_sum (snd p) = which_sum v0 ∧
       drawn (walk a path (V_record id fields) sh) s' ∧ kept s s').
Proof.
  intros Hscan Hl Hid Hw. unfold decode_value_variant, on_ctx. apply step_set. fold (value_opened s).
  rewrite Z.eqb_refl. set (s1 := value_opened s).
  pose proof (quiet_kept _ _ (opened_quiet s)) as K1. pose proof (quiet_work _ _ _ _ (opened_quiet s) Hw) as [D1 A1 P1 U1 E1].
  fold s1 in K1, D1, A1, P1, U1, E1. apply step_set.
  set (s2 := s1 <| dp_ctx ::= λ c, c <| cx_record_depth ::= λ d, u8 (d + 1) |> |>).
  assert (D2 : drawn sh s2) by by apply drawn_ctx.
  assert (Ew : walk a path (V_record id fields) sh = (if is_open (meet a id sh)
    then fold_left (entry a path) fields (meet a id sh) else meet a id sh)).
  { cbn [walk]. destruct (is_open (meet a id sh)); [apply walk_entries|done]. }
  rewrite Ew. clear Ew. set (sh2 := if is_open (meet a id sh) then _ else _).
  apply (step_attempt _ _ _ _ (λ r s', r = record_start ∧ drawn sh2 s' ∧ kept s2 s')); [| |done].
  - apply (λ (h : fields_to _ _ _ _ _ _), h _ (le_n _)).
    eapply (fields_to_bytes _ _ _ _ _ _ _ _ (λ r s', r = record_start ∧ drawn (meet a id sh) s' ∧ kept s2 s'));
      [done|reflexivity| |].
    + apply (step_called _ s2 _ (run (S fuel) decode_record_id_field_cb)); [done|done|].
      apply (record_id_read id sh s2); [done|done|done|].
      intros Eo. cbn. change (cx_record_depth (dp_ctx s)) with (cx_record_depth (dp_ctx s1)). by rewrite E1.
    + intros ? s3 (-> & D3 & K3) fl Hfl. eapply step_weaken.
      * apply (record_fields_read fuel path fields (meet a id sh) s3); [done|done|done| | | |done].
        -- by eapply kept_acting.
        -- by rewrite (kp_path _ _ K3).
        -- rewrite (kp_depth _ _ K3). apply is_u8_u8.
      * intros r s4 (-> & D4 & K4). split; [done|]. split; [done|by etrans].
  - intros ? s3 (-> & D3 & K3). apply step_set. eapply step_of_option; [done|]. apply step_ret.
    split; [done|]. split; [done|]. split; [by apply drawn_ctx|].
    destruct K3 as [Ks Kv Kf Kt Ki Kp Kd Kl Ka]. split; try done. cbn. rewrite Kd. cbn.
    change (cx_record_depth (dp_ctx s)) with (cx_record_depth (dp_ctx s1)).
    unfold is_u8 in U1. unfold u8. rewrite Zminus_mod_idemp_l. rewrite Z.add_simpl_r. by apply Z.mod_small.
Qed.

(** ** A value *)

Lemma held_walked fuel v path sh s : scans fuel → (length (wire_value v) ≤ fuel)%nat →
  value_wf v = true → measured (wire_value v) → at_work path sh s →
  steps s (decode_value (run fuel) (run_sum fuel) (wire_value v))
    (λ sub s', sub = [] ∧ drawn (note path v (walk a path v sh)) s' ∧ kept s s').
Proof.
  intros Hscan Hl Hwf Hm Hw. unfold decode_value.
  eapply step_bind; [apply dp_quiet_room|]. intros [] s1 Hq.
  assert (Hw1 : at_work path sh s1) by by eapply quiet_work.
  eapply step_bind; [apply (λ (h : fields_to _ _ _ _ _ _), h _ (le_n _)); by apply (Hscan v path sh s1)|].
  intros r s2 (Hr & D2 & K2).
  eapply step_bind; [apply (note_read path v r); [done| |done]|].
  { rewrite (kp_path _ _ K2). apply Hw1. }
  intros _ s3 [D3 K3]. apply step_ret. split; [done|]. split; [done|].
  etrans; [by apply quiet_kept|]. by etrans.
Qed.

(** An optional or a map, which the decoder enters through the callback [c]. *)
Lemma one_read fuel tag put get c b v0 Q s : tag ≠ 0 → which_sum v0 = 0 → measured b →
  cb_sum v0 = Some decode_value_variant_cb → (∀ o, get (put o) = o) →
  (∀ sub v, decode_value_variant (run fuel) tag sub v =
     (do* on_ctx (λ c, c <| cx_values_opened ::= λ n, u32 (n + 1) |>) in
      ret (sub, v <| v_union := put (Some c) |>))) →
  fields_to False (value_opened s) (one_cb_fields (run (S fuel))) b (Some c) (λ _ s', Q s') →
  steps s (h_sum_one (run (S fuel)) (run_sum (S fuel)) tag put get PB_WT_STRING
      (enc_varint (Z.of_nat (length b)) ++ b ++ []) v0)
    (λ p s', fst p = [] ∧ which_sum (snd p) = tag ∧ Q s').
Proof.
  intros Htag Hz Hb Hc Hget Ed Hf. unfold h_sum_one, h_sum_msg. rewrite Hz.
  destruct (Z.eqb_spec 0 tag); [congruence|].
  apply (step_submsg _ _ _ _ _ _ (λ r s', which_sum r = tag ∧ Q s')); [done|].
  unfold dec_submsg_w_cb. change (cb_sum (set_union tag (put None) v0)) with (cb_sum v0). rewrite Hc. cbn [option_map].
  change (run_sum (S fuel) decode_value_variant_cb) with (decode_value_variant (run fuel)). rewrite Ed.
  eapply (step_runs s (value_opened s)); [reflexivity|]. cbn iota beta.
  destruct b as [|b0 b].
  - destruct (Hf 0%nat (le_n _)) as [[[] _]|(r & s' & [= <- <-] & HQ)]. by apply step_ret.
  - unfold dec_static.
    eapply (step_bind _ _ _ _ (λ _ s', Q s')); [|intros r s' HQ; by apply step_ret].
    cbn [v_union]. unfold update_field at 1. cbn [v_union]. rewrite Hget. by apply (λ (h : fields_to _ _ _ _ _ _), h _ (le_n _)).
Qed.

(** A value that is not entered. *)
Definition entered (v : value) : bool :=
  match v with V_optional _ | V_text_map _ | V_record _ _ => true | _ => false end.
Lemma not_entered_read fuel v path sh s v0 : entered v = false → (1 ≤ fuel)%nat →
  value_wf v = true → measured (wire_value v) → which_sum v0 = 0 →
  cb_sum v0 = Some decode_value_variant_cb → at_work path sh s →
  fields_to False s (Value_fields (run fuel) (run_sum fuel)) (wire_value v) v0
    (λ r s', decoded_as v r ∧ drawn (walk a path v sh) s' ∧ kept s s').
Proof.
  intros He Hf Hwf Hm Hz Hc Hw. destruct fuel as [|fuel]; [lia|].
  assert (Htr : transparent False dp_quiet (run_sum (S fuel)) s (cb_sum v0) (value_tag v)).
  { rewrite Hc. intros s1 b v1 Hq.
    change (run_sum (S fuel) decode_value_variant_cb) with (decode_value_variant (run fuel)).
    unfold decode_value_variant, on_ctx. apply step_set. fold (value_opened s1).
    pose proof (opened_quiet s1). destruct v; try done; by apply step_ret. }
  intros fl Hl.
  eapply step_weaken; [apply (value_reads False dp_quiet dp_quiet_alloc (run (S fuel)) _ s v v0 Hz Htr Hwf Hm s)|];
    [reflexivity|done|].
  intros r s' [-> Hq]. split; [by destruct v|]. pose proof (quiet_drawn _ _ _ Hq (aw_drawn _ _ _ Hw)).
  split; [by destruct v|by apply quiet_kept].
Qed.

(** The entries of a record or a map of which the length is known. *)
Lemma entries_ready tag l n : measured (entries_wire tag l) → (length (entries_wire tag l) ≤ n + 4)%nat →
  forallb (λ '(k, v), fits k && value_wf v) l = true → Forall (entry_ready n) l.
Proof.
  unfold entries_wire. intros Hm Hl Hwf. induction l as [|[k v] l IH]; [done|]. cbn [flat_map forallb] in *.
  apply andb_true_iff in Hwf as [[Hk Hv]%andb_true_iff Hwf]. apply measured_app in Hm as [Hmk%measured_bytes Hm].
  rewrite length_app in Hl. constructor; [|apply IH; done || lia]. split_and!; try done. cbn [snd].
  pose proof (entry_length k v tag) as [_ E]. unfold wire_entry in E at 1. rewrite length_app in E.
  pose proof (wire_bytes_length 2 (wire_value v)). lia.
Qed.

(** What a value leaves, the struct included. *)
Definition walked (v : value) (path : bytes) (sh : sheet) (s : dp_state) (r : cbValue dcb) (s' : dp_state) : Prop :=
  decoded_as v r ∧ drawn (walk a path v sh) s' ∧ kept s s'.
Lemma optional_walked fuel v path sh s v0 : (∀ fuel', (fuel' < fuel)%nat → scans fuel') →
  (length (wire_value (V_optional (Some v))) ≤ fuel)%nat → value_wf v = true →
  measured (wire_value (V_optional (Some v))) → which_sum v0 = 0 →
  cb_sum v0 = Some decode_value_variant_cb → at_work path sh s →
  fields_to False s (Value_fields (run fuel) (run_sum fuel)) (wire_value (V_optional (Some v))) v0
    (walked (V_optional (Some v)) path sh s).
Proof.
  intros IH Hl Hwf Hm Hz Hc Hw. cbn [wire_value] in *. pose proof (measured_bytes _ _ Hm) as Hb.
  pose proof (measured_bytes _ _ Hb) as Hv.
  pose proof (wire_bytes_length VALUE_OPTIONAL_TAG (wire_bytes 1 (wire_value v))).
  pose proof (wire_bytes_length 1 (wire_value v)).
  destruct fuel as [|fuel]; [lia|]. eapply fields_to_last; [done|reflexivity|].
  set (Q := λ s', drawn (note path v (walk a path v sh)) s' ∧ kept s s').
  eapply step_weaken.
  - eapply (one_read fuel VALUE_OPTIONAL_TAG _ _ decode_value_cb _ v0 Q); try done.
    eapply fields_to_last; [done|reflexivity|].
    eapply step_weaken.
    + apply (step_called _ (value_opened s) _ (run (S fuel) decode_value_cb) (wire_value v) []
        (Some decode_value_cb) Q); [done|done|].
      eapply step_weaken; [apply (held_walked fuel v path sh)|]; [apply IH; lia|lia|done|done| |].
      * by eapply quiet_work; [apply opened_quiet|].
      * intros sub s1 (-> & D & K). split; [done|]. split; [done|]. etrans; [by apply quiet_kept, opened_quiet|done].
    + by intros p s1 (E1 & E2 & HQ).
  - intros p s1 (E1 & E2 & D & K). split; [done|]. by split.
Qed.
Lemma text_map_walked fuel l path sh s v0 : (∀ fuel', (fuel' < fuel)%nat → scans fuel') →
  (length (wire_value (V_text_map l)) ≤ fuel)%nat → value_wf (V_text_map l) = true →
  measured (wire_value (V_text_map l)) → which_sum v0 = 0 →
  cb_sum v0 = Some decode_value_variant_cb → at_work path sh s →
  fields_to False s (Value_fields (run fuel) (run_sum fuel)) (wire_value (V_text_map l)) v0
    (walked (V_text_map l) path sh s).
Proof.
  intros IH Hl Hwf Hm Hz Hc Hw. cbn [wire_value value_wf] in *. fold (entries_wire 1 l) in *.
  pose proof (measured_bytes _ _ Hm) as Hb.
  pose proof (wire_bytes_length VALUE_TEXT_MAP_TAG (entries_wire 1 l)).
  destruct fuel as [|fuel]; [lia|]. eapply fields_to_last; [done|reflexivity|].
  set (Q := λ s', drawn (walk a path (V_text_map l) sh) s' ∧ kept s s').
  assert (Hes : Forall (entry_ready fuel) l) by (apply (entries_ready 1); done || lia).
  eapply step_weaken.
  - eapply (one_read fuel VALUE_TEXT_MAP_TAG _ _ decode_value_text_map_cb _ v0 Q); try done.
    intros fl Hfl. eapply step_weaken.
    + eapply (entries_read _ 1 _ (run (S fuel) decode_value_text_map_cb) _ fuel path (λ _, True) l);
        [done|reflexivity|done|done| |done| |done|done].
      * intros k v sh' s' (Hlv & Hf & Hwfv & Hmv) Hw' _. apply (map_entry_walked fuel); [apply IH; lia|done..].
      * by eapply quiet_work; [apply opened_quiet|].
    + intros r s1 (_ & D & K). split; [cbn [walk]; by rewrite walk_entries|].
      etrans; [by apply quiet_kept, opened_quiet|done].
  - intros p s1 (E1 & E2 & D & K). split; [done|]. by split.
Qed.
Lemma record_walked fuel id l path sh s v0 : (∀ fuel', (fuel' < fuel)%nat → scans fuel') →
  (length (wire_value (V_record id l)) ≤ fuel)%nat → value_wf (V_record id l) = true →
  measured (wire_value (V_record id l)) → which_sum v0 = 0 →
  cb_sum v0 = Some decode_value_variant_cb → at_work path sh s →
  fields_to False s (Value_fields (run fuel) (run_sum fuel)) (wire_value (V_record id l)) v0
    (walked (V_record id l) path sh s).
Proof.
  intros IH Hl Hwf Hm Hz Hc Hw. cbn [wire_value value_wf] in *. fold (entries_wire 2 l) in *.
  pose proof (measured_bytes _ _ Hm) as Hb. pose proof (measured_app _ _ Hb) as [Hi%measured_bytes Hml].
  pose proof (wire_bytes_length VALUE_RECORD_TAG (wire_bytes 1 (wire_ident id) ++ entries_wire 2 l)) as Hlen.
  pose proof (wire_bytes_length 1 (wire_ident id)). rewrite length_app in Hlen.
  destruct fuel as [|[|fuel]]; [lia|lia|].
  assert (Hes : Forall (entry_ready fuel) l) by (apply (entries_ready 2); done || lia).
  eapply fields_to_last; [done|reflexivity|]. unfold h_sum_msg. rewrite Hz. cbn [Z.eqb].
  apply (step_submsg _ _ _ _ _ _ (walked (V_record id l) path sh s)); [done|].
  unfold dec_submsg_w_cb. cbn [set_union cb_sum update_field]. rewrite Hc. cbn [option_map].
  change (run_sum (S (S fuel)) decode_value_variant_cb) with (decode_value_variant (run (S fuel))).
  eapply step_bind; [apply (record_opened fuel id l path sh s); [apply IH; lia|done..]|].
  intros [sub r] s' (Es & Hr & D & K). cbn in Es, Hr. subst sub. by apply step_ret.
Qed.

Lemma value_walked fuel : scans fuel.
Proof.
  induction fuel as [fuel IH] using lt_wf_ind.
  intros v path sh s v0 Hl Hwf Hm Hz Hc Hw. pose proof (wire_value_nonempty v).
  destruct (entered v) eqn:Ee; [|apply not_entered_read; done || lia].
  destruct v as [| | | | | | | | |[v|]| |l| |id l| |]; try done.
  - by apply optional_walked.
  - destruct fuel as [|fuel]; [lia|]. cbn [wire_value]. eapply fields_to_last; [done|reflexivity|].
    eapply step_weaken.
    + eapply (one_read fuel VALUE_OPTIONAL_TAG _ _ decode_value_cb _ v0 (dp_quiet s)); try done.
      apply fields_to_nil, opened_quiet.
    + intros p s1 (E1 & E2 & Hq). split; [done|]. split; [by split|].
      split; [|by apply quiet_kept]. cbn [walk]. eapply quiet_drawn; [done|apply Hw].
  - by apply text_map_walked.
  - by apply record_walked.
Qed.
End Walk.
