(* ===== verification/ScreenNode.v ===== *)
(** * The screen of a node

    The display parser on a part of a transaction that holds a node, and on a disclosed
    contract: the state it leaves is that of [Sheet.node_sheet] and [Sheet.contract_sheet],
    and the screen is [Sheet.review_of] of it. *)

From S2P Require Import Prelude Constants Utils DisplayConfig DisplayFormat Pb Wire WireLogic Messages.
From S2P Require Import CanonicalHash TreeCheck ValuesCheck HashingParser HashLogic DisplayParser.
From S2P Require Import ValueHash ValueCode NodeHash ReadLogic Sheet ScreenFormat ScreenRead ScreenWalk.

Section Node.
Context `{Sha256} `{Device} `{!Plenty} `{Screen}.
Abbreviation steps := (step_to False).
Abbreviation quiet_to := (reads_to False dp_quiet).

(** ** Who acts *)

(** The state once the action is known. *)
Definition known (a : action) (s s' : dp_state) : Prop :=
  ∃ s1, dp_quiet s s1 ∧ s' = s1 <| dp_ctx ::= with_action a |>.
Lemma identity_known a id s s0 : dp_quiet s0 s → module_name id = ac_module a → entity_name id = ac_entity a →
  steps s (set_node_identity (ac_contract_id a) (Some id) (ac_choice a)) (λ _ s', known a s0 s').
Proof.
  intros Hq Em Ee. eapply step_weaken; [by apply (identity_set a id s)|]. intros _ s' [clock ->].
  exists (s <| dp_clock := clock |>). split; [|done]. etrans; [done|]. by apply idle_quiet.
Qed.
Lemma step_sure {A B} s (m : DM A) (k : option A → DM B) Q R : steps s m Q →
  (∀ x s', Q x s' → steps s' (k (Some x)) R) → steps s (bind (attempt m) k) R.
Proof.
  intros [[[] _]|(x & s' & E & HQ)] Hk. eapply (step_runs s s' (attempt m)); [|by apply Hk].
  unfold attempt. by rewrite E.
Qed.
Lemma create_identity c v s : create_wf c v = true → measured (wire_create_node c v) →
  steps s (read_create_identity (wire_create_node c v)) (λ _ s', known (create_action c) s s').
Proof.
  intros Hwf Hm. unfold read_create_identity.
  apply (step_sure _ _ _ (λ r s', r = create_as None c ∧ dp_quiet s s')).
  - apply reads_inner with (idle := dp_quiet); [apply dp_quiet_preorder|].
    apply (create_reads False dp_quiet dp_quiet_alloc no_run s None c v (dp_quiet s)); [done|done|done|].
    by intros; etrans.
  - intros ? s1 [-> Hq]. cbn [create_as c_contract_id c_has_template_id c_template_id].
    unfold create_wf, create_is_complete, require_identifier in Hwf.
    destruct (c_has_template_id c); [|by rewrite !andb_false_r in Hwf].
    by apply (identity_known (create_action c)).
Qed.
Lemma exercise_identity e v r s : exercise_wf e v r = true → measured (wire_exercise_node e v r) →
  steps s (read_exercise_identity (wire_exercise_node e v r)) (λ _ s', known (exercise_action e) s s').
Proof.
  intros Hwf Hm. unfold read_exercise_identity.
  apply (step_sure _ _ _ (λ x s', x = exercise_as e ∧ dp_quiet s s')).
  - apply (parses_inner False dp_quiet _ _ _ _ (exercise_parses False dp_quiet dp_quiet_alloc no_run e v r Hwf Hm)).
  - intros ? s1 [-> Hq]. cbn [exercise_as e_contract_id e_has_template_id e_template_id e_choice_id].
    unfold exercise_wf, exercise_is_complete, require_identifier in Hwf.
    destruct (e_has_template_id e); [|by rewrite !andb_false_r in Hwf].
    by apply (identity_known (exercise_action e)).
Qed.

(** From the start of a parse to the value of the node. *)
Record fresh (sh : sheet) (s : dp_state) : Prop := {
  fr_drawn : drawn sh s;
  fr_closed : is_open sh = false;
  fr_path : cx_field_path (dp_ctx s) = Some [];
  fr_depth : cx_record_depth (dp_ctx s) = 0
}.
(** What a parse leaves alone; the action is forgotten at its end. *)
Record run_kept (s s' : dp_state) : Prop := {
  rk_store : dp_store s' = dp_store s;
  rk_available : dp_clear_signing_available s' = dp_clear_signing_available s;
  rk_failed : dp_display_failed s' = dp_display_failed s;
  rk_title : dp_review_title s' = dp_review_title s;
  rk_finish : dp_review_finish s' = dp_review_finish s
}.
#[export] Instance run_kept_preorder : PreOrder run_kept.
Proof. split; [by split|]. intros s1 s2 s3 [] []. split; congruence. Qed.
Lemma kept_run s s' : kept s s' → run_kept s s'.
Proof. intros []. by split. Qed.
Lemma known_work a sh s s' : fresh sh s → known a s s' → at_work a [] sh s' ∧ run_kept s s'.
Proof.
  intros [Hd Hc Hp He] (s1 & Hq & ->). pose proof (quiet_kept _ _ Hq) as K. split.
  - split; cbn.
    + apply drawn_ctx; [by eapply quiet_drawn|done..].
    + done.
    + by rewrite (kp_path _ _ K).
    + rewrite (kp_depth _ _ K), He. done.
    + by rewrite (kp_depth _ _ K), He.
  - destruct K. by split.
Qed.
Lemma quiet_fresh sh s s' : dp_quiet s s' → fresh sh s → fresh sh s'.
Proof.
  intros Hq [Hd Hc Hp He]. pose proof (quiet_kept _ _ Hq) as K.
  split; [by eapply quiet_drawn|done|by rewrite (kp_path _ _ K)|by rewrite (kp_depth _ _ K)].
Qed.

(** ** The value of a node *)

Definition ends_as (sh : sheet) (s s' : dp_state) : Prop := drawn sh s' ∧ run_kept s s'.
Lemma value_field_read a {R} fuel get set set_has v rest (r : R) sh s :
  (length (wire_value v) ≤ fuel)%nat → value_wf v = true → measured (wire_value v) →
  which_sum (get (set_has r)) = 0 → cb_sum (get (set_has r)) = Some decode_value_variant_cb →
  at_work a [] sh s →
  steps s (h_value (run fuel) (run_sum fuel) get set set_has PB_WT_STRING
      (enc_varint (Z.of_nat (length (wire_value v))) ++ wire_value v ++ rest) r)
    (λ p s', fst p = rest ∧ ends_as (walk a [] v sh) s s').
Proof.
  intros Hl Hwf Hm Hz Hc Hw. unfold h_value.
  apply (step_submsg _ _ _ _ _ _ (λ _ s', ends_as (walk a [] v sh) s s')); [done|]. unfold dec_static.
  eapply step_bind; [apply (λ (h : fields_to _ _ _ _ _ _), h _ (le_n _)); by apply (value_walked a fuel v [] sh s)|].
  intros r' s1 (_ & D & K). apply step_ret. split; [done|by apply kept_run].
Qed.
Lemma ends_quiet sh s s1 s2 : ends_as sh s s1 → dp_quiet s1 s2 → ends_as sh s s2.
Proof.
  intros [D K] Hq. split; [by eapply quiet_drawn|]. etrans; [done|]. by apply kept_run, quiet_kept.
Qed.

#[local] Ltac split_facts := repeat match goal with
  | H : _ && _ = true |- _ => apply andb_true_iff in H as [? ?]
  | H : measured (_ ++ _) |- _ => apply measured_app in H as [? ?] end.
#[local] Ltac easy_field := first [apply dp_quiet_preorder|apply dp_quiet_alloc|done|reflexivity
  |by eapply measured_bytes|idtac].
#[local] Ltac other := first [eapply reads_other_opt|eapply reads_other_strings|eapply reads_other_flag
  |eapply reads_other]; easy_field.
#[local] Ltac string_field := eapply reads_opt; easy_field.
#[local] Ltac template_field := eapply reads_ident_ptr; easy_field.

(** The struct of the display: no more than it shows is decoded. *)
Definition create_start : Node_CreateDisplay dcb :=
  Node_CreateDisplay_zero <| cd_argument ::= λ v, v <| cb_sum := Some decode_value_variant_cb |> |>.
Lemma create_display_read a fuel c v sh s : create_wf c v = true → measured (wire_create_node c v) →
  (length (wire_value v) ≤ fuel)%nat → at_work a [] sh s →
  quiet_to s (CreateDisplay_fields (run fuel) (run_sum fuel)) (wire_create_node c v) create_start
    (λ _ s', ends_as (walk a [] v sh) s s').
Proof.
  intros Hwf Hm Hl Hw. destruct (create_value c v Hwf Hm) as [Hh Hmv].
  assert (Hv : value_wf v = true) by (unfold hashable in Hh; by apply andb_true_iff in Hh as [? _]).
  unfold wire_create_node in *. split_facts. rewrite <- (app_nil_r (wire_strings 7 _)).
  other. string_field. other. template_field.
  match goal with |- reads_to _ _ _ _ _ ?r _ => set (r0 := r) end.
  assert (Hr0 : cd_argument r0 = cd_argument create_start) by (unfold r0; by destruct (c_contract_id c)). clearbody r0.
  eapply (reads_step _ _ _ _ _ _ _ _ _ (λ _ s', ends_as (walk a [] v sh) s s')); [done|reflexivity| |].
  - intros s1 Hq. eapply step_weaken; [apply (value_field_read a fuel); try done|].
    + cbn. by rewrite Hr0.
    + cbn. by rewrite Hr0.
    + by eapply quiet_work.
    + intros p s2 (E & D & K). split; [done|]. split; [done|]. etrans; [by apply kept_run, quiet_kept|done].
  - intros r s1 He. apply (reads_from False dp_quiet). do 2 other.
    apply reads_nil. intros s2 Hq. by eapply ends_quiet.
Qed.
Definition exercise_start : Node_ExerciseDisplay dcb :=
  Node_ExerciseDisplay_zero <| ed_chosen_value ::= λ v, v <| cb_sum := Some decode_value_variant_cb |> |>.
Lemma exercise_display_read a fuel e v r sh s : exercise_wf e v r = true →
  measured (wire_exercise_node e v r) → (length (wire_value v) ≤ fuel)%nat → at_work a [] sh s →
  quiet_to s (ExerciseDisplay_fields (run fuel) (run_sum fuel)) (wire_exercise_node e v r) exercise_start
    (λ _ s', ends_as (walk a [] v sh) s s').
Proof.
  intros Hwf Hm Hl Hw. destruct (exercise_values e v r Hwf Hm) as (Hh & Hmv & _).
  assert (Hv : value_wf v = true) by (unfold hashable in Hh; by apply andb_true_iff in Hh as [? _]).
  unfold wire_exercise_node in *. split_facts. rewrite <- (app_nil_r (wire_strings 14 _)).
  other. string_field. other. template_field. do 4 other. string_field.
  match goal with |- reads_to _ _ _ _ _ ?r _ => set (r0 := r) end.
  assert (Hr0 : ed_chosen_value r0 = ed_chosen_value exercise_start)
    by (unfold r0; by destruct (e_contract_id e), (e_choice_id e)). clearbody r0.
  eapply (reads_step _ _ _ _ _ _ _ _ _ (λ _ s', ends_as (walk a [] v sh) s s')); [done|reflexivity| |].
  - intros s1 Hq. eapply step_weaken; [apply (value_field_read a fuel); try done|].
    + cbn. by rewrite Hr0.
    + cbn. by rewrite Hr0.
    + by eapply quiet_work.
    + intros p s2 (E & D & K). split; [done|]. split; [done|]. etrans; [by apply kept_run, quiet_kept|done].
  - intros r1 s1 He. apply (reads_from False dp_quiet). do 4 other.
    apply reads_nil. intros s2 Hq. by eapply ends_quiet.
Qed.

(** ** Nodes *)

Lemma node_msg_read {R} tag (zero : R) fields get put b n1 n2 Q s : tag ≠ 0 → nd_which n1 = 0 →
  nd_cb_node_type n1 = Some node_decode_callback_cb → measured b →
  steps s (node_decode_callback tag b (n1 <| nd_which := tag |> <| nd_union := put zero |>))
    (λ p s', p = (b, n2) ∧ fields_to False s' fields b (get (nd_union n2)) (λ _, Q)) →
  steps s (h_node_msg run_node tag zero fields get put PB_WT_STRING
      (enc_varint (Z.of_nat (length b)) ++ b ++ []) n1) (λ p s', fst p = [] ∧ Q s').
Proof.
  intros Htag Hz Hc Hb Hf. unfold h_node_msg. rewrite Hz.
  destruct (Z.eqb_spec 0 tag); [congruence|].
  apply (step_submsg _ _ _ _ _ _ (λ _, Q)); [done|]. unfold dec_submsg_w_cb.
  change (nd_cb_node_type (n1 <| nd_which := tag |> <| nd_union := put zero |>)) with (nd_cb_node_type n1).
  rewrite Hc. cbn [option_map run_node].
  eapply step_bind; [exact Hf|]. intros ? s1 [-> Hf1]. cbn iota beta.
  destruct b as [|b0 b].
  - destruct (Hf1 0%nat (le_n _)) as [[[] _]|(r & s' & [= <- <-] & HQ)]. by apply step_ret.
  - unfold dec_static. eapply (step_bind _ _ _ _ (λ _ s', Q s')); [|intros r s' HQ; by apply step_ret].
    by apply (λ (h : fields_to _ _ _ _ _ _), h _ (le_n _)).
Qed.
Lemma ends_known a sh sh' s s1 s2 : fresh sh s → known a s s1 → ends_as sh' s1 s2 → ends_as sh' s s2.
Proof. intros Hf Hk [D K]. split; [done|]. etrans; [by eapply known_work|done]. Qed.

Lemma create_value_short c v : (length (wire_value v) ≤ length (wire_create_node c v))%nat.
Proof.
  unfold wire_create_node. rewrite !length_app. pose proof (wire_bytes_length 5 (wire_value v)). lia.
Qed.
Lemma exercise_value_short e v r : (length (wire_value v) ≤ length (wire_exercise_node e v r))%nat.
Proof.
  unfold wire_exercise_node. rewrite !length_app. pose proof (wire_bytes_length 10 (wire_value v)). lia.
Qed.
Lemma node_type_shown fuel n n1 s : node_wf n = true → measured (wire_node n) →
  (length (wire_node n) ≤ fuel)%nat → nd_which n1 = 0 →
  nd_cb_node_type n1 = Some node_decode_callback_cb → fresh (blank None) s →
  fields_to False s (NodeDisplay_fields (run fuel) (run_sum fuel) run_node) (wire_node n) n1
    (λ _ s', ends_as (node_sheet n) s s').
Proof.
  intros Hwf Hm Hl Hz Hc Hs. set (Q := λ s', ends_as (node_sheet n) s s').
  assert (Hread : ∀ R (fields : Z → option (field_handler dp_state R)) b r v, node_sheet n = blank None →
    parses_as False dp_quiet fields b r v → fields_to False s fields b r (λ _, Q)).
  { intros R fields b r v En Hp. apply (reads_from False dp_quiet).
    eapply reads_weaken; [apply Hp|]. intros r' s' [_ Hq]. unfold Q. rewrite En.
    eapply ends_quiet; [|exact Hq]. by split; [apply Hs|]. }
  destruct n as [c v|e v r|f|r]; cbn [wire_node node_wf] in *; pose proof (measured_bytes _ _ Hm) as Hb;
    (eapply fields_to_last; [done|reflexivity|]).
  - eapply (node_msg_read _ _ _ _ _ _ _ (_ <| nd_union := ND_create create_start |>)); try done.
    cbn [node_decode_callback Z.eqb Pos.eqb NODE_V1_CREATE_TAG NODE_V1_EXERCISE_TAG].
    eapply step_bind; [by apply create_identity|]. intros ? s1 Hk. apply step_ret. split; [done|].
    apply (reads_from False dp_quiet). eapply reads_weaken.
    + apply (create_display_read (create_action c) fuel c v (blank None)); try done; [|by eapply known_work].
      pose proof (create_value_short c v). pose proof (wire_bytes_length NODE_V1_CREATE_TAG (wire_create_node c v)). lia.
    + intros ? s2. by apply (ends_known (create_action c) (blank None)).
  - eapply (node_msg_read _ _ _ _ _ _ _ (_ <| nd_union := ND_exercise exercise_start |>)); try done.
    cbn [node_decode_callback Z.eqb Pos.eqb NODE_V1_CREATE_TAG NODE_V1_EXERCISE_TAG].
    eapply step_bind; [by apply exercise_identity|]. intros ? s1 Hk. apply step_ret. split; [done|].
    apply (reads_from False dp_quiet). eapply reads_weaken.
    + apply (exercise_display_read (exercise_action e) fuel e v r (blank None)); try done; [|by eapply known_work].
      pose proof (exercise_value_short e v r). pose proof (wire_bytes_length NODE_V1_EXERCISE_TAG (wire_exercise_node e v r)). lia.
    + intros ? s2. by apply (ends_known (exercise_action e) (blank None)).
  - eapply (node_msg_read _ _ _ _ _ _ _ _); try done. apply step_ret. split; [done|].
    eapply Hread; [done|]. apply fetch_parses; first [apply dp_quiet_alloc|done|apply dp_quiet_preorder].
  - eapply (node_msg_read _ _ _ _ _ _ _ _); try done. apply step_ret. split; [done|].
    eapply Hread; [done|]. apply rollback_parses; first [apply dp_quiet_alloc|done|apply dp_quiet_preorder].
Qed.
Definition node_start : DeviceNode dcb (NodeDisplay dcb) :=
  Build_DeviceNode None (Some versioned_node_decode_callback_cb) 0 NodeDisplay_zero.
Lemma node_part_shown id n s : part_ok id n → fresh (blank None) s →
  steps s (pb_decode_inner (node_msg (parse_fuel (wire_node_part id n))) (wire_node_part id n) node_start)
    (λ _ s', ends_as (node_sheet n) s s').
Proof.
  intros (Hwf & _ & Hm) Hs. pose proof Hm as [Hi%measured_bytes Hn%measured_bytes]%measured_app.
  set (fuel := parse_fuel _). assert (Hl : (length (wire_node n) ≤ fuel)%nat).
  { unfold fuel, parse_fuel, wire_node_part. rewrite length_app.
    pose proof (wire_bytes_length NODE_V1_TAG (wire_node n)). lia. }
  clearbody fuel.
  apply reads_inner with (idle := dp_quiet); [apply dp_quiet_preorder|]. unfold wire_node_part.
  eapply reads_skip_one; [apply dp_quiet_preorder|done|reflexivity|done|done|].
  intros s1 Hq. pose proof (quiet_fresh _ _ _ Hq Hs) as Hs1.
  eapply fields_to_last; [done|reflexivity|]. cbn beta.
  change (dn_which node_start) with 0. cbn [Z.eqb].
  apply (step_submsg _ _ _ _ _ _ (λ _ s', ends_as (node_sheet n) s s')); [done|].
  unfold dec_submsg_w_cb. cbn -[wire_node run_versioned]. unfold run_versioned, versioned_node_decode_callback.
  cbn -[wire_node].
  apply step_pure. destruct (wire_node_cons n) as (x & b & Eb). rewrite Eb. cbn iota beta.
  rewrite <- Eb. unfold dec_static. eapply step_bind.
  - by apply (λ (h : fields_to _ _ _ _ _ _), h _ (le_n _)), node_type_shown.
  - intros r s2 [D K]. apply step_ret. split; [done|]. etrans; [by apply kept_run, quiet_kept|done].
Qed.

(** ** Disclosed contracts *)

Lemma argument_walked a fuel v sh s : (length (wire_value v) < fuel)%nat → value_wf v = true →
  measured (wire_value v) → at_work a [] sh s →
  steps s (run fuel decode_value_cb (wire_value v))
    (λ sub s', sub = [] ∧ ends_as (note [] v (walk a [] v sh)) s s').
Proof.
  intros Hl Hwf Hm Hw. destruct fuel as [|fuel]; [lia|].
  change (run (S fuel) decode_value_cb) with (decode_value (run fuel) (run_sum fuel)).
  eapply step_weaken; [apply (held_walked a fuel v [] sh s); try done; [apply value_walked|lia]|].
  intros sub s' (-> & D & K). split; [done|]. split; [done|by apply kept_run].
Qed.
Lemma create_shown fuel c v sh s : create_wf c v = true → measured (wire_create_node c v) →
  (length (wire_value v) < fuel)%nat → fresh sh s →
  steps s (decode_create (run fuel) (wire_create_node c v))
    (λ sub s', sub = [] ∧ ends_as (note [] v (walk (create_action c) [] v sh)) s s').
Proof.
  intros Hwf Hm Hl Hs. destruct (create_value c v Hwf Hm) as [Hh Hmv].
  assert (Hv : value_wf v = true) by (unfold hashable in Hh; by apply andb_true_iff in Hh as [? _]).
  unfold decode_create. eapply step_bind; [by apply create_identity|]. intros ? s1 Hk.
  destruct (known_work _ _ _ _ Hs Hk) as [Hw Kr]. set (sh' := note _ _ _).
  eapply (step_bind _ _ _ _ (λ _ s', ends_as sh' s1 s')).
  - apply reads_inner with (idle := dp_quiet); [apply dp_quiet_preorder|].
    eapply reads_weaken.
    + apply (create_reads False dp_quiet dp_quiet_alloc (run fuel) s1 (Some decode_value_cb) c v
        (λ s', ends_as sh' s1 s')); [done|done| |].
      * intros s2 Hq. eapply step_weaken; [apply (argument_walked (create_action c) fuel v sh s2); try done|].
        -- by eapply quiet_work.
        -- intros sub s3 (-> & D & K). split; [done|]. split; [done|]. etrans; [by apply kept_run, quiet_kept|done].
      * intros s2 s3. apply ends_quiet.
    + by intros r s' [_ Hs'].
  - intros ? s2 [D K]. apply step_ret. split; [done|]. split; [done|by etrans].
Qed.
Lemma contract_part_shown c v put_off created_at s : create_wf c v = true →
  measured (wire_contract_part c v created_at) → is_u64 created_at → fresh (blank (Some put_off)) s →
  steps s (pb_decode_inner (input_contract_msg (parse_fuel (wire_contract_part c v created_at)))
      (wire_contract_part c v created_at) (Build_InputContract (Some decode_create_cb) 0 0))
    (λ _ s', ends_as (contract_sheet put_off c v) s s').
Proof.
  intros Hwf [Hm%measured_bytes _]%measured_app Ht Hs.
  assert (Hl : (S (length (wire_value v)) < parse_fuel (wire_contract_part c v created_at))%nat).
  { unfold parse_fuel, wire_contract_part. pose proof (wire_bytes_length 1 (wire_create_node c v)).
    rewrite length_app. pose proof (create_value_short c v). lia. }
  revert Hl. generalize (parse_fuel (wire_contract_part c v created_at)). intros fuel Hl.
  apply (λ (h : fields_to _ _ _ _ _ _), h _ (le_n _)). unfold wire_contract_part.
  set (Q := λ s', ends_as (contract_sheet put_off c v) s s').
  eapply (fields_to_bytes _ _ _ _ _ _ _ _ (λ _ s', Q s')); [done|reflexivity| |].
  - eapply (step_submsg _ _ _ _ _ _ (λ _ s', Q s')); [done|].
    unfold dec_submsg_w_cb. cbn -[wire_create_node]. destruct fuel as [|fuel]; [lia|].
    change (run (S fuel) decode_create_cb) with (decode_create (run fuel)).
    eapply (step_bind _ _ _ _ (λ p s', fst p = [] ∧ Q s')).
    + eapply step_bind; [apply (create_shown fuel c v (blank (Some put_off)) s); done || lia|].
      intros sub s1 [-> He]. by apply step_ret.
    + intros [sub' r'] s1 [Es He]. cbn in Es. subst sub'. by apply step_ret.
  - intros r' s1 He. unfold wire_varint. rewrite <- (app_nil_r (enc_varint created_at)).
    eapply (fields_to_key _ _ _ _ _ _ _ _ _ (λ _ s', Q s'));
      [done|done|reflexivity| |intros ? ? ?; by apply fields_to_nil].
    unfold h_scalar. apply step_guard; [done|].
    eapply (step_of_option _ _ _ (created_at, [])); [|by apply step_ret].
    unfold pb_dec_uint. rewrite pb_decode_varint_enc by done. unfold is_u64 in Ht.
    by rewrite (proj2 (Z.ltb_lt created_at (2 ^ 64)) (proj2 Ht)).
Qed.

(** ** The entry points *)

Abbreviation no_fields := (replicate MAX_DISPLAY_FIELDS_NB tx_field_zero).
(** What a parse leaves when the sheet of what it reads is [sh].  An open screen hands its
    fields to the values check, and is shown when it is complete; otherwise nothing is
    shown, and a screen may be put off. *)
Definition shown_as (sh : sheet) (s : dp_state) (r : Z) (s' : dp_state) : Prop :=
  dp_fields s' = no_fields ∧
  match sh_conf sh with
  | Some conf =>
      dp_store s' = values_bind_from_display (sheet_fields sh) (dc_destination conf)
                      (dc_amount_check conf) (dp_store s) ∧
      dp_md_identifiers s' = None ∧ dp_md_conf s' = None ∧
      match review_of sh with
      | Some rv => r = 0 ∧ dp_clear_signing_available s' = true ∧ dp_pairs s' = Some (rv_pairs rv) ∧
          dp_review_title s' = rv_title rv ∧ dp_review_finish s' = rv_finish rv
      | None => dp_clear_signing_available s' = false
      end
  | None => r = 0 ∧ dp_store s' = dp_store s ∧ dp_clear_signing_available s' = false ∧
      dp_display_failed s' = dp_display_failed s ∧ put_off_as (sh_put_off sh) s'
  end.

(** The state a parse starts from. *)
Definition reads_from_start (put_off : option (display_config_t * option bytes)) (s : dp_state) : Prop :=
  dp_fields s = no_fields ∧ put_off_as put_off s.
Lemma start_fresh put_off s : reads_from_start put_off s → ∃ s1,
  init_field_path (s <| dp_ctx ::= λ _, ctx_zero |>) = (Ret tt, s1) ∧ fresh (blank put_off) s1 ∧ run_kept s s1.
Proof.
  intros [Hf Hp]. unfold init_field_path, bind, app_mem_alloc. rewrite heap_ok.
  eexists. split; [reflexivity|]. split; [|done]. by split.
Qed.
Lemma processed put_off sh decode s :
  (∀ s1, fresh (blank put_off) s1 → steps s1 decode (λ _ s2, ends_as sh s1 s2)) →
  reads_from_start put_off s →
  ∃ r s', process_display_parsing decode s = (Ret r, s') ∧ shown_as sh s r s'.
Proof.
  intros Hdec Hs. destruct (start_fresh _ _ Hs) as (s1 & E1 & Hf1 & K1).
  destruct (Hdec s1 Hf1) as [[[] _]|(x & s2 & E2 & D2 & K2)].
  assert (K3 : run_kept s s2) by by etrans. set (s3 := s2 <| dp_ctx ::= clean_ctx |>).
  assert (D3 : drawn sh s3) by by apply drawn_ctx.
  assert (E3 : process_display_parsing decode s =
    (let* has_fields := ctx_of cx_has_fields in
      if negb has_fields then
        do* modify (λ s, s <| dp_clear_signing_available := false |>) in
        ret 0
      else
        let* r := format_and_populate_display_items in
        if negb (r =? 0) then ret (-1)
        else
          do* modify (λ s, s <| dp_review_title := cx_review_title (dp_ctx s) |>
                             <| dp_review_finish := cx_review_finish (dp_ctx s) |>) in
          ret 0) s3).
  { unfold process_display_parsing, bind at 1 2 3 4, on_ctx at 1, modify at 1. rewrite E1.
    unfold attempt. by rewrite E2. }
  rewrite E3. clear E3. unfold bind at 1, ctx_of, gets. rewrite (dr_has _ _ D3). unfold is_open, shown_as.
  destruct (sh_conf sh) as [conf|] eqn:Ec; cbn [is_set negb].
  - pose proof (dr_open _ _ D3) as Ho. rewrite Ec in Ho. destruct Ho as (Hin & Hnb & Ht & Hd & Ha).
    assert (Hh : holds_sheet conf sh s3).
    { split; try done; [by apply (used_all conf)|apply D3|apply D3]. }
    destruct (screen_filled conf sh s3 Hin Hh) as (r & s4 & E4 & Hr & Est & Ei & Em & Ef).
    unfold bind at 1. rewrite E4. change (dp_store s3) with (dp_store s2) in Est. rewrite (rk_store _ _ K3) in Est.
    destruct (review_of sh) as [rv|]; cbn [filled] in Hr.
    + destruct Hr as (-> & Hav & Hpairs & [= Hti Hfi]). eexists _, _. split; [reflexivity|].
      by split_and!.
    + destruct (negb (r =? 0)); (eexists _, _; split; [reflexivity|]; by split_and!).
  - eexists _, _. split; [reflexivity|]. destruct D3 as [_ _ Hf _ _ Hp]. destruct K3 as [Ks _ Kf _ _].
    unfold all_fields, sheet_fields in Hf. rewrite Ec in Hf. by split_and!.
Qed.

Lemma node_shown id n s : part_ok id n → display_busy s = false → dp_md_identifiers s = None →
  ∃ r s', parse_node_for_display (wire_node_part id n) s = (Ret r, s') ∧ shown_as (node_sheet n) s r s'.
Proof.
  intros Hok Hb Hm. unfold parse_node_for_display. unfold bind at 1, get. rewrite Hb, Hm. cbn [orb is_set].
  unfold bind at 1, modify at 1.
  apply (processed None (node_sheet n) _ (reset_display_parser_state s)); [|done].
  intros s1 Hs1. eapply step_bind; [by apply node_part_shown|]. intros ? s2 He. by apply step_ret.
Qed.
Lemma contract_shown conf expected c v created_at s : create_wf c v = true →
  measured (wire_contract_part c v created_at) → is_u64 created_at →
  display_busy s = false → reads_from_start (Some (conf, expected)) s →
  ∃ r s', parse_input_contract_for_display (wire_contract_part c v created_at) s = (Ret r, s') ∧
    shown_as (contract_sheet (conf, expected) c v) s r s'.
Proof.
  intros Hwf Hm Ht Hb Hs. unfold parse_input_contract_for_display. unfold bind at 1, get.
  destruct Hs as [Hf (Hin & Hc & Hi & He)]. rewrite Hb, Hi. cbn [orb is_set negb].
  apply (processed (Some (conf, expected)) (contract_sheet (conf, expected) c v)); [|done].
  intros s1 Hs1. eapply step_bind; [by apply contract_part_shown|]. intros ? s2 He2. by apply step_ret.
Qed.
End Node.

Section Device.
Context `{Sha256} `{Device} `{Screen}.

Lemma never_refuses_plenty : ¬ refuses_memory → Plenty.
Proof.
  intros Hn. split.
  - intros clock n. destruct (heap_has clock n) eqn:E; [done|]. destruct Hn. exists clock. right. by exists n.
  - intros clock. destruct (stack_room clock) eqn:E; [done|]. destruct Hn. exists clock. by left.
Qed.

(** C29: The screen is a function of the node.  On a device that does not refuse memory, when
    no screen is open yet, no display has failed and none is put off, a part with a well-formed
    node on the wire ([part_ok], so with values of [value_wf]) leaves exactly what its sheet
    says: a node whose records name its action on a
    listed screen fills the fields of that screen with the values found under their paths,
    and the review, with its title, shows their lines when every field is in order and
    nothing otherwise; it hands those fields to the values check; and any other node shows
    nothing and may put a screen off. *)
Theorem screen_read_exactly id n s : ¬ refuses_memory → part_ok id n →
  display_busy s = false → dp_md_identifiers s = None →
  ∃ r s', parse_node_for_display (wire_node_part id n) s = (Ret r, s') ∧ shown_as (node_sheet n) s r s'.
Proof. intros Hd%never_refuses_plenty. apply node_shown. Qed.

(** C30: A screen that was put off is a function of the contract it waited for.  On a device
    that does not refuse memory, a disclosed contract read while the screen of [conf] waits
    for the contract [expected] opens that screen only by a record of an awaited type that is
    the template of the contract, in a contract of that id; and then fills and shows it as
    the sheet of the contract says. *)
Theorem put_off_screen_read_exactly conf expected c v created_at s : ¬ refuses_memory →
  create_wf c v = true → measured (wire_contract_part c v created_at) → is_u64 created_at →
  display_busy s = false → reads_from_start (Some (conf, expected)) s →
  ∃ r s', parse_input_contract_for_display (wire_contract_part c v created_at) s = (Ret r, s') ∧
    shown_as (contract_sheet (conf, expected) c v) s r s'.
Proof. intros Hd%never_refuses_plenty. apply contract_shown. Qed.
End Device.
