(* ===== verification/ScreenSamples.v ===== *)
(** * Sample screens

    A command that transfers the native coin, shown from its node alone, and an offer that is
    withdrawn: the node puts its screen off, and the disclosed contract fills it. *)

From S2P Require Import Prelude Constants Utils DisplayConfig DisplayFormat Pb Wire WireLogic Messages.
From S2P Require Import CanonicalHash TreeCheck ValuesCheck HashingParser HashLogic DisplayParser.
From S2P Require Import ValueHash NodeHash ReadLogic Sheet ScreenFormat ScreenRead ScreenWalk ScreenNode.

Definition named (m e : string) : Identifier :=
  {| package_id := Some (lit "pkg"); module_name := Some (lit m); entity_name := Some (lit e) |}.
Definition acts (m e choice : string) : Node_ExerciseCb hcb :=
  transfer_exercise <| e_template_id := named m e |> <| e_choice_id := Some (lit choice) |>.

(** ** A transfer of the native coin *)

Definition command_node : node :=
  N_exercise (acts "Splice.ExternalPartyAmuletRules" "ExternalPartyAmuletRules"
                "ExternalPartyAmuletRules_CreateTransferCommand")
    (V_record (named "Splice.ExternalPartyAmuletRules" "ExternalPartyAmuletRules_CreateTransferCommand")
       [(lit "sender", V_party (lit "alice")); (lit "receiver", V_party (lit "bob"));
        (lit "description", V_optional (Some (V_text (lit "rent"))));
        (lit "amount", V_numeric (lit "12.5000"))]) V_unit.
Lemma command_ok : part_ok (lit "1") command_node.
Proof. split; [by vm_compute|]. split; [cbn; lia|by vm_compute]. Qed.

Definition command_review : review :=
  {| rv_pairs := [line "From" "alice"; line "Amount" "12.5 CC"; line "To" "bob";
                  line "Memo" "rent"];
     rv_title := NATIVE_COIN_TRANSFER_REVIEW_TITLE; rv_finish := NATIVE_COIN_TRANSFER_REVIEW_FINISH |}.
Lemma command_reviewed : @review_of toy_screen (node_sheet command_node) = Some command_review.
Proof. vm_compute. reflexivity. Qed.

Abbreviation parse_toy := (@parse_node_for_display toy_sha roomy toy_screen).
Lemma screen_read_exactly_witness : ∃ s',
  parse_toy (wire_node_part (lit "1") command_node) sample_dp = (Ret 0, s') ∧
  dp_clear_signing_available s' = true ∧ dp_pairs s' = Some (rv_pairs command_review).
Proof.
  destruct (@screen_read_exactly toy_sha roomy toy_screen (lit "1") command_node sample_dp)
    as (r & s' & E & _ & Hs); [apply plenty_never_refuses|apply command_ok|done|done|].
  rewrite command_reviewed in Hs. destruct (sh_conf _) as [conf|] eqn:Ec; [|by vm_compute in Ec].
  destruct Hs as (_ & _ & _ & -> & Ha & Hp & _). exists s'. by split_and!.
Defined.

(** ** An offer that is withdrawn *)

Definition withdraw_node : node :=
  N_exercise (acts "Splice.AmuletTransferInstruction" "AmuletTransferInstruction"
                "TransferInstruction_Withdraw")
    (V_record (named "Splice.Api.Token.TransferInstructionV1" "TransferInstruction_Withdraw")
       [(lit "extraArgs", V_record (named "Splice.Api.Token.MetadataV1" "ExtraArgs") [])]) V_unit.
Lemma withdraw_ok : part_ok (lit "1") withdraw_node.
Proof. split; [by vm_compute|]. split; [cbn; lia|by vm_compute]. Qed.
Definition withdraw_conf : display_config_t :=
  Build_display_config_t (transfer_v1 "TransferInstruction_Withdraw")
    TRANSFER_OFFER_META_ID_LIST TOKEN_TRANSFER_WITHDRAW_FIELDS
    TOKEN_TRANSFER_WITHDRAW_REVIEW_TITLE TOKEN_TRANSFER_WITHDRAW_REVIEW_FINISH
    TRANSFER_OFFER_META_ID_LIST DEST_SENDER AMOUNT_NOT_COMPARABLE.
Definition waiting : display_config_t * option bytes := (withdraw_conf, Some (lit "00ab")).
(** The node shows nothing by itself. *)
Example withdraw_put_off : node_sheet withdraw_node = blank (Some waiting).
Proof. vm_compute. reflexivity. Qed.

Definition offered : value :=
  V_record (named "Splice.AmuletTransferInstruction" "AmuletTransferInstruction")
    [(lit "transfer", V_record (named "Splice.Api.Token.TransferInstructionV1" "Transfer")
       [(lit "sender", V_party (lit "alice")); (lit "receiver", V_party (lit "bob"));
        (lit "amount", V_numeric (lit "1.0"));
        (lit "instrumentId", V_record (named "Splice.Api.Token.HoldingV1" "InstrumentId")
          [(lit "admin", V_party (lit "DSO::1220b1431ef217342db44d516bb9befde802be7d8899637d290895fa58880f19accc"));
           (lit "id", V_text (lit "Amulet"))]);
        (lit "executeBefore", V_timestamp 4294967296)])].
Definition offer (id : string) : Node_CreateCb hcb := transfer_create
  <| c_contract_id := Some (lit id) |>
  <| c_template_id := named "Splice.AmuletTransferInstruction" "AmuletTransferInstruction" |>.
Example offers_reviewed :
  option_map rv_pairs (@review_of toy_screen (contract_sheet waiting (offer "00ab") offered)) =
    Some [line "Withdraw to" "alice"; line "Amount" "1 CC"] ∧
  @review_of toy_screen (contract_sheet waiting (offer "00ac") offered) = None.
Proof. vm_compute. auto. Qed.

(** The state in which the contract is read. *)
Definition after_withdraw : dp_state := Eval vm_compute in
  snd (parse_toy (wire_node_part (lit "1") withdraw_node) sample_dp).
Lemma withdraw_waits : reads_from_start (Some waiting) after_withdraw.
Proof.
  split; [done|]. split; [|by split_and!].
  unfold DISPLAY_CONFIGS. do 8 apply list_elem_of_further. apply list_elem_of_here.
Qed.
Definition offer_sheet : sheet := contract_sheet waiting (offer "00ab") offered.
Lemma offer_open : ∃ conf rv, sh_conf offer_sheet = Some conf ∧ @review_of toy_screen offer_sheet = Some rv ∧
  rv_pairs rv = [line "Withdraw to" "alice"; line "Amount" "1 CC"].
Proof. eexists _, _. split; [vm_compute; reflexivity|]. split; [vm_compute; reflexivity|]. reflexivity. Qed.
Lemma put_off_screen_read_exactly_witness : ∃ s',
  @parse_input_contract_for_display toy_sha roomy toy_screen (wire_contract_part (offer "00ab") offered 7)
    after_withdraw = (Ret 0, s') ∧
  dp_pairs s' = Some [line "Withdraw to" "alice"; line "Amount" "1 CC"].
Proof.
  destruct (@put_off_screen_read_exactly toy_sha roomy toy_screen withdraw_conf (Some (lit "00ab"))
    (offer "00ab") offered 7 after_withdraw) as (r & s' & E & _ & Hs);
    [apply plenty_never_refuses|by vm_compute|by vm_compute|unfold is_u64; lia|done|apply withdraw_waits|].
  destruct offer_open as (conf & rv & Ec & Er & Ep). fold waiting in Hs. fold offer_sheet in Hs.
  rewrite Ec, Er in Hs. destruct Hs as (_ & _ & _ & -> & _ & Hp & _). exists s'. split; [exact E|].
  by rewrite Hp, Ep.
Defined.
