(* ===== verification/Context.v ===== *)
(** * The global context ([src/src/globals.h], [src/src/types.h], [src/src/utils.c])

    [G_context], the static state of the modules, the persistent settings, and what the
    application sends and shows.  Each parser works on a state of its own that holds the
    part of the context it uses; [in_hashing], [in_holding] and [in_display] run it on the
    context.  What two of them share (the values check and the clock that asks the heap
    and the stack) lives in the context and is handed over on each call. *)

From S2P Require Import Prelude Constants Utils DisplayConfig Pb Messages CanonicalHash.
From S2P Require Import TreeCheck ValuesCheck HashingParser HoldingParser DisplayParser.

(** ** What the host and the user see *)

Inductive screen_t :=
  | ReviewTransaction (pairs : list nbgl_contentTagValue_t) (title finish : bytes)
  | ReviewBlindSigning (pairs : list nbgl_contentTagValue_t)
  | ReviewAddress (party_id : bytes)
  | BlindSigningDisabled.

Inductive output_t :=
  | Sent (data : bytes) (sw : Z)
  | Shown (screen : screen_t).

(** ** State *)

Inductive prepared_tx_receiving_state_e :=
  | RECEIVING_DAML_TX_PART
  | RECEIVING_DAML_NODES
  | RECEIVING_METADATA
  | RECEIVING_METADATA_INPUT_CONTRACTS.
#[export] Instance prepared_tx_receiving_state_e_eq_dec : EqDecision prepared_tx_receiving_state_e.
Proof. solve_decision. Defined.

(** The static state of [untyped_versioned_msg.c].  [tp_hashes] is [None] for the NULL
    pointer and holds the [hash_count] hashes that are set. *)
Record topology_state := {
  tp_found : list bool;
  tp_challenge_parsed : bool;
  tp_challenge : bytes;
  tp_hashes : option (list bytes);
  tp_has_namespace_delegation : bool;
  tp_has_party_to_participant : bool;
  tp_has_party_to_key_mapping : bool
}.
#[export] Instance eta_topology_state : Eta topology_state := λ t,
  Build_topology_state (tp_found t) (tp_challenge_parsed t) (tp_challenge t) (tp_hashes t)
    (tp_has_namespace_delegation t) (tp_has_party_to_participant t)
    (tp_has_party_to_key_mapping t).

(** [g_raw_tx] holds the [raw_tx_len] bytes received and [g_m_hash] the [m_hash_len] bytes
    of the hash; [g_signature] is empty until it is written, as the length of the challenge
    signature tells whether there is one.  The hasher and the announced transaction are in
    [g_hp], the display items, the two clear signing flags and the titles in [g_dp].
    [g_review] is the callback of the review on screen, if there is one. *)
Inductive review_callback := review_choice_transaction | review_choice_address.

Record context := {
  g_clock : nat;
  g_state : state_e;
  g_req_type : request_type_e;
  g_signing_type : signing_type_e;
  g_bip32_path : list Z;
  g_raw_public_key : bytes;
  g_chain_code : bytes;
  g_raw_tx : bytes;
  g_metadata : Metadata;
  g_partial_tx_hash : bytes;
  g_partial_md_hash : bytes;
  g_recv_node_idx : Z;
  g_m_hash : bytes;
  g_signature : bytes;
  g_challenge_signature : option bytes;
  g_store : store_t;
  g_hp : hp_state;
  g_vp : vp_state;
  g_dp : dp_state;
  g_tx_state : prepared_tx_receiving_state_e;
  g_topology : topology_state;
  g_allow_blind_sign : BlindSign;
  g_review : option review_callback;
  g_output : list output_t
}.
#[export] Instance eta_context : Eta context := λ g,
  Build_context (g_clock g) (g_state g) (g_req_type g) (g_signing_type g) (g_bip32_path g)
    (g_raw_public_key g) (g_chain_code g) (g_raw_tx g) (g_metadata g) (g_partial_tx_hash g)
    (g_partial_md_hash g) (g_recv_node_idx g) (g_m_hash g) (g_signature g)
    (g_challenge_signature g) (g_store g) (g_hp g) (g_vp g) (g_dp g) (g_tx_state g)
    (g_topology g) (g_allow_blind_sign g) (g_review g) (g_output g).

Definition g_clear_signing_available (g : context) : bool := dp_clear_signing_available (g_dp g).

Section Context.
Context `{Sha256} `{Device}.

Definition GM : Type → Type := M context.

#[export] Instance g_realloc : Realloc context := λ n g,
  let g' := g <| g_clock ::= S |> in
  if heap_has (g_clock g) n then (Ret tt, g') else (Fail, g').
(** [app_mem_alloc(n) != NULL]. *)
Definition g_mem_alloc (n : Z) : GM bool := λ g,
  (Ret (heap_has (g_clock g) n), g <| g_clock ::= S |>).

(** ** The parsers on the context *)

Definition in_hashing {A} (m : M hp_state A) : GM A := λ g,
  let '(o, h) := m ((g_hp g) <| hp_clock := g_clock g |> <| hp_store := g_store g |>) in
  (o, g <| g_hp := h |> <| g_clock := hp_clock h |> <| g_store := hp_store h |>).
Definition in_holding {A} (m : M vp_state A) : GM A := λ g,
  let '(o, v) := m ((g_vp g) <| vp_clock := g_clock g |> <| vp_store := g_store g |>) in
  (o, g <| g_vp := v |> <| g_clock := vp_clock v |> <| g_store := vp_store v |>).
Definition in_display {A} (m : M dp_state A) : GM A := λ g,
  let '(o, d) := m ((g_dp g) <| dp_clock := g_clock g |> <| dp_store := g_store g |>) in
  (o, g <| g_dp := d |> <| g_clock := dp_clock d |> <| g_store := dp_store d |>).

(** An encoder on [tx_info.hasher]. *)
Definition in_hasher (f : encoder) : GM unit := in_hashing (hw_hasher f).
Definition hash_error : GM HashError := gets (λ g, get_hash_error (hp_hash (g_hp g))).
Definition the_daml_transaction (g : context) : DamlTransaction := hp_tx (g_hp g).

Definition set_state (st : state_e) : GM unit := modify (λ g, g <| g_state := st |>).
Definition on_display (f : dp_state → dp_state) : GM unit := modify (λ g, g <| g_dp ::= f |>).
Definition set_clear_signing (b : bool) : GM unit :=
  on_display (λ d, d <| dp_clear_signing_available := b |>).

Definition io_send_response (data : bytes) (sw : Z) : GM unit :=
  modify (λ g, g <| g_output ::= λ o, o ++ [Sent data sw] |>).
Definition io_send_sw (sw : Z) : GM unit := io_send_response [] sw.
Definition show (s : screen_t) : GM unit :=
  modify (λ g, g <| g_output ::= λ o, o ++ [Shown s] |>).

(** ** [clean_context]

    The union of [G_context] is zeroed: the parts of [tx_info] that live in the parsers'
    states here are zeroed with it, their own static state is not. *)

Definition zero_context (g : context) : context :=
  {| g_clock := g_clock g; g_state := STATE_NONE; g_req_type := CONFIRM_ADDRESS;
     g_signing_type := SIGN_HASH; g_bip32_path := []; g_raw_public_key := [];
     g_chain_code := []; g_raw_tx := []; g_metadata := Metadata_zero;
     g_partial_tx_hash := []; g_partial_md_hash := []; g_recv_node_idx := 0; g_m_hash := [];
     g_signature := []; g_challenge_signature := None; g_store := g_store g;
     g_hp := (g_hp g) <| hp_tx := DamlTransaction_zero |> <| hp_hasher := [] |>;
     g_vp := g_vp g;
     g_dp := (g_dp g) <| dp_pairs := None |> <| dp_clear_signing_available := false |>
                    <| dp_display_failed := false |> <| dp_review_title := [] |>
                    <| dp_review_finish := [] |>;
     g_tx_state := g_tx_state g; g_topology := g_topology g;
     g_allow_blind_sign := g_allow_blind_sign g; g_review := g_review g;
     g_output := g_output g |}.

Definition reset_tree (g : context) : context :=
  g <| g_hp ::= λ h, h <| hp_tree ::= tree_check_reset |> |>.
Definition clean_context : GM unit := modify (λ g,
  zero_context (reset_tree
    (g <| g_dp ::= λ d, reset_display_parser_state (cleanup_display_items d) |>
       <| g_store ::= values_check_reset |>))).
(** ** Steps that only ask the heap *)

Definition same_but_clock (g g' : context) : Prop := g' = g <| g_clock := g_clock g' |>.

Lemma same_but_clock_refl g : same_but_clock g g.
Proof. by destruct g. Qed.
Lemma g_realloc_safe g n : keeps (same_but_clock g) (pb_realloc n).
Proof.
  intros g' Hg. unfold pb_realloc, g_realloc, same_but_clock in *.
  destruct (heap_has _ _); rewrite Hg; done.
Qed.
End Context.

(** The application when it starts: static memory is zero, that of the parsers as well. *)
Definition store_zero : store_t :=
  {| st_holdings := []; st_used_contracts := None; st_destination := []; st_amount := [];
     st_admin := []; st_instrument := []; st_holdings_instrument := []; st_sender := [];
     st_has_destination := false; st_has_amount := false; st_has_admin := false;
     st_has_sender := false; st_has_instrument := false; st_has_holdings_instrument := false;
     st_bound := false; st_bound_destination := DEST_NONE; st_ok := false |}.
Definition boot : context :=
  {| g_clock := 0; g_state := STATE_NONE; g_req_type := CONFIRM_ADDRESS;
     g_signing_type := SIGN_HASH; g_bip32_path := []; g_raw_public_key := []; g_chain_code := [];
     g_raw_tx := []; g_metadata := Metadata_zero; g_partial_tx_hash := [];
     g_partial_md_hash := []; g_recv_node_idx := 0; g_m_hash := []; g_signature := [];
     g_challenge_signature := None;
     g_store := store_zero;
     g_hp := {| hp_clock := 0; hp_tx := DamlTransaction_zero; hp_hasher := []; hp_node_id := 0;
       hp_is_root_node := false; hp_is_input_contract := false; hp_children_claimed := false;
       hp_elem_count := 0; hp_node_hw := [];
       hp_hash := {| hs_err := HASH_OK;
         hs_store := replicate MAX_NODE_CHILDREN
           {| pn_id := 0; pn_hash := replicate SHA256_HASH_LEN 0 |};
         hs_count := 0 |};
       hp_tree := {| tc_nodes := None; tc_root_id := 0; tc_nodes_count := 0; tc_err := TREE_OK |};
       hp_store := store_zero |};
     g_vp := sample_vp; g_dp := sample_dp; g_tx_state := RECEIVING_DAML_TX_PART;
     g_topology := {| tp_found := []; tp_challenge_parsed := false; tp_challenge := [];
       tp_hashes := None; tp_has_namespace_delegation := false;
       tp_has_party_to_participant := false; tp_has_party_to_key_mapping := false |};
     g_allow_blind_sign := BlindSignDisabled; g_review := None; g_output := [] |}.
