(* ===== verification/Prepared.v ===== *)
(** * The prepared transaction ([src/src/transaction/prepared_transaction.c], [pb_parser.c])

    A prepared transaction arrives in parts: the header, the nodes it announces, the
    metadata, and the disclosed contracts the metadata announces.  Each part is hashed,
    checked and read for the screen; the last one completes the hash that is signed. *)

From S2P Require Import Prelude Constants Utils DisplayConfig Pb Wire Messages CanonicalHash.
From S2P Require Import TreeCheck ValuesCheck HashingParser HoldingParser DisplayParser Context.

Section Prepared.
Context `{Sha256} `{Device} `{Screen}.

(** ** [pb_parser.c]

    Releasing what was decoded has no effect on the model. *)

Definition proto_deserialize_daml_tx (buf : bytes) : GM unit :=
  let* tx := pb_decode_inner DamlTransaction_fields buf DamlTransaction_zero in
  modify (λ g, g <| g_hp ::= λ h, h <| hp_tx := tx |> |>).
Definition proto_deserialize_metadata (buf : bytes) : GM unit :=
  let* md := pb_decode_inner Metadata_fields buf Metadata_zero in
  modify (λ g, g <| g_metadata := md |>).

(** ** [prepared_transaction.c]

    A step answers the status word it returns: 0 when the part is accepted. *)

Definition process_prepared_tx_init : GM unit :=
  modify (λ g, g <| g_tx_state := RECEIVING_DAML_TX_PART |>).

Definition abort_prepared_tx (sw : Z) : GM Z :=
  do* modify (λ g, (reset_tree g) <| g_store ::= values_check_reset |>) in
  ret sw.

Definition drop_clear_signing : GM unit :=
  do* set_clear_signing false in
  on_display cleanup_display_items.

Definition apply_node_tree_verdict : GM Z :=
  let* err := (λ g, let '(err, c) := tree_verify_complete (hp_tree (g_hp g)) in
                    (Ret err, g <| g_hp ::= λ h, h <| hp_tree := c |> |>)) in
  if decide (err = TREE_OK) then ret 0
  else if tree_error_is_impossible err then abort_prepared_tx SW_TX_INVALID_NODE_TREE
  else
    do* drop_clear_signing in
    ret 0.

(** [if (get_hash_error() != HASH_OK) return abort_prepared_tx(SW_TX_HASH_FAIL);] *)
Definition unless_hash_error (k : GM Z) : GM Z :=
  let* e := hash_error in
  if decide (e = HASH_OK) then k else abort_prepared_tx SW_TX_HASH_FAIL.

(** [tree_check_init] with the allocation of its two bytes for each announced node, which
    [app_mem_calloc] serves at once when there is none. *)
Definition start_tree_check : GM unit := λ g,
  let tx := the_daml_transaction g in
  let count := tx_nodes_count tx in
  let mem := (count =? 0) || heap_has (g_clock g) (2 * count) in
  let c := snd (tree_check_init mem (tx_roots tx) count (hp_tree (g_hp g))) in
  (Ret tt, g <| g_clock ::= S |> <| g_hp ::= λ h, h <| hp_tree := c |> |>).

Definition next_index : GM Z :=
  do* modify (λ g, g <| g_recv_node_idx ::= λ i, i32 (i + 1) |>) in
  gets g_recv_node_idx.

(** [finalize_hash_transaction] and the other two read the hasher they are given. *)
Definition process_prepared_tx_finalize : GM Z :=
  let* st := gets g_state in
  if negb (bool_decide (st = STATE_PARSED)) then abort_prepared_tx SW_BAD_STATE
  else
    let* available := gets g_clear_signing_available in
    do* (if available : bool then
           let* agrees := (λ g, let '(b, s) := values_can_clear_sign (g_store g) in
                                (Ret b, g <| g_store := s |>)) in
           if agrees : bool then ret tt else drop_clear_signing
         else ret tt) in
    do* modify (λ g, g <| g_store ::= values_release_used_contracts |>) in
    do* modify (λ g, g <| g_partial_md_hash := finalize_hash_metadata (hp_hasher (g_hp g)) |>) in
    do* modify (λ g, g <| g_m_hash := take 32 (finalize_hash (g_partial_tx_hash g)
                                                 (g_partial_md_hash g)) |>) in
    do* on_display reset_display_parser_state in
    ret 0.

Definition daml_tx_part (buf : bytes) : GM Z :=
  let* parsed := attempt (proto_deserialize_daml_tx buf) in
  if negb (is_set parsed) then abort_prepared_tx SW_TX_PARSING_FAIL
  else
    do* start_tree_check in
    let* tx := gets the_daml_transaction in
    do* in_hasher (hash_transaction tx) in
    unless_hash_error (
      do* modify (λ g, g <| g_recv_node_idx := 0 |> <| g_tx_state :=
        if tx_nodes_count tx =? 0 then RECEIVING_METADATA else RECEIVING_DAML_NODES |>) in
      ret 0).

Definition node_part (buf : bytes) : GM Z :=
  let* parsed := attempt (in_hashing (proto_deserialize_node buf)) in
  if negb (is_set parsed) then abort_prepared_tx SW_TX_PARSING_FAIL
  else unless_hash_error (
    do* in_holding (values_collect_from_node buf) in
    let* clear := gets (λ g, tree_can_clear_sign (hp_tree (g_hp g))) in
    let* res := (if clear : bool then in_display (parse_node_for_display buf) else ret 0) in
    if negb (res =? 0) then abort_prepared_tx SW_TX_PARSING_FAIL
    else
      let* idx := next_index in
      let* tx := gets the_daml_transaction in
      do* (if idx =? tx_nodes_count tx then modify (λ g, g <| g_tx_state := RECEIVING_METADATA |>)
           else ret tt) in
      ret 0).

Definition metadata_part (buf : bytes) : GM Z :=
  let* tree_res := apply_node_tree_verdict in
  if negb (tree_res =? 0) then abort_prepared_tx tree_res
  else
    do* modify (λ g, g <| g_partial_tx_hash := finalize_hash_transaction (hp_hasher (g_hp g)) |>) in
    let* parsed := attempt (proto_deserialize_metadata buf) in
    if negb (is_set parsed) then abort_prepared_tx SW_TX_PARSING_FAIL
    else
      let* md := gets g_metadata in
      do* in_hasher (hash_metadata md) in
      unless_hash_error (
        do* modify (λ g, g <| g_recv_node_idx := 0 |>) in
        if md_input_contracts_count md =? 0 then process_prepared_tx_finalize
        else
          do* modify (λ g, g <| g_tx_state := RECEIVING_METADATA_INPUT_CONTRACTS |>) in
          ret 0).

Definition input_contract_part (buf : bytes) : GM Z :=
  let* parsed := attempt (in_hashing (proto_deserialize_input_contract buf)) in
  if negb (is_set parsed) then abort_prepared_tx SW_TX_PARSING_FAIL
  else unless_hash_error (
    let* res := in_display (parse_input_contract_for_display buf) in
    if negb (res =? 0) then abort_prepared_tx SW_TX_PARSING_FAIL
    else
      let* idx := next_index in
      let* md := gets g_metadata in
      if idx =? md_input_contracts_count md then process_prepared_tx_finalize else ret 0).

Definition process_prepared_tx_part (buf : bytes) : GM Z :=
  let* st := gets g_tx_state in
  match st with
  | RECEIVING_DAML_TX_PART => daml_tx_part buf
  | RECEIVING_DAML_NODES => node_part buf
  | RECEIVING_METADATA => metadata_part buf
  | RECEIVING_METADATA_INPUT_CONTRACTS => input_contract_part buf
  end.
End Prepared.
