(* ===== verification/PreparedRun.v ===== *)
(** * What an accepted part of a prepared transaction did

    For each kind of part, from a state whose parsers are in order: what was decoded, which
    bytes went to the hasher, what the tree check and the values check were told and what
    the screen was filled from, when the part is accepted; and that any part is answered. *)

From S2P Require Import Prelude Constants Utils DisplayConfig Pb Wire Messages CanonicalHash.
From S2P Require Import TreeCheck ValuesCheck HashingParser HoldingParser DisplayParser Context.
From S2P Require Import Prepared.

(** ** What each part leaves behind *)

(** A node part: its event for the tree check, whether it is the root, its hash, and what it
    told the values check.  A contract part: also whether it is the one that turned clear
    signing on. *)
Record node_log := {
  nl_event : node_event; nl_root : bool; nl_hash : bytes; nl_values : list value_event }.
Record contract_log := {
  cl_created_at : Z; cl_hash : bytes; cl_opens : bool; cl_values : list value_event }.

Definition root_bytes (l : node_log) : bytes :=
  if nl_root l then take SHA256_HASH_LEN (nl_hash l) else [].
Definition contract_bytes (l : contract_log) : bytes :=
  be64 (u64 (cl_created_at l)) ++ take SHA256_HASH_LEN (cl_hash l).

(** What a disclosed contract may tell the values check. *)
Definition contract_report (ev : value_event) : Prop :=
  match ev with VDisclosed _ | VBind _ _ _ => True | _ => False end.

Definition all_values (nodes : list node_log) (contracts : list contract_log)
  : list value_event := flat_map nl_values nodes ++ flat_map cl_values contracts.

Section Run.
Context `{Sha256} `{Device} `{Screen}.

(** [buf] decodes as [v]. *)
Definition decodes {A} (fields : Z → option (field_handler context A)) (zero : A) (buf : bytes)
    (v : A) : Prop :=
  ∃ g g', pb_decode_inner fields buf zero g = (Ret v, g').

(** What the values check was told of the node [buf], from the store [st]: of the contract it
    uses, of what the holding parser found in it, and of the screen it filled. *)
Definition bind_report (ev : value_event) : Prop :=
  match ev with VBind _ _ _ => True | _ => False end.
Definition values_told (st : store_t) (buf : bytes) (evs : list value_event) : Prop :=
  ∃ used held binds v v', evs = used ++ held ++ binds ∧
    Forall (reported false) used ∧ Forall holding_report held ∧ Forall bind_report binds ∧
    vp_store v = foldl value_step st used ∧ values_collect_from_node buf v = (Ret tt, v') ∧
    vp_store v' = foldl value_step (vp_store v) held.

(** From [s] to [s'] the parser read the node [buf] of [l], or the contract, and met no error;
    [st] is the store of the values check before it. *)
Record node_read (st : store_t) (buf : bytes) (l : node_log) (s s' : hp_state) : Prop := {
  nd_parsed : proto_deserialize_node buf s = (Ret tt, s');
  nd_ok : get_hash_error (hp_hash s') = HASH_OK;
  nd_id : ev_id (nl_event l) = hp_node_id s';
  nd_root : nl_root l = hp_is_root_node s';
  nd_hash : nl_hash l = hw_finalize (hp_node_hw s');
  nd_values : values_told st buf (nl_values l)
}.
Record contract_read (buf : bytes) (l : contract_log) (s s' : hp_state) : Prop := {
  ct_parsed : proto_deserialize_input_contract buf s = (Ret tt, s');
  ct_ok : get_hash_error (hp_hash s') = HASH_OK;
  ct_hash : cl_hash l = hw_finalize (hp_node_hw s');
  ct_hashed : hp_hasher s' = hp_hasher s ++ contract_bytes l;
  ct_values : Forall contract_report (cl_values l)
}.
Definition contract_logged (buf : bytes) (l : contract_log) : Prop :=
  ∃ s s', contract_read buf l s s'.

(** The node parts of a transaction with header [tx], each read with the node hashes that the
    ones before it left: [h] is what the last one left. *)
Inductive node_chain (tx : DamlTransaction) : list bytes → list node_log → hash_state → Prop :=
  | chain_start h h0 : hs_store h = hs_store (init_node_hash_store h0) → node_chain tx [] [] h
  | chain_node bufs nodes buf l s s' s0 : node_chain tx bufs nodes (hp_hash s) → hp_tx s = tx →
      node_read (value_run (flat_map nl_values nodes) s0) buf l s s' →
      node_chain tx (bufs ++ [buf]) (nodes ++ [l]) (hp_hash s').

(** The screen of a transaction: [display_run s0 nodes contracts evs d] when the display parser,
    reset and then run over the node parts [nodes] and the contract parts [contracts], is in
    the state [d], and the values check, from [s0], was told [evs].  A node is passed over when
    the tree check has failed, and the verdict of the tree check may drop the screen. *)
Record fresh_display (d : dp_state) : Prop := {
  fd_clear : dp_clear_signing_available d = false;
  fd_fields : dp_fields d = replicate MAX_DISPLAY_FIELDS_NB tx_field_zero;
  fd_identifiers : dp_md_identifiers d = None;
  fd_conf : dp_md_conf d = None
}.
(** What the user is shown. *)
Definition same_screen (d d' : dp_state) : Prop :=
  dp_pairs d' = dp_pairs d ∧ dp_review_title d' = dp_review_title d ∧
  dp_review_finish d' = dp_review_finish d.
Definition handed_over (d : dp_state) (clock : nat) (st : store_t) : dp_state :=
  d <| dp_clock := clock |> <| dp_store := st |>.
(** The screen that turns clear signing on is the one the values check is bound to. *)
Definition screen_binds (st : store_t) (d d' : dp_state) (binds : list value_event) : Prop :=
  if dp_clear_signing_available d then binds = []
  else dp_clear_signing_available d' = true →
    ∃ ev, binds = [ev] ∧ bind_report ev ∧ dp_store d' = value_step st ev.
Inductive display_run (s0 : store_t) : list bytes → list bytes → list value_event → dp_state → Prop :=
  | run_fresh d : fresh_display d → display_run s0 [] [] [] d
  | run_node bufs evs d more binds clock buf r d' : display_run s0 bufs [] evs d →
      Forall (λ ev, ¬ bind_report ev) more →
      parse_node_for_display buf (handed_over d clock (value_run (evs ++ more) s0)) = (Ret r, d') →
      screen_binds (value_run (evs ++ more) s0) d d' binds →
      display_run s0 (bufs ++ [buf]) [] (evs ++ more ++ binds) d'
  | run_passed bufs evs d more buf : display_run s0 bufs [] evs d →
      Forall (λ ev, ¬ bind_report ev) more → display_run s0 (bufs ++ [buf]) [] (evs ++ more) d
  | run_dropped bufs evs d : display_run s0 bufs [] evs d →
      display_run s0 bufs [] evs (cleanup_display_items (d <| dp_clear_signing_available := false |>))
  | run_contract bufs cs evs d more binds clock buf r d' : display_run s0 bufs cs evs d →
      Forall (λ ev, ¬ bind_report ev) more →
      parse_input_contract_for_display buf (handed_over d clock (value_run (evs ++ more) s0)) = (Ret r, d') →
      screen_binds (value_run (evs ++ more) s0) d d' binds →
      display_run s0 bufs (cs ++ [buf]) (evs ++ more ++ binds) d'.

(** [w] are the bytes of a header, or of metadata, encoded without an error. *)
Definition header_bytes (tx : DamlTransaction) (w : bytes) : Prop :=
  ∃ c, get_hash_error (e_hs (hash_transaction tx c)) = HASH_OK ∧ w = e_hw (hash_transaction tx c).
Definition metadata_bytes (md : Metadata) (w : bytes) : Prop :=
  ∃ c, get_hash_error (e_hs (hash_metadata md c)) = HASH_OK ∧ w = e_hw (hash_metadata md c).

(** What the pairs of the screen are made of, after the calls [evs] to the values check: the
    lines of one configuration of the table, filled with the fields the check was last
    bound to. *)
Definition bound_screen (evs : list value_event) (pairs : option (list nbgl_contentTagValue_t))
  : Prop :=
  ∃ conf fields fields', conf ∈ DISPLAY_CONFIGS ∧
    Forall2 (λ c f, tf_display f = true ∧
      (tf_config f = Some c ∨ tf_config f = Some PREAPPROVAL_ASSET_FIELD)) (dc_fields conf) fields ∧
    last_bind evs = Some (fields, dc_destination conf, dc_amount_check conf) ∧
    Forall2 (shown_field fields) fields fields' ∧
    pairs = Some (omap shown_pair fields').
Definition screen_from (evs : list value_event) (d : dp_state) : Prop :=
  dp_clear_signing_available d = true → bound_screen evs (dp_pairs d).

(** ** Decoding on the context *)

(** What the clock does not show. *)
Lemma same_but_clock_fields g g' : same_but_clock g g' →
  g_hp g' = g_hp g ∧ g_vp g' = g_vp g ∧ g_dp g' = g_dp g ∧ g_store g' = g_store g ∧
  g_tx_state g' = g_tx_state g ∧ g_state g' = g_state g ∧ g_recv_node_idx g' = g_recv_node_idx g ∧
  g_partial_tx_hash g' = g_partial_tx_hash g ∧ g_m_hash g' = g_m_hash g.
Proof. intros ->. by split_and!. Qed.

Lemma decode_then {A} (fields : Z → option (field_handler context A)) zero buf
    (f : A → context → context) g v g' :
  (∀ n, fields_safe (same_but_clock g) n fields) →
  attempt (let* a := pb_decode_inner fields buf zero in modify (f a)) g = (Ret v, g') →
  is_set v = true →
  ∃ g1 a, same_but_clock g g1 ∧ decodes fields zero buf a ∧ g' = f a g1.
Proof.
  intros Hf E Hv. unfold attempt, bind in E.
  assert (Hs : keeps (same_but_clock g) (pb_decode_inner fields buf zero))
    by (apply pb_decode_inner_safe; intros n _; apply Hf).
  specialize (Hs g (same_but_clock_refl g)).
  destruct (pb_decode_inner fields buf zero g) as [[a| | |] g1] eqn:E1; cbn in E; simplify_eq.
  destruct Hs as [Hs _]. eexists _, a. split; [done|]. by split; [eexists _, _|].
Qed.

(** ** Accepted parts

    A status word is never zero, so a part that answers 0 took none of the refusals. *)

Lemma refuse_inv (b : bool) sw (k : GM Z) g g' : sw ≠ 0 →
  (if b then abort_prepared_tx sw else k) g = (Ret 0, g') → b = false ∧ k g = (Ret 0, g').
Proof.
  intros Hsw. destruct b; [|done]. unfold abort_prepared_tx, bind, modify, ret. congruence.
Qed.
Lemma refuse_res_inv res (k : GM Z) g g' :
  (if negb (res =? 0) then abort_prepared_tx res else k) g = (Ret 0, g') →
  res = 0 ∧ k g = (Ret 0, g').
Proof.
  destruct (Z.eqb_spec res 0) as [->|Hne]; [done|].
  by intros []%(refuse_inv true res (ret 0)).
Qed.
Lemma unless_hash_error_inv k g g' : unless_hash_error k g = (Ret 0, g') →
  get_hash_error (hp_hash (g_hp g)) = HASH_OK ∧ k g = (Ret 0, g').
Proof.
  unfold unless_hash_error, hash_error, bind, gets. case_decide as E; [done|].
  unfold abort_prepared_tx, bind, modify, ret. discriminate.
Qed.

Lemma in_hasher_inv f g u g' : in_hasher f g = (Ret u, g') →
  ∃ e, e = f {| e_hw := hp_hasher (g_hp g); e_hs := hp_hash (g_hp g) |} ∧
    g' = g <| g_hp := (g_hp g) <| hp_clock := g_clock g |> <| hp_store := g_store g |>
                  <| hp_hasher := e_hw e |> <| hp_hash := e_hs e |> |>.
Proof. intros [= _ <-]. eexists. split; [done|]. by destruct g. Qed.

Lemma header_store tx c e : e = hash_transaction tx c →
  hs_store (e_hs e) = hs_store (init_node_hash_store (e_hs c)).
Proof.
  intros ->. unfold hash_transaction. cbn -[encode_string init_node_hash_store].
  by rewrite (sd_store _ (steady_string (tx_version tx))).
Qed.
Lemma daml_tx_part_accepted buf g g' : daml_tx_part buf g = (Ret 0, g') →
  ∃ mem c, let tx := the_daml_transaction g' in
    decodes DamlTransaction_fields DamlTransaction_zero buf tx ∧
    header_bytes tx (hp_hasher (g_hp g')) ∧
    hp_tree (g_hp g') = snd (tree_check_init mem (tx_roots tx) (tx_nodes_count tx) c) ∧
    node_chain tx [] [] (hp_hash (g_hp g')) ∧ g_recv_node_idx g' = 0 ∧
    g_tx_state g' = (if tx_nodes_count tx =? 0 then RECEIVING_METADATA else RECEIVING_DAML_NODES) ∧
    g_store g' = g_store g ∧ g_dp g' = g_dp g ∧ g_vp g' = g_vp g ∧ g_m_hash g' = g_m_hash g.
Proof.
  unfold daml_tx_part. intros (v & g1 & E1 & [Hv E]%refuse_inv)%bind_ret_inv; [|done].
  apply negb_false_iff in Hv.
  destruct (decode_then _ _ _ _ _ _ _
    (λ n, DamlTransaction_fields_safe _ (g_realloc_safe g) n) E1 Hv) as (g0 & tx & Hg0 & Hd & ->).
  apply same_but_clock_fields in Hg0 as (Hhp & Hvp & Hdp & Hst & _ & _ & _ & _ & Hm).
  apply bind_ret_inv in E as (u & g1 & E2 & E). injection E2 as _ E2.
  assert (G1 : the_daml_transaction g1 = tx ∧ g_store g1 = g_store g ∧ g_dp g1 = g_dp g ∧
    g_vp g1 = g_vp g ∧ g_m_hash g1 = g_m_hash g ∧ ∃ mem, hp_tree (g_hp g1) =
      snd (tree_check_init mem (tx_roots tx) (tx_nodes_count tx) (hp_tree (g_hp g0)))).
  { rewrite <- E2. split_and!; try done. by eexists. }
  destruct G1 as (Htx & G1 & G2 & G3 & G4 & mem & G5). clear E2.
  apply bind_ret_inv in E as (t & g2 & E3 & E). injection E3 as <- <-.
  apply bind_ret_inv in E as (u' & g3 & (e & Ee & ->)%in_hasher_inv & E).
  apply unless_hash_error_inv in E as [He E].
  apply bind_ret_inv in E as (u'' & g4 & E4 & E). injection E4 as _ <-. injection E as <-.
  exists mem, (hp_tree (g_hp g0)).
  change (the_daml_transaction _) with (the_daml_transaction g1). rewrite Htx in *.
  split_and!; try done.
  - eexists. split; [|exact (f_equal e_hw Ee)]. by rewrite <- Ee.
  - eapply chain_start. exact (header_store _ _ _ Ee).
Qed.

(** ** The parsers on the context *)

Lemma in_hashing_inv {A} (m : M hp_state A) g v g' : attempt (in_hashing m) g = (Ret v, g') →
  is_set v = true →
  ∃ a h, v = Some a ∧ m ((g_hp g) <| hp_clock := g_clock g |> <| hp_store := g_store g |>) = (Ret a, h) ∧
    g' = g <| g_hp := h |> <| g_clock := hp_clock h |> <| g_store := hp_store h |>.
Proof.
  unfold attempt, in_hashing. destruct (m _) as [[a| | |] h]; intros E Hv; simplify_eq.
  by exists a, h.
Qed.

Lemma in_holding_collect buf g u g' : vp_ready (g_vp g) →
  in_holding (values_collect_from_node buf) g = (Ret u, g') →
  ∃ v0 v evs, vp_ready v ∧ Forall holding_report evs ∧ vp_store v0 = g_store g ∧
    values_collect_from_node buf v0 = (Ret tt, v) ∧ vp_store v = foldl value_step (vp_store v0) evs ∧
    g' = g <| g_vp := v |> <| g_clock := vp_clock v |> <| g_store := foldl value_step (g_store g) evs |>.
Proof.
  intros Hr. unfold in_holding. set (s := _ <| vp_store := _ |>).
  assert (Hs : vp_ready s) by (destruct Hr; split; try done; by exists []).
  pose proof (values_collect_effect buf s Hs) as (_ & _ & Hret).
  destruct (values_collect_from_node buf s) as [o v] eqn:Ec. intros [= -> <-].
  destruct u. destruct (Hret eq_refl) as [Hv (evs & Hev & Est)].
  exists s, v, evs. split_and!; try done.
  change (vp_store s) with (g_store g) in Est. by rewrite <- Est.
Qed.

Lemma bound_screen_of s s' : screen_shown s s' → ∃ ev, bind_report ev ∧
  dp_store s' = value_step (dp_store s) ev ∧ ∀ evs, bound_screen (evs ++ [ev]) (dp_pairs s').
Proof.
  intros (conf & fields & fields' & Hin & Hf & Est & Hsh & Hp).
  exists (VBind fields (dc_destination conf) (dc_amount_check conf)). split_and!; [done..|].
  intros evs. exists conf, fields, fields'. split_and!; try done. apply last_bind_snoc.
Qed.

Lemma in_display_parse buf parse g r g' : dp_ready (g_dp g) →
  parse = parse_node_for_display buf ∨ parse = parse_input_contract_for_display buf →
  in_display parse g = (Ret r, g') →
  ∃ d evs, dp_ready d ∧ Forall bind_report evs ∧
    g' = g <| g_dp := d |> <| g_clock := dp_clock d |> <| g_store := foldl value_step (g_store g) evs |> ∧
    parse (handed_over (g_dp g) (g_clock g) (g_store g)) = (Ret r, d) ∧
    screen_binds (g_store g) (g_dp g) d evs ∧
    ∀ before, screen_from before (g_dp g) → screen_from (before ++ evs) d.
Proof.
  intros Hr Hp. unfold in_display. set (s := _ <| dp_store := _ |>).
  assert (Hs : dp_ready s) by (apply (same_ready (g_dp g)); done).
  assert (Hrun : parsed s (parse s)).
  { destruct Hp as [-> | ->]; [by apply node_parse_run|by apply contract_parse_run]. }
  fold (handed_over (g_dp g) (g_clock g) (g_store g)) in s.
  change (parse (handed_over _ _ _)) with (parse s).
  destruct (parse s) as [o d] eqn:Ep. intros [= -> <-].
  destruct Hrun as (Hd & _ & Hb & Hsame & Hopen). exists d.
  unfold screen_binds. change (dp_clear_signing_available (g_dp g)) with (dp_clear_signing_available s).
  destruct (dp_clear_signing_available s) eqn:Ea.
  { rewrite (Hsame eq_refl). exists []. split_and!; try done.
    intros before. by rewrite app_nil_r. }
  destruct (dp_clear_signing_available d) eqn:Ed.
  - destruct (Hopen eq_refl eq_refl) as [_ Hsh].
    destruct (bound_screen_of s d Hsh) as (ev & Hev & Est & Hbs).
    exists [ev]. split_and!; try done; [by constructor|by rewrite Est|by intros _; exists ev|].
    by intros before _ _.
  - destruct Hb as [Hb|(fields & de & c & Hb)].
    + exists []. split_and!; try done; [by rewrite Hb|]. unfold screen_from. congruence.
    + exists [VBind fields de c]. split_and!; try done; [by constructor|by rewrite Hb|].
      unfold screen_from. congruence.
Qed.

Lemma last_bind_skip evs evs' : Forall (λ ev, ¬ bind_report ev) evs' →
  last_bind (evs ++ evs') = last_bind evs.
Proof.
  revert evs. induction evs' as [|ev evs' IH]; intros evs Hs; [by rewrite app_nil_r|].
  apply Forall_cons in Hs as [Hev Hs]. rewrite cons_middle, app_assoc, IH by done.
  rewrite last_bind_snoc. by destruct ev; [..|destruct Hev].
Qed.
Lemma screen_from_skip evs evs' d : Forall (λ ev, ¬ bind_report ev) evs' →
  screen_from evs d → screen_from (evs ++ evs') d.
Proof.
  intros Hs Hd Ha. destruct (Hd Ha) as (conf & f & f' & Hin & Hf & Hl & Hsh & Hp).
  exists conf, f, f'. by rewrite last_bind_skip.
Qed.

Lemma next_index_inv g i g' : next_index g = (Ret i, g') →
  i = i32 (g_recv_node_idx g + 1) ∧ g' = g <| g_recv_node_idx := i |>.
Proof. by intros [= <- <-]. Qed.

Lemma modify_if_inv {S} (b : bool) (f : S → S) s u s' :
  (if b then modify f else ret tt) s = (Ret u, s') → s' = if b then f s else s.
Proof. destruct b; unfold modify, ret; congruence. Qed.

(** The four phases of a node part. *)
Lemma node_part_steps buf g g' : node_part buf g = (Ret 0, g') →
  ∃ h g1 g2 g3, proto_deserialize_node buf
      ((g_hp g) <| hp_clock := g_clock g |> <| hp_store := g_store g |>) = (Ret tt, h) ∧
    g1 = g <| g_hp := h |> <| g_clock := hp_clock h |> <| g_store := hp_store h |> ∧
    get_hash_error (hp_hash h) = HASH_OK ∧
    in_holding (values_collect_from_node buf) g1 = (Ret tt, g2) ∧
    (g3 = g2 ∨ ∃ r, in_display (parse_node_for_display buf) g2 = (Ret r, g3)) ∧
    let g4 := g3 <| g_recv_node_idx := i32 (g_recv_node_idx g3 + 1) |> in
    g' = if g_recv_node_idx g4 =? tx_nodes_count (the_daml_transaction g4)
         then g4 <| g_tx_state := RECEIVING_METADATA |> else g4.
Proof.
  unfold node_part. intros (v & g1 & E1 & [Hv E]%refuse_inv)%bind_ret_inv; [|done].
  apply negb_false_iff in Hv. destruct (in_hashing_inv _ _ _ _ E1 Hv) as ([] & h & _ & Eh & Eg1).
  apply unless_hash_error_inv in E as [He E].
  apply bind_ret_inv in E as ([] & g2 & E2 & E).
  apply bind_ret_inv in E as (clear & g2' & Ec & E). injection Ec as _ <-.
  apply bind_ret_inv in E as (res & g3 & E3 & [Hres E]%refuse_inv); [|done].
  apply bind_ret_inv in E as (idx & g4 & [-> E4]%next_index_inv & E).
  apply bind_ret_inv in E as (tx & g5 & E5 & E). injection E5 as <- <-.
  exists h, g1, g2, g3. split_and!; try done.
  - by rewrite Eg1 in He.
  - destruct clear; [right; by exists res|left; by injection E3].
  - subst g4. apply bind_ret_inv in E as (u & g6 & E6%modify_if_inv & E). injection E as <-.
    exact E6.
Qed.

Lemma reported_not_bind b ev : reported b ev → ¬ bind_report ev.
Proof. intros Hr Hb. by destruct ev. Qed.
Lemma holding_not_bind ev : holding_report ev → ¬ bind_report ev.
Proof. intros Hr Hb. by destruct ev. Qed.

Lemma node_part_accepted buf g g' : vp_ready (g_vp g) → dp_ready (g_dp g) →
  node_part buf g = (Ret 0, g') →
  ∃ l s, node_read (g_store g) buf l s (g_hp g') ∧ hp_hash s = hp_hash (g_hp g) ∧
    hp_tx s = the_daml_transaction g ∧
    hp_tree (g_hp g') = node_arrives (hp_tree (g_hp g)) (nl_event l) ∧
    hp_hasher (g_hp g') = hp_hasher (g_hp g) ++ root_bytes l ∧
    g_store g' = foldl value_step (g_store g) (nl_values l) ∧
    the_daml_transaction g' = the_daml_transaction g ∧
    g_recv_node_idx g' = i32 (g_recv_node_idx g + 1) ∧
    g_tx_state g' = (if g_recv_node_idx g' =? tx_nodes_count (the_daml_transaction g)
                     then RECEIVING_METADATA else g_tx_state g) ∧
    vp_ready (g_vp g') ∧ dp_ready (g_dp g') ∧ g_m_hash g' = g_m_hash g ∧
    (∀ s0 bufs evs, g_store g = value_run evs s0 → display_run s0 bufs [] evs (g_dp g) →
       display_run s0 (bufs ++ [buf]) [] (evs ++ nl_values l) (g_dp g')) ∧
    ∀ before, screen_from before (g_dp g) → screen_from (before ++ nl_values l) (g_dp g').
Proof.
  intros Hvp Hdp (h & g1 & g2 & g3 & Eh & Eg1 & Hok & E2 & E3 & Eg')%node_part_steps.
  destruct (node_part_effect _ _ _ Eh) as ((par & ch & Htree) & (used & Hused & Est) & Htx & Hroot).
  apply in_holding_collect in E2 as (v0 & v & held & Hv & Hheld & Ev0 & Ec & Ev & E2); [|by rewrite Eg1].
  assert (H3 : ∃ d binds, dp_ready d ∧ Forall bind_report binds ∧
    (∀ s0 bufs evs more, Forall (λ ev, ¬ bind_report ev) more → g_store g2 = value_run (evs ++ more) s0 →
       display_run s0 bufs [] evs (g_dp g) → display_run s0 (bufs ++ [buf]) [] (evs ++ more ++ binds) d) ∧
    (∀ before, screen_from before (g_dp g) → screen_from (before ++ binds) d) ∧
    g3 = g2 <| g_dp := d |> <| g_clock := g_clock g3 |>
            <| g_store := foldl value_step (g_store g2) binds |>).
  { destruct E3 as [->|[r E3]].
    - exists (g_dp g), []. split_and!; try done.
      + intros s0 bufs evs more Hm _ Hr. rewrite app_nil_r. by apply run_passed.
      + intros before. by rewrite app_nil_r.
      + subst g2 g1. by destruct g.
    - apply (in_display_parse buf) in E3 as (d & binds & Hd & Hb & Eg3 & Ep & Hsb & Hs);
        [|subst g2 g1; done|by left].
      exists d, binds. split_and!; try done; [|by subst g2 g1|by rewrite Eg3].
      intros s0 bufs evs more Hm Est2 Hrun. rewrite Est2 in Ep, Hsb.
      eapply (run_node s0 bufs evs (g_dp g2)); [by subst g2 g1|done|exact Ep|exact Hsb]. }
  destruct H3 as (d & binds & Hd & Hb & Hrun & Hs & Eg3).
  exists {| nl_event := {| ev_parent := par; ev_children := ch; ev_id := hp_node_id h |};
    nl_root := hp_is_root_node h; nl_hash := hw_finalize (hp_node_hw h);
    nl_values := used ++ held ++ binds |}, ((g_hp g) <| hp_clock := g_clock g |> <| hp_store := g_store g |>).
  set (g4 := g3 <| g_recv_node_idx := _ |>) in Eg'. cbv zeta in Eg'.
  assert (E4 : g_recv_node_idx g4 = i32 (g_recv_node_idx g + 1) ∧ g_hp g4 = h ∧ g_vp g4 = v ∧
    g_dp g4 = d ∧ g_store g4 = foldl value_step (g_store g) (used ++ held ++ binds) ∧
    g_tx_state g4 = g_tx_state g ∧ g_m_hash g4 = g_m_hash g).
  { subst g4. rewrite Eg3. subst g2 g1. cbn in Est |- *. split_and!; try done.
    by rewrite !foldl_app, Est. }
  destruct E4 as (F1 & F2 & F3 & F4 & F5 & F6 & F7). clearbody g4.
  assert (E' : g_recv_node_idx g' = g_recv_node_idx g4 ∧ g_hp g' = g_hp g4 ∧ g_vp g' = g_vp g4 ∧
    g_dp g' = g_dp g4 ∧ g_store g' = g_store g4 ∧ g_m_hash g' = g_m_hash g4 ∧
    g_tx_state g' = if g_recv_node_idx g4 =? tx_nodes_count (the_daml_transaction g4)
      then RECEIVING_METADATA else g_tx_state g4).
  { rewrite Eg'. by destruct (g_recv_node_idx g4 =? _). }
  destruct E' as (-> & R2 & -> & -> & -> & -> & ->). unfold the_daml_transaction.
  rewrite R2, F1, F2, F3, F4, F5, F6, F7. cbn in Htx, Htree |- *.
  assert (Hskip : Forall (λ ev, ¬ bind_report ev) (used ++ held)).
  { apply Forall_app; split; eapply Forall_impl;
      [exact Hused|by apply reported_not_bind|exact Hheld|by apply holding_not_bind]. }
  rewrite Htx. split_and!; try done.
  - split; try done. exists used, held, binds, v0, v. split_and!; try done.
    rewrite Ev0, Eg1. exact Est.
  - unfold root_bytes; cbn. destruct (hp_is_root_node h).
    + by destruct Hroot.
    + rewrite app_nil_r. by destruct Hroot.
  - intros s0 bufs evs E0 Hr. rewrite (app_assoc used). apply Hrun; [done| |done].
    rewrite E2, Eg1. cbn in Est |- *. rewrite Est, <- foldl_app, E0.
    unfold value_run. by rewrite !foldl_app.
  - intros before Hbefore. rewrite (app_assoc used), app_assoc. by apply Hs, screen_from_skip.
Qed.

(** The screen after the verdict [err] of the tree check. *)
Definition after_verdict (err : tree_error_e) (d : dp_state) : dp_state :=
  if decide (err = TREE_OK) then d
  else cleanup_display_items (d <| dp_clear_signing_available := false |>).

Lemma apply_node_tree_verdict_inv g g' : apply_node_tree_verdict g = (Ret 0, g') →
  let '(err, c) := tree_verify_complete (hp_tree (g_hp g)) in
  tree_error_is_impossible err = false ∧
  g' = g <| g_hp ::= λ h, h <| hp_tree := c |> |> <| g_dp ::= after_verdict err |>.
Proof.
  unfold apply_node_tree_verdict, bind at 1.
  destruct (tree_verify_complete (hp_tree (g_hp g))) as [err c]. unfold after_verdict.
  case_decide as Eok.
  - intros [= <-]. rewrite Eok. by destruct g.
  - intros E. destruct (tree_error_is_impossible err) eqn:Ei.
    + by apply (refuse_inv true _ (ret 0)) in E as [].
    + split; [done|]. by injection E as <-.
Qed.

Lemma metadata_part_accepted buf g g' : metadata_part buf g = (Ret 0, g') →
  ∃ g1, let err := fst (tree_verify_complete (hp_tree (g_hp g))) in
    tree_error_is_impossible err = false ∧
    decodes Metadata_fields Metadata_zero buf (g_metadata g1) ∧
    g_partial_tx_hash g1 = finalize_hash_transaction (hp_hasher (g_hp g)) ∧
    metadata_bytes (g_metadata g1) (hp_hasher (g_hp g1)) ∧
    g_recv_node_idx g1 = 0 ∧ g_store g1 = g_store g ∧ g_vp g1 = g_vp g ∧
    g_m_hash g1 = g_m_hash g ∧ g_dp g1 = after_verdict err (g_dp g) ∧
    if md_input_contracts_count (g_metadata g1) =? 0 then process_prepared_tx_finalize g1 = (Ret 0, g')
    else g' = g1 <| g_tx_state := RECEIVING_METADATA_INPUT_CONTRACTS |>.
Proof.
  unfold metadata_part. intros (res & g1 & E1 & E)%bind_ret_inv.
  apply refuse_res_inv in E as [-> E'].
  pose proof (apply_node_tree_verdict_inv g g1 E1) as Hv.
  destruct (tree_verify_complete (hp_tree (g_hp g))) as [err c]. destruct Hv as [Herr Eg1]. cbn [fst].
  apply bind_ret_inv in E' as (u & g2 & E2 & E). injection E2 as _ E2.
  apply bind_ret_inv in E as (v & g3 & E3 & [Hv E]%refuse_inv); [|done].
  apply negb_false_iff in Hv.
  destruct (decode_then _ _ _ _ _ _ _ (λ n, Metadata_fields_safe _ (g_realloc_safe g2) n) E3 Hv)
    as (g0 & md & Hg0 & Hd & Eg3).
  apply same_but_clock_fields in Hg0 as (Hhp & Hvp & Hdp & Hst & _ & _ & _ & Hph & Hm).
  apply bind_ret_inv in E as (md' & g4 & E4 & E). injection E4 as Emd <-.
  assert (md' = md) as -> by (by rewrite <- Emd, Eg3).
  apply bind_ret_inv in E as (u' & g5 & (e & Ee & Eg5)%in_hasher_inv & E).
  apply unless_hash_error_inv in E as [He E].
  apply bind_ret_inv in E as (u'' & g6 & E6 & E). injection E6 as _ Eg6.
  assert (Hf : g_metadata g6 = md ∧ g_partial_tx_hash g6 = g_partial_tx_hash g0 ∧
    hp_hasher (g_hp g6) = e_hw e ∧ g_recv_node_idx g6 = 0 ∧ g_store g6 = g_store g0 ∧
    g_vp g6 = g_vp g0 ∧ g_m_hash g6 = g_m_hash g0 ∧ g_dp g6 = g_dp g0).
  { rewrite <- Eg6, Eg5, Eg3. by split_and!. }
  assert (Hhe : hp_hash (g_hp g5) = e_hs e) by (by rewrite Eg5).
  exists g6. destruct Hf as (-> & -> & -> & -> & -> & -> & -> & ->).
  rewrite Hph, Hst, Hvp, Hm, Hdp. rewrite <- E2, Eg1. split_and!; try done.
  - eexists. split; [|exact (f_equal e_hw Ee)]. rewrite <- Ee, <- Hhe. exact He.
  - destruct (md_input_contracts_count md =? 0); [done|]. by injection E as <-.
Qed.

Lemma finalize_accepted g g' : process_prepared_tx_finalize g = (Ret 0, g') →
  g_state g = STATE_PARSED ∧
  g_m_hash g' = take 32 (finalize_hash (g_partial_tx_hash g)
                           (finalize_hash_metadata (hp_hasher (g_hp g)))) ∧
  dp_ready (g_dp g') ∧
  (g_clear_signing_available g' = true → g_clear_signing_available g = true ∧
     fst (values_can_clear_sign (g_store g)) = true ∧ same_screen (g_dp g) (g_dp g')).
Proof.
  unfold process_prepared_tx_finalize. intros (st & g1 & E1 & [Hst E]%refuse_inv)%bind_ret_inv; [|done].
  injection E1 as <- <-. apply negb_false_iff, bool_decide_eq_true in Hst.
  apply bind_ret_inv in E as (av & g1 & E1 & E). injection E1 as <- <-.
  apply bind_ret_inv in E as (u & g1 & E1 & E).
  assert (Hk : g_hp g1 = g_hp g ∧ g_partial_tx_hash g1 = g_partial_tx_hash g ∧
    (g_clear_signing_available g1 = true → g_clear_signing_available g = true ∧
     fst (values_can_clear_sign (g_store g)) = true ∧ same_screen (g_dp g) (g_dp g1))).
  { unfold bind in E1. destruct (g_clear_signing_available g) eqn:Ea.
    - destruct (values_can_clear_sign (g_store g)) as [[] s]; cbn in E1; injection E1 as _ <-;
        by split_and!.
    - injection E1 as _ <-. split_and!; try done. congruence. }
  destruct Hk as (Hh & Hp & Ha). clear E1.
  unfold bind, modify, on_display in E. injection E as <-. rewrite <- Hh, <- Hp.
  split_and!; try done.
Qed.

Lemma input_contract_part_accepted buf g g' : dp_ready (g_dp g) →
  input_contract_part buf g = (Ret 0, g') →
  ∃ l g1, contract_logged buf l ∧
    cl_opens l = negb (g_clear_signing_available g) && g_clear_signing_available g1 ∧
    hp_hasher (g_hp g1) = hp_hasher (g_hp g) ++ contract_bytes l ∧
    g_store g1 = foldl value_step (g_store g) (cl_values l) ∧
    g_recv_node_idx g1 = i32 (g_recv_node_idx g + 1) ∧ g_metadata g1 = g_metadata g ∧
    g_partial_tx_hash g1 = g_partial_tx_hash g ∧ g_tx_state g1 = g_tx_state g ∧
    g_vp g1 = g_vp g ∧ g_m_hash g1 = g_m_hash g ∧ dp_ready (g_dp g1) ∧
    (∀ s0 bufs cs evs, g_store g = value_run evs s0 → display_run s0 bufs cs evs (g_dp g) →
       display_run s0 bufs (cs ++ [buf]) (evs ++ cl_values l) (g_dp g1)) ∧
    (∀ before, screen_from before (g_dp g) → screen_from (before ++ cl_values l) (g_dp g1)) ∧
    if g_recv_node_idx g1 =? md_input_contracts_count (g_metadata g)
    then process_prepared_tx_finalize g1 = (Ret 0, g') else g' = g1.
Proof.
  intros Hdp. unfold input_contract_part.
  intros (v & g1 & E1 & [Hv E]%refuse_inv)%bind_ret_inv; [|done].
  apply negb_false_iff in Hv. destruct (in_hashing_inv _ _ _ _ E1 Hv) as ([] & h & _ & Eh & Eg1).
  apply unless_hash_error_inv in E as [Hok E].
  apply bind_ret_inv in E as (res & g2 & E2 & [Hres E]%refuse_inv); [|done].
  apply (in_display_parse buf) in E2 as (d & binds & Hd & Hb & Eg2 & Ep & Hsb & Hs);
    [|by rewrite Eg1|by right].
  apply bind_ret_inv in E as (idx & g3 & [-> Eg3]%next_index_inv & E).
  apply bind_ret_inv in E as (md & g4 & E4 & E). injection E4 as Emd <-.
  destruct (input_contract_effect _ _ _ Eh) as (_ & _ & (evs & Hev & Est) & t & Hh).
  exists {| cl_created_at := t; cl_hash := hw_finalize (hp_node_hw h);
    cl_opens := negb (g_clear_signing_available g) && dp_clear_signing_available d;
    cl_values := evs ++ binds |}, g3.
  assert (F : g_hp g3 = h ∧ g_dp g3 = d ∧ g_vp g3 = g_vp g ∧ g_metadata g3 = g_metadata g ∧
    g_recv_node_idx g3 = i32 (g_recv_node_idx g + 1) ∧ g_partial_tx_hash g3 = g_partial_tx_hash g ∧
    g_tx_state g3 = g_tx_state g ∧ g_m_hash g3 = g_m_hash g ∧
    g_store g3 = foldl value_step (g_store g) (evs ++ binds)).
  { rewrite Eg3, Eg2, Eg1. cbn in Est |- *. split_and!; try done. by rewrite foldl_app, Est. }
  assert (Hlast : if g_recv_node_idx g3 =? md_input_contracts_count (g_metadata g)
    then process_prepared_tx_finalize g3 = (Ret 0, g') else g' = g3).
  { destruct F as (_ & _ & _ & <- & _). rewrite Emd. revert E.
    replace (i32 (g_recv_node_idx g2 + 1)) with (g_recv_node_idx g3) by (by rewrite Eg3).
    destruct (g_recv_node_idx g3 =? md_input_contracts_count md); [done|]. by intros [= ->]. }
  destruct F as (F1 & F2 & F3 & F4 & F5 & F6 & F7 & F8 & F9). clear E.
  unfold g_clear_signing_available. rewrite F5 in Hlast. rewrite F1, F2, F3, F4, F5, F6, F7, F8, F9.
  rewrite Eg1 in Hs. split_and!; try exact Hlast; clear Hlast; cbn in Hs |- *; try done.
  - exists ((g_hp g) <| hp_clock := g_clock g |> <| hp_store := g_store g |>), h.
    split; [done|by rewrite Eg1 in Hok|done|done|]. cbn. apply Forall_app; split;
      eapply Forall_impl; [exact Hev| |exact Hb|]; by intros [].
  - intros s0 bufs cs before E0 Hrun. assert (E1' : g_store g1 = value_run (before ++ evs) s0).
    { rewrite Eg1. cbn in Est |- *. unfold value_run in *. by rewrite foldl_app, <- E0. }
    rewrite E1' in Ep, Hsb. eapply (run_contract s0 bufs cs before (g_dp g1)); [by rewrite Eg1| |exact Ep|exact Hsb].
    eapply Forall_impl; [exact Hev|by apply reported_not_bind].
  - intros before Hbefore. rewrite app_assoc. apply Hs, screen_from_skip; [|done].
    eapply Forall_impl; [exact Hev|by apply reported_not_bind].
Qed.
End Run.
