(* ===== verification/TxFlow.v ===== *)
(** * Whole transactions

    The parts of one transaction, from the reset of the modules to the hash that is signed.
    [receiving] is a transaction under way and [completed] one whose hash is ready; between
    two parts the APDU layer may change anything but what the parts built.  [tx_log] names
    what each part was, and [progress] ties it to the context after every part. *)

From S2P Require Import Prelude Constants Utils DisplayConfig Pb Wire Messages CanonicalHash.
From S2P Require Import TreeCheck ValuesCheck HashingParser HoldingParser DisplayParser Context.
From S2P Require Import Prepared PreparedRun.

(** What the parts of a transaction were. *)
Record tx_log := {
  tl_header_part : bytes; tl_tx : DamlTransaction;
  tl_node_parts : list bytes; tl_nodes : list node_log;
  tl_metadata_part : bytes; tl_metadata : Metadata;
  tl_contract_parts : list bytes; tl_contracts : list contract_log
}.

Definition tl_parts (t : tx_log) : list bytes :=
  tl_header_part t :: tl_node_parts t ++ tl_metadata_part t :: tl_contract_parts t.
Definition tl_values (t : tx_log) : list value_event := all_values (tl_nodes t) (tl_contracts t).
Definition tl_holdings (t : tx_log) : list written := holdings_written (tl_values t).
Definition opened_by_contract (t : tx_log) : Prop :=
  Exists (λ l, cl_opens l = true) (tl_contracts t).

Section Flow.
Context `{Sha256} `{Device} `{Screen}.

(** ** Runs *)

(** The state a signing flow starts from: the modules are reset and the clear signing flag
    is off. *)
Record ready_for_tx (g : context) : Prop := {
  rt_state : g_tx_state g = RECEIVING_DAML_TX_PART;
  rt_store : ∃ s, g_store g = values_check_reset s;
  rt_vp : vp_ready (g_vp g);
  rt_dp : dp_ready (g_dp g);
  rt_screen : fresh_display (g_dp g);
  rt_clear : g_clear_signing_available g = false;
  rt_hash : g_m_hash g = []
}.

(** What the APDU layer keeps between two parts. *)
Record between (g g' : context) : Prop := {
  bt_state : g_tx_state g' = g_tx_state g;
  bt_hp : g_hp g' = g_hp g;
  bt_vp : g_vp g' = g_vp g;
  bt_dp : g_dp g' = g_dp g;
  bt_store : g_store g' = g_store g;
  bt_metadata : g_metadata g' = g_metadata g;
  bt_tx_hash : g_partial_tx_hash g' = g_partial_tx_hash g;
  bt_idx : g_recv_node_idx g' = g_recv_node_idx g;
  bt_hash : g_m_hash g' = g_m_hash g
}.

Inductive receiving : list bytes → context → Prop :=
  | receiving_start g : ready_for_tx g → receiving [] g
  | receiving_part bufs buf g g1 g2 : receiving bufs g → between g g1 →
      process_prepared_tx_part buf g1 = (Ret 0, g2) → g_m_hash g2 = [] →
      receiving (bufs ++ [buf]) g2.
Inductive completed : list bytes → context → Prop :=
  | completed_part bufs buf g g1 g2 : receiving bufs g → between g g1 →
      process_prepared_tx_part buf g1 = (Ret 0, g2) → g_m_hash g2 ≠ [] →
      completed (bufs ++ [buf]) g2.

(** ** The invariant *)

(** What the checks and the screen know after the calls [evs], and the parts the display
    parser was run over. *)
Record flow (nodes contracts : list bytes) (evs : list value_event) (g : context) : Prop := {
  fl_run : ∃ s, g_store g = value_run evs s ∧ display_run s nodes contracts evs (g_dp g);
  fl_vp : vp_ready (g_vp g);
  fl_dp : dp_ready (g_dp g);
  fl_screen : screen_from evs (g_dp g)
}.

(** The header and the nodes. *)
Definition tree_of (mem : bool) (t : tx_log) (c : tree_check_context_t) : tree_check_context_t :=
  tree_run mem (tx_roots (tl_tx t)) (tx_nodes_count (tl_tx t)) (map nl_event (tl_nodes t)) c.
Record nodes_read (t : tx_log) : Prop := {
  nr_header : decodes DamlTransaction_fields DamlTransaction_zero (tl_header_part t) (tl_tx t);
  nr_nodes : ∃ h, node_chain (tl_tx t) (tl_node_parts t) (tl_nodes t) h
}.
Definition tx_bytes (t : tx_log) (w : bytes) : Prop :=
  ∃ h, header_bytes (tl_tx t) h ∧ w = h ++ flat_map root_bytes (tl_nodes t).

Record in_nodes (t : tx_log) (g : context) : Prop := {
  in_header : decodes DamlTransaction_fields DamlTransaction_zero (tl_header_part t) (tl_tx t);
  in_chain : node_chain (tl_tx t) (tl_node_parts t) (tl_nodes t) (hp_hash (g_hp g));
  in_tx : the_daml_transaction g = tl_tx t;
  in_idx : g_recv_node_idx g = i32 (Z.of_nat (length (tl_nodes t)));
  in_hashed : tx_bytes t (hp_hasher (g_hp g));
  in_tree : ∃ mem c, hp_tree (g_hp g) = tree_of mem t c;
  in_flow : flow (tl_node_parts t) [] (flat_map nl_values (tl_nodes t)) g
}.

(** The metadata and the disclosed contracts. *)
Definition md_bytes (t : tx_log) (w : bytes) : Prop :=
  ∃ h, metadata_bytes (tl_metadata t) h ∧ w = h ++ flat_map contract_bytes (tl_contracts t).
Definition all_nodes_arrived (t : tx_log) : Prop :=
  i32 (Z.of_nat (length (tl_nodes t))) = tx_nodes_count (tl_tx t).
(** A verdict that refuses the transaction was not reached, and one that is not [TREE_OK]
    turned off what the nodes had turned on. *)
Definition judged (t : tx_log) (clear : bool) : Prop :=
  ∃ mem c, let err := fst (tree_verify_complete (tree_of mem t c)) in
    tree_error_is_impossible err = false ∧
    (clear = true → err = TREE_OK ∨ opened_by_contract t).

Record contracts_read (t : tx_log) : Prop := {
  cr_nodes : nodes_read t;
  cr_count : all_nodes_arrived t;
  cr_metadata : decodes Metadata_fields Metadata_zero (tl_metadata_part t) (tl_metadata t);
  cr_contracts : Forall2 contract_logged (tl_contract_parts t) (tl_contracts t)
}.
Record in_contracts (t : tx_log) (g : context) : Prop := {
  ic_read : contracts_read t;
  ic_judged : judged t (g_clear_signing_available g);
  ic_tx_hash : ∃ w, tx_bytes t w ∧ g_partial_tx_hash g = finalize_hash_transaction w;
  ic_metadata : g_metadata g = tl_metadata t;
  ic_hashed : md_bytes t (hp_hasher (g_hp g));
  ic_idx : g_recv_node_idx g = i32 (Z.of_nat (length (tl_contracts t)));
  ic_flow : flow (tl_node_parts t) (tl_contract_parts t) (tl_values t) g
}.

Lemma in_read t g : in_nodes t g → nodes_read t.
Proof. intros [Hh Hc _ _ _ _ _]. by split; [|exists (hp_hash (g_hp g))]. Qed.

Definition no_metadata (hdr : bytes) (tx : DamlTransaction) (bufs : list bytes)
    (nodes : list node_log) : tx_log :=
  {| tl_header_part := hdr; tl_tx := tx; tl_node_parts := bufs; tl_nodes := nodes;
     tl_metadata_part := []; tl_metadata := Metadata_zero; tl_contract_parts := [];
     tl_contracts := [] |}.

Definition progress (bufs : list bytes) (g : context) : Prop :=
  match g_tx_state g with
  | RECEIVING_DAML_TX_PART =>
      bufs = [] ∧ flow [] [] [] g ∧ g_clear_signing_available g = false
  | RECEIVING_DAML_NODES => ∃ hdr tx nbufs nodes, bufs = hdr :: nbufs ∧
      in_nodes (no_metadata hdr tx nbufs nodes) g
  | RECEIVING_METADATA => ∃ hdr tx nbufs nodes, bufs = hdr :: nbufs ∧
      in_nodes (no_metadata hdr tx nbufs nodes) g ∧
      all_nodes_arrived (no_metadata hdr tx nbufs nodes)
  | RECEIVING_METADATA_INPUT_CONTRACTS => ∃ t, bufs = tl_parts t ∧ in_contracts t g
  end.

(** A transaction whose hash is [hash]. *)
Record hashed (t : tx_log) (hash : bytes) : Prop := {
  ha_read : contracts_read t;
  ha_count : i32 (Z.of_nat (length (tl_contracts t))) = md_input_contracts_count (tl_metadata t);
  ha_hash : ∃ w1 w2, tx_bytes t w1 ∧ md_bytes t w2 ∧
    hash = take 32 (finalize_hash (finalize_hash_transaction w1) (finalize_hash_metadata w2))
}.
(** What a screen that is still on at the end rests on: [d] is the state of the display parser
    that holds it. *)
Record clear_signed (t : tx_log) (d : dp_state) : Prop := {
  cs_judged : judged t true;
  cs_screen : bound_screen (tl_values t) (dp_pairs d);
  cs_run : ∃ s d0, fst (values_can_clear_sign (value_run (tl_values t) s)) = true ∧
    display_run s (tl_node_parts t) (tl_contract_parts t) (tl_values t) d0 ∧
    dp_clear_signing_available d0 = true ∧ same_screen d0 d
}.
Definition finished (bufs : list bytes) (g : context) : Prop :=
  ∃ t, bufs = tl_parts t ∧ hashed t (g_m_hash g) ∧
    (g_clear_signing_available g = true → clear_signed t (g_dp g)).

(** ** Every part keeps it *)

Lemma flow_same nodes contracts evs g g' : g_store g' = g_store g → g_vp g' = g_vp g → g_dp g' = g_dp g →
  flow nodes contracts evs g → flow nodes contracts evs g'.
Proof. intros Es Ev Ed []. split; by rewrite ?Es, ?Ev, ?Ed. Qed.

(** A run of the store goes on. *)
Lemma value_run_more evs evs' s g :
  g_store g = value_run evs s → foldl value_step (g_store g) evs' = value_run (evs ++ evs') s.
Proof. intros ->. unfold value_run. by rewrite foldl_app. Qed.

Lemma between_progress bufs g g' : between g g' → progress bufs g → progress bufs g'.
Proof.
  intros [Bs Bh Bv Bd Bst Bm Bt Bi _]. unfold progress. rewrite Bs.
  assert (Hn : ∀ t, in_nodes t g → in_nodes t g').
  { intros t [R C T I Hh Tr F]. split; unfold the_daml_transaction in *; rewrite ?Bh, ?Bi; try done.
    by apply (flow_same _ _ _ g). }
  destruct (g_tx_state g).
  - intros (-> & F & C). unfold g_clear_signing_available in *. rewrite Bd. split_and!; try done.
    by apply (flow_same _ _ _ g).
  - intros (hdr & tx & nb & ns & E & I). exists hdr, tx, nb, ns. auto.
  - intros (hdr & tx & nb & ns & E & I & A). exists hdr, tx, nb, ns. auto.
  - intros (t & -> & [R J T M Hh I F]). exists t. split; [done|].
    split; unfold g_clear_signing_available in *; rewrite ?Bd, ?Bt, ?Bm, ?Bh, ?Bi; try done.
    by apply (flow_same _ _ _ g).
Qed.

Lemma header_progress buf g g' : flow [] [] [] g → g_clear_signing_available g = false →
  daml_tx_part buf g = (Ret 0, g') → g_m_hash g' = g_m_hash g ∧ progress [buf] g'.
Proof.
  intros F C (mem & c & Hd & Hw & Ht & Hc & Hi & Hs & Est & Edp & Evp & Hm)%daml_tx_part_accepted.
  split; [done|]. set (tx := the_daml_transaction g') in *.
  assert (I : in_nodes (no_metadata buf tx [] []) g').
  { split; try done.
    - exists (hp_hasher (g_hp g')). by rewrite app_nil_r.
    - by exists mem, c.
    - by apply (flow_same _ _ _ g). }
  unfold progress. rewrite Hs. destruct (Z.eqb_spec (tx_nodes_count tx) 0) as [E|E].
  - exists buf, tx, [], []. split_and!; try done.
  - by exists buf, tx, [], [].
Qed.

Lemma i32_next n : i32 (i32 (Z.of_nat n) + 1) = i32 (Z.of_nat (S n)).
Proof.
  unfold i32. rewrite Nat2Z.inj_succ. generalize (Z.of_nat n). intros z.
  Z.to_euclidean_division_equations. lia.
Qed.

Lemma node_progress hdr tx nbufs nodes buf g g' :
  g_tx_state g = RECEIVING_DAML_NODES → in_nodes (no_metadata hdr tx nbufs nodes) g →
  node_part buf g = (Ret 0, g') →
  g_m_hash g' = g_m_hash g ∧ progress (hdr :: nbufs ++ [buf]) g'.
Proof.
  intros Hst [Rh Rn T I (w & Hw & Hh) (mem & c & Tr) [(s & Fs & Fr) Fv Fd Fsc]] E.
  destruct (node_part_accepted buf g g' Fv Fd E) as
    (l & s0 & Hl & Es0 & Et0 & Et & Eh & Es & Etx & Ei & Ets & Hv & Hd & Hm & Hrun & Hsc).
  split; [done|]. cbn in *.
  assert (I' : in_nodes (no_metadata hdr tx (nbufs ++ [buf]) (nodes ++ [l])) g').
  { split; cbn.
    - done.
    - apply (chain_node _ _ _ _ _ s0 _ s); [by rewrite Es0|by rewrite Et0|by unfold value_run; rewrite <- Fs].
    - by rewrite Etx.
    - rewrite Ei, I, i32_next, length_app. do 2 f_equal. cbn. lia.
    - exists w. split; [done|]. cbn. rewrite Eh, Hh, flat_map_app, app_assoc. cbn. by rewrite app_nil_r.
    - exists mem, c. unfold tree_of, tree_run in *; cbn in *. by rewrite map_app, foldl_app, Et, Tr.
    - rewrite flat_map_app. cbn. rewrite app_nil_r. split; [|done|done|by apply Hsc].
      exists s. rewrite Es. split; [by apply value_run_more|by apply Hrun]. }
  unfold progress. rewrite Ets, T.
  destruct (Z.eqb_spec (g_recv_node_idx g') (tx_nodes_count tx)) as [E1|E1].
  - exists hdr, tx, (nbufs ++ [buf]), (nodes ++ [l]). split_and!; try done.
    unfold all_nodes_arrived. cbn. rewrite <- E1. symmetry. apply I'.
  - rewrite Hst. by exists hdr, tx, (nbufs ++ [buf]), (nodes ++ [l]).
Qed.

(** What a finished transaction is worth: the last part was accepted in [g], whose nodes
    and contracts are those of [t]. *)
Lemma finalize_finished t bufs g g' : in_contracts t g → bufs = tl_parts t →
  i32 (Z.of_nat (length (tl_contracts t))) = md_input_contracts_count (tl_metadata t) →
  process_prepared_tx_finalize g = (Ret 0, g') → finished bufs g'.
Proof.
  intros [R J (w & Hw & Et) M Hh I [(s & Fs & Fr) Fv Fd Fsc]] -> Hc E.
  destruct (finalize_accepted g g' E) as (_ & Ehash & _ & Hclear).
  exists t. split; [done|]. split.
  - split; [done|done|]. exists w, (hp_hasher (g_hp g)). split_and!; [done|done|]. by rewrite Ehash, Et.
  - intros Ha. destruct (Hclear Ha) as (Hav & Hval & Hsame). split.
    + by rewrite Hav in J.
    + rewrite (proj1 Hsame). by apply Fsc.
    + exists s, (g_dp g). by rewrite <- Fs.
Qed.

Lemma after_verdict_ready err d : dp_ready d → dp_ready (after_verdict err d).
Proof. intros Hd. unfold after_verdict. case_decide; [done|]. by apply (same_ready d). Qed.

Lemma metadata_progress hdr tx nbufs nodes buf g g' :
  in_nodes (no_metadata hdr tx nbufs nodes) g →
  all_nodes_arrived (no_metadata hdr tx nbufs nodes) →
  metadata_part buf g = (Ret 0, g') →
  let bufs := hdr :: nbufs ++ [buf] in
  (g_m_hash g' = g_m_hash g ∧ progress bufs g') ∨ finished bufs g'.
Proof.
  intros Hin A. pose proof (in_read _ _ Hin) as R.
  destruct Hin as [_ _ T I (w & Hw & Hh) (mem & c & Tr) [(s & Fs & Fr) Fv Fd Fsc]].
  intros (g1 & Hok & Hd & Eph & Hmd & Ei & Es & Ev & Em & Edp & E)%metadata_part_accepted bufs.
  set (err := fst _) in *.
  set (t := {| tl_header_part := hdr; tl_tx := tx; tl_node_parts := nbufs; tl_nodes := nodes;
    tl_metadata_part := buf; tl_metadata := g_metadata g1; tl_contract_parts := [];
    tl_contracts := [] |}).
  assert (I1 : in_contracts t g1).
  { split.
    - split; try done. destruct R; by split.
    - exists mem, c. unfold err in *. rewrite Tr in *. split; [done|].
      unfold g_clear_signing_available. rewrite Edp. unfold after_verdict.
      case_decide; [by left|done].
    - exists (hp_hasher (g_hp g)). split; [by exists w|done].
    - done.
    - exists (hp_hasher (g_hp g1)). by rewrite app_nil_r.
    - done.
    - unfold tl_values, all_values. cbn. rewrite app_nil_r. cbn in Fs, Fsc. split.
      + exists s. rewrite Es, Edp. split; [done|].
        unfold after_verdict. case_decide; [done|by apply run_dropped].
      + by rewrite Ev.
      + rewrite Edp. by apply after_verdict_ready.
      + rewrite Edp. unfold after_verdict. case_decide; [done|]. unfold screen_from. done. }
  destruct (Z.eqb_spec (md_input_contracts_count (g_metadata g1)) 0) as [E0|E0].
  - right. by apply (finalize_finished t bufs g1).
  - left. subst g'. split; [done|]. unfold progress. cbn [g_tx_state update_field].
    exists t. split; [done|]. destruct I1 as [? ? ? ? ? ? []]. by split.
Qed.

(** One more contract. *)
Definition with_contract (t : tx_log) (buf : bytes) (l : contract_log) : tx_log :=
  {| tl_header_part := tl_header_part t; tl_tx := tl_tx t; tl_node_parts := tl_node_parts t;
     tl_nodes := tl_nodes t; tl_metadata_part := tl_metadata_part t; tl_metadata := tl_metadata t;
     tl_contract_parts := tl_contract_parts t ++ [buf]; tl_contracts := tl_contracts t ++ [l] |}.

Lemma contract_progress t buf g g' : g_tx_state g = RECEIVING_METADATA_INPUT_CONTRACTS →
  in_contracts t g → input_contract_part buf g = (Ret 0, g') →
  let bufs := tl_parts t ++ [buf] in
  (g_m_hash g' = g_m_hash g ∧ progress bufs g') ∨ finished bufs g'.
Proof.
  intros Hst [R J (w & Hw & Et) M (w2 & Hw2 & Hh) I [(s & Fs & Fr) Fv Fd Fsc]].
  intros (l & g1 & Hl & Ho & Eh & Es & Ei & Em & Eph & Ets & Ev & Ehash & Hd & Hrun & Hsc & E)%input_contract_part_accepted bufs;
    [|done].
  set (t' := with_contract t buf l).
  assert (Hparts : bufs = tl_parts t').
  { unfold bufs, tl_parts. cbn. by rewrite <- app_assoc. }
  assert (I1 : in_contracts t' g1).
  { split.
    - destruct R as [Rn Rc Rm Rl]. split; [by destruct Rn|done|done|].
      cbn. by apply Forall2_app; [|constructor].
    - destruct J as (mem & c & Hok & Hcl). exists mem, c. split; [done|]. intros Ha.
      rewrite Ha in Ho. destruct (g_clear_signing_available g).
      + destruct (Hcl eq_refl) as [?|Hop]; [by left|right]. apply Exists_app. by left.
      + right. apply Exists_app. right. by constructor.
    - exists w. by rewrite Eph.
    - by rewrite Em.
    - exists w2. cbn. rewrite Eh, Hh, flat_map_app, app_assoc. cbn. by rewrite app_nil_r.
    - rewrite Ei, I, i32_next. cbn. rewrite length_app. do 2 f_equal. cbn. lia.
    - unfold tl_values, all_values in *. cbn. rewrite flat_map_app, app_assoc. cbn. rewrite app_nil_r.
      split; [|by rewrite Ev|done|by apply Hsc].
      exists s. rewrite Es. split; [by apply value_run_more|by apply Hrun]. }
  destruct (Z.eqb_spec (g_recv_node_idx g1) (md_input_contracts_count (g_metadata g))) as [E0|E0].
  - right. apply (finalize_finished t' bufs g1); try done. rewrite <- (ic_idx _ _ I1), E0. by rewrite M.
  - left. subst g'. split; [done|]. unfold progress. rewrite Ets, Hst. by exists t'.
Qed.

Lemma part_progress bufs buf g g' : progress bufs g →
  process_prepared_tx_part buf g = (Ret 0, g') →
  (g_m_hash g' = g_m_hash g ∧ progress (bufs ++ [buf]) g') ∨ finished (bufs ++ [buf]) g'.
Proof.
  intros Hp E. unfold process_prepared_tx_part, bind, gets in E. unfold progress in Hp.
  destruct (g_tx_state g) eqn:Hst.
  - destruct Hp as (-> & F & C). left. by apply (header_progress buf g).
  - destruct Hp as (hdr & tx & nb & ns & -> & I). left. by apply (node_progress hdr tx nb ns buf g).
  - destruct Hp as (hdr & tx & nb & ns & -> & I & A). by apply (metadata_progress hdr tx nb ns buf g).
  - destruct Hp as (t & -> & I). by apply (contract_progress t buf g).
Qed.

Context `{!Sha256Len}.

Lemma finished_hash bufs g : finished bufs g → g_m_hash g ≠ [].
Proof.
  intros (t & _ & [_ _ (w1 & w2 & _ & _ & Eh)] & _) E. rewrite E in Eh.
  apply (f_equal length) in Eh. rewrite length_take in Eh. unfold finalize_hash, hw_finalize in Eh.
  rewrite sha256_length in Eh. discriminate.
Qed.

Lemma receiving_progress bufs g : receiving bufs g → g_m_hash g = [] ∧ progress bufs g.
Proof.
  induction 1 as [g [S [s St] V D Fr C Hh]|bufs buf g g1 g2 _ [IHh IH] B E Hh].
  - split; [done|]. unfold progress. rewrite S. split_and!; try done. split; try done.
    + exists (g_store g). split; [done|by apply run_fresh].
    + unfold screen_from. unfold g_clear_signing_available in C. congruence.
  - split; [done|]. apply (between_progress _ _ g1 B) in IH.
    destruct (part_progress bufs buf g1 g2 IH E) as [[_ ?]|Hf]; [done|]. by apply finished_hash in Hf.
Qed.

Lemma completed_finished bufs g : completed bufs g → finished bufs g.
Proof.
  intros [b buf g0 g1 g2 [Hh Hp]%receiving_progress B E Hne].
  apply (between_progress _ _ g1 B) in Hp.
  destruct (part_progress b buf g1 g2 Hp E) as [[Hs _]|Hf]; [|done].
  by rewrite Hs, (bt_hash _ _ B), Hh in Hne.
Qed.

(** ** What the signature covers and what the user saw *)

(** C12: The hash of a completed transaction is the hash of its parts: the parts received
    are one header, one node part for each node announced, the metadata, and one part for
    each contract announced, in that order; and the hash is that of the header followed by
    the root hashes, combined with that of the metadata followed by the time and hash of
    each contract. *)
Theorem signed_hash_is_over_the_parts bufs g : completed bufs g →
  ∃ t, bufs = tl_parts t ∧ hashed t (g_m_hash g).
Proof. intros (t & E & Hh & _)%completed_finished. by exists t. Qed.

(** The node tree of the transaction, as the check sees it. *)
Definition one_tree (t : tx_log) : Prop :=
  ∃ root, tx_roots (tl_tx t) = [root] ∧ tx_nodes_count (tl_tx t) ≤ MAX_TX_NODES ∧
    tree_valid (tx_nodes_count (tl_tx t)) (node_id_from_str root) (map nl_event (tl_nodes t)).

Lemma judged_tree t : judged t true → one_tree t ∨ opened_by_contract t.
Proof.
  intros (mem & c & _ & Hj). destruct (Hj eq_refl) as [Hok|Ho]; [left|by right].
  by apply tree_accepted_inv in Hok.
Qed.

(** The lines on screen, the configuration they are for, and what they say of the holdings
    [ws] that are written. *)
Definition screen_is_true (ws : list written) (pairs : option (list nbgl_contentTagValue_t)) : Prop :=
  ∃ conf fields fields', conf ∈ DISPLAY_CONFIGS ∧
    Forall2 (λ c f, tf_display f = true ∧
      (tf_config f = Some c ∨ tf_config f = Some PREAPPROVAL_ASSET_FIELD)) (dc_fields conf) fields ∧
    Forall2 (shown_field fields) fields fields' ∧ pairs = Some (omap shown_pair fields') ∧
    screen_says ws fields (dc_destination conf) (dc_amount_check conf).

Lemma events_true evs s pairs : fst (values_can_clear_sign (value_run evs s)) = true →
  bound_screen evs pairs → screen_is_true (holdings_written evs) pairs.
Proof.
  intros Hv (conf & f & f' & Hin & Hf & Hl & Hsh & Hp).
  exists conf, f, f'. split_and!; try done. by apply (verdict_says _ evs s).
Qed.
Lemma clear_signed_true t d : clear_signed t d → screen_is_true (tl_holdings t) (dp_pairs d).
Proof. intros [_ Hb (s & _ & Hv & _)]. by apply (events_true _ s). Qed.

(** C1: What a clear-signed transaction means, end to end.  When a transaction is completed
    with clear signing still on, its nodes form one tree under the announced root, unless
    the screen was only opened by a disclosed contract; the lines on screen are those of
    one configuration of the table, each from the value of the transaction it names; and
    those values are true of everything the nodes wrote: nothing is moved behind a screen
    that moves nothing, and otherwise every holding written belongs to the accounts shown,
    with the shown amount, admin and instrument, unless SHA-256 collides on the texts
    compared. *)
Theorem clear_signed_transaction_is_true bufs g : completed bufs g →
  g_clear_signing_available g = true →
  ∃ t, bufs = tl_parts t ∧ hashed t (g_m_hash g) ∧
    (one_tree t ∨ opened_by_contract t) ∧ screen_is_true (tl_holdings t) (dp_pairs (g_dp g)).
Proof.
  intros (t & E & Hh & Hcl)%completed_finished Ha. specialize (Hcl Ha). exists t.
  split_and!; [done|done|apply judged_tree, Hcl|by apply clear_signed_true].
Qed.
End Flow.
