(* ===== verification/TxSamples.v ===== *)
(** * Sample transactions

    Two whole transactions on the wire.  The first is a pre-approval, which moves nothing:
    one node, shown and signed.  The second shows what the tree check does not stop: a
    transaction whose root says nothing to the user, with an orphan node whose screen is put
    off to a disclosed contract. *)

From S2P Require Import Prelude Constants Utils DisplayConfig Pb Wire Messages CanonicalHash.
From S2P Require Import TreeCheck ValuesCheck HashingParser HoldingParser DisplayParser Context.
From S2P Require Import Prepared PreparedRun TxFlow.

Section Feed.
Context `{Sha256} `{Device} `{Screen}.

(** Parts that leave the transaction unfinished. *)
Fixpoint feed (bufs : list bytes) (g : context) : option context :=
  match bufs with
  | [] => Some g
  | buf :: bufs =>
      match process_prepared_tx_part buf g with
      | (Ret r, g') => if (r =? 0) && bool_decide (g_m_hash g' = []) then feed bufs g' else None
      | _ => None
      end
  end.

Lemma between_refl g : between g g.
Proof. by split. Qed.
Lemma feed_receiving bufs g' : ∀ before g, receiving before g → feed bufs g = Some g' →
  receiving (before ++ bufs) g'.
Proof.
  induction bufs as [|buf bufs IH]; intros before g Hr; cbn [feed].
  { intros [= <-]. by rewrite app_nil_r. }
  destruct (process_prepared_tx_part buf g) as [[r| | |] g1] eqn:E1; try done.
  destruct (Z.eqb_spec r 0) as [->|]; [cbn [andb]|done]. case_bool_decide as Eh; [|done]. intros E.
  rewrite cons_middle, app_assoc. apply (IH _ g1); [|done].
  by apply (receiving_part before buf g g g1); [|apply between_refl|..].
Qed.

(** The state a signing request starts from when nothing was signed before, already marked
    as in its last chunk. *)
Definition start_context : context :=
  (snd (clean_context boot)) <| g_state := STATE_PARSED |>.

Lemma start_ready : ready_for_tx start_context.
Proof.
  split; try done.
  - by exists store_zero.
  - split; try done; [cbn; unfold MAX_LABEL_PATH_LEN; lia|by exists []].
Qed.

Lemma feed_completed bufs buf g g' : feed bufs start_context = Some g →
  process_prepared_tx_part buf g = (Ret 0, g') → g_m_hash g' ≠ [] → completed (bufs ++ [buf]) g'.
Proof.
  intros Hf E Hh. apply (completed_part _ _ g g); [|apply between_refl|done|done].
  by apply (feed_receiving bufs g [] start_context); [constructor; apply start_ready|].
Qed.
End Feed.

(** ** Parts *)

Definition wire_id (m e : string) : bytes :=
  wire_string 1 "pkg" ++ wire_string 2 m ++ wire_string 3 e.
Definition wire_header (root : string) (count : Z) (seeds : list Z) : bytes :=
  wire_string 1 "2.1" ++ wire_string 2 root ++ wire_varint 3 count ++
  flat_map (λ i, wire_bytes 4 (wire_varint 1 i ++ wire_bytes 2 (replicate SHA256_HASH_LEN 5))) seeds.
Definition wire_md (contracts : Z) : bytes :=
  wire_bytes 2 (wire_string 1 "alice" ++ wire_string 2 "cmd") ++ wire_string 3 "sync" ++
  wire_varint 4 1 ++ wire_string 5 "uuid" ++ wire_varint 6 1000 ++ wire_varint 7 contracts.
Definition wire_created (contract m e : string) (argument : bytes) : bytes :=
  wire_string 1 "2.1" ++ wire_string 2 contract ++ wire_string 3 "splice" ++
  wire_bytes 4 (wire_id m e) ++ wire_bytes 5 argument ++ wire_string 6 "alice" ++
  wire_string 7 "alice".
Definition wire_exercised (contract m e choice : string) (argument : bytes) : bytes :=
  wire_string 1 "2.1" ++ wire_string 2 contract ++ wire_string 3 "splice" ++
  wire_bytes 4 (wire_id m e) ++ wire_string 9 choice ++ wire_bytes 10 argument ++
  wire_bytes 13 (wire_bytes VALUE_UNIT_TAG []).
Definition node_create (id : string) (create : bytes) : bytes :=
  wire_string 1 id ++ wire_bytes NODE_V1_TAG (wire_bytes NODE_V1_CREATE_TAG create).
Definition node_exercise (id : string) (exercise : bytes) : bytes :=
  wire_string 1 id ++ wire_bytes NODE_V1_TAG (wire_bytes NODE_V1_EXERCISE_TAG exercise).
(** A record of a named type. *)
Definition wire_typed (m e : string) (fields : bytes) : bytes :=
  wire_record (wire_bytes 1 (wire_id m e) ++ fields).

Abbreviation toy_feed := (@feed toy_sha roomy toy_screen).
Abbreviation toy_part := (@process_prepared_tx_part toy_sha roomy toy_screen).
Abbreviation toy_start := start_context.

Definition shown_pairs (g : context) : list (bytes * bytes) :=
  map (λ p, (item p, value p)) (default [] (dp_pairs (g_dp g))).

(** ** A pre-approval *)

Definition preapproval : string := "Splice.Wallet.TransferPreapproval".
Definition sample_parts : list bytes :=
  [wire_header "0" 1 [0];
   node_create "0" (wire_created "00ab" preapproval "TransferPreapprovalProposal"
     (wire_typed preapproval "TransferPreapprovalProposal"
       (wire_field "receiver" (wire_party "alice") ++ wire_field "provider" (wire_party "val"))))].
Definition sample_last : bytes := wire_md 0.

Definition sample_done := match toy_feed sample_parts toy_start with
  | Some g => toy_part sample_last g | None => (NoFuel, toy_start) end.

(** ** An orphan behind a clear screen *)

Definition dso : string :=
  "DSO::1220b1431ef217342db44d516bb9befde802be7d8899637d290895fa58880f19accc".
Definition transfer_instruction : string := "Splice.AmuletTransferInstruction".
(** The offer that is rejected: its record is what the screen shows. *)
Definition wire_offer : bytes := wire_typed transfer_instruction "AmuletTransferInstruction"
  (wire_field "transfer" (wire_record
    (wire_field "sender" (wire_party "alice") ++ wire_field "receiver" (wire_party "bob") ++
     wire_field "amount" (wire_numeric "1.0") ++
     wire_field "instrumentId" (wire_record
       (wire_field "admin" (wire_party dso) ++
        wire_field "id" (wire_string VALUE_TEXT_TAG "Amulet"))) ++
     wire_field "executeBefore" (wire_key VALUE_TIMESTAMP_TAG 1 ++ [0; 0; 0; 1; 0; 0; 0; 0])))).
Definition reject_record : bytes :=
  wire_typed "Splice.Api.Token.TransferInstructionV1" "TransferInstruction_Reject"
    (wire_field "actor" (wire_party "bob")).
(** Nodes 2 and 1 belong to nobody; the root, node 0, exercises a choice that no screen
    knows. *)
Definition orphan_parts : list bytes :=
  [wire_header "0" 3 [0; 1; 2];
   node_create "2" (wire_created "00a2" "Splice.Amulet" "Amulet" (wire_record
     (wire_field "dso" (wire_party dso) ++ wire_field "owner" (wire_party "alice") ++
      wire_field "amount" (wire_record (wire_field "initialAmount" (wire_numeric "1.0"))))));
   node_exercise "1" (wire_exercised "00c1" transfer_instruction "AmuletTransferInstruction"
     "TransferInstruction_Reject" reject_record);
   node_exercise "0" (wire_exercised "00d0" "Evil.Module" "Vault" "Drain"
     (wire_bytes VALUE_UNIT_TAG []));
   wire_md 1].
Definition orphan_contract : bytes :=
  wire_bytes 1 (wire_created "00c1" transfer_instruction "AmuletTransferInstruction" wire_offer) ++
  wire_varint 1000 7.
Definition orphan_done := match toy_feed orphan_parts toy_start with
  | Some g => toy_part orphan_contract g | None => (NoFuel, toy_start) end.

#[export] Instance toy_sha_len : @Sha256Len toy_sha.
Proof. intros m. unfold sha256, toy_sha. rewrite length_take, length_app, length_replicate. lia. Qed.

Definition sample_end : context := Eval vm_compute in snd sample_done.
Definition sample_before : context :=
  Eval vm_compute in default toy_start (toy_feed sample_parts toy_start).
Lemma sample_before_eq : toy_feed sample_parts toy_start = Some sample_before.
Proof. vm_compute. reflexivity. Qed.
Lemma sample_end_eq : toy_part sample_last sample_before = (Ret 0, sample_end).
Proof. vm_compute. reflexivity. Qed.
Lemma sample_completed :
  @completed toy_sha roomy toy_screen (sample_parts ++ [sample_last]) sample_end.
Proof. by apply (feed_completed _ _ sample_before); [apply sample_before_eq|apply sample_end_eq|]. Qed.

Lemma signed_hash_is_over_the_parts_witness :
  ∃ t, sample_parts ++ [sample_last] = tl_parts t ∧
    @hashed toy_sha roomy t (g_m_hash sample_end).
Proof.
  exact (@signed_hash_is_over_the_parts toy_sha roomy toy_screen toy_sha_len _ _ sample_completed).
Defined.

Lemma clear_signed_transaction_is_true_witness :
  ∃ t, sample_parts ++ [sample_last] = tl_parts t ∧
    @hashed toy_sha roomy t (g_m_hash sample_end) ∧
    (one_tree t ∨ opened_by_contract t) ∧
    @screen_is_true toy_sha toy_screen (tl_holdings t) (dp_pairs (g_dp sample_end)).
Proof.
  exact (@clear_signed_transaction_is_true toy_sha roomy toy_screen toy_sha_len _ _ sample_completed
    eq_refl).
Defined.

(** The pre-approval is shown as it is written. *)
Example preapproval_is_shown : dp_pairs (g_dp sample_end) = Some
  [line "Pre-approve for account" "alice"; line "For asset" "Canton Coin (CC)";
   line "By validator" "val"].
Proof. reflexivity. Qed.

(** The transaction completes with clear signing on and the lines of the orphan on screen,
    although the verdict of the tree check was that a node has no parent: the fall back to
    blind signing came before the disclosed contract opened the screen. *)
Theorem orphan_is_clear_signed :
  completed (H := toy_sha) (H0 := roomy) (H1 := toy_screen)
    (orphan_parts ++ [orphan_contract]) (snd orphan_done) ∧
  tc_err (hp_tree (g_hp (snd orphan_done))) = TREE_ERR_ORPHAN_NODE ∧
  g_clear_signing_available (snd orphan_done) = true ∧
  dp_pairs (g_dp (snd orphan_done)) = Some
    [line "From" "alice"; line "Amount" "1 CC"; line "To" "bob";
     {| item := lit "Expiration time";
        value := lit "1970-01-01" ++ [10] ++ lit "12:00:16 AM UTC" |}].
Proof.
  split; [|vm_compute; auto].
  destruct (toy_feed orphan_parts toy_start) as [g|] eqn:E; [|vm_compute in E; discriminate].
  assert (E' : toy_part orphan_contract g = (Ret 0, snd orphan_done)).
  { unfold orphan_done. rewrite E. assert (Hr : fst (match toy_feed orphan_parts toy_start with
      | Some g => toy_part orphan_contract g | None => (NoFuel, toy_start) end) = Ret 0)
      by (vm_compute; reflexivity).
    rewrite E in Hr. by destruct (toy_part orphan_contract g) as [o g']; cbn in Hr |- *; subst. }
  apply (feed_completed _ _ g); [done|done|]. unfold orphan_done. vm_compute. discriminate.
Qed.
