(* ===== verification/TxHash.v ===== *)
(** * What the signed hash commits to

    The hash of a completed transaction ([TxFlow.hashed]) is injective, up to a collision
    of SHA-256 on the four texts it is made of: two transactions with one hash have the same
    version, root hashes, metadata and disclosed contracts. *)

From S2P Require Import Prelude Constants Utils Pb Messages CanonicalHash.
From S2P Require Import TreeCheck ValuesCheck HashingParser HoldingParser DisplayParser Context.
From S2P Require Import Prepared PreparedRun TxFlow TxSamples.

(** ** Lists of blocks of one length *)

Lemma flat_map_blocks {A} (f : A → bytes) n l l' : (0 < n)%nat →
  Forall (λ a, length (f a) = n) l → Forall (λ a, length (f a) = n) l' →
  flat_map f l = flat_map f l' → map f l = map f l'.
Proof.
  intros Hn Hl. revert l'. induction Hl as [|a l Ha _ IH]; intros [|b l'] Hl' E; [done|..].
  - apply Forall_cons in Hl' as [Hb _]. cbn in E. apply (f_equal length) in E.
    rewrite length_app in E. cbn in E. lia.
  - cbn in E. apply (f_equal length) in E. rewrite length_app in E. cbn in E. lia.
  - apply Forall_cons in Hl' as [Hb Hl']. cbn in E.
    apply app_inj_1 in E as [E1 E2]; [|by rewrite Ha]. cbn. rewrite E1. f_equal. by apply IH.
Qed.

Lemma flat_map_filter {A} (p : A → bool) (f : A → bytes) l :
  flat_map (λ a, if p a then f a else []) l = flat_map f (filter (λ a, p a = true) l).
Proof.
  induction l as [|a l IH]; [done|]. cbn [flat_map]. rewrite filter_cons, IH.
  destruct (p a) eqn:E; case_decide; cbn; congruence.
Qed.

Section Commitment.
Context `{Sha256} `{Device} `{Screen} `{!Sha256Len}.

(** ** The header *)

Definition spec_header (tx : DamlTransaction) : option bytes :=
  spec_string (tx_version tx) ⊕ Some (enc_int32 (i32 (Z.of_nat (length (tx_roots tx))))).
Definition header_view (tx : DamlTransaction) :=
  (option_map c_str (tx_version tx), i32 (Z.of_nat (length (tx_roots tx)))).
Definition header_short (tx : DamlTransaction) : Prop := short_opt (tx_version tx).

Lemma unamb_header : unambiguous header_short header_view spec_header.
Proof.
  apply unamb_seq; [by apply unamb_string|]. apply unamb_int32. right. intros a _.
  apply is_i32_i32.
Qed.

Lemma header_bytes_spec tx w : header_short tx → header_bytes tx w →
  ∃ u, spec_header tx = Some u ∧ w = PREPARED_TRANSACTION_HASH_PURPOSE ++ u.
Proof.
  intros Hs (c & Hok & ->). unfold hash_transaction in *.
  set (c1 := hw_put PREPARED_TRANSACTION_HASH_PURPOSE _) in *.
  assert (Hr : refines (hs_store (e_hs c1))
    (encode_string (tx_version tx) ;+ encode_int32 (i32 (Z.of_nat (length (tx_roots tx)))))%enc
    (spec_header tx)).
  { apply refines_seq; [by apply refines_string|apply refines_int32]. }
  destruct (refines_ok _ _ _ _ Hr eq_refl Hok) as (u & Hu & Ew). exists u. by split.
Qed.
Lemma metadata_bytes_spec md w : metadata_short md → metadata_bytes md w →
  ∃ u, spec_metadata md = Some u ∧ w = PREPARED_TRANSACTION_HASH_PURPOSE ++ u.
Proof.
  intros Hs (c & Hok & ->). unfold hash_metadata in *.
  set (c1 := hw_put PREPARED_TRANSACTION_HASH_PURPOSE _) in *.
  destruct (refines_ok _ _ _ _ (refines_metadata (hs_store (e_hs c1)) md Hs) eq_refl Hok)
    as (u & Hu & Ew). exists u. by split.
Qed.

(** ** Roots and contracts *)

Definition root_hashes (t : tx_log) : list bytes :=
  map nl_hash (filter (λ l, nl_root l = true) (tl_nodes t)).
Definition contract_view (l : contract_log) : Z * bytes := (u64 (cl_created_at l), cl_hash l).

Lemma take_hash (h : bytes) : length h = SHA256_HASH_LEN → take SHA256_HASH_LEN h = h.
Proof. intros <-. by rewrite firstn_all. Qed.

Lemma node_hash_length tx parts nodes h : node_chain tx parts nodes h →
  Forall (λ l, length (nl_hash l) = SHA256_HASH_LEN) nodes.
Proof.
  induction 1 as [|parts nodes buf l s s' s0 _ IH _ Hl]; [done|].
  apply Forall_app. split; [done|]. constructor; [|done].
  rewrite (nd_hash _ _ _ _ _ Hl). by apply sha256_length.
Qed.
Lemma contract_hash_length parts contracts : Forall2 contract_logged parts contracts →
  Forall (λ l, length (cl_hash l) = SHA256_HASH_LEN) contracts.
Proof.
  induction 1 as [|buf l parts cs (s & s' & Hl) _ IH]; constructor; [|done].
  rewrite (ct_hash _ _ _ _ Hl). by apply sha256_length.
Qed.

Lemma root_bytes_inj ns ns' :
  Forall (λ l, length (nl_hash l) = SHA256_HASH_LEN) ns →
  Forall (λ l, length (nl_hash l) = SHA256_HASH_LEN) ns' →
  flat_map root_bytes ns = flat_map root_bytes ns' →
  map nl_hash (filter (λ l, nl_root l = true) ns) = map nl_hash (filter (λ l, nl_root l = true) ns').
Proof.
  intros Hl Hl'. unfold root_bytes. rewrite !flat_map_filter.
  assert (Hb : ∀ l, Forall (λ l, length (nl_hash l) = SHA256_HASH_LEN) l →
    Forall (λ a, length (take SHA256_HASH_LEN (nl_hash a)) = SHA256_HASH_LEN) (filter (λ l, nl_root l = true) l) ∧
    map (λ a, take SHA256_HASH_LEN (nl_hash a)) (filter (λ l, nl_root l = true) l) =
      map nl_hash (filter (λ l, nl_root l = true) l)).
  { intros l Hf. assert (Hf' : Forall (λ l, length (nl_hash l) = SHA256_HASH_LEN)
      (filter (λ l, nl_root l = true) l)).
    { apply Forall_forall. intros a [_ Ha]%list_elem_of_filter. by apply (proj1 (Forall_forall _ _) Hf). }
    clear Hf. rename Hf' into Hf. split.
    - eapply Forall_impl; [exact Hf|]. intros a Ha. by rewrite take_hash.
    - apply map_ext_Forall. eapply Forall_impl; [exact Hf|]. intros a. apply take_hash. }
  destruct (Hb _ Hl) as [B1 <-], (Hb _ Hl') as [B2 <-].
  by apply (flat_map_blocks _ SHA256_HASH_LEN); [unfold SHA256_HASH_LEN; lia|..].
Qed.

Lemma contract_bytes_inj cs cs' :
  Forall (λ l, length (cl_hash l) = SHA256_HASH_LEN) cs →
  Forall (λ l, length (cl_hash l) = SHA256_HASH_LEN) cs' →
  flat_map contract_bytes cs = flat_map contract_bytes cs' → map contract_view cs = map contract_view cs'.
Proof.
  intros Hl Hl' E.
  assert (Hb : ∀ l, Forall (λ l, length (cl_hash l) = SHA256_HASH_LEN) l →
    Forall (λ a, length (contract_bytes a) = (8 + SHA256_HASH_LEN)%nat) l).
  { intros l Hf. eapply Forall_impl; [exact Hf|]. intros a Ha. unfold contract_bytes.
    rewrite length_app, take_hash by done. by rewrite Ha. }
  apply (flat_map_blocks _ (8 + SHA256_HASH_LEN)) in E; [|unfold SHA256_HASH_LEN; lia|by apply Hb..].
  clear Hb. revert cs' Hl' E. induction Hl as [|a cs Ha _ IH]; intros [|b cs'] Hl' E; try done.
  apply Forall_cons in Hl' as [Hb Hl']. cbn [map] in E.
  assert (E1 : contract_bytes a = contract_bytes b) by congruence.
  assert (E2 : map contract_bytes cs = map contract_bytes cs') by congruence.
  cbn. f_equal; [|by apply IH].
  unfold contract_bytes in E1. rewrite !take_hash in E1 by done.
  apply app_inj_1 in E1 as [E1 E3]; [|done]. unfold contract_view. rewrite E3. f_equal.
  by apply be64_inj in E1; [|apply is_u64_u64..].
Qed.

(** ** The whole *)

(** The texts SHA-256 is applied to. *)
Definition combined (w1 w2 : bytes) : bytes :=
  PREPARED_TRANSACTION_HASH_PURPOSE ++ [HASHING_SCHEME_VERSION] ++
  take SHA256_HASH_LEN (sha256 w1) ++ take SHA256_HASH_LEN (sha256 w2).
Definition hash_text (t : tx_log) (x : bytes) : Prop :=
  tx_bytes t x ∨ md_bytes t x ∨ ∃ w1 w2, tx_bytes t w1 ∧ md_bytes t w2 ∧ x = combined w1 w2.
Definition no_text_collision (t t' : tx_log) : Prop :=
  ∀ x y, hash_text t x → hash_text t' y → sha256 x = sha256 y → x = y.

(** The ranges of the C types. *)
Record log_ranges (t : tx_log) : Prop := {
  lr_header : header_short (tl_tx t);
  lr_metadata : metadata_ranges (tl_metadata t)
}.

Lemma combined_inj w1 w2 x1 x2 : combined w1 w2 = combined x1 x2 →
  sha256 w1 = sha256 x1 ∧ sha256 w2 = sha256 x2.
Proof.
  unfold combined. rewrite !take_hash by apply sha256_length. intros E.
  apply app_inv_head, (app_inv_head [_]) in E. apply app_inj_1 in E; [done|]. by rewrite !sha256_length.
Qed.

(** C11: The hash that is signed commits to the transaction.  Two completed transactions
    with the same hash, on whose texts SHA-256 does not collide, agree on the version, the
    number of roots and their hashes, on every field of the metadata, and on the time and
    hash of every disclosed contract, in order. *)
Theorem signed_hash_commits t t' hash : hashed t hash → hashed t' hash →
  log_ranges t → log_ranges t' → no_text_collision t t' →
  header_view (tl_tx t) = header_view (tl_tx t') ∧ root_hashes t = root_hashes t' ∧
  metadata_view (tl_metadata t) = metadata_view (tl_metadata t') ∧
  map contract_view (tl_contracts t) = map contract_view (tl_contracts t').
Proof.
  intros [R _ (w1 & w2 & W1 & W2 & E)] [R' _ (x1 & x2 & X1 & X2 & E')] [Lh Lm] [Lh' Lm'] NC.
  rewrite E' in E. unfold finalize_hash, finalize_hash_transaction, finalize_hash_metadata,
    hw_finalize in E. change 32%nat with SHA256_HASH_LEN in E.
  assert (E1 : sha256 (combined w1 w2) = sha256 (combined x1 x2)).
  { unfold combined. rewrite !(take_hash (sha256 _)) in E by apply sha256_length.
    by rewrite !(take_hash (sha256 _)) by apply sha256_length. }
  apply NC in E1; [|by right; right; exists w1, w2|by right; right; exists x1, x2].
  apply combined_inj in E1 as [E1 E2].
  apply NC in E1; [|by left..]. apply NC in E2; [|by right; left..].
  destruct W1 as (h & Hh & ->), X1 as (h' & Hh' & ->), W2 as (m & Hm & ->), X2 as (m' & Hm' & ->).
  apply header_bytes_spec in Hh as (u & Hu & ->), Hh' as (u' & Hu' & ->); [|done..].
  apply metadata_bytes_spec in Hm as (v & Hv & ->), Hm' as (v' & Hv' & ->); [|by apply mr_short..].
  rewrite <- !app_assoc in E1, E2. apply app_inv_head in E1, E2.
  destruct (unamb_header _ _ _ _ _ _ Lh Lh' Hu Hu' E1) as [V1 B1].
  destruct (unamb_metadata _ _ _ _ _ _ Lm Lm' Hv Hv' E2) as [V2 B2].
  destruct R as [[_ [c Rn]] _ _ Rc], R' as [[_ [c' Rn']] _ _ Rc'].
  split_and!; [done| |done|].
  - apply root_bytes_inj; [by eapply node_hash_length..|done].
  - apply contract_bytes_inj; [by eapply contract_hash_length..|done].
Qed.
End Commitment.

(** ** Witness: the pre-approval against itself *)

#[local] Existing Instance roomy.
Definition ret_or {A} (d : A) (o : outcome A) : A := match o with Ret a => a | _ => d end.
Definition sample_node_run := Eval vm_compute in
  @proto_deserialize_node toy_sha roomy (nth 1 sample_parts [])
    (g_hp (default toy_start (toy_feed (take 1 sample_parts) toy_start))).
Definition sample_tx : DamlTransaction := Eval vm_compute in
  ret_or DamlTransaction_zero (fst (pb_decode_inner
    (DamlTransaction_fields (S := context)) (nth 0 sample_parts []) DamlTransaction_zero boot)).
Definition sample_md : Metadata := Eval vm_compute in
  ret_or Metadata_zero (fst (pb_decode_inner
    (Metadata_fields (S := context)) sample_last Metadata_zero boot)).
Definition sample_log : tx_log :=
  {| tl_header_part := nth 0 sample_parts []; tl_tx := sample_tx;
     tl_node_parts := [nth 1 sample_parts []];
     tl_nodes := [{| nl_event := {| ev_parent := 0; ev_children := [];
                       ev_id := hp_node_id (snd sample_node_run) |};
                     nl_root := hp_is_root_node (snd sample_node_run);
                     nl_hash := hw_finalize (H := toy_sha) (hp_node_hw (snd sample_node_run));
                     nl_values := [] |}];
     tl_metadata_part := sample_last; tl_metadata := sample_md;
     tl_contract_parts := []; tl_contracts := [] |}.

Lemma sample_reads : @contracts_read toy_sha roomy sample_log.
Proof.
  split; [split| | |constructor].
  - exists boot, (snd (pb_decode_inner
      (DamlTransaction_fields (S := context)) (nth 0 sample_parts []) DamlTransaction_zero boot)).
    vm_compute. reflexivity.
  - exists (hp_hash (snd sample_node_run)).
    apply (chain_node _ [] [] _ _ (g_hp (default toy_start (toy_feed (take 1 sample_parts) toy_start))) _ sample_store).
    + eapply (chain_start _ _ (hp_hash (g_hp toy_start))). vm_compute. reflexivity.
    + vm_compute. reflexivity.
    + split; [vm_compute; reflexivity|done..|].
      exists [], [], [], sample_vp, (snd (toy_collect (nth 1 sample_parts []) sample_vp)).
      split_and!; try done; vm_compute; reflexivity.
  - vm_compute. reflexivity.
  - exists boot, (snd (pb_decode_inner
      (Metadata_fields (S := context)) sample_last Metadata_zero boot)).
    vm_compute. reflexivity.
Qed.

Definition empty_enc : enc :=
  {| e_hw := []; e_hs := {| hs_err := HASH_OK; hs_store := []; hs_count := 0 |} |}.
Definition sample_w1 : bytes := Eval vm_compute in
  e_hw (hash_transaction sample_tx empty_enc) ++ flat_map root_bytes (tl_nodes sample_log).
Definition sample_w2 : bytes := Eval vm_compute in e_hw (hash_metadata sample_md empty_enc).
Definition sample_hash : bytes := Eval vm_compute in
  @finalize_hash toy_sha (@finalize_hash_transaction toy_sha sample_w1)
    (@finalize_hash_metadata toy_sha sample_w2).

Lemma sample_log_ranges : log_ranges sample_log.
Proof.
  split; [intros s [= <-]; reflexivity|].
  split; try (unfold is_u32, is_u64, is_i32; cbn; lia).
  split; [split; [reflexivity|]|intros s [= <-]; reflexivity..].
  intros s Hs x ->. apply list_elem_of_singleton in Hs as [= ->]. reflexivity.
Qed.
Lemma sample_tx_bytes w : tx_bytes sample_log w ↔ w = sample_w1.
Proof.
  split.
  - intros (h & (u & [= <-] & ->)%header_bytes_spec & ->); [reflexivity|apply sample_log_ranges].
  - intros ->. eexists. split; [by exists empty_enc|reflexivity].
Qed.
Lemma sample_md_bytes w : md_bytes sample_log w ↔ w = sample_w2.
Proof.
  split.
  - intros (h & (u & [= <-] & ->)%metadata_bytes_spec & ->); [reflexivity|apply sample_log_ranges].
  - intros ->. eexists. split; [by exists empty_enc|reflexivity].
Qed.
Lemma sample_hashed : @hashed toy_sha roomy sample_log sample_hash.
Proof.
  split; [apply sample_reads|reflexivity|]. exists sample_w1, sample_w2.
  rewrite sample_tx_bytes, sample_md_bytes. by split_and!.
Qed.

Lemma sample_texts x : @hash_text toy_sha sample_log x →
  x ∈ [sample_w1; sample_w2; @combined toy_sha sample_w1 sample_w2].
Proof.
  intros [->%sample_tx_bytes|[->%sample_md_bytes|(w1 & w2 & ->%sample_tx_bytes & ->%sample_md_bytes & ->)]];
    set_solver.
Qed.
Lemma sample_no_collision : @no_text_collision toy_sha sample_log sample_log.
Proof.
  intros x y Hx%sample_texts Hy%sample_texts E.
  repeat (apply elem_of_cons in Hx as [->|Hx]; [|]); [..|by apply elem_of_nil in Hx];
    repeat (apply elem_of_cons in Hy as [->|Hy]; [try done; vm_compute in E; congruence|]);
    by apply elem_of_nil in Hy.
Qed.

Lemma signed_hash_commits_witness :
  @hashed toy_sha roomy sample_log sample_hash ∧
  map contract_view (tl_contracts sample_log) = map contract_view (tl_contracts sample_log).
Proof.
  split; [apply sample_hashed|].
  destruct (@signed_hash_commits toy_sha roomy toy_sha_len sample_log sample_log sample_hash
    sample_hashed sample_hashed sample_log_ranges sample_log_ranges sample_no_collision)
    as (_ & _ & _ & E). exact E.
Defined.
