(* ===== verification/TxWire.v ===== *)
(** * The header and the metadata on the wire

    The wire format of the header and of the metadata of a transaction, and that decoding it
    gives back what was written, unless the heap refuses the request. *)

From S2P Require Import Prelude Constants Utils Pb Wire WireLogic Messages CanonicalHash.
From S2P Require Import TreeCheck ValuesCheck HashingParser HashLogic ValueHash NodeHash ReadLogic.

(** ** What is written *)

Definition wire_seed (s : NodeSeed) : bytes :=
  wire_varint 1 (ns_node_id s) ++ wire_opt 2 (ns_seed s).
Definition wire_daml_tx (tx : DamlTransaction) : bytes :=
  wire_opt 1 (tx_version tx) ++ wire_strings 2 (tx_roots tx) ++ wire_varint 3 (tx_nodes_count tx) ++
  flat_map (λ s, wire_bytes 4 (wire_seed s)) (tx_node_seeds tx).
Definition wire_submitter (i : SubmitterInfo) : bytes :=
  wire_strings 1 (si_act_as i) ++ wire_opt 2 (si_command_id i).
Definition wire_time (tag : Z) (b : bool) (t : Z) : bytes := if b then wire_varint tag t else [].
Definition wire_metadata (m : Metadata) : bytes :=
  wire_bytes 2 (wire_submitter (md_submitter_info m)) ++ wire_opt 3 (md_synchronizer_id m) ++
  wire_varint 4 (md_mediator_group m) ++ wire_opt 5 (md_transaction_uuid m) ++
  wire_varint 6 (md_preparation_time m) ++ wire_varint 7 (md_input_contracts_count m) ++
  wire_time 9 (md_has_min_ledger_effective_time m) (md_min_ledger_effective_time m) ++
  wire_time 10 (md_has_max_ledger_effective_time m) (md_max_ledger_effective_time m).

(** A count or an id that is not negative, as the wire has it. *)
Definition is_count (z : Z) : Prop := 0 ≤ z < 2 ^ 31.
Record seed_ok (s : NodeSeed) : Prop := {
  so_id : is_count (ns_node_id s);
  so_seed : ∀ b, ns_seed s = Some b → Z.of_nat (length b) ≤ PB_SIZE_MAX
}.
Record tx_ok (tx : DamlTransaction) : Prop := {
  to_roots : few_strings (tx_roots tx) = true;
  to_count : is_count (tx_nodes_count tx);
  to_seeds : Forall seed_ok (tx_node_seeds tx);
  to_few : Z.of_nat (length (tx_node_seeds tx)) ≤ PB_SIZE_MAX;
  to_measured : measured (wire_daml_tx tx)
}.
(** A time that is absent is zero in the struct. *)
Record md_ok (m : Metadata) : Prop := {
  mo_submitter : md_has_submitter_info m = true;
  mo_act_as : few_strings (si_act_as (md_submitter_info m)) = true;
  mo_group : is_u32 (md_mediator_group m);
  mo_prep : is_u64 (md_preparation_time m);
  mo_count : is_count (md_input_contracts_count m);
  mo_min : is_u64 (md_min_ledger_effective_time m);
  mo_max : is_u64 (md_max_ledger_effective_time m);
  mo_no_min : md_has_min_ledger_effective_time m = false → md_min_ledger_effective_time m = 0;
  mo_no_max : md_has_max_ledger_effective_time m = false → md_max_ledger_effective_time m = 0;
  mo_measured : measured (wire_metadata m)
}.

(** ** Reading it back *)

Section Reads.
Context {S : Type} `{!Realloc S} (F : Prop) (idle : S → S → Prop) `{!PreOrder idle}.
Hypothesis alloc : ∀ n s, step_to F s (pb_realloc n : M S unit) (λ _ s', idle s s').
Abbreviation parses_as := (ReadLogic.parses_as F idle).
Abbreviation reads_to := (ReadLogic.reads_to F idle).

Lemma pb_dec_int32_enc n s : is_count n → pb_dec_int32 (enc_varint n ++ s) = Some (n, s).
Proof.
  unfold is_count. intros Hn. unfold pb_dec_int32.
  rewrite pb_decode_varint_enc by (unfold is_u64; lia). by rewrite i32_id by (unfold is_i32; lia).
Qed.
Lemma pb_dec_uint_enc bits n s : 0 ≤ n < 2 ^ bits → is_u64 n →
  pb_dec_uint bits (enc_varint n ++ s) = Some (n, s).
Proof.
  intros Hn Hu. unfold pb_dec_uint. rewrite pb_decode_varint_enc by done.
  by rewrite (proj2 (Z.ltb_lt n (2 ^ bits)) (proj2 Hn)).
Qed.

(** ** The header *)

Lemma seed_parses s : seed_ok s →
  parses_as NodeSeed_fields (wire_seed s) {| ns_node_id := 0; ns_seed := None |} s.
Proof.
  intros [Hid Hb] g. unfold wire_seed. destruct s as [id [b|]]; cbn [ns_node_id ns_seed wire_opt] in *.
  - eapply reads_varint; [done|done|reflexivity|by intros; apply pb_dec_int32_enc|].
    rewrite <- (app_nil_r (wire_bytes 2 b)).
    eapply reads_bytes; [done|done|reflexivity|by intros s' _; apply gives_bytes, Hb|by apply reads_end].
  - eapply reads_varint; [done|done|reflexivity|by intros; apply pb_dec_int32_enc|]. by apply reads_end.
Qed.
Lemma seeds_read g l : ∀ tx v, Forall seed_ok l →
  Z.of_nat (length (tx_node_seeds tx) + length l) ≤ PB_SIZE_MAX →
  measured (flat_map (λ s, wire_bytes 4 (wire_seed s)) l) →
  v = tx <| tx_node_seeds ::= λ l', l' ++ l |> →
  reads_to g DamlTransaction_fields (flat_map (λ s, wire_bytes 4 (wire_seed s)) l) tx
    (λ r g', r = v ∧ idle g g').
Proof.
  induction l as [|s l IH]; intros tx v Hl Hc Hm ->; cbn [flat_map length] in *.
  { destruct tx as [? ? ? k]. cbn. rewrite app_nil_r. by apply reads_end. }
  apply Forall_cons in Hl as [Hs Hl]. apply measured_app in Hm as [Hb%measured_bytes Hm].
  eapply (reads_bytes F idle _ _ _ _ _ _ _ (tx <| tx_node_seeds ::= λ l', l' ++ [s] |>)); [done|reflexivity| |].
  - intros g' _. unfold h_repeated_msg. apply gives_guard; [lia|]. apply gives_realloc; [done|done|].
    apply gives_submsg; [done|done|].
    eapply gives_bind; [done|apply parses_inner; [done|by apply (seed_parses s Hs)]|by apply gives_ret].
  - apply IH; [done| |done|].
    + cbn. rewrite length_app. cbn. lia.
    + destruct tx. cbn. by rewrite <- app_assoc.
Qed.
Lemma daml_tx_parses tx : tx_ok tx →
  parses_as DamlTransaction_fields (wire_daml_tx tx) DamlTransaction_zero tx.
Proof.
  intros [Hr Hc Hs Hf Hm] g. unfold wire_daml_tx in *. destruct (few_strings_spec _ Hr) as [Hr1 Hr2].
  repeat (apply measured_app in Hm as [? Hm]).
  eapply reads_opt; [done|done|done|reflexivity|done|].
  eapply reads_strings with (app := λ k tx, tx <| tx_roots ::= λ l, l ++ k |>);
    [done|done|done|reflexivity|by intros; cbn; rewrite length_app, Nat.add_1_r
    |intros []; cbn; by rewrite app_nil_r|intros ? ? []; cbn; by rewrite <- app_assoc|done|done
    |by destruct (tx_version tx)|].
  eapply reads_varint; [done|done|reflexivity|by intros; apply pb_dec_int32_enc|].
  eapply seeds_read; [done|by destruct (tx_version tx)|done|]. by destruct tx as [[] ? ? ?].
Qed.

(** ** The metadata *)

Lemma submitter_parses i : few_strings (si_act_as i) = true → measured (wire_submitter i) →
  parses_as SubmitterInfo_fields (wire_submitter i) SubmitterInfo_zero i.
Proof.
  intros Ha Hm g. unfold wire_submitter in *. apply measured_app in Hm as [Hm1 Hm2].
  eapply reads_strings with (app := λ k i, i <| si_act_as ::= λ l, l ++ k |>);
    [done|done|done|reflexivity|by intros; cbn; rewrite length_app, Nat.add_1_r
    |intros []; cbn; by rewrite app_nil_r|intros ? ? []; cbn; by rewrite <- app_assoc
    |by apply few_strings_spec|done|by apply few_strings_spec|].
  rewrite <- (app_nil_r (wire_opt 2 _)). eapply reads_opt; [done|done|done|reflexivity|done|].
  destruct i as [l [c|]]; by apply reads_end.
Qed.
Lemma reads_time g (handler : Z → option (field_handler S Metadata)) tag set (b : bool) t rest r Q :
  0 < tag < 2 ^ 29 →
  handler tag = Some (h_scalar PB_WT_VARINT (pb_dec_uint 64) set) → is_u64 t →
  reads_to g handler rest (if b then set t r else r) Q →
  reads_to g handler (wire_time tag b t ++ rest) r Q.
Proof.
  intros Ht Eh Hu Hrest. destruct b; [|done].
  eapply reads_varint; [done|done|exact Eh|by intros; apply pb_dec_uint_enc|done].
Qed.
Lemma metadata_parses m : md_ok m → parses_as Metadata_fields (wire_metadata m) Metadata_zero m.
Proof.
  intros [Hs Ha Hg Hp Hc Hmin Hmax Hnmin Hnmax Hm] g. unfold wire_metadata in *.
  repeat (apply measured_app in Hm as [? Hm]).
  eapply reads_bytes; [done|done|reflexivity| |].
  { intros g' _. apply gives_submsg; [done|by eapply measured_bytes|].
    apply gives_static; [done|]. apply (submitter_parses (md_submitter_info m)); [done|by eapply measured_bytes]. }
  eapply reads_opt; [done|done|done|reflexivity|done|].
  eapply reads_varint; [done|done|reflexivity|intros; apply pb_dec_uint_enc; [done|]|].
  { unfold is_u32, is_u64 in *. lia. }
  eapply reads_opt; [done|done|done|reflexivity|done|].
  eapply reads_varint; [done|done|reflexivity|by intros; apply pb_dec_uint_enc|].
  eapply reads_varint; [done|done|reflexivity|by intros; apply pb_dec_int32_enc|].
  eapply reads_time; [done|reflexivity|done|].
  rewrite <- (app_nil_r (wire_time 10 _ _)). eapply reads_time; [done|reflexivity|done|].
  apply reads_end. destruct m as [? ? [sy|] ? [u|] ? ? [] ? [] ?]; cbn in *;
    by rewrite ?Hs, ?(Hnmin eq_refl), ?(Hnmax eq_refl).
Qed.
End Reads.
