(* ===== verification/TreeHash.v ===== *)
(** * What is signed is the hash of a tree

    The hash of a node is over the hashes of its children.  For a transaction whose parts are
    nodes on the wire ([NodeHash]) this file builds the trees that the nodes stand for and
    shows that the root hashes that are signed are theirs; and that two transactions with one
    hash are the same trees, metadata and disclosed contracts. *)

From S2P Require Import Prelude Constants Utils Pb Wire WireLogic Messages CanonicalHash.
From S2P Require Import TreeCheck ValuesCheck HashingParser HoldingParser DisplayParser Context.
From S2P Require Import Prepared PreparedRun TxFlow TxSamples TxHash.
From S2P Require Import HashLogic ValueHash ValueCode NodeHash NodeCode ReadLogic TxWire.

(** ** Trees *)

(** A node, its id, and the trees of its children. *)
Inductive tree := Tree (id : bytes) (n : node) (children : list tree).
Definition tree_id (t : tree) : bytes := let '(Tree id _ _) := t in id.
Definition tree_node (t : tree) : node := let '(Tree _ n _) := t in n.
Definition subtrees (t : tree) : list tree := let '(Tree _ _ ts) := t in ts.
Definition tree_part (t : tree) : bytes := wire_node_part (tree_id t) (tree_node t).

Lemma tree_induction (P : tree → Prop) :
  (∀ id n ts, Forall P ts → P (Tree id n ts)) → ∀ t, P t.
Proof.
  intros IH. fix F 1. intros [id n ts]. apply IH.
  induction ts as [|t ts IHts]; constructor; [apply F|exact IHts].
Qed.

(** Ids are compared as numbers. *)
Definition names (child : option bytes) (t : tree) : Prop :=
  ∃ s, child = Some s ∧ atoint s = atoint (tree_id t).
(** A list of trees in which a tree comes after its subtrees, as the parts arrive; the
    children of a node are the trees it names, in its order. *)
Inductive forest : list tree → Prop :=
  | forest_nil : forest []
  | forest_tree ts id n children : forest ts → children ⊆ ts →
      Forall2 names (node_children n) children → forest (ts ++ [Tree id n children]).

Section Trees.
Context `{Sha256} `{Device} `{Screen} `{!Sha256Len}.
Variable tx : DamlTransaction.

(** The encoding of a tree and its hash. *)
Fixpoint spec_tree (t : tree) : option bytes :=
  let '(Tree id n ts) := t in
  spec_over (seed_of tx (atoint id)) n
    (spec_kids (map (λ t, option_map hw_finalize (spec_tree t)) ts)).
Definition tree_hash (t : tree) : option bytes := option_map hw_finalize (spec_tree t).

(** ** The trees of a transaction *)

(** A child whose number is that of an empty slot is not looked up as a node. *)
Definition children_numbered (n : node) : Prop :=
  ∀ s, Some s ∈ node_children n → atoint s ≠ -1.
(** The store holds only hashes of trees of [f]. *)
Definition store_of (f : list tree) (st : list PrecomputedNodeHash) : Prop :=
  ∀ e, e ∈ st → pn_id e = -1 ∨
    ∃ t, t ∈ f ∧ atoint (tree_id t) = pn_id e ∧ tree_hash t = Some (pn_hash e).

Lemma spec_children_kids st ids : spec_children st ids =
  spec_kids (map (λ o, match o with Some s => find_node_hash (atoint s) st | None => None end) ids).
Proof.
  unfold spec_children, spec_kids. rewrite length_map. destruct (_ <? _)%nat; [done|].
  unfold spec_repeated. rewrite length_map. f_equal.
  induction ids as [|[s|] ids IH]; cbn [map spec_each]; by rewrite ?IH.
Qed.
(** The children a store knows are trees. *)
Lemma child_is_tree f st s h : store_of f st → atoint s ≠ -1 →
  find_node_hash (atoint s) st = Some h →
  ∃ t, t ∈ f ∧ names (Some s) t ∧ tree_hash t = Some h.
Proof.
  intros Hst Hn (k & e & He & Hid & <-)%find_node_hash_spec.
  destruct (Hst e) as [Em|(t & Ht & Et & Eh)]; [by eapply list_elem_of_lookup_2|congruence|].
  exists t. split_and!; [done| |done]. exists s. by rewrite Et, Hid.
Qed.
Lemma children_are_trees f st ids w : store_of f st → (∀ s, Some s ∈ ids → atoint s ≠ -1) →
  spec_children st ids = Some w →
  ∃ ts, ts ⊆ f ∧ Forall2 names ids ts ∧ spec_kids (map tree_hash ts) = Some w.
Proof.
  intros Hst Hn. rewrite spec_children_kids. set (look := λ o, _). intros Hw.
  assert (Hts : ∃ ts, ts ⊆ f ∧ Forall2 names ids ts ∧ map tree_hash ts = map look ids).
  { apply kids_some in Hw. clear w. induction ids as [|o ids IH]; cbn [map] in Hw.
    { exists []. split_and!; [set_solver|constructor|done]. }
    apply Forall_cons in Hw as [[h Hh] Hw]. destruct o as [s|]; [|done]. cbn in Hh.
    destruct IH as (ts & Hf & Ht & E); [intros s' Hs'; apply Hn; set_solver|done|].
    destruct (child_is_tree f st s h Hst) as (t & Htf & Hname & Eh); [apply Hn; set_solver|done|].
    exists (t :: ts). split_and!; [set_solver|by constructor|].
    cbn [map]. rewrite E, Eh. unfold look at 2. by rewrite Hh. }
  destruct Hts as (ts & Hf & Ht & E). exists ts. by rewrite E.
Qed.

Lemma node_is_tree f st id n w : store_of f st → children_numbered n →
  spec_node st (seed_of tx (atoint id)) n = Some w →
  ∃ ts, ts ⊆ f ∧ Forall2 names (node_children n) ts ∧ spec_tree (Tree id n ts) = Some w.
Proof.
  intros Hst Hn. unfold spec_node. cbn [spec_tree]. change (λ t, option_map _ _) with tree_hash.
  destruct (spec_children st (node_children n)) as [k|] eqn:Ek.
  - destruct (children_are_trees f st _ k Hst Hn Ek) as (ts & Hf & Ht & Es).
    intros Hw. exists ts. by rewrite Es.
  - destruct n as [c v|e v r|f'|r]; try done. cbn [spec_over].
    unfold spec_exercise. by intros (? & ? & _ & (? & ? & _ & ? & _)%cat2_some & _)%cat2_some.
Qed.

(** What a node adds: its tree, whose hash is the one of the node. *)
Lemma node_part_tree f id n s s' : part_ok id n → children_numbered n → hp_tx s = tx →
  store_of f (hs_store (hp_hash s)) →
  proto_deserialize_node (wire_node_part id n) s = (Ret tt, s') →
  get_hash_error (hp_hash s') = HASH_OK →
  ∃ ts, ts ⊆ f ∧ Forall2 names (node_children n) ts ∧
    tree_hash (Tree id n ts) = Some (hw_finalize (hp_node_hw s')) ∧
    hp_node_id s' = atoint id ∧ hp_is_root_node s' = is_root tx id ∧
    ¬ seed_refused tx (atoint id) n ∧ store_of (f ++ [Tree id n ts]) (hs_store (hp_hash s')).
Proof.
  intros Hok Hn Htx Hst E He.
  destruct (node_part_hashed id n s Hok) as [[_ Ef]|(u & s1 & E1 & Hs & Hi & Hr & Hh)];
    [by rewrite E in Ef|]. rewrite E in E1. injection E1 as _ <-. rewrite Htx in *.
  unfold node_hashed in Hh. rewrite Htx in Hh.
  destruct (spec_node _ _ n) as [w|] eqn:Ew; [|done]. destruct Hh as [<- Hh].
  destruct (node_is_tree f _ id n _ Hst Hn Ew) as (ts & Hf & Ht & Es). exists ts.
  assert (Eh : tree_hash (Tree id n ts) = Some (hw_finalize (hp_node_hw s'))).
  { unfold tree_hash. by rewrite Es. }
  split_and!; try done.
  assert (Hold : store_of (f ++ [Tree id n ts]) (hs_store (hp_hash s))).
  { intros e He'. destruct (Hst e He') as [?|(t & ? & ? & ?)]; [by left|right].
    exists t. split_and!; [set_solver|done..]. }
  destruct (is_root tx id); destruct Hh as [_ ->]; [done|].
  intros e (k & [(_ & <- & _)|[_ He']]%list_lookup_insert_Some)%list_elem_of_lookup;
    [|eapply Hold, list_elem_of_lookup; eauto].
  right. exists (Tree id n ts). split_and!; [set_solver|done|done].
Qed.

(** A part that was read is that of a tree. *)
Record tree_read (t : tree) (l : node_log) : Prop := {
  tr_hash : tree_hash t = Some (nl_hash l);
  tr_root : nl_root l = is_root tx (tree_id t);
  tr_id : ev_id (nl_event l) = atoint (tree_id t);
  tr_seed : ¬ seed_refused tx (atoint (tree_id t)) (tree_node t)
}.
Definition node_of (t : tree) : bytes * node := (tree_id t, tree_node t).
Definition plain_node (p : bytes * node) : Prop := part_ok (fst p) (snd p) ∧ children_numbered (snd p).

Lemma empty_store_of h h0 : hs_store h = hs_store (init_node_hash_store h0) →
  store_of [] (hs_store h).
Proof.
  intros ->. intros e [k He]%list_elem_of_lookup. left.
  by apply (lookup_replicate (A := PrecomputedNodeHash) MAX_NODE_CHILDREN) in He as [-> _].
Qed.
Lemma chain_forest bufs nodes h : node_chain tx bufs nodes h →
  ∀ ps, bufs = map (λ p, wire_node_part (fst p) (snd p)) ps → Forall plain_node ps →
  ∃ f, forest f ∧ map node_of f = ps ∧ store_of f (hs_store h) ∧ Forall2 tree_read f nodes.
Proof.
  induction 1 as [h h0 Hh|bufs nodes buf l s s' s0 _ IH Htx [Ep Ek Ei Er Eh _]]; intros ps Eb Hps.
  { symmetry in Eb. apply map_eq_nil in Eb as ->. exists [].
    split_and!; [constructor|done|by eapply empty_store_of|constructor]. }
  symmetry in Eb. apply map_eq_app in Eb as (ps' & q & -> & Eb & Eq).
  destruct q as [|[id n] [|? ?]]; try done. injection Eq as <-. apply Forall_app in Hps as [Hps Hp].
  apply Forall_cons in Hp as [[Hok Hn] _].
  destruct (IH ps' (eq_sym Eb) Hps) as (f & Hf & <- & Hst & Hl).
  destruct (node_part_tree f id n s s' Hok Hn Htx Hst Ep Ek) as (ts & Hts & Hnames & Ht & Hi & Hr & Hs & Hst').
  exists (f ++ [Tree id n ts]). split_and!; [by constructor|by rewrite map_app|done|].
  apply Forall2_app; [done|]. constructor; [|constructor].
  split; cbn; [by rewrite Eh|by rewrite Er|by rewrite Ei|done].
Qed.

(** The root trees, and the bytes their hashes make. *)
Definition roots_of (f : list tree) : list tree := filter (λ t, is_root tx (tree_id t) = true) f.
Lemma root_trees_bytes f nodes : Forall2 tree_read f nodes →
  spec_each spec_hash (map tree_hash (roots_of f)) = Some (flat_map root_bytes nodes).
Proof.
  unfold roots_of. induction 1 as [|t l f nodes [Eh Er _ _] _ IH]; [done|].
  cbn [flat_map]. rewrite filter_cons. unfold root_bytes at 1. rewrite Er.
  destruct (is_root tx (tree_id t)); case_decide; try done. cbn [map spec_each]. by rewrite IH, Eh.
Qed.
End Trees.

(** ** Disclosed contracts *)

Section Contracts.
Context `{Sha256} `{Device} `{Screen} `{!Sha256Len}.

Record contract := { co_create : Node_CreateCb hcb; co_argument : value; co_created_at : Z }.
Definition contract_part (c : contract) : bytes :=
  wire_contract_part (co_create c) (co_argument c) (co_created_at c).
Record plain_contract (c : contract) : Prop := {
  pc_wf : create_wf (co_create c) (co_argument c) = true;
  pc_time : is_u64 (co_created_at c);
  pc_measured : measured (contract_part c)
}.
Definition spec_contract (c : contract) : option bytes :=
  Some (be64 (co_created_at c)) ⊕
  spec_hash (option_map hw_finalize (spec_create None (co_create c) (co_argument c))).

Lemma contract_read_spec c l : plain_contract c → contract_logged (contract_part c) l →
  spec_contract c = Some (contract_bytes l).
Proof.
  intros [Hwf Ht Hm] (s & s' & [Ep Ek _ Eh _]).
  destruct (contract_part_hashed _ _ _ s Hwf Ht Hm) as [[_ Ef]|(u & s1 & E1 & Hc)];
    [by unfold contract_part in Ep; rewrite Ep in Ef|].
  unfold contract_part in Ep.
  rewrite Ep in E1. injection E1 as _ <-. unfold spec_contract.
  destruct (spec_create None _ _) as [w|]; [|done]. destruct Hc as (_ & _ & Hc).
  rewrite Eh in Hc. apply app_inv_head in Hc. rewrite Hc. cbn. by rewrite u64_id.
Qed.
Lemma contracts_bytes cs ls : Forall plain_contract cs →
  Forall2 contract_logged (map contract_part cs) ls →
  spec_each spec_contract cs = Some (flat_map contract_bytes ls).
Proof.
  intros Hcs. revert ls.
  induction Hcs as [|c cs Hc _ IH]; intros ls Hl; inversion Hl as [|? y ? l' Hy Hl']; [done|]; subst.
  cbn [spec_each flat_map]. by rewrite (contract_read_spec c y Hc), (IH l').
Qed.
End Contracts.

(** ** The whole transaction *)

Section Whole.
Context `{Sha256} `{Device} `{Screen} `{!Sha256Len}.

Definition spec_tx_text (tx : DamlTransaction) (f : list tree) : option bytes :=
  Some PREPARED_TRANSACTION_HASH_PURPOSE ⊕ spec_header tx ⊕
  spec_each spec_hash (map (tree_hash tx) (roots_of tx f)).
Definition spec_md_text (md : Metadata) (cs : list contract) : option bytes :=
  Some PREPARED_TRANSACTION_HASH_PURPOSE ⊕ spec_metadata md ⊕ spec_each spec_contract cs.
(** The hash that is signed, from the header, the trees of the nodes, the metadata and the
    disclosed contracts. *)
Definition transaction_hash (tx : DamlTransaction) (f : list tree) (md : Metadata)
    (cs : list contract) : option bytes :=
  match spec_tx_text tx f, spec_md_text md cs with
  | Some w1, Some w2 => Some (hw_finalize (combined w1 w2))
  | _, _ => None
  end.

Lemma hashed_transaction t f cs hash : hashed t hash → log_ranges t →
  Forall2 (tree_read (tl_tx t)) f (tl_nodes t) → tl_contract_parts t = map contract_part cs →
  Forall plain_contract cs →
  transaction_hash (tl_tx t) f (tl_metadata t) cs = Some hash.
Proof.
  intros [R _ (w1 & w2 & (h & Hh & ->) & (m & Hm & ->) & ->)] [Lh Lm] Hf Ec Hcs.
  apply header_bytes_spec in Hh as (u & Hu & ->); [|done].
  apply metadata_bytes_spec in Hm as (v & Hv & ->); [|by apply mr_short].
  destruct R as [_ _ _ Rc]. rewrite Ec in Rc.
  unfold transaction_hash, spec_tx_text, spec_md_text.
  rewrite Hu, Hv, (root_trees_bytes _ _ _ Hf), (contracts_bytes _ _ Hcs Rc). cbn [cat2]. f_equal.
  unfold finalize_hash, combined, finalize_hash_transaction, finalize_hash_metadata, hw_finalize.
  change 32%nat with SHA256_HASH_LEN. by rewrite !(take_hash (sha256 _)) by apply sha256_length.
Qed.

(** A transaction as a host sends it: the nodes in an order in which children come first. *)
Record transaction := {
  tn_tx : DamlTransaction; tn_nodes : list (bytes * node);
  tn_metadata : Metadata; tn_contracts : list contract
}.
Definition node_parts (T : transaction) : list bytes :=
  map (λ p, wire_node_part (fst p) (snd p)) (tn_nodes T).
Definition wire_parts (T : transaction) : list bytes :=
  wire_daml_tx (tn_tx T) :: node_parts T ++
  wire_metadata (tn_metadata T) :: map contract_part (tn_contracts T).
Record transaction_ok (T : transaction) : Prop := {
  ok_tx : tx_ok (tn_tx T);
  ok_nodes : Forall plain_node (tn_nodes T);
  ok_metadata : md_ok (tn_metadata T);
  ok_contracts : Forall plain_contract (tn_contracts T);
  ok_nodes_count : tx_nodes_count (tn_tx T) = Z.of_nat (length (tn_nodes T));
  ok_contracts_count : md_input_contracts_count (tn_metadata T) = Z.of_nat (length (tn_contracts T));
  ok_few : Z.of_nat (length (wire_parts T)) < 2 ^ 31
}.

Lemma decodes_only {A} (fields : Z → option (field_handler context A)) zero buf v v' :
  parses_as True (λ _ _, True) fields buf zero v → PreparedRun.decodes fields zero buf v' → v' = v.
Proof.
  intros Hr (g & g' & E). destruct (Hr g g I _ (le_n _)) as [[_ Ef]|(a & s & E1 & -> & _)].
  - unfold pb_decode_inner in E. by rewrite E in Ef.
  - unfold pb_decode_inner in E. rewrite E in E1. congruence.
Qed.
Lemma any_change : PreOrder (λ _ _ : context, True).
Proof. by split. Qed.
Lemma context_alloc n (s : context) : step_to True s (pb_realloc n : M context unit) (λ _ _, True).
Proof.
  unfold pb_realloc, g_realloc, step_to. destruct (heap_has _ _); [right; eauto|by left].
Qed.

(** The ranges of what was written. *)
Lemma daml_tx_ranges tx : tx_ok tx → header_short tx.
Proof.
  intros [_ _ _ _ Hm]. unfold wire_daml_tx in Hm. apply measured_app in Hm as [Hm _].
  by eapply short_opt_measured.
Qed.
Lemma metadata_wire_ranges m : md_ok m → metadata_ranges m.
Proof.
  intros [_ Ha Hg Hp Hc Hmin Hmax _ _ Hm]. unfold wire_metadata in Hm.
  apply measured_app in Hm as [Hi%measured_bytes Hm]. apply measured_app in Hm as [Hy Hm].
  do 2 apply measured_app in Hm as [? Hm].
  unfold wire_submitter in Hi. apply measured_app in Hi as [Hi1 Hi2].
  split; [split|done..|unfold is_count, is_i32 in *; lia];
    [by eapply short_strings|by eapply short_opt_measured..].
Qed.
Lemma chain_length tx bufs nodes h : node_chain tx bufs nodes h → length nodes = length bufs.
Proof. induction 1; [done|]. rewrite !length_app. cbn. lia. Qed.

(** The log of a completed transaction is what was written. *)
Lemma wire_log T t hash : transaction_ok T → wire_parts T = tl_parts t → hashed t hash →
  tl_tx t = tn_tx T ∧ tl_metadata t = tn_metadata T ∧ tl_node_parts t = node_parts T ∧
  tl_contract_parts t = map contract_part (tn_contracts T).
Proof.
  intros [Htx Hn Hmd Hc En Ec Hfew] Eb [R _ _]. unfold wire_parts, tl_parts in Eb.
  injection Eb as Ehdr Eb. destruct R as [[Rh [h Rn]] Ra Rm Rc].
  rewrite <- Ehdr in Rh.
  apply (decodes_only _ _ _ (tn_tx T)) in Rh; [|by apply daml_tx_parses; [apply any_change|apply context_alloc|]].
  assert (El : length (node_parts T) = length (tl_node_parts t)).
  { pose proof (f_equal length Eb) as El. rewrite !length_app in El. cbn in El.
    unfold wire_parts in Hfew. cbn [length] in Hfew. rewrite length_app in Hfew. cbn [length] in Hfew.
    unfold all_nodes_arrived in Ra. rewrite Rh, En, (chain_length _ _ _ _ Rn) in Ra.
    rewrite i32_id in Ra by (unfold is_i32; lia). unfold node_parts in *. rewrite length_map. lia. }
  apply app_inj_1 in Eb as [En' Eb]; [|done]. injection Eb as Emd Ec'.
  rewrite <- Emd in Rm.
  apply (decodes_only _ _ _ (tn_metadata T)) in Rm; [|by apply metadata_parses; [apply any_change|apply context_alloc|]].
  done.
Qed.

(** The trees of a transaction, one for each of its nodes. *)
Record trees_of (T : transaction) (f : list tree) : Prop := {
  tt_forest : forest f;
  tt_nodes : map node_of f = tn_nodes T
}.

Lemma completed_trees T g : transaction_ok T → completed (wire_parts T) g →
  ∃ f, trees_of T f ∧ Forall (λ t, ¬ seed_refused (tn_tx T) (atoint (tree_id t)) (tree_node t)) f ∧
    transaction_hash (tn_tx T) f (tn_metadata T) (tn_contracts T) = Some (g_m_hash g).
Proof.
  intros Hok Hc. apply completed_finished in Hc as (t & Eb & Hh & _).
  destruct (wire_log T t _ Hok Eb Hh) as (Etx & Emd & En & Ec).
  destruct Hok as [Htx Hn Hmd Hcs _ _ _]. destruct (ha_read _ _ Hh) as [[_ [h Rn]] _ _ _].
  destruct (chain_forest _ _ _ _ Rn (tn_nodes T) En Hn) as (f & Hf & Ef & _ & Hl).
  exists f. split; [done|]. rewrite <- Etx, <- Emd. split.
  - clear -Hl. induction Hl as [|t' l f nodes [] _ IH]; by constructor.
  - apply hashed_transaction; [done| |done|done|done].
    rewrite <- Etx in Htx. rewrite <- Emd in Hmd.
    split; [by apply daml_tx_ranges|by apply metadata_wire_ranges].
Qed.

(** C5: The hash that is signed is a function of the transaction alone, stated here without
    the parsers.  When a transaction of well-formed parts ([transaction_ok]: the header, the
    metadata and the numbers announced are in range and agree, and nodes and contracts carry
    what the parser requires and values of [value_wf] only, so without labels, text map keys
    or constructors of 64 bytes or more, structured map keys or records without an id) is
    sent as its wire form and completed, whatever happens between the parts, its nodes are
    trees (each under its parent, in the order the parent names its children) and the hash
    that is signed is [transaction_hash] of the header, of the trees under the roots, of the
    metadata and of the disclosed contracts. *)
Theorem signed_hash_is_canonical T g : transaction_ok T → completed (wire_parts T) g →
  ∃ f, trees_of T f ∧
    transaction_hash (tn_tx T) f (tn_metadata T) (tn_contracts T) = Some (g_m_hash g).
Proof.
  intros Hok (f & Hf & _ & Hh)%completed_trees; [|done]. by exists f.
Qed.
End Whole.

(** ** Two transactions with one hash *)

Lemma forest_snoc f t : forest (f ++ [t]) →
  forest f ∧ subtrees t ⊆ f ∧ Forall2 names (node_children (tree_node t)) (subtrees t).
Proof.
  inversion 1 as [E|ts id n ch Hf Hs Hn E]; [by destruct f|].
  apply app_inj_tail in E as [-> <-]. done.
Qed.
(** The subtrees of a tree are trees of the forest. *)
Lemma forest_closed f t : forest f → t ∈ f →
  subtrees t ⊆ f ∧ Forall2 names (node_children (tree_node t)) (subtrees t).
Proof.
  induction 1 as [|ts id n ch _ IH Hs Hn]; [by intros ?%elem_of_nil|].
  intros [Ht|[->|[]%elem_of_nil]%elem_of_cons]%elem_of_app; [|set_solver].
  destruct (IH Ht) as [H1 H2]. split; [set_solver|done].
Qed.

(** One tree under two headers: the same node, with the same seed, over the same subtrees. *)
Inductive same_tree (tx tx' : DamlTransaction) : tree → tree → Prop :=
  | same_tree_node id n ts id' n' ts' : canon_node n = canon_node n' →
      canon_seed (seed_of tx (atoint id)) n = canon_seed (seed_of tx' (atoint id')) n' →
      Forall2 (same_tree tx tx') ts ts' → same_tree tx tx' (Tree id n ts) (Tree id' n' ts').
Definition same_contract (c c' : contract) : Prop :=
  co_created_at c = co_created_at c' ∧ canon_create (co_create c) = canon_create (co_create c') ∧
  canon_value (co_argument c) = canon_value (co_argument c').

Section Commit.
Context `{Sha256} `{Device} `{Screen} `{!Sha256Len}.

(** What a tree of a completed transaction is. *)
Record tree_ok (tx : DamlTransaction) (t : tree) : Prop := {
  tk_node : plain_node (node_of t);
  tk_fits : Z.of_nat (length (wire_node (tree_node t))) ≤ MAX_TRANSACTION_LEN;
  tk_seed : ¬ seed_refused tx (atoint (tree_id t)) (tree_node t)
}.
Definition tree_input (tx : DamlTransaction) (t : tree) : node_input :=
  {| ni_seed := canon_seed (seed_of tx (atoint (tree_id t))) (tree_node t);
     ni_node := tree_node t; ni_hashes := map (tree_hash tx) (subtrees t) |}.
Lemma tree_input_spec tx t : spec_input (tree_input tx t) = spec_tree tx t.
Proof. by destruct t as [id [c v|e v r|f|r] ts]. Qed.
Lemma tree_input_plain tx t : tree_ok tx t →
  Forall2 names (node_children (tree_node t)) (subtrees t) → input_plain (tree_input tx t).
Proof.
  intros [[[Hwf _] _] Hf Hs] Hn. split; cbn [tree_input ni_seed ni_node ni_hashes]; try done.
  - intros h Hh. destruct (decide (length h = SHA256_HASH_LEN)) as [|Hne]; [done|].
    assert (Hbad : ∀ id, seed_of tx id = Some h → bad_seed tx id).
    { intros id. unfold seed_of, bad_seed. destruct (seed_entry tx id) as [s|]; [|done].
      intros Es. exists s. split; [done|]. intros b. rewrite Es. by intros [= <-]. }
    destruct Hs. destruct (tree_node t); try done; cbn in Hh |- *; auto.
  - apply Forall_forall. intros o (t' & -> & _)%list_elem_of_fmap h Hh. unfold tree_hash in Hh.
    destruct (spec_tree tx t'); [|done]. injection Hh as <-. apply sha256_length.
  - rewrite length_map. symmetry. by eapply Forall2_length.
Qed.

(** Trees with one hash are the same, when SHA-256 does not collide on their encodings. *)
Lemma tree_commits tx tx' f f' : forest f → forest f' →
  Forall (tree_ok tx) f → Forall (tree_ok tx') f' →
  (∀ t t' x y, t ∈ f → t' ∈ f' → spec_tree tx t = Some x → spec_tree tx' t' = Some y →
     sha256 x = sha256 y → x = y) →
  ∀ t t', t ∈ f → t' ∈ f' → is_Some (tree_hash tx t) → tree_hash tx t = tree_hash tx' t' →
  same_tree tx tx' t t'.
Proof.
  intros Hf Hf' Hok Hok' NC. induction t as [id n ts IH] using tree_induction.
  intros [id' n' ts'] Ht Ht' Hsome E.
  destruct (forest_closed f _ Hf Ht) as [Hsub Hn], (forest_closed f' _ Hf' Ht') as [Hsub' Hn'].
  pose proof (tree_input_plain tx _ (proj1 (Forall_forall _ _) Hok _ Ht) Hn) as Hi.
  pose proof (tree_input_plain tx' _ (proj1 (Forall_forall _ _) Hok' _ Ht') Hn') as Hi'.
  unfold tree_hash in Hsome, E.
  destruct (spec_tree tx (Tree id n ts)) as [w|] eqn:Ew; [|by destruct Hsome].
  destruct (spec_tree tx' (Tree id' n' ts')) as [w'|] eqn:Ew'; [|done].
  injection E as E. apply (NC _ _ _ _ Ht Ht' Ew Ew') in E as <-.
  rewrite <- tree_input_spec in Ew, Ew'.
  destruct (inputs_agree _ _ w Hi Hi' Ew Ew') as (E1 & E2 & E3).
  cbn [tree_input ni_seed ni_node ni_hashes tree_id tree_node subtrees] in *.
  constructor; [done| |].
  { by destruct n, n'. }
  apply (input_kids_some _ _ Hi) in Ew. cbn [tree_input ni_hashes subtrees] in Ew.
  clear -IH Hsub Hsub' Ew E3. revert ts' Hsub' E3.
  induction IH as [|t ts IHt _ IHts]; intros [|t' ts'] Hsub' E3; cbn [map] in *; try done.
  apply Forall_cons in Ew as [Et Ew].
  constructor; [apply IHt; [set_solver|set_solver|done|congruence]|].
  apply IHts; [done|set_solver|set_solver|congruence].
Qed.

(** ** Blocks *)

Lemma each_hash_inj hs : ∀ hs' y, Forall is_hash hs → Forall is_hash hs' →
  spec_each spec_hash hs = Some y → spec_each spec_hash hs' = Some y → hs = hs'.
Proof.
  assert (Hb : ∀ o h, is_hash o → spec_hash o = Some h → o = Some h ∧ length h = SHA256_HASH_LEN).
  { intros [h|] h' Ho; [|done]. intros [= <-]. specialize (Ho h eq_refl). by rewrite take_hash. }
  induction hs as [|o hs IH]; intros [|o' hs'] y Hh Hh'; cbn [spec_each]; try done.
  - intros [= <-] (h & z & Ho & _ & E)%cat2_some. apply Forall_cons in Hh' as [Hh' _].
    destruct (Hb _ _ Hh' Ho) as [_ Hl]. by destruct h.
  - intros (h & z & Ho & _ & ->)%cat2_some [= E]. apply Forall_cons in Hh as [Hh _].
    destruct (Hb _ _ Hh Ho) as [_ Hl]. by destruct h.
  - intros (h & z & Ho & Hz & ->)%cat2_some (h' & z' & Ho' & Hz' & E)%cat2_some.
    apply Forall_cons in Hh as [Hh Hhs], Hh' as [Hh' Hhs'].
    destruct (Hb _ _ Hh Ho) as [-> Hl], (Hb _ _ Hh' Ho') as [-> Hl'].
    apply app_inj_1 in E as [-> ->]; [|by rewrite Hl]. f_equal. by eapply IH.
Qed.
Lemma tree_hash_is_hash tx t : is_hash (tree_hash tx t).
Proof.
  intros h. unfold tree_hash. destruct (spec_tree tx t); [|done]. intros [= <-]. apply sha256_length.
Qed.
(** The hash of a contract, and its bytes. *)
Definition contract_text (c : contract) : option bytes :=
  spec_create None (co_create c) (co_argument c).
Lemma contract_bytes_agree c c' y y' x x' : plain_contract c → plain_contract c' →
  spec_contract c = Some y → spec_contract c' = Some y' → y ++ x = y' ++ x' →
  co_created_at c = co_created_at c' ∧ x = x' ∧
  ∃ w w', contract_text c = Some w ∧ contract_text c' = Some w' ∧ sha256 w = sha256 w'.
Proof.
  intros [_ Ht _] [_ Ht' _]. unfold spec_contract, contract_text.
  intros (u & h & [= <-] & Hh & ->)%cat2_some (u' & h' & [= <-] & Hh' & ->)%cat2_some.
  destruct (spec_create None _ _) as [w|]; [|done]. destruct (spec_create None _ _) as [w'|]; [|done].
  cbn [option_map spec_hash] in Hh, Hh'. unfold hw_finalize in *.
  rewrite !take_hash in Hh, Hh' by apply sha256_length. injection Hh as <-. injection Hh' as <-.
  rewrite <- !app_assoc. intros [E1 E2]%app_inj_1; [|done].
  apply app_inj_1 in E2 as [E2 E3]; [|by rewrite !sha256_length].
  split; [by apply be64_inj|]. split; [done|]. by exists w, w'.
Qed.
Lemma contract_same c c' w : plain_contract c → plain_contract c' →
  contract_text c = Some w → contract_text c' = Some w → co_created_at c = co_created_at c' →
  same_contract c c'.
Proof.
  intros [Hwf Ht Hm] [Hwf' Ht' Hm'] E E' Et.
  apply measured_app in Hm as [Hm%measured_bytes _], Hm' as [Hm'%measured_bytes _].
  destruct (unamb_create (None, co_create c, co_argument c) (None, co_create c', co_argument c') w w [] [])
    as [Ec _]; try done. apply pair_equal_spec in Ec as [Ec Ev].
    apply pair_equal_spec in Ec as [_ Ec].
  done.
Qed.
Lemma contract_nonempty c y : spec_contract c = Some y → y ≠ [].
Proof. unfold spec_contract. by intros (u & h & [= <-] & _ & ->)%cat2_some. Qed.
Lemma contracts_commit cs : ∀ cs' y, Forall plain_contract cs → Forall plain_contract cs' →
  (∀ c c' w w', c ∈ cs → c' ∈ cs' → contract_text c = Some w → contract_text c' = Some w' →
     sha256 w = sha256 w' → w = w') →
  spec_each spec_contract cs = Some y → spec_each spec_contract cs' = Some y →
  Forall2 same_contract cs cs'.
Proof.
  induction cs as [|c cs IH]; intros [|c' cs'] y Hc Hc' NC; cbn [spec_each]; try done.
  - intros [= <-] (h & z & Ho%contract_nonempty & _ & E)%cat2_some. by destruct h.
  - intros (h & z & Ho%contract_nonempty & _ & ->)%cat2_some [= E]. by destruct h.
  - intros (h & z & Ho & Hz & ->)%cat2_some (h' & z' & Ho' & Hz' & E)%cat2_some.
    apply Forall_cons in Hc as [Hc Hcs], Hc' as [Hc' Hcs'].
    destruct (contract_bytes_agree c c' h h' z z' Hc Hc' Ho Ho' E) as (Et & <- & w & w' & Hw & Hw' & Es).
    apply (NC c c' w w') in Es as <-; [|set_solver|set_solver|done|done].
    constructor; [by eapply contract_same|].
    apply (IH cs' z); try done. intros d d' v v' Hd Hd'. apply NC; set_solver.
Qed.

(** ** The theorem *)

(** The texts SHA-256 is applied to for the hash of a transaction. *)
Definition text_of (T : transaction) (f : list tree) (x : bytes) : Prop :=
  spec_tx_text (tn_tx T) f = Some x ∨ spec_md_text (tn_metadata T) (tn_contracts T) = Some x ∨
  (∃ w1 w2, spec_tx_text (tn_tx T) f = Some w1 ∧
     spec_md_text (tn_metadata T) (tn_contracts T) = Some w2 ∧ x = combined w1 w2) ∨
  (∃ t, t ∈ f ∧ spec_tree (tn_tx T) t = Some x) ∨
  (∃ c, c ∈ tn_contracts T ∧ contract_text c = Some x).
Definition no_hash_collision (T T' : transaction) : Prop :=
  ∀ f f' x y, trees_of T f → trees_of T' f' → text_of T f x → text_of T' f' y →
    sha256 x = sha256 y → x = y.
(** Every part fits the buffer of the device. *)
Definition fits_device (T : transaction) : Prop :=
  Forall (λ b : bytes, Z.of_nat (length b) ≤ MAX_TRANSACTION_LEN) (wire_parts T).
(** The same transaction up to what canonical encoding forgets. *)
Definition same_transaction (T T' : transaction) : Prop :=
  header_view (tn_tx T) = header_view (tn_tx T') ∧
  metadata_view (tn_metadata T) = metadata_view (tn_metadata T') ∧
  (∃ f f', trees_of T f ∧ trees_of T' f' ∧
     Forall2 (same_tree (tn_tx T) (tn_tx T')) (roots_of (tn_tx T) f) (roots_of (tn_tx T') f')) ∧
  Forall2 same_contract (tn_contracts T) (tn_contracts T').

Lemma trees_ok T f : transaction_ok T → fits_device T → trees_of T f →
  Forall (λ t, ¬ seed_refused (tn_tx T) (atoint (tree_id t)) (tree_node t)) f →
  Forall (tree_ok (tn_tx T)) f.
Proof.
  intros Hok Hfit [_ Hn] Hs. apply Forall_forall. intros t Ht.
  assert (Hin : node_of t ∈ tn_nodes T).
  { rewrite <- Hn. by apply list_elem_of_fmap_2. }
  split.
  - by apply (proj1 (Forall_forall _ _) (ok_nodes _ Hok)).
  - assert (Hp : tree_part t ∈ wire_parts T).
    { unfold wire_parts, node_parts. apply elem_of_cons. right. apply elem_of_app. left.
      apply list_elem_of_fmap. by exists (node_of t). }
    apply (proj1 (Forall_forall _ _) Hfit) in Hp. unfold tree_part, wire_node_part in Hp.
    pose proof (wire_bytes_length NODE_V1_TAG (wire_node (tree_node t))).
    rewrite length_app in Hp. lia.
  - by apply (proj1 (Forall_forall _ _) Hs).
Qed.

Lemma tx_text_commits tx tx' f f' w : header_short tx → header_short tx' →
  spec_tx_text tx f = Some w → spec_tx_text tx' f' = Some w →
  header_view tx = header_view tx' ∧
  map (tree_hash tx) (roots_of tx f) = map (tree_hash tx') (roots_of tx' f') ∧
  Forall is_Some (map (tree_hash tx) (roots_of tx f)).
Proof.
  intros Hs Hs' (p & r & (a & h & [= <-] & Hh & ->)%cat2_some & Hr & ->)%cat2_some
    (p' & r' & (a' & h' & [= <-] & Hh' & ->)%cat2_some & Hr' & E)%cat2_some.
  rewrite <- !app_assoc in E. apply app_inv_head in E.
  destruct (unamb_header _ _ _ _ _ _ Hs Hs' Hh Hh' E) as [Ev <-]. split; [done|]. split.
  - apply (each_hash_inj _ _ r); [..|done|done]; apply Forall_forall;
      intros o (t & -> & _)%list_elem_of_fmap; apply tree_hash_is_hash.
  - destruct (each_some _ _ _ Hr) as (ws & _ & Hws).
    clear -Hws. induction Hws as [|[o|] v os vs Ho _ IH]; by constructor.
Qed.
Lemma md_text_commits md md' cs cs' w : metadata_ranges md → metadata_ranges md' →
  spec_md_text md cs = Some w → spec_md_text md' cs' = Some w →
  metadata_view md = metadata_view md' ∧
  ∃ y, spec_each spec_contract cs = Some y ∧ spec_each spec_contract cs' = Some y.
Proof.
  intros Hs Hs' (p & r & (a & h & [= <-] & Hh & ->)%cat2_some & Hr & ->)%cat2_some
    (p' & r' & (a' & h' & [= <-] & Hh' & ->)%cat2_some & Hr' & E)%cat2_some.
  rewrite <- !app_assoc in E. apply app_inv_head in E.
  destruct (unamb_metadata _ _ _ _ _ _ Hs Hs' Hh Hh' E) as [Ev <-]. split; [done|by exists r].
Qed.
Lemma roots_commit tx tx' f f' : forest f → forest f' → Forall (tree_ok tx) f →
  Forall (tree_ok tx') f' →
  (∀ t t' x y, t ∈ f → t' ∈ f' → spec_tree tx t = Some x → spec_tree tx' t' = Some y →
     sha256 x = sha256 y → x = y) →
  map (tree_hash tx) (roots_of tx f) = map (tree_hash tx') (roots_of tx' f') →
  Forall is_Some (map (tree_hash tx) (roots_of tx f)) →
  Forall2 (same_tree tx tx') (roots_of tx f) (roots_of tx' f').
Proof.
  intros Hf Hf' Hok Hok' NC.
  assert (Hin : roots_of tx f ⊆ f) by (intros t Ht; by apply list_elem_of_filter in Ht as [_ Ht]).
  assert (Hin' : roots_of tx' f' ⊆ f') by (intros t Ht; by apply list_elem_of_filter in Ht as [_ Ht]).
  revert Hin'. generalize (roots_of tx' f'). revert Hin. generalize (roots_of tx f).
  intros ts. induction ts as [|t ts IH]; intros Hin [|t' ts'] Hin' E Hs; cbn [map] in *; try done.
  apply Forall_cons in Hs as [Ht Hs]. constructor.
  - apply (tree_commits tx tx' f f'); try done; [set_solver|set_solver|congruence].
  - apply IH; [set_solver|set_solver|congruence|done].
Qed.

(** C6: The signature commits to the whole transaction, not only to hashes of its parts.  Two
    transactions of well-formed parts ([transaction_ok], which leaves out the values that are
    not hashed canonically, such as records without an id) that fit the buffer of the device
    ([fits_device]), completed with the same hash, have the same header (its version and the
    number of roots), metadata and disclosed contracts, and under their roots the same trees:
    node by node the same kind, the same fields, the same seed, the same argument, choice and
    result values, and the same children in the same order.  All this is up to what the
    encoding forgets (node ids, what follows a NUL in a text, the letter case of hexadecimal
    digits), and unless SHA-256 collides on the texts hashed for the two. *)
Theorem signed_hash_commits_to_transaction T T' g g' : transaction_ok T → transaction_ok T' →
  fits_device T → fits_device T' → completed (wire_parts T) g → completed (wire_parts T') g' →
  no_hash_collision T T' → g_m_hash g = g_m_hash g' → same_transaction T T'.
Proof.
  intros Hok Hok' Hfit Hfit' Hc Hc' NC E.
  destruct (completed_trees T g Hok Hc) as (f & Hf & Hs & Hh).
  destruct (completed_trees T' g' Hok' Hc') as (f' & Hf' & Hs' & Hh').
  pose proof (trees_ok T f Hok Hfit Hf Hs) as Ht.
  pose proof (trees_ok T' f' Hok' Hfit' Hf' Hs') as Ht'.
  specialize (NC f f'). unfold transaction_hash, hw_finalize in Hh, Hh'.
  destruct (spec_tx_text (tn_tx T) f) as [w1|] eqn:W1; [|done].
  destruct (spec_md_text _ _) as [w2|] eqn:W2; [|done].
  destruct (spec_tx_text (tn_tx T') f') as [x1|] eqn:X1; [|done].
  destruct (spec_md_text (tn_metadata T') _) as [x2|] eqn:X2; [|done].
  injection Hh as Hh. injection Hh' as Hh'. rewrite <- Hh, <- Hh' in E.
  apply NC in E; [|done|done|by right; right; left; eauto|by right; right; left; eauto].
  apply combined_inj in E as [E1 E2].
  apply NC in E1 as <-; [|done|done|by left|by left].
  apply NC in E2 as <-; [|done|done|by right; left|by right; left].
  destruct (tx_text_commits _ _ _ _ _ (daml_tx_ranges _ (ok_tx _ Hok)) (daml_tx_ranges _ (ok_tx _ Hok')) W1 X1)
    as (Ehdr & Eroots & Hsome).
  destruct (md_text_commits _ _ _ _ _ (metadata_wire_ranges _ (ok_metadata _ Hok))
    (metadata_wire_ranges _ (ok_metadata _ Hok')) W2 X2) as (Emd & y & Y & Y').
  split_and!; [done|done| |].
  - exists f, f'. split_and!; [done|done|].
    apply (roots_commit _ _ f f'); [apply Hf|apply Hf'|done|done| |done|done].
    intros t t' x y' Hin Hin' Ex Ey. apply NC; [done|done| |]; do 3 right; left; eauto.
  - apply (contracts_commit _ _ y); [apply Hok|apply Hok'| |done|done].
    intros c c' w w' Hin Hin' Ew Ew'. apply NC; [done|done| |]; do 4 right; eauto.
Qed.
End Commit.

(** ** A transfer of two nodes and a disclosed contract *)

Definition transfer : transaction := {|
  tn_tx := {| tx_version := Some (lit "2.1"); tx_roots := [Some (lit "0")]; tx_nodes_count := 2;
    tx_node_seeds := [{| ns_node_id := 0; ns_seed := Some (replicate SHA256_HASH_LEN 5) |}] |};
  tn_nodes := [(lit "1", node_1); (lit "0", node_0)];
  tn_metadata := {| md_has_submitter_info := true;
    md_submitter_info := {| si_act_as := [Some (lit "alice")]; si_command_id := Some (lit "cmd") |};
    md_synchronizer_id := Some (lit "sync"); md_mediator_group := 1;
    md_transaction_uuid := Some (lit "uuid"); md_preparation_time := 1000;
    md_input_contracts_count := 1; md_has_min_ledger_effective_time := true;
    md_min_ledger_effective_time := 7; md_has_max_ledger_effective_time := false;
    md_max_ledger_effective_time := 0 |};
  tn_contracts := [{| co_create := transfer_create <| c_lf_version := Some (lit "2.2") |>;
                      co_argument := V_unit; co_created_at := 9 |}]
|}.
Definition transfer_parts : list bytes := Eval vm_compute in wire_parts transfer.
Definition before_last : context := Eval vm_compute in
  default toy_start (toy_feed (removelast transfer_parts) toy_start).
Definition transfer_done : context := Eval vm_compute in
  snd (toy_part (List.last transfer_parts []) before_last).
Lemma transfer_completed : @completed toy_sha roomy toy_screen (wire_parts transfer) transfer_done.
Proof.
  replace (wire_parts transfer) with (removelast transfer_parts ++ [List.last transfer_parts []])
    by (by vm_compute).
  apply (feed_completed _ _ before_last); [by vm_compute|by vm_compute|done].
Qed.
#[local] Ltac small := unfold is_count, is_u32, is_u64, PB_SIZE_MAX; cbn; lia.
Lemma transfer_tx_ok : tx_ok (tn_tx transfer).
Proof.
  split; [by vm_compute|small|..|by vm_compute|by vm_compute].
  constructor; [|constructor]. split; [small|]. intros b [= <-]. by vm_compute.
Qed.
Lemma transfer_metadata_ok : md_ok (tn_metadata transfer).
Proof. split; [done|by vm_compute|small..|done|done|by vm_compute]. Qed.
Lemma transfer_nodes_ok : Forall plain_node (tn_nodes transfer).
Proof.
  constructor; [|constructor; [|constructor]]; (split; [split; [by vm_compute|
    split; [cbn; lia|by vm_compute]]|]); intros s Hs; cbn in Hs.
  - by apply elem_of_nil in Hs.
  - apply list_elem_of_singleton in Hs as [= ->]. by vm_compute.
Qed.
Lemma transfer_ok : transaction_ok transfer.
Proof.
  split; [apply transfer_tx_ok|apply transfer_nodes_ok|apply transfer_metadata_ok| |done|done|
    by vm_compute].
  constructor; [|constructor]. split; [by vm_compute|small|by vm_compute].
Qed.

Lemma signed_hash_is_canonical_witness : ∃ f, trees_of transfer f ∧
  @transaction_hash toy_sha (tn_tx transfer) f (tn_metadata transfer) (tn_contracts transfer) =
    Some (g_m_hash transfer_done).
Proof. exact (@signed_hash_is_canonical toy_sha roomy toy_screen toy_sha_len transfer transfer_done
  transfer_ok transfer_completed). Defined.

(** The trees of the transfer, and its texts. *)
Definition transfer_forest : list tree :=
  [Tree (lit "1") node_1 []; Tree (lit "0") node_0 [Tree (lit "1") node_1 []]].
Lemma transfer_trees f : trees_of transfer f → f = transfer_forest.
Proof.
  intros [Hf Hn]. destruct f as [|[i1 n1 c1] [|[i0 n0 c0] [|]]]; try done.
  unfold node_of in Hn. cbn [map tree_id tree_node tn_nodes transfer] in Hn.
  injection Hn as -> -> -> ->.
  destruct (forest_snoc [_] _ Hf) as ((_ & _ & H1)%(forest_snoc []) & Hsub & H0).
  cbn [tree_node subtrees] in *. apply Forall2_nil_inv_l in H1 as ->.
  apply Forall2_cons_inv_l in H0 as (t & ts & _ & H0 & ->). apply Forall2_nil_inv_l in H0 as ->.
  assert (t = Tree (lit "1") node_1 []) as -> by set_solver. done.
Qed.
Definition transfer_texts : list bytes :=
  let w1 := default [] (@spec_tx_text toy_sha (tn_tx transfer) transfer_forest) in
  let w2 := default [] (@spec_md_text toy_sha (tn_metadata transfer) (tn_contracts transfer)) in
  w1 :: w2 :: @combined toy_sha w1 w2 ::
  map (λ t, default [] (@spec_tree toy_sha (tn_tx transfer) t)) transfer_forest ++
  map (λ c, default [] (contract_text c)) (tn_contracts transfer).
Lemma transfer_text f x : trees_of transfer f → @text_of toy_sha transfer f x → x ∈ transfer_texts.
Proof.
  intros ->%transfer_trees Hx. unfold transfer_texts. rewrite !elem_of_cons, elem_of_app.
  destruct Hx as [->|[->|[(w1 & w2 & -> & -> & ->)|[(t & Ht & E)|(c & Hc & E)]]]].
  - by left.
  - by right; left.
  - by right; right; left.
  - do 3 right; left. apply list_elem_of_fmap. exists t. by rewrite E.
  - do 4 right. apply list_elem_of_fmap. exists c. by rewrite E.
Qed.
Lemma transfer_no_collision : @no_hash_collision toy_sha transfer transfer.
Proof.
  assert (Hall : forallb (λ x, forallb (λ y, bool_decide (toy_sha x = toy_sha y → x = y)) transfer_texts)
    transfer_texts = true) by (vm_compute; reflexivity).
  intros f f' x y Hf Hf' Hx%transfer_text Hy%transfer_text; [|done..]. intros E.
  rewrite forallb_forall in Hall. apply list_elem_of_In in Hx, Hy. specialize (Hall x Hx).
  rewrite forallb_forall in Hall. by apply (bool_decide_eq_true_1 _ (Hall y Hy)).
Qed.
Lemma transfer_fits : fits_device transfer.
Proof. repeat constructor; by vm_compute. Qed.

Lemma signed_hash_commits_to_transaction_witness : same_transaction transfer transfer.
Proof.
  exact (@signed_hash_commits_to_transaction toy_sha roomy toy_screen toy_sha_len transfer transfer
    transfer_done transfer_done transfer_ok transfer_ok transfer_fits transfer_fits
    transfer_completed transfer_completed transfer_no_collision eq_refl).
Defined.
