(* ===== verification/ClearTruth.v ===== *)
(** * The screen and the transaction

    What a clear signing screen says of a transaction on the wire: the values check was told
    of the nodes by the holding parser, and [HoldingRead] says what the holding parser makes
    of a node.  Put together, the screen is true of the holdings that the create nodes of the
    transaction write, read off the data of the nodes. *)

From S2P Require Import Prelude Constants Utils DisplayConfig Pb Wire WireLogic Messages CanonicalHash.
From S2P Require Import TreeCheck ValuesCheck HashingParser HoldingParser HoldingRead DisplayParser.
From S2P Require Import Context Prepared PreparedRun TxFlow TxSamples TxHash.
From S2P Require Import HashLogic ValueHash ValueCode NodeHash NodeCode ReadLogic TxWire TreeHash.

(** ** The holdings of a transaction *)

Definition node_holdings (n : node) : list written :=
  match n with
  | N_create c v =>
      match find_holding (c_template_id c) with
      | Some cfg => option_list (holding_of cfg v)
      | None => []
      end
  | _ => []
  end.
Definition transaction_holdings (T : transaction) : list written :=
  flat_map (λ p, node_holdings (snd p)) (tn_nodes T).
(** A create of a listed template, whose holding can be read, or of one without value. *)
Definition node_understood (n : node) : Prop :=
  match n with
  | N_create c v =>
      match find_holding (c_template_id c) with
      | Some cfg => is_Some (holding_of cfg v)
      | None => is_non_holding (c_template_id c) = true
      end
  | _ => True
  end.

Lemma reports_holdings n : holdings_written (node_reports n) = node_holdings n.
Proof.
  destruct n as [c v| | |]; try done; cbn [node_reports node_holdings node_understood].
  destruct (find_holding (c_template_id c)) as [cfg|]; [by destruct (holding_of cfg v)|].
  by destruct (is_non_holding (c_template_id c)).
Qed.
Lemma holdings_app a b : holdings_written (a ++ b) = holdings_written a ++ holdings_written b.
Proof. apply omap_app. Qed.
Lemma silent_holdings (P : value_event → Prop) evs :
  (∀ ev, P ev → match ev with VHolding _ => False | _ => True end) →
  Forall P evs → holdings_written evs = [].
Proof. intros HP. induction 1 as [|ev evs Hev _ IH]; [done|]. specialize (HP ev Hev). destruct ev; done || exact IH. Qed.

Lemma reported_silent b ev : reported b ev → match ev with VHolding _ => False | _ => True end.
Proof. by destruct ev. Qed.
Lemma bind_silent ev : bind_report ev → match ev with VHolding _ => False | _ => True end.
Proof. by destruct ev. Qed.

(** The screens the check was bound to, and that the last of them is all that counts. *)
Definition bound (evs : list value_event) : list (list tx_field_t * destination_e * amount_check_e) :=
  omap (λ ev, match ev with VBind f d c => Some (f, d, c) | _ => None end) evs.
Lemma bound_app a b : bound (a ++ b) = bound a ++ bound b.
Proof. apply omap_app. Qed.
Lemma unbound (P : value_event → Prop) evs : (∀ ev, P ev → ¬ bind_report ev) →
  Forall P evs → bound evs = [].
Proof.
  intros HP. induction 1 as [|ev evs Hev _ IH]; [done|]. specialize (HP ev Hev).
  destruct ev; exact IH || by destruct HP.
Qed.
Lemma reports_unbound n : bound (node_reports n) = [].
Proof.
  destruct n as [c v| | |]; try done; cbn [node_reports node_holdings node_understood].
  destruct (find_holding (c_template_id c)) as [cfg|]; [by destruct (holding_of cfg v)|].
  by destruct (is_non_holding (c_template_id c)).
Qed.

Section Truth.
Context `{Sha256} `{Device} `{Screen} `{!Sha256Len}.

Lemma run_ok_prefix evs more s : st_ok (foldl value_step s (evs ++ more)) = true →
  st_ok (foldl value_step s evs) = true.
Proof.
  rewrite foldl_app. generalize (foldl value_step s evs). clear s evs.
  induction more as [|ev more IH]; intros s; [done|]. cbn [foldl]. intros Hok%IH.
  destruct (st_ok s) eqn:E; [done|]. by rewrite value_step_ok_only_drops in Hok.
Qed.
Lemma reports_understood n s : st_ok (foldl value_step s (node_reports n)) = true → node_understood n.
Proof.
  destruct n as [c v| | |]; try done; cbn [node_reports node_holdings node_understood].
  destruct (find_holding (c_template_id c)) as [cfg|]; [destruct (holding_of cfg v) as [w|]; [by exists w|]|
    destruct (is_non_holding (c_template_id c)); [done|]]; cbn [foldl value_step]; unfold values_report_unknown_template; by rewrite give_up_ok.
Qed.

(** ** The nodes *)

(** What the check was told of a node, with the holdings of the node in place of what the
    holding parser reported. *)
Lemma told_exactly st id n evs : part_ok id n → values_told st (wire_node_part id n) evs →
  st_ok (foldl value_step st evs) = true →
  ∃ evs', foldl value_step st evs' = foldl value_step st evs ∧ node_understood n ∧
    holdings_written evs' = node_holdings n ∧ bound evs' = bound evs.
Proof.
  intros Hok (used & held & binds & v & v' & -> & Hu & Hh & Hb & Ev & Ec & Ev') Hst.
  rewrite app_assoc in Hst. pose proof (run_ok_prefix _ _ _ Hst) as Hst'.
  pose proof (run_ok_prefix _ _ _ Hst') as Hst0. rewrite foldl_app, <- Ev, <- Ev' in Hst'.
  rewrite <- Ev in Hst0. destruct (collect_exact id n v Hok Hst0) as [_ Hx]. rewrite Ec in Hx. cbn in Hx.
  destruct Hx as [Ex|[_ Ex]]; [|congruence].
  exists (used ++ node_reports n ++ binds). split_and!.
  - rewrite !foldl_app, <- Ev. by rewrite <- Ex, <- Ev'.
  - apply (reports_understood n (vp_store v)). by rewrite <- Ex.
  - rewrite !holdings_app, reports_holdings, (silent_holdings _ used (reported_silent false) Hu).
    by rewrite (silent_holdings _ binds bind_silent Hb), app_nil_r.
  - rewrite !bound_app, reports_unbound. by rewrite (unbound _ held holding_not_bind Hh).
Qed.

(** The calls of the nodes, each node's by [told_exactly]. *)
Lemma chain_told tx bufs nodes h s : node_chain tx bufs nodes h →
  ∀ ps, bufs = map (λ p, wire_node_part (fst p) (snd p)) ps → Forall plain_node ps →
  st_ok (value_run (flat_map nl_values nodes) s) = true →
  ∃ evs, value_run evs s = value_run (flat_map nl_values nodes) s ∧
    Forall (λ p, node_understood (snd p)) ps ∧
    holdings_written evs = flat_map (λ p, node_holdings (snd p)) ps ∧
    bound evs = bound (flat_map nl_values nodes).
Proof.
  induction 1 as [h h0 Hh|bufs nodes buf l s1 s2 s0 _ IH Htx [_ _ _ _ _ Hv]]; intros ps Eb Hps Hst.
  { symmetry in Eb. apply map_eq_nil in Eb as ->. by exists []. }
  symmetry in Eb. apply map_eq_app in Eb as (ps' & q & -> & Eb & Eq).
  destruct q as [|[id n] [|? ?]]; try done. injection Eq as <-. apply Forall_app in Hps as [Hps Hp].
  apply Forall_cons in Hp as [[Hok _] _].
  rewrite flat_map_app in *. cbn [flat_map fst snd] in *. rewrite app_nil_r in *.
  change (value_run (flat_map nl_values nodes) s0) with (value_run (flat_map nl_values nodes) s) in Hv.
  destruct (IH ps' (eq_sym Eb) Hps (run_ok_prefix _ _ _ Hst)) as (evs & Er & Hund & Eh & Ebd).
  unfold value_run in *. rewrite foldl_app in Hst.
  destruct (told_exactly _ id n (nl_values l) Hok Hv Hst) as (evs' & Er' & Hn & Eh' & Ebd').
  exists (evs ++ evs'). split_and!.
  - by rewrite !foldl_app, Er, Er'.
  - apply Forall_app. split; [done|by constructor].
  - rewrite holdings_app, Eh, Eh', flat_map_app. cbn. by rewrite app_nil_r.
  - by rewrite !bound_app, Ebd, Ebd'.
Qed.
Lemma contracts_silent parts ls : Forall2 contract_logged parts ls →
  holdings_written (flat_map cl_values ls) = [].
Proof.
  induction 1 as [|b l parts ls (s & s' & [_ _ _ _ Hv]) _ IH]; [done|]. cbn [flat_map].
  rewrite holdings_app, IH, app_nil_r. apply (silent_holdings contract_report); [by intros []|done].
Qed.

(** ** The theorem *)

(** The calls of a whole transaction, with the holdings of its creates in place of what was
    reported. *)
Lemma holdings_run T t hash s : transaction_ok T → wire_parts T = tl_parts t → hashed t hash →
  fst (values_can_clear_sign (value_run (tl_values t) s)) = true →
  ∃ evs, value_run evs s = value_run (tl_values t) s ∧
    Forall (λ p, node_understood (snd p)) (tn_nodes T) ∧
    holdings_written evs = transaction_holdings T ∧ bound evs = bound (tl_values t).
Proof.
  intros Hok Eb Hh (Hst & _)%values_verdict_iff. destruct (wire_log T t hash Hok Eb Hh) as (_ & _ & En & _).
  destruct (ha_read _ _ Hh) as [[_ [h Rn]] _ _ Rc]. unfold tl_values, all_values in *.
  destruct (chain_told _ _ _ _ s Rn (tn_nodes T) En (ok_nodes _ Hok) (run_ok_prefix _ _ _ Hst))
    as (evs & Er & Hund & Eh & Ebd).
  exists (evs ++ flat_map cl_values (tl_contracts t)). split_and!; [|done|..].
  - unfold value_run in *. by rewrite !foldl_app, Er.
  - by rewrite holdings_app, Eh, (contracts_silent _ _ Rc), app_nil_r.
  - by rewrite !bound_app, Ebd.
Qed.
Lemma clear_signed_told T t d hash : transaction_ok T → wire_parts T = tl_parts t →
  hashed t hash → clear_signed t d →
  Forall (λ p, node_understood (snd p)) (tn_nodes T) ∧ screen_is_true (transaction_holdings T) (dp_pairs d).
Proof.
  intros Hok Eb Hh [_ (conf & fields & fields' & Hin & Hf & Hl & Hsh & Hp) (s & _ & Hv & _)].
  destruct (holdings_run T t hash s Hok Eb Hh Hv) as (evs & Er & Hund & <- & Ebd). split; [done|].
  apply (events_true _ s); [by rewrite Er|]. exists conf, fields, fields'. split_and!; try done.
  rewrite <- Hl. unfold last_bind.
  by change (last (bound evs) = last (bound (tl_values t))); rewrite Ebd.
Qed.

(** C3: Clear signing is true of the transaction itself.  When a transaction is sent as its
    wire form and completed with clear signing on, whatever its well-formed nodes and values
    are ([transaction_ok]), the hash that is signed is that of its trees, metadata and contracts; every create is of a
    listed template, and of a template with value exactly one owner, amount, admin and
    instrument is found in its argument; and the lines on screen are true of the holdings
    that the arguments of the creates spell: nothing is moved behind a screen that moves
    nothing, and otherwise every holding belongs to the accounts shown, with the shown
    amount, admin and instrument, unless SHA-256 collides on the texts compared. *)
Theorem clear_signed_screen_is_true_of_transaction T g : transaction_ok T →
  completed (wire_parts T) g → g_clear_signing_available g = true →
  (∃ f, trees_of T f ∧
     transaction_hash (tn_tx T) f (tn_metadata T) (tn_contracts T) = Some (g_m_hash g)) ∧
  Forall (λ p, node_understood (snd p)) (tn_nodes T) ∧
  screen_is_true (transaction_holdings T) (dp_pairs (g_dp g)).
Proof.
  intros Hok Hc Ha. split.
  - destruct (completed_trees T g Hok Hc) as (f & Hf & _ & Hh). by exists f.
  - apply completed_finished in Hc as (t & Eb & Hh & Hcl). by apply (clear_signed_told T t _ (g_m_hash g)); [..|apply Hcl].
Qed.
End Truth.

(** ** A token transfer

    An exercise of the transfer choice, whose argument the screen shows, over the create of
    the receiver's Amulet. *)

Definition type_id (m e : string) : Identifier :=
  {| package_id := Some (lit "pkg"); module_name := Some (lit m); entity_name := Some (lit e) |}.
Definition party (s : string) : value := V_party (lit s).
Definition transfer_argument : value :=
  V_record (type_id "Splice.Api.Token.TransferInstructionV1" "TransferFactory_Transfer")
    [(lit "transfer", V_record (type_id "Splice.Api.Token.TransferInstructionV1" "Transfer")
       [(lit "sender", party "alice"); (lit "receiver", party "bob");
        (lit "amount", V_numeric (lit "1.0"));
        (lit "instrumentId", V_record (type_id "Splice.Api.Token.HoldingV1" "InstrumentId")
          [(lit "admin", party dso); (lit "id", V_text (lit "Amulet"))])])].
Definition bob_amulet : node := amulet_node (amulet_fields dso "bob" (initial_amount "1.0")).
Definition factory_node : node :=
  N_exercise (transfer_exercise
    <| e_template_id := type_id "Splice.ExternalPartyAmuletRules" "ExternalPartyAmuletRules" |>
    <| e_choice_id := Some (lit "TransferFactory_Transfer") |>) transfer_argument V_unit.
Definition token_transfer : transaction := {|
  tn_tx := {| tx_version := Some (lit "2.1"); tx_roots := [Some (lit "0")]; tx_nodes_count := 2;
    tx_node_seeds := map (λ i, {| ns_node_id := i; ns_seed := Some (replicate SHA256_HASH_LEN 5) |}) [0; 1] |};
  tn_nodes := [(lit "1", bob_amulet); (lit "0", factory_node)];
  tn_metadata := (tn_metadata transfer) <| md_input_contracts_count := 0 |>;
  tn_contracts := []
|}.
Definition token_before : context := Eval vm_compute in
  default toy_start (toy_feed (removelast (wire_parts token_transfer)) toy_start).
Definition token_done : context := Eval vm_compute in
  snd (toy_part (List.last (wire_parts token_transfer) []) token_before).
Lemma token_completed : @completed toy_sha roomy toy_screen (wire_parts token_transfer) token_done.
Proof.
  rewrite (app_removelast_last [] (l := wire_parts token_transfer)) by done.
  apply (feed_completed _ _ token_before); [by vm_compute|by vm_compute|by vm_compute].
Qed.
#[local] Ltac small := unfold is_count, is_u32, is_u64, PB_SIZE_MAX; cbn; lia.
Lemma token_tx_ok : tx_ok (tn_tx token_transfer).
Proof.
  split; [by vm_compute|small|..|by vm_compute|by vm_compute].
  repeat constructor; cbn; try lia; intros b [= <-]; by vm_compute.
Qed.
Lemma token_metadata_ok : md_ok (tn_metadata token_transfer).
Proof. split; [done|by vm_compute|small..|done|done|by vm_compute]. Qed.
Lemma token_nodes_ok : Forall plain_node (tn_nodes token_transfer).
Proof.
  constructor; [|constructor; [|constructor]]; (split; [split; [by vm_compute|
    split; [cbn; lia|by vm_compute]]|]); intros s Hs; cbn in Hs.
  - by apply elem_of_nil in Hs.
  - apply list_elem_of_singleton in Hs as [= ->]. by vm_compute.
Qed.
Lemma token_ok : transaction_ok token_transfer.
Proof.
  split; [apply token_tx_ok|apply token_nodes_ok|apply token_metadata_ok|constructor|done|done|
    by vm_compute].
Qed.
Lemma token_holdings : transaction_holdings token_transfer =
  [amulet_written dso "bob" "1.0"].
Proof. vm_compute. reflexivity. Qed.
Lemma token_screen : dp_pairs (g_dp token_done) =
  Some [line "From" "alice"; line "Amount" "1 CC"; line "To" "bob"].
Proof. reflexivity. Qed.

Lemma clear_signed_screen_is_true_of_transaction_witness :
  @screen_is_true toy_sha toy_screen
    [amulet_written dso "bob" "1.0"]
    (Some [line "From" "alice"; line "Amount" "1 CC"; line "To" "bob"]).
Proof.
  rewrite <- token_holdings, <- token_screen.
  exact (proj2 (proj2 (@clear_signed_screen_is_true_of_transaction toy_sha roomy toy_screen
    toy_sha_len token_transfer token_done token_ok token_completed eq_refl))).
Defined.
