(* ===== verification/ScreenTruth.v ===== *)
(** * The screen of a transaction

    [ScreenNode] says what one part puts on the screen.  Over all the parts of a transaction:
    the screen the user signs by is that of one node of the transaction, or of a disclosed
    contract that a node put its screen off to, line for line; and it is the screen that the
    values check held against the holdings of [ClearTruth]. *)

From S2P Require Import Prelude Constants Utils DisplayConfig DisplayFormat Pb Wire WireLogic Messages CanonicalHash.
From S2P Require Import TreeCheck ValuesCheck HashingParser HoldingParser HoldingRead DisplayParser.
From S2P Require Import HashLogic ValueHash ValueCode NodeHash NodeCode ReadLogic.
From S2P Require Import Sheet ScreenFormat ScreenRead ScreenWalk ScreenNode ScreenSamples.
From S2P Require Import Context Prepared PreparedRun TxFlow TxSamples TxHash TxWire TreeHash ClearTruth.

(** ** The sheets of a transaction *)

Section Sheets.
Variable nodes : list (bytes * node).
Variable contracts : list contract.

(** A screen that a node put off, or a contract that was read for one that was. *)
Inductive put_off : display_config_t * option bytes → Prop :=
  | put_off_by_node id n p : (id, n) ∈ nodes → sh_conf (node_sheet n) = None →
      sh_put_off (node_sheet n) = Some p → put_off p
  | put_off_again p c p' : put_off p → c ∈ contracts →
      sh_conf (contract_sheet p (co_create c) (co_argument c)) = None →
      sh_put_off (contract_sheet p (co_create c) (co_argument c)) = Some p' → put_off p'.
Inductive sheet_of : sheet → Prop :=
  | sheet_of_node id n : (id, n) ∈ nodes → sheet_of (node_sheet n)
  | sheet_of_contract p c : put_off p → c ∈ contracts →
      sheet_of (contract_sheet p (co_create c) (co_argument c)).
End Sheets.

Lemma put_off_more nodes contracts nodes' contracts' p : nodes ⊆ nodes' → contracts ⊆ contracts' →
  put_off nodes contracts p → put_off nodes' contracts' p.
Proof.
  intros Hn Hc. induction 1 as [id n p Hin Hcl Hp|p c p' _ IH Hin Hcl Hp].
  - eapply put_off_by_node; [by apply Hn|done..].
  - eapply put_off_again; [done|by apply Hc|done..].
Qed.
Lemma sheet_of_more nodes contracts nodes' contracts' sh : nodes ⊆ nodes' → contracts ⊆ contracts' →
  sheet_of nodes contracts sh → sheet_of nodes' contracts' sh.
Proof.
  intros Hn Hc [id n Hin|p c Hp Hin]; econstructor; [by apply Hn|by eapply put_off_more|by apply Hc].
Qed.

Section Screen.
Context `{Sha256} `{Device} `{Screen}.

(** The screen [d] is the review [rv] of the sheet [sh]. *)
Record shows_review (d : dp_state) (sh : sheet) (conf : display_config_t) (rv : review) : Prop := {
  sr_conf : sh_conf sh = Some conf;
  sr_review : review_of sh = Some rv;
  sr_pairs : dp_pairs d = Some (rv_pairs rv);
  sr_title : dp_review_title d = rv_title rv;
  sr_finish : dp_review_finish d = rv_finish rv
}.
(** After the calls [evs] the values check is as if it was bound to the sheet [sh] last. *)
Definition bound_to (s0 : store_t) (evs : list value_event) (sh : sheet) (conf : display_config_t) : Prop :=
  ∃ evs', value_run evs' s0 = value_run evs s0 ∧
    last_bind evs' = Some (sheet_fields sh, dc_destination conf, dc_amount_check conf).
Lemma bound_to_more s0 evs more sh conf : Forall (λ ev, ¬ bind_report ev) more →
  bound_to s0 evs sh conf → bound_to s0 (evs ++ more) sh conf.
Proof.
  intros Hm (evs' & Er & Hl). exists (evs' ++ more). rewrite last_bind_skip by done. split; [|done].
  unfold value_run in *. by rewrite !foldl_app, Er.
Qed.

Record screened (nodes : list (bytes * node)) (contracts : list contract) (s0 : store_t)
    (evs : list value_event) (d : dp_state) : Prop := {
  sd_fields : dp_fields d = replicate MAX_DISPLAY_FIELDS_NB tx_field_zero;
  sd_put_off : ∃ o, put_off_as o d ∧ from_option (put_off nodes contracts) True o;
  sd_shown : dp_clear_signing_available d = true → ∃ sh conf rv, sheet_of nodes contracts sh ∧
    shows_review d sh conf rv ∧ bound_to s0 evs sh conf
}.
Lemma screened_more nodes contracts nodes' contracts' s0 evs more d : nodes ⊆ nodes' → contracts ⊆ contracts' →
  Forall (λ ev, ¬ bind_report ev) more →
  screened nodes contracts s0 evs d → screened nodes' contracts' s0 (evs ++ more) d.
Proof.
  intros Hn Hc Hm [Hf (o & Ho & Hp) Hs]. split; [done|..].
  - exists o. split; [done|]. destruct o; [by eapply put_off_more|done].
  - intros (sh & conf & rv & Hsh & Hr & Hb)%Hs. exists sh, conf, rv.
    split; [by eapply sheet_of_more|]. split; [done|by apply bound_to_more].
Qed.
Lemma put_off_set o d : put_off_as o d → is_set (dp_md_identifiers d) = is_set o.
Proof. destruct o as [[conf cid]|]; cbn; [by intros (_ & _ & -> & _)|by intros [_ ->]]. Qed.
(** A screen that is opened: [evs] were the calls before. *)
Lemma screened_as nodes contracts s0 evs d binds sh st r d0 d' : shown_as sh d0 r d' →
  dp_store d0 = st → st = value_run evs s0 → dp_clear_signing_available d = false →
  screen_binds st d d' binds → sheet_of nodes contracts sh →
  (∀ p, sh_conf sh = None → sh_put_off sh = Some p → put_off nodes contracts p) →
  screened nodes contracts s0 (evs ++ binds) d'.
Proof.
  intros [Hf Hs] Est Er Ha Hb Hsh Hput. unfold screen_binds in Hb. rewrite Ha in Hb.
  destruct (sh_conf sh) as [conf|] eqn:Ec.
  - destruct Hs as (Ebs & Hi & Hm & Hr). split; [done|by exists None|]. intros Ha'.
    destruct (review_of sh) as [rv|] eqn:Erv; [|congruence]. destruct Hr as (_ & _ & Hp & Ht & Hfi).
    exists sh, conf, rv. split; [done|]. split; [by split|].
    destruct (Hb Ha') as (ev & -> & _ & Ev).
    exists (evs ++ [VBind (sheet_fields sh) (dc_destination conf) (dc_amount_check conf)]).
    rewrite last_bind_snoc. split; [|done]. unfold value_run in *. rewrite !foldl_app, <- Er, <- Est.
    cbn [foldl]. rewrite Est, <- Ev, Ebs, Est. done.
  - destruct Hs as (_ & _ & Ha' & _ & Hp). split; [done| |by rewrite Ha'].
    exists (sh_put_off sh). split; [done|]. destruct (sh_put_off sh) as [p|]; [by apply Hput|done].
Qed.
(** A parser that left the screen as it was. *)
Lemma screened_idle nodes contracts s0 evs d binds clock st : screened nodes contracts s0 evs d →
  screen_binds st d (handed_over d clock st) binds →
  screened nodes contracts s0 (evs ++ binds) (handed_over d clock st).
Proof.
  intros [Hf Hp Hs] Hb. unfold screen_binds in Hb. split; [done|done|]. intros Ha. cbn in Ha.
  rewrite Ha in Hb. subst binds. rewrite app_nil_r. destruct (Hs Ha) as (sh & conf & rv & Hsh & [] & Hbd).
  exists sh, conf, rv. split; [done|]. by split.
Qed.

(** ** Over the parts *)

Lemma map_snoc {A B} (f : A → B) l bs b : bs ++ [b] = map f l →
  ∃ l' x, l = l' ++ [x] ∧ bs = map f l' ∧ b = f x.
Proof.
  intros (l' & q & -> & E & Eq)%eq_sym%map_eq_app. destruct q as [|x [|? ?]]; try done.
  injection Eq as <-. by exists l', x.
Qed.
Lemma not_busy d clock st : display_busy (handed_over d clock st) = false → dp_clear_signing_available d = false.
Proof. by intros [Ha _]%orb_false_iff. Qed.
(** The two parsers, on a screen that is as the parts before left it. *)
Lemma node_screened nodes id n s0 evs more binds d clock r d' : ¬ refuses_memory →
  screened nodes [] s0 evs d → Forall (λ ev, ¬ bind_report ev) more → part_ok id n →
  let st := value_run (evs ++ more) s0 in
  parse_node_for_display (wire_node_part id n) (handed_over d clock st) = (Ret r, d') →
  screen_binds st d d' binds →
  screened (nodes ++ [(id, n)]) [] s0 (evs ++ more ++ binds) d'.
Proof.
  intros Hmem%never_refuses_plenty Hs Hm Hok st E Hb. rewrite (app_assoc evs). set (d0 := handed_over d clock st) in *.
  apply (screened_more _ _ (nodes ++ [(id, n)]) [] _ _ more) in Hs; [|set_solver|done|done].
  destruct (display_busy d0 || is_set (dp_md_identifiers d0)) eqn:Eb.
  { unfold parse_node_for_display, bind at 1, get in E. rewrite Eb in E. injection E as _ <-.
    by apply screened_idle. }
  apply orb_false_iff in Eb as [Eb Ei].
  destruct (node_shown id n d0 Hok Eb) as (r' & s' & E' & Hsh);
    [by destruct (dp_md_identifiers d0)|].
  rewrite E in E'. injection E' as <- <-. assert (Hin : (id, n) ∈ nodes ++ [(id, n)]) by set_solver.
  apply (screened_as _ _ _ _ _ _ _ _ _ _ _ Hsh eq_refl eq_refl (not_busy _ _ _ Eb) Hb);
    [by eapply sheet_of_node|]. intros p Hc Hp. by eapply put_off_by_node.
Qed.
Lemma contract_screened nodes contracts c s0 evs more binds d clock r d' : ¬ refuses_memory →
  screened nodes contracts s0 evs d → Forall (λ ev, ¬ bind_report ev) more → plain_contract c →
  let st := value_run (evs ++ more) s0 in
  parse_input_contract_for_display (contract_part c) (handed_over d clock st) = (Ret r, d') →
  screen_binds st d d' binds →
  screened nodes (contracts ++ [c]) s0 (evs ++ more ++ binds) d'.
Proof.
  intros Hmem%never_refuses_plenty Hs Hm [Hwf Ht Hmd] st E Hb. rewrite (app_assoc evs).
  set (d0 := handed_over d clock st) in *.
  apply (screened_more _ _ nodes (contracts ++ [c]) _ _ more) in Hs; [|done|set_solver|done].
  destruct (display_busy d0 || negb (is_set (dp_md_identifiers d0))) eqn:Eb.
  { unfold parse_input_contract_for_display, bind at 1, get in E. rewrite Eb in E. injection E as _ <-.
    by apply screened_idle. }
  apply orb_false_iff in Eb as [Eb Ei%negb_false_iff].
  destruct (sd_put_off _ _ _ _ _ Hs) as (o & Ho & Hp). cbn in Ei. rewrite (put_off_set _ _ Ho) in Ei.
  destruct o as [[conf cid]|]; [|done].
  destruct (contract_shown conf cid (co_create c) (co_argument c) (co_created_at c) d0)
    as (r' & s' & E' & Hsh); [done..|by split; [apply Hs|]|].
  unfold contract_part in E. rewrite E in E'. injection E' as <- <-.
  assert (Hin : c ∈ contracts ++ [c]) by set_solver.
  apply (screened_as _ _ _ _ _ _ _ _ _ _ _ Hsh eq_refl eq_refl (not_busy _ _ _ Eb) Hb);
    [by apply sheet_of_contract|]. intros p Hc Hp'. by eapply put_off_again.
Qed.

Lemma run_screened s0 bufs cbufs evs d : ¬ refuses_memory → display_run s0 bufs cbufs evs d →
  ∀ nodes contracts,
  bufs = map (λ p, wire_node_part (fst p) (snd p)) nodes → cbufs = map contract_part contracts →
  Forall plain_node nodes → Forall plain_contract contracts → screened nodes contracts s0 evs d.
Proof.
  intros Hmem. induction 1 as [d [Ha Hf Hi Hc]|bufs evs d more binds clock buf r d' _ IH Hm E Hb
    |bufs evs d more buf _ IH Hm|bufs evs d _ IH
    |bufs cbufs evs d more binds clock buf r d' _ IH Hm E Hb]; intros nodes contracts Eb Ec Hn Hcs.
  - split; [done|by exists None|congruence].
  - symmetry in Ec. apply map_eq_nil in Ec as ->.
    apply map_snoc in Eb as (nodes' & [id n] & -> & -> & ->). apply Forall_app in Hn as [Hn [[Hok _] _]%Forall_cons].
    eapply node_screened; [done|by apply IH|done|done|exact E|exact Hb].
  - apply map_snoc in Eb as (nodes' & p & -> & -> & ->). apply Forall_app in Hn as [Hn _].
    apply (screened_more nodes' contracts); [set_solver|done|done|by apply IH].
  - destruct (IH nodes contracts Eb Ec Hn Hcs) as [Hf (o & Ho & Hp) _]. split; [done| |done]. by exists o.
  - apply map_snoc in Ec as (contracts' & c & -> & -> & ->). apply Forall_app in Hcs as [Hcs [Hc _]%Forall_cons].
    eapply contract_screened; [done|by apply IH|done|done|exact E|exact Hb].
Qed.

Context `{!Sha256Len}.

(** C4: What the user signs by is written in the transaction and is true of it.  On a device
    that refuses no memory, when a transaction of well-formed nodes, metadata and contracts
    ([transaction_ok]) is sent as its wire form and completed with clear signing on, the lines, the title and the question of the review are those that the
    sheet of one of its nodes gives, or the sheet of one of its disclosed contracts for a
    screen that a node put off: a function of the data of that node or contract alone.  And
    the fields of that sheet are true of the holdings that the creates of the transaction
    write: nothing is moved behind a screen that moves nothing, and otherwise every holding
    belongs to the accounts of the sheet, with its amount, admin and instrument, unless
    SHA-256 collides on the texts compared. *)
Theorem clear_signed_screen_is_in_the_transaction T g : ¬ refuses_memory → transaction_ok T →
  completed (wire_parts T) g → g_clear_signing_available g = true →
  ∃ sh conf rv, sheet_of (tn_nodes T) (tn_contracts T) sh ∧ shows_review (g_dp g) sh conf rv ∧
    screen_says (transaction_holdings T) (sheet_fields sh) (dc_destination conf) (dc_amount_check conf).
Proof.
  intros Hmem Hok Hc Ha. apply completed_finished in Hc as (t & Eb & Hh & Hcl).
  destruct (wire_log T t _ Hok Eb Hh) as (_ & _ & En & Ec).
  destruct (cs_run _ _ (Hcl Ha)) as (s & d & Hv & Hr & Hd & Ep & Et & Ef).
  destruct (holdings_run T t _ s Hok Eb Hh Hv) as (evs & Er & _ & <- & _).
  destruct (run_screened s _ _ _ d Hmem Hr (tn_nodes T) (tn_contracts T)) as [_ _ Hs];
    [done|done|apply Hok|apply Hok|].
  destruct (Hs Hd) as (sh & conf & rv & Hsh & [Hcf Hrv Hp Ht Hf] & evs' & Er' & Hl).
  exists sh, conf, rv. split; [done|]. split; [split; congruence|].
  apply (verdict_says evs evs' s); [by rewrite Er|by rewrite Er, Er'|done].
Qed.
End Screen.

Lemma clear_signed_screen_is_in_the_transaction_witness : ∃ sh conf,
  sheet_of (tn_nodes token_transfer) [] sh ∧
  @shows_review toy_screen (g_dp token_done) sh conf
    {| rv_pairs := [line "From" "alice"; line "Amount" "1 CC"; line "To" "bob"];
       rv_title := dp_review_title (g_dp token_done); rv_finish := dp_review_finish (g_dp token_done) |} ∧
  @screen_says toy_sha [amulet_written dso "bob" "1.0"] (sheet_fields sh) (dc_destination conf) (dc_amount_check conf).
Proof.
  destruct (@clear_signed_screen_is_in_the_transaction toy_sha roomy toy_screen toy_sha_len token_transfer
    token_done) as (sh & conf & [pairs title finish] & Hsh & [Hc Hr Hp Ht Hf] & Hs);
    [apply plenty_never_refuses|apply token_ok|apply token_completed|done|].
  rewrite token_holdings in Hs. exists sh, conf. split; [done|]. split; [|done].
  rewrite token_screen in Hp. cbn [rv_pairs rv_title rv_finish] in Hp, Ht, Hf. subst title finish.
  injection Hp as <-. by split.
Defined.
