(* ===== verification/TopologyMessages.v ===== *)
(** * The messages of the topology flow ([topology.pb.h], [crypto.pb.h], [untyped_versioned_message.pb.h])

    The structs and field lists the topology decoder walks.  Callback fields are NULL in
    these messages and are skipped.  Of the mappings only the three kinds the application
    accepts are decoded in detail: the other kinds are refused whatever they hold, so all
    that matters of them is whether they decode, and that is the class [OtherMappings]. *)

From S2P Require Import Prelude Constants Utils Pb Messages Context.

(** What the compiler decides: the size in bits of an enumeration and the sizes of the
    structs that are allocated in arrays. *)
Class Compiler := {
  uenum_bits : Z;
  sizeof_SigningPublicKey : Z;
  sizeof_HostingParticipant : Z
}.
(** The decoder of a mapping of another kind: from its tag, its bytes and the clock of the
    heap, whether it decodes, and the clock after its allocations. *)
Class OtherMappings := decode_other_mapping : Z → bytes → nat → bool * nat.

(** ** Structs *)

Record SigningPublicKey := {
  sk_format : Z; sk_public_key : bytes; sk_scheme : Z; sk_key_spec : Z }.
#[export] Instance eta_SigningPublicKey : Eta SigningPublicKey := λ k,
  Build_SigningPublicKey (sk_format k) (sk_public_key k) (sk_scheme k) (sk_key_spec k).
Definition SigningPublicKey_zero : SigningPublicKey := Build_SigningPublicKey 0 [] 0 0.

Record NamespaceDelegation := {
  dl_namespace : option bytes;
  dl_has_target_key : bool;
  dl_target_key : SigningPublicKey;
  dl_is_root_delegation : bool;
  dl_which_restriction : Z
}.
#[export] Instance eta_NamespaceDelegation : Eta NamespaceDelegation := λ d,
  Build_NamespaceDelegation (dl_namespace d) (dl_has_target_key d) (dl_target_key d)
    (dl_is_root_delegation d) (dl_which_restriction d).
Definition NamespaceDelegation_zero : NamespaceDelegation :=
  Build_NamespaceDelegation None false SigningPublicKey_zero false 0.

Record PartyToKeyMapping := {
  pk_party : option bytes; pk_threshold : Z; pk_signing_keys : list SigningPublicKey }.
#[export] Instance eta_PartyToKeyMapping : Eta PartyToKeyMapping := λ m,
  Build_PartyToKeyMapping (pk_party m) (pk_threshold m) (pk_signing_keys m).
Definition PartyToKeyMapping_zero : PartyToKeyMapping := Build_PartyToKeyMapping None 0 [].

Record HostingParticipant := {
  ho_participant_uid : option bytes; ho_permission : Z; ho_has_onboarding : bool }.
#[export] Instance eta_HostingParticipant : Eta HostingParticipant := λ p,
  Build_HostingParticipant (ho_participant_uid p) (ho_permission p) (ho_has_onboarding p).
Definition HostingParticipant_zero : HostingParticipant := Build_HostingParticipant None 0 false.

Record PartyToParticipant := {
  pp_party : option bytes;
  pp_threshold : Z;
  pp_participants : list HostingParticipant;
  pp_has_party_signing_keys : bool;
  pp_party_signing_keys_threshold : Z
}.
#[export] Instance eta_PartyToParticipant : Eta PartyToParticipant := λ m,
  Build_PartyToParticipant (pp_party m) (pp_threshold m) (pp_participants m)
    (pp_has_party_signing_keys m) (pp_party_signing_keys_threshold m).
Definition PartyToParticipant_zero : PartyToParticipant :=
  Build_PartyToParticipant None 0 [] false 0.

(** The union of the mapping, [MU_other] for the kinds that are not kept and for none. *)
Inductive mapping_union :=
  | MU_namespace_delegation (d : NamespaceDelegation)
  | MU_party_to_participant (m : PartyToParticipant)
  | MU_party_to_key_mapping (m : PartyToKeyMapping)
  | MU_other.
Record TopologyMapping := { tm_which_mapping : Z; tm_mapping : mapping_union }.
#[export] Instance eta_TopologyMapping : Eta TopologyMapping := λ m,
  Build_TopologyMapping (tm_which_mapping m) (tm_mapping m).

Record TopologyTransaction := {
  to_operation : Z; to_serial : Z; to_has_mapping : bool; to_mapping : TopologyMapping }.
#[export] Instance eta_TopologyTransaction : Eta TopologyTransaction := λ t,
  Build_TopologyTransaction (to_operation t) (to_serial t) (to_has_mapping t) (to_mapping t).
Definition TopologyTransaction_zero : TopologyTransaction :=
  Build_TopologyTransaction 0 0 false (Build_TopologyMapping 0 MU_other).

Record UntypedVersionedMessage := {
  uv_which_wrapper : Z; uv_data : option bytes; uv_version : Z }.
#[export] Instance eta_UntypedVersionedMessage : Eta UntypedVersionedMessage := λ m,
  Build_UntypedVersionedMessage (uv_which_wrapper m) (uv_data m) (uv_version m).
Definition UntypedVersionedMessage_zero : UntypedVersionedMessage :=
  Build_UntypedVersionedMessage 0 None 0.

Definition TOPOLOGY_MAPPING_NAMESPACE_DELEGATION_TAG : Z := 1.
Definition TOPOLOGY_MAPPING_PARTY_TO_PARTICIPANT_TAG : Z := 9.
Definition TOPOLOGY_MAPPING_PARTY_TO_KEY_MAPPING_TAG : Z := 16.
(** The tags of the other kinds in the field list of [TopologyMapping]. *)
Definition OTHER_MAPPING_TAGS : list Z := [3; 4; 5; 6; 7; 8; 11; 12; 13; 15; 17; 18].
Definition TOPOLOGY_CHANGE_OP_ADD_REPLACE : Z := 1.
Definition CRYPTO_KEY_FORMAT_RAW : Z := 3.
Definition CRYPTO_KEY_FORMAT_DER_X509 : Z := 4.
Definition UNTYPED_VERSIONED_MESSAGE_DATA_TAG : Z := 1.

(** ** Field lists *)

Section Fields.
Context {S : Type} `{!Realloc S} `{!Compiler}.

(** STATIC SINGULAR BYTES in an array of [cap] bytes. *)
Definition pb_dec_bytes_static (cap : Z) (s : istream) : option (bytes * istream) :=
  match pb_decode_varint32 s with
  | Some (size, s') => if size <=? cap then pb_read (Z.to_nat size) s' else None
  | None => None
  end.
Definition h_uenum {R} (set : Z → R → R) : field_handler S R :=
  h_scalar PB_WT_VARINT (pb_dec_uint uenum_bits) set.
Definition h_uint32 {R} (set : Z → R → R) : field_handler S R :=
  h_scalar PB_WT_VARINT (pb_dec_uint 32) set.
Definition h_skipped_callback {R} : field_handler S R := h_callback (λ _, None).
(** A message nothing is kept of. *)
Definition h_dropped {R} (fields : Z → option (field_handler S unit)) (set : R → R)
  : field_handler S R :=
  λ wt s r, h_submsg (dec_static fields (λ _, tt) (λ _ r, r)) wt s (set r).

Definition SigningPublicKey_fields (tag : Z) : option (field_handler S SigningPublicKey) :=
  if tag =? 2 then Some (h_uenum (λ z k, k <| sk_format := z |>))
  else if tag =? 3 then
    Some (h_scalar PB_WT_STRING (pb_dec_bytes_static 1024) (λ b k, k <| sk_public_key := b |>))
  else if tag =? 4 then Some (h_uenum (λ z k, k <| sk_scheme := z |>))
  else if tag =? 5 then Some h_skipped_callback
  else if tag =? 6 then Some (h_uenum (λ z k, k <| sk_key_spec := z |>))
  else None.

Definition CanSignSpecificMappings_fields (tag : Z) : option (field_handler S unit) :=
  if tag =? 1 then Some h_skipped_callback else None.

Definition NamespaceDelegation_fields (tag : Z) : option (field_handler S NamespaceDelegation) :=
  if tag =? 1 then Some (h_string (λ b d, d <| dl_namespace := Some b |>))
  else if tag =? 2 then
    Some (λ wt s d, h_submsg (dec_static SigningPublicKey_fields dl_target_key
            (λ k d, d <| dl_target_key := k |>)) wt s (d <| dl_has_target_key := true |>))
  else if tag =? 3 then
    Some (h_scalar PB_WT_VARINT pb_decode_bool (λ b d, d <| dl_is_root_delegation := b |>))
  else if tag =? 4 then
    Some (h_dropped Empty_fields (λ d, d <| dl_which_restriction := 4 |>))
  else if tag =? 5 then
    Some (h_dropped Empty_fields (λ d, d <| dl_which_restriction := 5 |>))
  else if tag =? 6 then
    Some (h_dropped CanSignSpecificMappings_fields (λ d, d <| dl_which_restriction := 6 |>))
  else None.

Definition PartyToKeyMapping_fields (tag : Z) : option (field_handler S PartyToKeyMapping) :=
  if tag =? 1 then Some (h_string (λ b m, m <| pk_party := Some b |>))
  else if tag =? 3 then Some (h_uint32 (λ z m, m <| pk_threshold := z |>))
  else if tag =? 4 then
    Some (h_repeated_msg sizeof_SigningPublicKey SigningPublicKey_zero SigningPublicKey_fields
            (λ m, length (pk_signing_keys m)) (λ k m, m <| pk_signing_keys ::= λ l, l ++ [k] |>))
  else None.

Definition HostingParticipant_fields (tag : Z) : option (field_handler S HostingParticipant) :=
  if tag =? 1 then Some (h_string (λ b p, p <| ho_participant_uid := Some b |>))
  else if tag =? 2 then Some (h_uenum (λ z p, p <| ho_permission := z |>))
  else if tag =? 3 then Some (h_dropped Empty_fields (λ p, p <| ho_has_onboarding := true |>))
  else None.

(** [SigningKeysWithThreshold]: the keys are a callback field. *)
Definition SigningKeysWithThreshold_fields (tag : Z) : option (field_handler S Z) :=
  if tag =? 1 then Some h_skipped_callback
  else if tag =? 2 then Some (h_uint32 (λ z _, z))
  else None.

Definition PartyToParticipant_fields (tag : Z) : option (field_handler S PartyToParticipant) :=
  if tag =? 1 then Some (h_string (λ b m, m <| pp_party := Some b |>))
  else if tag =? 2 then Some (h_uint32 (λ z m, m <| pp_threshold := z |>))
  else if tag =? 3 then
    Some (h_repeated_msg sizeof_HostingParticipant HostingParticipant_zero
            HostingParticipant_fields (λ m, length (pp_participants m))
            (λ p m, m <| pp_participants ::= λ l, l ++ [p] |>))
  else if tag =? 6 then
    Some (λ wt s m, h_submsg (dec_static SigningKeysWithThreshold_fields
            pp_party_signing_keys_threshold (λ z m, m <| pp_party_signing_keys_threshold := z |>))
            wt s (m <| pp_has_party_signing_keys := true |>))
  else None.

(** A member of the oneof: zeroed when the oneof held another, then decoded over what the
    struct holds. *)
Definition h_mapping {R} (tag : Z) (zero : R) (fields : Z → option (field_handler S R))
    (get : mapping_union → R) (put : R → mapping_union) : field_handler S TopologyMapping :=
  λ wt s m,
  let m := if tm_which_mapping m =? tag then m
           else {| tm_which_mapping := tag; tm_mapping := put zero |} in
  h_submsg (dec_static fields (λ m, get (tm_mapping m)) (λ r m, m <| tm_mapping := put r |>))
    wt s m.

(** [run_other tag sub]: the submessage of another kind decodes. *)
Definition TopologyMapping_fields (run_other : Z → istream → M S unit) (tag : Z)
  : option (field_handler S TopologyMapping) :=
  if tag =? TOPOLOGY_MAPPING_NAMESPACE_DELEGATION_TAG then
    Some (h_mapping tag NamespaceDelegation_zero NamespaceDelegation_fields
      (λ u, match u with MU_namespace_delegation d => d | _ => NamespaceDelegation_zero end)
      MU_namespace_delegation)
  else if tag =? TOPOLOGY_MAPPING_PARTY_TO_PARTICIPANT_TAG then
    Some (h_mapping tag PartyToParticipant_zero PartyToParticipant_fields
      (λ u, match u with MU_party_to_participant m => m | _ => PartyToParticipant_zero end)
      MU_party_to_participant)
  else if tag =? TOPOLOGY_MAPPING_PARTY_TO_KEY_MAPPING_TAG then
    Some (h_mapping tag PartyToKeyMapping_zero PartyToKeyMapping_fields
      (λ u, match u with MU_party_to_key_mapping m => m | _ => PartyToKeyMapping_zero end)
      MU_party_to_key_mapping)
  else if bool_decide (tag ∈ OTHER_MAPPING_TAGS) then
    Some (h_submsg (λ sub _,
      do* run_other tag sub in
      ret {| tm_which_mapping := tag; tm_mapping := MU_other |}))
  else None.

Definition TopologyTransaction_fields (run_other : Z → istream → M S unit) (tag : Z)
  : option (field_handler S TopologyTransaction) :=
  if tag =? 1 then Some (h_uenum (λ z t, t <| to_operation := z |>))
  else if tag =? 2 then Some (h_uint32 (λ z t, t <| to_serial := z |>))
  else if tag =? 3 then
    Some (λ wt s t, h_submsg (dec_static (TopologyMapping_fields run_other) to_mapping
            (λ m t, t <| to_mapping := m |>)) wt s (t <| to_has_mapping := true |>))
  else None.

Definition UntypedVersionedMessage_fields (tag : Z)
  : option (field_handler S UntypedVersionedMessage) :=
  if tag =? 1 then
    Some (h_bytes (λ b m, m <| uv_which_wrapper := UNTYPED_VERSIONED_MESSAGE_DATA_TAG |>
                           <| uv_data := Some b |>))
  else if tag =? 2 then
    Some (h_scalar PB_WT_VARINT pb_dec_int32 (λ z m, m <| uv_version := z |>))
  else None.
End Fields.

(** ** The decoders terminate *)

Section Safety.
Context {S : Type} `{!Realloc S} `{!Compiler}.
Variable P : S → Prop.
Hypothesis realloc_safe : ∀ n, keeps P (pb_realloc n).
Variable run_other : Z → istream → M S unit.
Hypothesis run_other_safe : ∀ tag s, keeps P (run_other tag s).

#[local] Hint Resolve realloc_safe : pb.

Lemma shrinks_bytes_static cap : shrinks (pb_dec_bytes_static cap).
Proof.
  intros s a s'. unfold pb_dec_bytes_static.
  destruct (pb_decode_varint32 s) as [[z s1]|] eqn:E; [|done].
  apply pb_decode_varint32_length in E. case_match; [|done]. intros H1%pb_read_length. lia.
Qed.
Lemma h_uenum_safe {R} n (set : Z → R → R) : h_safe P n (h_uenum set).
Proof. apply h_scalar_safe, shrinks_uint. Qed.
Lemma h_uint32_safe {R} n (set : Z → R → R) : h_safe P n (h_uint32 set).
Proof. apply h_scalar_safe, shrinks_uint. Qed.
Lemma h_key_bytes_safe {R} n cap (set : bytes → R → R) :
  h_safe P n (h_scalar PB_WT_STRING (pb_dec_bytes_static cap) set).
Proof. apply h_scalar_safe, shrinks_bytes_static. Qed.
Lemma h_skipped_safe {R} n : h_safe P n (h_skipped_callback (R := R)).
Proof. by apply h_callback_safe. Qed.
Lemma h_dropped_safe {R} n fields (set : R → R) : (∀ m, fields_safe P m fields) →
  h_safe P n (h_dropped fields set).
Proof.
  intros Hf w s r Hn. apply (h_submsg_safe P n); [|done]. intros sub r0 Hs.
  by apply (dec_static_safe P n).
Qed.
(** A static submessage behind a flag. *)
Lemma h_static_safe {R R'} n fields (get : R → R') set flag : (∀ m, fields_safe P m fields) →
  h_safe P n (λ wt s r, h_submsg (dec_static fields get set) wt s (flag r)).
Proof.
  intros Hf w s r Hn. apply (h_submsg_safe P n); [|done]. intros sub r0 Hs.
  by apply (dec_static_safe P n).
Qed.
#[local] Hint Resolve h_uenum_safe h_uint32_safe h_key_bytes_safe h_skipped_safe : pb.

Lemma no_fields_safe n : fields_safe P n Empty_fields.
Proof. by intros tag h. Qed.
Lemma CanSignSpecificMappings_fields_safe n : fields_safe P n CanSignSpecificMappings_fields.
Proof. field_cases. Qed.
Lemma SigningPublicKey_fields_safe n : fields_safe P n SigningPublicKey_fields.
Proof. field_cases. Qed.
#[local] Hint Resolve h_dropped_safe h_static_safe no_fields_safe
  CanSignSpecificMappings_fields_safe SigningPublicKey_fields_safe h_repeated_msg_safe : pb.
Lemma NamespaceDelegation_fields_safe n : fields_safe P n NamespaceDelegation_fields.
Proof. field_cases. Qed.
Lemma PartyToKeyMapping_fields_safe n : fields_safe P n PartyToKeyMapping_fields.
Proof. field_cases. Qed.
Lemma HostingParticipant_fields_safe n : fields_safe P n HostingParticipant_fields.
Proof. field_cases. Qed.
Lemma SigningKeysWithThreshold_fields_safe n : fields_safe P n SigningKeysWithThreshold_fields.
Proof. field_cases. Qed.
#[local] Hint Resolve HostingParticipant_fields_safe SigningKeysWithThreshold_fields_safe : pb.
Lemma PartyToParticipant_fields_safe n : fields_safe P n PartyToParticipant_fields.
Proof. field_cases. Qed.

Lemma h_mapping_safe {R} n tag zero (fields : Z → option (field_handler S R)) get put :
  (∀ m, fields_safe P m fields) → h_safe P n (h_mapping tag zero fields get put).
Proof.
  intros Hf w s r Hn. apply (h_submsg_safe P n); [|done]. intros sub r0 Hs.
  by apply (dec_static_safe P n).
Qed.
#[local] Hint Resolve h_mapping_safe NamespaceDelegation_fields_safe
  PartyToKeyMapping_fields_safe PartyToParticipant_fields_safe : pb.
Lemma TopologyMapping_fields_safe n : fields_safe P n (TopologyMapping_fields run_other).
Proof.
  field_cases. intros w s r Hn. apply (h_submsg_safe P n); [|done]. intros sub r0 Hs.
  apply safe_seq; [apply run_other_safe|]. intros _. by apply safe_ret.
Qed.
#[local] Hint Resolve TopologyMapping_fields_safe : pb.
Lemma TopologyTransaction_fields_safe n : fields_safe P n (TopologyTransaction_fields run_other).
Proof. field_cases. Qed.
Lemma UntypedVersionedMessage_fields_safe n : fields_safe P n UntypedVersionedMessage_fields.
Proof. field_cases. Qed.
End Safety.
