(* ===== verification/Keys.v ===== *)
(** * What the application asks of the SDK, and the keys it derives

    The key derivation, the signatures and the command buffer belong to the SDK and are
    classes here.  [derive_public_key] is [src/src/handler/get_public_key.c]. *)

From S2P Require Import Prelude Constants Utils.

(** [bip32_derive_with_seed_get_pubkey_256] on Ed25519 gives an error code, or the point and
    the chain code; [bip32_derive_with_seed_eddsa_sign_hash_256] and [cx_eddsa_sign_no_throw]
    give a signature unless they fail. *)
Class Crypto := {
  bip32_get_pubkey : list Z → Z + bytes * bytes;
  bip32_eddsa_sign_hash : list Z → bytes → option bytes;
  cx_eddsa_sign : bytes → bytes → option bytes;
  cx_ecdomain_parameters_length : option Z;
  ATTESTATION_KEY : bytes
}.

(** [buffer.h]: a buffer is the bytes it still holds.  [buffer_move] copies into an array of
    the given length. *)
Class Buffer := {
  buffer_read_u8 : bytes → option (Z * bytes);
  buffer_read_bip32_path : Z → bytes → option (list Z * bytes);
  buffer_move : nat → bytes → option (bytes * bytes)
}.
(** As documented, moving as many bytes as the buffer holds moves them all. *)
Class BufferLaws `{Buffer} : Prop := {
  buffer_move_all : ∀ s, buffer_move (length s) s = Some (s, [])
}.
Definition buffer_can_read (s : bytes) (n : nat) : bool := (n <=? length s)%nat.

Section Keys.
Context `{Crypto}.

(** The Y coordinate reversed, with the parity of X in its last bit. *)
Definition ed25519_key (raw : bytes) : bytes :=
  let y := rev (take 32 (drop 33 raw)) in
  if Z.odd (nth 32 raw 0)
  then alter (λ b, Z.lor b 0x80) 31%nat y else y.

Definition derive_public_key (bip32_path : list Z) : Z + bytes * bytes :=
  match bip32_get_pubkey bip32_path with
  | inl error => inl error
  | inr (raw, chain_code) => inr (ed25519_key raw, chain_code)
  end.
End Keys.
