(* ===== verification/Topology.v ===== *)
(** * The topology flow ([src/src/transaction/untyped_versioned_msg.c])

    Adding an account: the host sends one to three topology transactions, each wrapped in an
    untyped versioned message.  The device hashes each one, checks that the mappings are
    about its own key and the expected validators, and signs the hash of the sorted hashes. *)

From stdpp Require Import sorting pretty.
From S2P Require Import Prelude Constants Utils DisplayConfig Pb Messages DisplayParser Context.
From S2P Require Import TopologyMessages Keys.

(** ** Constants and tables *)

Definition HASH_LEN : nat := 34.
Definition HEX_LEN : nat := HASH_LEN * 2 + 1.
Definition MAX_HASHES : nat := 3.
Definition PURPOSE_TOPOLOGY_TRANSACTION_SIGNATURE : Z := 11.
Definition PURPOSE_MULTI_TOPOLOGY_TRANSACTION_SIGNATURE : Z := 55.
Definition ONBOARDING_FLOW_DISPLAY_FIELDS_NB : nat := 4.
Definition CHALLENGE_AND_DEADLINE_LEN : nat := 24.
Definition ED25519_RAW_KEY_LEN : nat := 32.
Definition ED25519_DER_KEY_LEN : nat := 44.
Definition ED25519_DER_PREFIX_LEN : nat := 12.
Definition ED25519_DER_PREFIX : bytes :=
  [0x30; 0x2A; 0x30; 0x05; 0x06; 0x03; 0x2B; 0x65; 0x70; 0x03; 0x21; 0x00].

(** [field_config_t] of this file, and the mutable state of the fields in [tp_found]. *)
Record onboarding_field_t := { of_item_name : bytes; of_mandatory : bool }.
Record participant_id_to_name_mapping_t := {
  participant_id : bytes; participant_name : bytes }.

Definition PARTY_FIELD_IDX : nat := 0.
Definition PARTICIPANT_1_FIELD_IDX : nat := 1.
Definition PARTICIPANT_2_FIELD_IDX : nat := 2.
Definition EXPECTED_PARTICIPANTS_NB : nat := 2.
Definition THRESHOLD_FIELD_IDX : nat := 3.

Definition MAINNET_DUAL_VALIDATORS : list participant_id_to_name_mapping_t := [
  {| participant_id := lit
       "ledger-ledgerops-2::12207a4859ad414f4f47c2d773ddf4ea88de8c3a1aab19abaa197e504acdbf679d3c";
     participant_name := lit "Ledger Validator" |};
  {| participant_id := lit
       "Ledger-Kiln-2::1220e2225d5a297fae4000be2e3ca560ce802461da04c8e3e40c9fbbf0547f4fe8e3";
     participant_name := lit "Kiln Validator" |}].
Definition TESTNET_DUAL_VALIDATORS : list participant_id_to_name_mapping_t := [
  {| participant_id := lit "ledger-ledgeropstestnet-0::" ++
       lit "122095f38f5c73cc18fbeb3290f8c17f7a1ff190f66fe159c671cf1fb0dc634eedaf";
     participant_name := lit "Ledger Testnet" ++ [10] ++ lit "Validator" |};
  {| participant_id := lit "Ledger-KilnTestnet-2::" ++
       lit "1220fa9df3caa84092023bf7edf28de1d28f96caf9b7d130385bfe6e284be6e0fbd7";
     participant_name := lit "Kiln Testnet" ++ [10] ++ lit "Validator" |}].
Definition DEVNET_DUAL_VALIDATORS : list participant_id_to_name_mapping_t := [
  {| participant_id := lit "ledger-ledgeropsdevnet-0::" ++
       lit "12208f74f551f8c28b68414fc3bb4b8466178055845485878a1af8ac1fe96f88fad2";
     participant_name := lit "Ledger Devnet" ++ [10] ++ lit "Validator" |};
  {| participant_id := lit
       "Ledger-KilnDevnet-2::12203b77e5d74eb787ff0251fd76949379a625368646302a203fea7f7db1dd5402bf";
     participant_name := lit "Kiln Devnet" ++ [10] ++ lit "Validator" |}].
Definition VALID_PARTICIPANTS_CONFIGS : list (list participant_id_to_name_mapping_t) :=
  [MAINNET_DUAL_VALIDATORS; TESTNET_DUAL_VALIDATORS; DEVNET_DUAL_VALIDATORS].

Definition PARTY_FIELD_CONFIG : onboarding_field_t :=
  {| of_item_name := lit "Add account"; of_mandatory := true |}.
Definition PARTICIPANT_1_UID_FIELD_CONFIG : onboarding_field_t :=
  {| of_item_name := lit "Associate to validator 1"; of_mandatory := true |}.
Definition PARTICIPANT_2_UID_FIELD_CONFIG : onboarding_field_t :=
  {| of_item_name := lit "Associate to validator 2"; of_mandatory := false |}.
Definition THRESHOLD_FIELD_CONFIG : onboarding_field_t :=
  {| of_item_name := lit "Validators threshold"; of_mandatory := false |}.
Definition ONBOARDING_FLOW_DISPLAY_CONFIGS : list onboarding_field_t :=
  [PARTY_FIELD_CONFIG; PARTICIPANT_1_UID_FIELD_CONFIG; PARTICIPANT_2_UID_FIELD_CONFIG;
   THRESHOLD_FIELD_CONFIG].

Definition REVIEW_TITLE : bytes := lit "Review transaction to add account".
Definition REVIEW_FINISH : bytes := lit "Sign transaction to add account?".

(** ** Hashes *)

Fixpoint strcmp_from (a b : bytes) : Z :=
  match a, b with
  | [], [] => 0
  | [], y :: _ => - y
  | x :: _, [] => x
  | x :: a', y :: b' => if x =? y then strcmp_from a' b' else x - y
  end.
Definition strcmp (a b : bytes) : Z := strcmp_from (c_str a) (c_str b).
Definition compare_hashes_hex (a b : bytes) : Z :=
  strcmp (take (HEX_LEN - 1) (hex_of (take HASH_LEN a)))
         (take (HEX_LEN - 1) (hex_of (take HASH_LEN b))).

(** [qsort] on the hashes.  It is not specified which of two equal elements comes first,
    but hashes that compare equal are equal. *)
Definition hash_le (a b : bytes) : Prop := compare_hashes_hex a b <= 0.
#[export] Instance hash_le_dec a b : Decision (hash_le a b).
Proof. apply Z_le_dec. Defined.
Definition qsort (hashes : list bytes) : list bytes := merge_sort hash_le hashes.

(** The bytes that are hashed: the count, then each hash behind its length. *)
Definition concat_hashes (hashes : list bytes) : bytes :=
  let len := (length hashes * HASH_LEN + length hashes * 4 + 4)%nat in
  bw_data (foldl (λ bw h, bw_put (bw_put_u32_be bw (Z.of_nat HASH_LEN)) h)
                 (bw_put_u32_be (bw_init len) (Z.of_nat (length hashes))) hashes).

(** ** Matching the hosting participants *)

(** The first [k] whose identifier is [uid], as the inner loop finds it. *)
Fixpoint find_valid (uid : bytes) (mappings : list participant_id_to_name_mapping_t)
  : option (nat * bytes) :=
  match mappings with
  | [] => None
  | m :: rest =>
      if str_eqb uid (participant_id m) then Some (O, participant_name m)
      else match find_valid uid rest with Some (k, name) => Some (S k, name) | None => None end
  end.

(** The loop over the participants with one configuration: an error, or the names found for
    each participant. *)
Fixpoint match_participants (mappings : list participant_id_to_name_mapping_t)
    (matched_valid : list nat) (participants : list HostingParticipant)
  : Z + list (option bytes) :=
  match participants with
  | [] => inr []
  | p :: rest =>
      match ho_participant_uid p with
      | None => inl SW_TOPOLOGY_MISSING_PARTICIPANT_DATA
      | Some uid =>
          if strlen uid =? 0 then inl SW_TOPOLOGY_MISSING_PARTICIPANT_DATA
          else match find_valid uid mappings with
          | None =>
              match match_participants mappings matched_valid rest with
              | inl sw => inl sw
              | inr names => inr (None :: names)
              end
          | Some (k, name) =>
              if bool_decide (k ∈ matched_valid) then inl SW_TOPOLOGY_UNEXPECTED_DUPLICATE_PARTICIPANT
              else match match_participants mappings (k :: matched_valid) rest with
              | inl sw => inl sw
              | inr names => inr (Some name :: names)
              end
          end
      end
  end.
Definition count_found (names : list (option bytes)) : nat := length (omap id names).

(** The loop over the configurations, left at the first one all participants are in. *)
Fixpoint match_configs (configs : list (list participant_id_to_name_mapping_t))
    (participants : list HostingParticipant) : Z + list bytes :=
  match configs with
  | [] => inl SW_TOPOLOGY_UNEXPECTED_PARTICIPANT_ID
  | config :: rest =>
      match (if (length config =? length participants)%nat
             then match_participants config [] participants else inr []) with
      | inl sw => inl sw
      | inr names =>
          if (count_found names =? length participants)%nat then inr (omap id names)
          else match_configs rest participants
      end
  end.

Section Topology.
Context `{Sha256} `{Device} `{Crypto} `{Buffer} `{Compiler} `{OtherMappings}.

Definition topology (f : topology_state → topology_state) : GM unit :=
  modify (λ g, g <| g_topology ::= f |>).

Definition init_hash_storage : GM unit :=
  let* ok := g_mem_alloc (Z.of_nat MAX_HASHES * Z.of_nat HASH_LEN) in
  do* topology (λ t, t <| tp_hashes := if ok : bool then Some [] else None |>) in
  assert_that ok.
Definition cleanup_hash_storage : GM unit := topology (λ t, t <| tp_hashes := None |>).

Definition add_hash (hash : bytes) : GM Z :=
  let* hashes := gets (λ g, tp_hashes (g_topology g)) in
  match hashes with
  | None => abort
  | Some hashes =>
      if (MAX_HASHES <=? length hashes)%nat then ret SW_TOPOLOGY_TOO_MANY_MESSAGES
      else
        do* topology (λ t, t <| tp_hashes := Some (hashes ++ [hash]) |>) in
        ret 0
  end.

(** [true] with nothing read when there is no challenge. *)
Definition read_challenge_and_deadline (cdata : bytes) : GM bool :=
  if negb (buffer_can_read cdata 1) then ret true
  else match buffer_read_u8 cdata with
  | None => ret false
  | Some (length, cdata) =>
      if negb (length =? Z.of_nat CHALLENGE_AND_DEADLINE_LEN) then ret false
      else if negb (buffer_can_read cdata CHALLENGE_AND_DEADLINE_LEN) then ret false
      else match buffer_move CHALLENGE_AND_DEADLINE_LEN cdata with
      | None => ret false
      | Some (moved, _) =>
          do* topology (λ t, t <| tp_challenge := moved |> <| tp_challenge_parsed := true |>) in
          ret true
      end
  end.

(** The derived public key is kept in [tx_info.signature]. *)
Definition process_untyped_versioned_msg_tx_init (cdata : bytes) : GM bool :=
  do* init_hash_storage in
  let* ok := in_display (init_transaction_pairs ONBOARDING_FLOW_DISPLAY_FIELDS_NB) in
  do* assert_that ok in
  do* topology (λ t, t <| tp_has_namespace_delegation := false |>
                       <| tp_has_party_to_participant := false |>
                       <| tp_has_party_to_key_mapping := false |>
                       <| tp_challenge_parsed := false |>) in
  let* path := gets g_bip32_path in
  match derive_public_key path with
  | inl _ => abort
  | inr (key, _) =>
      do* modify (λ g, g <| g_signature := key |>) in
      do* topology (λ t, t <| tp_found := replicate ONBOARDING_FLOW_DISPLAY_FIELDS_NB false |>) in
      read_challenge_and_deadline cdata
  end.

Definition compute_multi_hash : GM unit :=
  let* stored := gets (λ g, tp_hashes (g_topology g)) in
  let hashes := default [] stored in
  let* ok := g_mem_alloc (Z.of_nat (length hashes * HASH_LEN + length hashes * 4 + 4)) in
  do* assert_that ok in
  do* topology (λ t, t <| tp_hashes := Some (qsort hashes) |>) in
  modify (λ g, g <| g_m_hash := canton_hash PURPOSE_MULTI_TOPOLOGY_TRANSACTION_SIGNATURE
                                  (concat_hashes (qsort hashes)) |>).

Definition sign_challenge : GM Z :=
  let* g := get in
  let data_to_sign := take HASH_LEN (g_m_hash g) ++ tp_challenge (g_topology g) in
  do* modify (λ g, g <| g_challenge_signature ::= option_map (λ _, replicate ED25519_SIG_LEN 0) |>) in
  match cx_eddsa_sign (take 32 ATTESTATION_KEY) data_to_sign, cx_ecdomain_parameters_length with
  | Some signature, Some size =>
      do* topology (λ t, t <| tp_challenge := replicate CHALLENGE_AND_DEADLINE_LEN 0 |>) in
      if negb (size * 2 =? Z.of_nat ED25519_SIG_LEN) then ret (-1)
      else
        do* modify (λ g, g <| g_challenge_signature := Some signature |>) in
        ret 0
  | _, _ => abort
  end.

(** ** The fields of the screen *)

Definition set_field_value (field_idx : nat) (value : bytes) : GM bool :=
  let* pairs := gets (λ g, dp_pairs (g_dp g)) in
  match pairs with
  | None => abort
  | Some pairs =>
      if (ONBOARDING_FLOW_DISPLAY_FIELDS_NB <=? length pairs)%nat ||
         (ONBOARDING_FLOW_DISPLAY_FIELDS_NB <=? field_idx)%nat then ret false
      else
        let* ok := g_mem_alloc (strlen value + 1) in
        if negb ok then ret false
        else
          let item := match ONBOARDING_FLOW_DISPLAY_CONFIGS !! field_idx with
                      | Some c => of_item_name c | None => [] end in
          do* on_display (λ d, d <| dp_pairs := Some (pairs ++
                [{| item := item; value := c_str value |}]) |>) in
          do* topology (λ t, t <| tp_found ::= <[field_idx := true]> |>) in
          ret true
  end.

(** [LEDGER_ASSERT(set_field_value(...) == true)]. *)
Definition must_set (field_idx : nat) (value : bytes) : GM unit :=
  let* ok := set_field_value field_idx value in
  assert_that ok.

(** ** The mappings *)

Definition check_party_key_value (key_to_check : bytes) (key_format : Z) (derived : bytes) : Z :=
  if (length key_to_check =? 0)%nat then SW_TOPOLOGY_MISSING_PARTY_KEY
  else if key_format =? CRYPTO_KEY_FORMAT_RAW then
    if negb (length key_to_check =? ED25519_RAW_KEY_LEN)%nat
    then SW_TOPOLOGY_PARTY_KEY_WRONG_FORMAT
    else if negb (mem_eqb key_to_check (take ED25519_RAW_KEY_LEN derived))
    then SW_TOPOLOGY_PARTY_KEY_MISMATCH
    else 0
  else if key_format =? CRYPTO_KEY_FORMAT_DER_X509 then
    if negb (length key_to_check =? ED25519_DER_KEY_LEN)%nat
    then SW_TOPOLOGY_PARTY_KEY_WRONG_FORMAT
    else if negb (mem_eqb (take ED25519_DER_PREFIX_LEN key_to_check) ED25519_DER_PREFIX)
    then SW_TOPOLOGY_PARTY_KEY_WRONG_FORMAT
    else if negb (mem_eqb (drop ED25519_DER_PREFIX_LEN key_to_check)
                          (take ED25519_RAW_KEY_LEN derived))
    then SW_TOPOLOGY_PARTY_KEY_MISMATCH
    else 0
  else SW_TOPOLOGY_PARTY_KEY_WRONG_FORMAT.

Definition check_party_id_value (party_id : option bytes) (derived : bytes) : bool :=
  match party_id with
  | None => false
  | Some party_id =>
      match party_id_from_pubkey derived PARTY_ID_LEN with
      | None => false
      | Some derived_party_id => str_eqb party_id derived_party_id
      end
  end.

Definition process_namespace_delegation (delegation : NamespaceDelegation) : GM Z :=
  let* g := get in
  if tp_has_namespace_delegation (g_topology g)
  then ret SW_TOPOLOGY_MULTIPLE_NAMESPACE_DELEGATIONS
  else
    let key := dl_target_key delegation in
    let res := if dl_has_target_key delegation
               then check_party_key_value (sk_public_key key) (sk_format key) (g_signature g)
               else SW_TOPOLOGY_MISSING_TARGET_KEY in
    do* topology (λ t, t <| tp_has_namespace_delegation := true |>) in
    ret res.

(** [goto cleanup] with [sw]. *)
Definition mapping_refused (sw : Z) : GM Z :=
  do* on_display cleanup_display_items in
  ret sw.

Definition process_party_to_key_mapping (mapping : PartyToKeyMapping) : GM Z :=
  let* g := get in
  if tp_has_party_to_key_mapping (g_topology g)
  then ret SW_TOPOLOGY_MULTIPLE_PARTY_TO_KEY_MAPPINGS
  else if negb (check_party_id_value (pk_party mapping) (g_signature g))
  then mapping_refused SW_TOPOLOGY_PARTY_ID_MISMATCH
  else if negb (pk_threshold mapping =? Z.of_nat (length (pk_signing_keys mapping)))
  then mapping_refused SW_TOPOLOGY_UNEXPECTED_PARTY_TO_KEY_THRESHOLD_VALUE
  else match pk_signing_keys mapping with
  | [key] =>
      let res := check_party_key_value (sk_public_key key) (sk_format key) (g_signature g) in
      if negb (res =? 0) then mapping_refused res
      else
        do* topology (λ t, t <| tp_has_party_to_key_mapping := true |>) in
        ret 0
  | _ => mapping_refused SW_TOPOLOGY_UNEXPECTED_PARTY_TO_KEY_SIGNING_KEYS_COUNT
  end.

(** ["%u out of %u"]. *)
Definition threshold_text (threshold count : Z) : bytes :=
  lit (pretty threshold) ++ lit " out of " ++ lit (pretty count).

(** The participants are not NULL once there are two of them. *)
Definition process_party_to_participant (mapping : PartyToParticipant) : GM Z :=
  let* g := get in
  let pc := length (pp_participants mapping) in
  if tp_has_party_to_participant (g_topology g)
  then ret SW_TOPOLOGY_MULTIPLE_PARTY_TO_PARTICIPANTS
  else match pp_party mapping with
  | None => mapping_refused SW_TOPOLOGY_MISSING_PARTY
  | Some party =>
      if negb (check_party_id_value (Some party) (g_signature g))
      then mapping_refused SW_TOPOLOGY_PARTY_ID_MISMATCH
      else if negb (pc =? EXPECTED_PARTICIPANTS_NB)%nat
      then mapping_refused SW_TOPOLOGY_UNEXPECTED_NUMBER_OF_PARTICIPANTS
      else if negb (pp_threshold mapping =? Z.of_nat pc)
      then mapping_refused SW_TOPOLOGY_UNEXPECTED_THRESHOLD_VALUE
      else if pp_has_party_signing_keys mapping
      then mapping_refused SW_TOPOLOGY_UNEXPECTED_PARTY_SIGNING_KEYS
      else
        do* must_set PARTY_FIELD_IDX party in
        match match_configs VALID_PARTICIPANTS_CONFIGS (pp_participants mapping) with
        | inl sw => mapping_refused sw
        | inr names =>
            do* mfor (λ '(j, name), must_set (if (j =? 0)%nat then PARTICIPANT_1_FIELD_IDX
                                              else PARTICIPANT_2_FIELD_IDX) name)
                     (imap pair names) in
            do* (if 1 <? pp_threshold mapping
                 then must_set THRESHOLD_FIELD_IDX
                        (threshold_text (pp_threshold mapping) (Z.of_nat pc))
                 else ret tt) in
            do* topology (λ t, t <| tp_has_party_to_participant := true |>) in
            ret 0
        end
  end.

(** ** A message *)

Definition run_other (tag : Z) (sub : istream) : GM unit := λ g,
  let '(ok, clock) := decode_other_mapping tag sub (g_clock g) in
  (if ok then Ret tt else Fail, g <| g_clock := clock |>).

(** [pb_parser.c]. *)
Definition proto_deserialize_topology_transaction (buf : bytes) : GM TopologyTransaction :=
  let* msg := pb_decode_inner UntypedVersionedMessage_fields buf UntypedVersionedMessage_zero in
  match uv_data msg with
  | None => fail
  | Some data =>
      do* guard ((uv_which_wrapper msg =? UNTYPED_VERSIONED_MESSAGE_DATA_TAG) &&
                 negb (length data =? 0)%nat) in
      pb_decode_inner (TopologyTransaction_fields run_other) data TopologyTransaction_zero
  end.

(** The status of a failed parse is returned as it is. *)
Definition VALUE_PARSING_ERROR_status : Z := -3.

Definition process_mapping (mapping : TopologyMapping) : GM Z :=
  let which := tm_which_mapping mapping in
  let u := tm_mapping mapping in
  if which =? TOPOLOGY_MAPPING_NAMESPACE_DELEGATION_TAG then
    process_namespace_delegation
      match u with MU_namespace_delegation d => d | _ => NamespaceDelegation_zero end
  else if which =? TOPOLOGY_MAPPING_PARTY_TO_PARTICIPANT_TAG then
    process_party_to_participant
      match u with MU_party_to_participant m => m | _ => PartyToParticipant_zero end
  else if which =? TOPOLOGY_MAPPING_PARTY_TO_KEY_MAPPING_TAG then
    process_party_to_key_mapping
      match u with MU_party_to_key_mapping m => m | _ => PartyToKeyMapping_zero end
  else ret SW_TOPOLOGY_UNKNOWN_MAPPING_TYPE.

Definition parse_topology_transaction_for_display (buf : bytes) : GM Z :=
  let* parsed := attempt (proto_deserialize_topology_transaction buf) in
  match parsed with
  | None => ret VALUE_PARSING_ERROR_status
  | Some tx =>
      if negb (to_has_mapping tx) then ret 0
      else if negb (to_operation tx =? TOPOLOGY_CHANGE_OP_ADD_REPLACE)
      then ret SW_TOPOLOGY_UNSUPPORTED_OPERATION
      else process_mapping (to_mapping tx)
  end.

(** All mandatory fields are found. *)
Definition mandatory_found (found : list bool) : bool :=
  forallb (λ '(c, b), negb (of_mandatory c) || b) (combine ONBOARDING_FLOW_DISPLAY_CONFIGS found).

Definition finish_topology : GM Z :=
  do* compute_multi_hash in
  do* cleanup_hash_storage in
  let* parsed := gets (λ g, tp_challenge_parsed (g_topology g)) in
  let* signed := (if parsed : bool then sign_challenge else ret 0) in
  if negb (signed =? 0) then ret SW_CHALLENGE_SIGNATURE_FAIL
  else
    let* t := gets g_topology in
    if tp_has_namespace_delegation t && tp_has_party_to_key_mapping t &&
       tp_has_party_to_participant t then
      if negb (mandatory_found (tp_found t)) then ret SW_TOPOLOGY_MANDATORY_FIELD_MISSING
      else
        do* on_display (λ d, d <| dp_clear_signing_available := true |>
                               <| dp_review_title := REVIEW_TITLE |>
                               <| dp_review_finish := REVIEW_FINISH |>) in
        ret 0
    else ret 0.

Definition process_untyped_versioned_msg_tx (buf : bytes) : GM Z :=
  let* added := add_hash (canton_hash PURPOSE_TOPOLOGY_TRANSACTION_SIGNATURE buf) in
  if negb (added =? 0) then do* cleanup_hash_storage in ret added
  else
    let* res := parse_topology_transaction_for_display buf in
    if negb (res =? 0) then do* cleanup_hash_storage in ret res
    else
      let* st := gets g_state in
      if bool_decide (st = STATE_PARSED) then finish_topology else ret 0.
End Topology.

(** ** What an accepted message is

    [ML_nothing] is a message without a mapping, which is hashed and not looked at. *)

Inductive message_log :=
  | ML_nothing
  | ML_namespace_delegation (d : NamespaceDelegation)
  | ML_party_to_key_mapping (m : PartyToKeyMapping)
  | ML_party_to_participant (m : PartyToParticipant) (names : list bytes).

Definition key_is (derived : bytes) (key : SigningPublicKey) : Prop :=
  let raw := take ED25519_RAW_KEY_LEN derived in
  (sk_format key = CRYPTO_KEY_FORMAT_RAW ∧ sk_public_key key = raw) ∨
  (sk_format key = CRYPTO_KEY_FORMAT_DER_X509 ∧ sk_public_key key = ED25519_DER_PREFIX ++ raw).

(** The participants are the two validators of one network, under their names. *)
Definition validators_are (participants : list HostingParticipant) (names : list bytes) : Prop :=
  ∃ config ms, config ∈ VALID_PARTICIPANTS_CONFIGS ∧ ms ≡ₚ config ∧
    Forall2 (λ p m, ∃ uid, ho_participant_uid p = Some uid ∧ c_str uid = c_str (participant_id m))
      participants ms ∧
    names = map participant_name ms.

Section Logs.
Context `{Sha256}.

Definition party_is (derived : bytes) (party : option bytes) : Prop :=
  ∃ p d, party = Some p ∧ party_id_from_pubkey derived PARTY_ID_LEN = Some d ∧ c_str p = c_str d.

Definition mapping_is (derived : bytes) (l : message_log) : Prop :=
  match l with
  | ML_nothing => True
  | ML_namespace_delegation d => dl_has_target_key d = true ∧ key_is derived (dl_target_key d)
  | ML_party_to_key_mapping m => party_is derived (pk_party m) ∧ pk_threshold m = 1 ∧
      ∃ key, pk_signing_keys m = [key] ∧ key_is derived key
  | ML_party_to_participant m names => party_is derived (pp_party m) ∧ pp_threshold m = 2 ∧
      pp_has_party_signing_keys m = false ∧ validators_are (pp_participants m) names
  end.

Definition log_mapping (l : message_log) : option mapping_union :=
  match l with
  | ML_nothing => None
  | ML_namespace_delegation d => Some (MU_namespace_delegation d)
  | ML_party_to_key_mapping m => Some (MU_party_to_key_mapping m)
  | ML_party_to_participant m _ => Some (MU_party_to_participant m)
  end.
Definition log_of_tx (tx : TopologyTransaction) (l : message_log) : Prop :=
  match log_mapping l with
  | None => to_has_mapping tx = false
  | Some u => to_has_mapping tx = true ∧ to_operation tx = TOPOLOGY_CHANGE_OP_ADD_REPLACE ∧
      tm_mapping (to_mapping tx) = u
  end.

(** The lines a party-to-participant mapping puts on screen. *)
Definition onboarding_pair (i : nat) (v : bytes) : nbgl_contentTagValue_t :=
  {| item := match ONBOARDING_FLOW_DISPLAY_CONFIGS !! i with
             | Some c => of_item_name c | None => [] end;
     value := c_str v |}.
Definition onboarding_pairs (m : PartyToParticipant) (names : list bytes)
  : list nbgl_contentTagValue_t :=
  onboarding_pair PARTY_FIELD_IDX (default [] (pp_party m)) ::
  imap (λ j name, onboarding_pair (if (j =? 0)%nat then PARTICIPANT_1_FIELD_IDX
                                   else PARTICIPANT_2_FIELD_IDX) name) names ++
  [onboarding_pair THRESHOLD_FIELD_IDX (lit "2 out of 2")].
Definition log_pairs (l : message_log) : list nbgl_contentTagValue_t :=
  match l with ML_party_to_participant m names => onboarding_pairs m names | _ => [] end.

(** ** The checks *)

Lemma check_party_key_value_spec key derived :
  check_party_key_value (sk_public_key key) (sk_format key) derived = 0 → key_is derived key.
Proof.
  unfold check_party_key_value, key_is.
  destruct (_ =? 0)%nat; [done|]. destruct (Z.eqb_spec (sk_format key) CRYPTO_KEY_FORMAT_RAW) as [->|_].
  - destruct (negb _); [done|]. destruct (mem_eqb _ _) eqn:E; [|done].
    apply mem_eqb_spec in E. by left.
  - destruct (Z.eqb_spec (sk_format key) CRYPTO_KEY_FORMAT_DER_X509) as [->|_]; [|done].
    destruct (negb _); [done|]. destruct (mem_eqb _ ED25519_DER_PREFIX) eqn:E1; [|done]. cbn [negb].
    destruct (mem_eqb (drop _ _) _) eqn:E2; [|done].
    apply mem_eqb_spec in E1, E2. intros _. right. split; [done|].
    by rewrite <- E1, <- E2, take_drop.
Qed.

Lemma check_party_id_value_spec party derived :
  check_party_id_value party derived = true → party_is derived party.
Proof.
  unfold check_party_id_value, party_is. destruct party as [p|]; [|done].
  destruct (party_id_from_pubkey _ _) as [d|] eqn:E; [|done].
  intros Hp%str_eqb_spec. by exists p, d.
Qed.

(** *** The participants *)

Lemma find_valid_spec uid mappings k name : find_valid uid mappings = Some (k, name) →
  ∃ m, mappings !! k = Some m ∧ c_str uid = c_str (participant_id m) ∧ name = participant_name m.
Proof.
  revert k. induction mappings as [|m rest IH]; intros k; cbn; [done|].
  destruct (str_eqb uid (participant_id m)) eqn:E.
  - intros [= <- <-]. apply str_eqb_spec in E. by exists m.
  - destruct (find_valid uid rest) as [[k' n]|]; [|done]. intros [= <- ->].
    destruct (IH k' eq_refl) as (m' & Hm & Hrest). by exists m'.
Qed.

Lemma match_participants_count mappings ps : ∀ matched names,
  match_participants mappings matched ps = inr names → (count_found names ≤ length ps)%nat.
Proof.
  induction ps as [|p ps IH]; intros matched names; cbn; [by intros [= <-]|].
  destruct (ho_participant_uid p) as [uid|]; [|done]. destruct (strlen uid =? 0); [done|].
  destruct (find_valid uid mappings) as [[k name]|].
  - case_bool_decide; [done|]. destruct (match_participants mappings (k :: matched) ps) eqn:E; [done|].
    intros [= <-]. apply IH in E. unfold count_found in *. cbn. lia.
  - destruct (match_participants mappings matched ps) eqn:E; [done|].
    intros [= <-]. apply IH in E. unfold count_found in *. cbn. lia.
Qed.

Lemma match_participants_spec mappings ps : ∀ matched names,
  match_participants mappings matched ps = inr names → count_found names = length ps →
  ∃ ks, NoDup ks ∧ (∀ k, k ∈ ks → k ∉ matched) ∧
    Forall2 (λ p k, ∃ uid m, ho_participant_uid p = Some uid ∧ mappings !! k = Some m ∧
                      c_str uid = c_str (participant_id m)) ps ks ∧
    Forall2 (λ n k, ∃ m, mappings !! k = Some m ∧ n = participant_name m) (omap id names) ks.
Proof.
  induction ps as [|p ps IH]; intros matched names; cbn.
  - intros [= <-] _. exists []. split_and!; try constructor. set_solver.
  - destruct (ho_participant_uid p) as [uid|] eqn:Eu; [|done]. destruct (strlen uid =? 0); [done|].
    destruct (find_valid uid mappings) as [[k name]|] eqn:Ef.
    + case_bool_decide as Hk; [done|].
      destruct (match_participants mappings (k :: matched) ps) as [|names'] eqn:E; [done|].
      intros [= <-] Hc. injection Hc as Hc.
      destruct (IH _ _ E Hc) as (ks & Hnd & Hm & Hps & Hn).
      destruct (find_valid_spec _ _ _ _ Ef) as (m & Hm1 & Hm2 & ->).
      exists (k :: ks). split_and!.
      * constructor; [|done]. intros Hin. apply (Hm k Hin). set_solver.
      * intros k' [->|Hk']%elem_of_cons; [done|]. specialize (Hm k' Hk'). set_solver.
      * constructor; [by exists uid, m|done].
      * cbn. constructor; [by exists m|done].
    + destruct (match_participants mappings matched ps) as [|names'] eqn:E; [done|].
      intros [= <-]. unfold count_found. cbn. intros Hc.
      apply match_participants_count in E. unfold count_found in E. lia.
Qed.

(** Distinct indices of all the entries are the entries in some order. *)
Lemma distinct_indices {A} (l ms : list A) ks : NoDup ks → length ks = length l →
  Forall2 (λ m k, l !! k = Some m) ms ks → ms ≡ₚ l.
Proof.
  intros Hnd Hlen Hms.
  assert (Hks : ks ≡ₚ seq 0 (length l)).
  { apply submseteq_length_Permutation; [|by rewrite length_seq, Hlen].
    apply NoDup_submseteq; [done|]. intros k Hk. apply elem_of_seq.
    apply list_elem_of_lookup in Hk as (i & Hi).
    destruct (Forall2_lookup_r _ _ _ _ _ Hms Hi) as (m & _ & Hm).
    apply lookup_lt_Some in Hm. lia. }
  assert (Hl : ∀ ks ms, Forall2 (λ m k, l !! k = Some m) ms ks → ms = omap (l !!.) ks).
  { intros ks' ms' Hf. induction Hf as [|m k ms' ks' Hk _ IH]; [done|]. cbn. by rewrite Hk, IH. }
  rewrite (Hl _ _ Hms), Hks.
  assert (Hseq : ∀ p, omap ((p ++ l) !!.) (seq (length p) (length l)) = l).
  { clear. induction l as [|a l IH]; intros p; [done|]. cbn [length seq omap].
    cbn. rewrite lookup_app_r, Nat.sub_diag by done. cbn. f_equal.
    specialize (IH (p ++ [a])). rewrite <- app_assoc, length_app, Nat.add_1_r in IH. done. }
  specialize (Hseq []). cbn in Hseq. by rewrite Hseq.
Qed.

(** The errors are status words. *)
Lemma match_participants_error mappings ps : ∀ matched sw,
  match_participants mappings matched ps = inl sw → sw ≠ 0.
Proof.
  induction ps as [|p ps IH]; intros matched sw; cbn; [done|].
  destruct (ho_participant_uid p) as [uid|]; [|by intros [= <-]].
  destruct (strlen uid =? 0); [by intros [= <-]|].
  destruct (find_valid uid mappings) as [[k name]|].
  - case_bool_decide; [by intros [= <-]|].
    destruct (match_participants mappings (k :: matched) ps) eqn:E; [|done]. intros [= <-]. by eapply IH.
  - destruct (match_participants mappings matched ps) eqn:E; [|done]. intros [= <-]. by eapply IH.
Qed.
Lemma match_configs_error configs ps : match_configs configs ps ≠ inl 0.
Proof.
  induction configs as [|config configs IH]; cbn; [done|].
  destruct (if (_ =? _)%nat then _ else _) as [sw|names] eqn:E.
  - destruct (length config =? length ps)%nat; [|done].
    apply match_participants_error in E. congruence.
  - destruct (count_found names =? length ps)%nat; [done|exact IH].
Qed.

Lemma match_configs_spec configs ps names : match_configs configs ps = inr names →
  (0 < length ps)%nat →
  ∃ config ms, config ∈ configs ∧ ms ≡ₚ config ∧
    Forall2 (λ p m, ∃ uid, ho_participant_uid p = Some uid ∧ c_str uid = c_str (participant_id m))
      ps ms ∧ names = map participant_name ms.
Proof.
  intros E Hps. revert E. induction configs as [|config configs IH]; cbn; [done|].
  assert (Hrest : match_configs configs ps = inr names → ∃ config' ms, config' ∈ config :: configs ∧
    ms ≡ₚ config' ∧ Forall2 (λ p m, ∃ uid, ho_participant_uid p = Some uid ∧
      c_str uid = c_str (participant_id m)) ps ms ∧ names = map participant_name ms).
  { intros E. destruct (IH E) as (c & ms & Hc & Hr). exists c, ms. split; [set_solver|done]. }
  destruct (Nat.eqb_spec (length config) (length ps)) as [Hlen|_].
  - destruct (match_participants config [] ps) as [|ns] eqn:E; [done|].
    destruct (Nat.eqb_spec (count_found ns) (length ps)) as [Hc|_]; [|done]. intros [= <-].
    destruct (match_participants_spec _ _ _ _ E Hc) as (ks & Hnd & _ & Hk & Hn).
    assert (Hms : ∃ ms, Forall2 (λ m k, config !! k = Some m) ms ks).
    { clear -Hn. induction Hn as [|n k ns' ks (m & Hm & _) _ [ms IH]]; [by exists []|].
      exists (m :: ms). by constructor. }
    destruct Hms as (ms & Hms). exists config, ms. split_and!.
    + set_solver.
    + apply (distinct_indices _ _ ks); [done|by rewrite Hlen, (Forall2_length _ _ _ Hk)|done].
    + clear -Hk Hms. revert ms Hms. induction Hk as [|p k ps ks (uid & m & Hu & Hm & Hc) _ IH];
        intros ms Hms; [by apply Forall2_nil_inv_r in Hms as ->|].
      apply Forall2_cons_inv_r in Hms as (m' & ms' & Hm' & Hms & ->).
      constructor; [|by apply IH]. exists uid. split; [done|]. congruence.
    + clear -Hn Hms. revert ms Hms. induction Hn as [|n k ns' ks (m & Hm & ->) _ IH];
        intros ms Hms; [by apply Forall2_nil_inv_r in Hms as ->|].
      apply Forall2_cons_inv_r in Hms as (m' & ms' & Hm' & Hms & ->).
      cbn. f_equal; [congruence|by apply IH].
  - destruct (Nat.eqb_spec (count_found []) (length ps)) as [Hc|_]; [cbn in Hc; lia|done].
Qed.
End Logs.

(** ** The effect of each step *)

Section Effects.
Context `{Sha256} `{Device} `{Crypto} `{Buffer} `{Compiler} `{OtherMappings}.

(** A step on the screen, the topology state and the clock only. *)
Definition on_screen_only (g g' : context) : Prop :=
  g' = g <| g_clock := g_clock g' |>
         <| g_dp := (g_dp g) <| dp_pairs := dp_pairs (g_dp g') |> |>
         <| g_topology := g_topology g' |>.
Lemma same_pairs d : d <| dp_pairs := dp_pairs d |> = d.
Proof. by destruct d. Qed.
Lemma on_screen_only_refl g : on_screen_only g g.
Proof. unfold on_screen_only. rewrite same_pairs. by destruct g. Qed.
Lemma on_screen_topology f g : on_screen_only g (g <| g_topology ::= f |>).
Proof.
  unfold on_screen_only. change (dp_pairs (g_dp (g <| g_topology ::= f |>))) with (dp_pairs (g_dp g)).
  by rewrite same_pairs.
Qed.
Lemma on_screen_only_trans g1 g2 g3 :
  on_screen_only g1 g2 → on_screen_only g2 g3 → on_screen_only g1 g3.
Proof. unfold on_screen_only. intros E1 E2. rewrite E2, E1. done. Qed.

Lemma assert_inv {S} b (s : S) u s' : assert_that b s = (Ret u, s') → b = true ∧ s' = s.
Proof. destruct b; [|done]. by intros [= _ ->]. Qed.
Lemma must_set_inv i v g u g' : must_set i v g = (Ret u, g') →
  ∃ pairs, dp_pairs (g_dp g) = Some pairs ∧ (length pairs < ONBOARDING_FLOW_DISPLAY_FIELDS_NB)%nat ∧
    on_screen_only g g' ∧ dp_pairs (g_dp g') = Some (pairs ++ [onboarding_pair i v]) ∧
    g_topology g' = (g_topology g) <| tp_found ::= <[i := true]> |>.
Proof.
  unfold must_set. intros (ok & g1 & E1 & [-> ->]%assert_inv)%bind_ret_inv.
  unfold set_field_value in E1.
  apply bind_ret_inv in E1 as (ps & g2 & E2 & E1). injection E2 as E2 <-.
  destruct ps as [pairs|]; [|done]. exists pairs.
  destruct (_ || _) eqn:El in E1; [done|].
  apply orb_false_iff in El as [El _]. apply Nat.leb_gt in El.
  apply bind_ret_inv in E1 as (ok & g2 & E3 & E1). injection E3 as _ <-.
  destruct ok; [|done]. cbn [negb] in E1.
  apply bind_ret_inv in E1 as (u1 & g3 & E3 & E1). injection E3 as _ <-.
  apply bind_ret_inv in E1 as (u2 & g4 & E4 & E1). injection E4 as _ <-. injection E1 as <-.
  by split_and!.
Qed.

(** The flag of the kind of [l], and the state after it was accepted. *)
Definition kind_seen (l : message_log) (t : topology_state) : bool :=
  match l with
  | ML_nothing => false
  | ML_namespace_delegation _ => tp_has_namespace_delegation t
  | ML_party_to_key_mapping _ => tp_has_party_to_key_mapping t
  | ML_party_to_participant _ _ => tp_has_party_to_participant t
  end.
Definition after_log (l : message_log) (t : topology_state) : topology_state :=
  match l with
  | ML_nothing => t
  | ML_namespace_delegation _ => t <| tp_has_namespace_delegation := true |>
  | ML_party_to_key_mapping _ => t <| tp_has_party_to_key_mapping := true |>
  | ML_party_to_participant _ _ =>
      t <| tp_found ::= λ f, <[THRESHOLD_FIELD_IDX := true]> (<[PARTICIPANT_2_FIELD_IDX := true]>
             (<[PARTICIPANT_1_FIELD_IDX := true]> (<[PARTY_FIELD_IDX := true]> f))) |>
        <| tp_has_party_to_participant := true |>
  end.
Record accepted (l : message_log) (g g' : context) : Prop := {
  ac_new : kind_seen l (g_topology g) = false;
  ac_true : mapping_is (g_signature g) l;
  ac_frame : on_screen_only g g';
  ac_pairs : ∀ pairs, dp_pairs (g_dp g) = Some pairs → dp_pairs (g_dp g') = Some (pairs ++ log_pairs l);
  ac_topology : g_topology g' = after_log l (g_topology g)
}.

Lemma mapping_refused_inv sw g g' : mapping_refused sw g = (Ret 0, g') → sw = 0.
Proof. unfold mapping_refused, bind, on_display, modify, ret. congruence. Qed.

(** [if (b) { ret = sw; goto cleanup; }] was not taken. *)
Lemma refused_if_inv (b : bool) sw (k : GM Z) g g' : sw ≠ 0 →
  (if b then mapping_refused sw else k) g = (Ret 0, g') → b = false ∧ k g = (Ret 0, g').
Proof. intros Hsw. destruct b; [|done]. by intros E%mapping_refused_inv. Qed.
Lemma returned_if_inv {S} (b : bool) sw (k : M S Z) s s' : sw ≠ 0 →
  (if b then ret sw else k) s = (Ret 0, s') → b = false ∧ k s = (Ret 0, s').
Proof. intros Hsw. destruct b; [|done]. unfold ret. congruence. Qed.

Lemma namespace_delegation_accepted d g g' : process_namespace_delegation d g = (Ret 0, g') →
  accepted (ML_namespace_delegation d) g g'.
Proof.
  unfold process_namespace_delegation. intros (g0 & g1 & Eg & E)%bind_ret_inv. injection Eg as <- <-.
  apply returned_if_inv in E as [Hseen E]; [|done].
  apply bind_ret_inv in E as (u & g2 & Eg & E). injection Eg as _ <-. injection E as E <-.
  assert (Hk : dl_has_target_key d = true ∧ key_is (g_signature g) (dl_target_key d)).
  { revert E. destruct (dl_has_target_key d); [|done]. by intros E%check_party_key_value_spec. }
  split; try done; [exact (on_screen_topology (λ t, t <| tp_has_namespace_delegation := true |>) _)|intros ps Hps; cbn; by rewrite app_nil_r].
Qed.

Lemma party_to_key_mapping_accepted m g g' : process_party_to_key_mapping m g = (Ret 0, g') →
  accepted (ML_party_to_key_mapping m) g g'.
Proof.
  unfold process_party_to_key_mapping. intros (g0 & g1 & Eg & E)%bind_ret_inv. injection Eg as <- <-.
  apply returned_if_inv in E as [Hseen E]; [|done].
  apply refused_if_inv in E as [Hp E]; [|done].
  apply refused_if_inv in E as [Ht E]; [|done].
  apply negb_false_iff in Hp, Ht. apply check_party_id_value_spec in Hp. apply Z.eqb_eq in Ht.
  destruct (pk_signing_keys m) as [|key [|]] eqn:Ek;
    [by apply mapping_refused_inv in E| |by apply mapping_refused_inv in E].
  destruct (check_party_key_value _ _ _ =? 0) eqn:Ec in E;
    [|apply mapping_refused_inv in E; apply Z.eqb_neq in Ec; done].
  apply Z.eqb_eq, check_party_key_value_spec in Ec.
  apply bind_ret_inv in E as (u & g2 & Eg & E). injection Eg as _ <-. injection E as <-.
  split; try done.
  - cbn. split_and!; [done|by rewrite Ht|]. by exists key.
  - exact (on_screen_topology (λ t, t <| tp_has_party_to_key_mapping := true |>) _).
  - intros ps Hps; cbn; by rewrite app_nil_r.
Qed.

(** What remains of the mapping once its party is on screen. *)
Lemma participants_shown m names g g' :
  (do* mfor (λ '(j, name), must_set (if (j =? 0)%nat then PARTICIPANT_1_FIELD_IDX
                                     else PARTICIPANT_2_FIELD_IDX) name) (imap pair names) in
   do* (if 1 <? pp_threshold m
        then must_set THRESHOLD_FIELD_IDX (threshold_text (pp_threshold m) 2) else ret tt) in
   do* topology (λ t, t <| tp_has_party_to_participant := true |>) in
   ret 0) g = (Ret 0, g') →
  length names = 2%nat → pp_threshold m = 2 →
  ∃ pairs, dp_pairs (g_dp g) = Some pairs ∧ on_screen_only g g' ∧
    dp_pairs (g_dp g') = Some (pairs ++ tail (onboarding_pairs m names)) ∧
    g_topology g' = (g_topology g) <| tp_found ::= λ f, <[THRESHOLD_FIELD_IDX := true]>
        (<[PARTICIPANT_2_FIELD_IDX := true]> (<[PARTICIPANT_1_FIELD_IDX := true]> f)) |>
      <| tp_has_party_to_participant := true |>.
Proof.
  intros E Hn Ht. destruct names as [|n1 [|n2 [|]]]; try done. cbn [imap mfor] in E. rewrite Ht in E.
  apply bind_ret_inv in E as (u & g1 & E1 & E).
  apply bind_ret_inv in E1 as (u1 & g2 & (ps & Hp & _ & F1 & P1 & T1)%must_set_inv & E1).
  apply bind_ret_inv in E1 as (u2 & g3 & (ps2 & Hp2 & _ & F2 & P2 & T2)%must_set_inv & E1).
  injection E1 as _ <-.
  apply bind_ret_inv in E as (u3 & g4 & (ps3 & Hp3 & _ & F3 & P3 & T3)%must_set_inv & E).
  apply bind_ret_inv in E as (u4 & g5 & E5 & E). injection E5 as _ <-. injection E as <-.
  exists ps. split_and!; [done| | |].
  - eapply on_screen_only_trans; [exact F1|]. eapply on_screen_only_trans; [exact F2|].
    eapply on_screen_only_trans; [exact F3|]. exact (on_screen_topology (λ t, t <| tp_has_party_to_participant := true |>) _).
  - change (dp_pairs (g_dp g4) = Some (ps ++ tail (onboarding_pairs m [n1; n2]))).
    rewrite P3. rewrite P2 in Hp3. injection Hp3 as <-. rewrite P1 in Hp2. injection Hp2 as <-.
    by rewrite <- !app_assoc.
  - change ((g_topology g4) <| tp_has_party_to_participant := true |> =
      (g_topology g) <| tp_found ::= λ f, <[THRESHOLD_FIELD_IDX := true]>
        (<[PARTICIPANT_2_FIELD_IDX := true]> (<[PARTICIPANT_1_FIELD_IDX := true]> f)) |>
      <| tp_has_party_to_participant := true |>).
    by rewrite T3, T2, T1.
Qed.

Lemma party_to_participant_accepted m g g' : process_party_to_participant m g = (Ret 0, g') →
  ∃ names, accepted (ML_party_to_participant m names) g g'.
Proof.
  unfold process_party_to_participant. intros (g0 & g1 & Eg & E)%bind_ret_inv. injection Eg as <- <-.
  apply returned_if_inv in E as [Hseen E]; [|done].
  destruct (pp_party m) as [party|] eqn:Epp; [|by apply mapping_refused_inv in E].
  apply refused_if_inv in E as [Hp E]; [|done].
  apply refused_if_inv in E as [Hc E]; [|done].
  apply refused_if_inv in E as [Ht E]; [|done].
  apply refused_if_inv in E as [Hk E]; [|done].
  apply negb_false_iff in Hp, Hc, Ht. apply check_party_id_value_spec in Hp.
  apply Nat.eqb_eq in Hc. apply Z.eqb_eq in Ht. rewrite Hc in E, Ht.
  apply bind_ret_inv in E as (u & g1 & (ps & P0 & _ & F1 & P1 & T1)%must_set_inv & E).
  destruct (match_configs _ _) as [sw|names] eqn:Em.
  { apply mapping_refused_inv in E as ->. by apply match_configs_error in Em. }
  apply match_configs_spec in Em as (config & ms & Hin & Hperm & Hps & Hnames); [|rewrite Hc; apply Nat.lt_0_succ].
  assert (Hlen : length names = 2%nat)
    by (rewrite Hnames, length_map, <- (Forall2_length _ _ _ Hps); exact Hc).
  destruct (participants_shown m names g1 g' E Hlen Ht) as (ps1 & P2 & F2 & P3 & T3).
  exists names. split; [done| |by eapply on_screen_only_trans| |].
  - cbn. rewrite Epp. split_and!; try done. by exists config, ms.
  - intros pairs Hpairs. rewrite P3. rewrite P1 in P2. injection P2 as <-.
    rewrite P0 in Hpairs. injection Hpairs as <-. unfold log_pairs, onboarding_pairs.
    rewrite Epp. cbn [default tail]. by rewrite <- app_assoc.
  - by rewrite T3, T1.
Qed.

Lemma process_mapping_accepted m g g' : process_mapping m g = (Ret 0, g') →
  ∃ l, log_mapping l = Some (tm_mapping m) ∧ accepted l g g'.
Proof.
  unfold process_mapping. destruct (_ =? TOPOLOGY_MAPPING_NAMESPACE_DELEGATION_TAG).
  { intros A%namespace_delegation_accepted. eexists. split; [|exact A]. cbn.
    destruct A as [_ [A _] _ _ _]. by destruct (tm_mapping m). }
  destruct (_ =? TOPOLOGY_MAPPING_PARTY_TO_PARTICIPANT_TAG).
  { intros [names A]%party_to_participant_accepted. eexists. split; [|exact A]. cbn.
    destruct A as [_ [(p & _ & A & _) _] _ _ _]. by destruct (tm_mapping m). }
  destruct (_ =? TOPOLOGY_MAPPING_PARTY_TO_KEY_MAPPING_TAG); [|done].
  intros A%party_to_key_mapping_accepted. eexists. split; [|exact A]. cbn.
  destruct A as [_ [(p & _ & A & _) _] _ _ _]. by destruct (tm_mapping m).
Qed.

(** [buf] decodes as [tx]. *)
Definition topology_decodes (buf : bytes) (tx : TopologyTransaction) : Prop :=
  ∃ g g', proto_deserialize_topology_transaction buf g = (Ret tx, g').

Lemma run_other_safe g tag s : keeps (same_but_clock g) (run_other tag s).
Proof.
  intros g' Hg. unfold run_other, same_but_clock in *.
  destruct (decode_other_mapping tag s _) as [[] c]; rewrite Hg; done.
Qed.
Lemma topology_decode_safe g buf :
  keeps (same_but_clock g) (proto_deserialize_topology_transaction buf).
Proof.
  apply safe_seq.
  - apply pb_decode_inner_safe. intros n _.
    apply UntypedVersionedMessage_fields_safe, g_realloc_safe.
  - intros msg. destruct (uv_data msg) as [data|]; [|apply safe_fail].
    apply safe_seq; [apply safe_guard_any|]. intros _. apply pb_decode_inner_safe. intros n _.
    apply TopologyTransaction_fields_safe; [apply g_realloc_safe|apply run_other_safe].
Qed.

Lemma parse_topology_accepted buf g g' : parse_topology_transaction_for_display buf g = (Ret 0, g') →
  ∃ tx l g1, same_but_clock g g1 ∧ topology_decodes buf tx ∧ log_of_tx tx l ∧ accepted l g1 g'.
Proof.
  unfold parse_topology_transaction_for_display. intros (tx & g1 & E1 & E)%bind_ret_inv.
  pose proof (topology_decode_safe g buf g (same_but_clock_refl g)) as Hs.
  unfold attempt in E1. destruct (proto_deserialize_topology_transaction buf g) as [[t| | |] g2] eqn:Ed;
    try done; injection E1 as <- <-; [|done].
  destruct Hs as [Hs _]. exists t.
  destruct (to_has_mapping t) eqn:Eh; cbn [negb] in E.
  - apply returned_if_inv in E as [Ho E]; [|done]. apply negb_false_iff, Z.eqb_eq in Ho.
    apply process_mapping_accepted in E as (l & Hl & A). exists l, g2.
    split_and!; try done; [by eexists _, _|]. unfold log_of_tx. by rewrite Hl.
  - injection E as <-. exists ML_nothing, g2. split_and!; try done; [by eexists _, _|].
    split; try done; [apply on_screen_only_refl|]. intros ps ->. by rewrite app_nil_r.
Qed.

(** ** The run of a session

    Between two messages the APDU layer changes nothing of what the flow keeps. *)

Record topology_between (g g' : context) : Prop := {
  tb_topology : g_topology g' = g_topology g;
  tb_dp : g_dp g' = g_dp g;
  tb_key : g_signature g' = g_signature g
}.

(** The messages accepted so far, none of them the last. *)
Inductive onboarding (key : bytes) : list bytes → context → Prop :=
  | onboarding_start cdata g g' chain : derive_public_key (g_bip32_path g) = inr (key, chain) →
      g_clear_signing_available g = false →
      process_untyped_versioned_msg_tx_init cdata g = (Ret true, g') → onboarding key [] g'
  | onboarding_part bufs buf g g1 g2 : onboarding key bufs g → topology_between g g1 →
      g_state g1 ≠ STATE_PARSED →
      process_untyped_versioned_msg_tx buf g1 = (Ret 0, g2) → onboarding key (bufs ++ [buf]) g2.
(** The run whose last message was accepted. *)
Inductive onboarded (key : bytes) : list bytes → context → Prop :=
  | onboarded_part bufs buf g g1 g2 : onboarding key bufs g → topology_between g g1 →
      g_state g1 = STATE_PARSED →
      process_untyped_versioned_msg_tx buf g1 = (Ret 0, g2) → onboarded key (bufs ++ [buf]) g2.

Definition message_logged (key buf : bytes) (l : message_log) : Prop :=
  mapping_is key l ∧ ∃ tx, topology_decodes buf tx ∧ log_of_tx tx l.
Definition topology_hash (buf : bytes) : bytes :=
  canton_hash PURPOSE_TOPOLOGY_TRANSACTION_SIGNATURE buf.

(** The state after the messages [logs], from the state [t0] of the start. *)
Definition after_logs (logs : list message_log) (t0 : topology_state) : topology_state :=
  foldl (λ t l, after_log l t) t0 logs.
Definition topology_zero (challenge : bytes) (parsed : bool) (hashes : list bytes) : topology_state :=
  {| tp_found := replicate ONBOARDING_FLOW_DISPLAY_FIELDS_NB false;
     tp_challenge_parsed := parsed; tp_challenge := challenge; tp_hashes := Some hashes;
     tp_has_namespace_delegation := false; tp_has_party_to_participant := false;
     tp_has_party_to_key_mapping := false |}.

Definition kind (l : message_log) : nat :=
  match l with
  | ML_nothing => 0
  | ML_namespace_delegation _ => 1
  | ML_party_to_key_mapping _ => 2
  | ML_party_to_participant _ _ => 3
  end.
Record topology_inv (key : bytes) (bufs : list bytes) (g : context) : Prop := {
  ti_key : g_signature g = key;
  ti_clear : g_clear_signing_available g = false;
  ti_max : (length bufs <= MAX_HASHES)%nat;
  ti_logs : ∃ logs challenge parsed, Forall2 (message_logged key) bufs logs ∧
    g_topology g = after_logs logs (topology_zero challenge parsed (map topology_hash bufs)) ∧
    dp_pairs (g_dp g) = Some (flat_map log_pairs logs)
}.

(** *** Kinds *)

Lemma after_log_hashes l t h :
  (after_log l t) <| tp_hashes := h |> = after_log l (t <| tp_hashes := h |>).
Proof. by destruct l. Qed.
Lemma after_logs_cons l logs t : after_logs (l :: logs) t = after_logs logs (after_log l t).
Proof. done. Qed.
Lemma after_logs_hashes logs : ∀ t h,
  (after_logs logs t) <| tp_hashes := h |> = after_logs logs (t <| tp_hashes := h |>).
Proof.
  induction logs as [|l logs IH]; intros t h; [done|].
  by rewrite !after_logs_cons, IH, after_log_hashes.
Qed.
Lemma after_logs_same_hashes logs : ∀ t, tp_hashes (after_logs logs t) = tp_hashes t.
Proof.
  induction logs as [|l logs IH]; intros t; [done|].
  rewrite after_logs_cons, IH. by destruct l.
Qed.

Lemma kind_seen_spec l logs : ∀ t, kind l ≠ 0%nat →
  kind_seen l (after_logs logs t) = kind_seen l t || bool_decide (kind l ∈ map kind logs).
Proof.
  induction logs as [|l' logs IH]; intros t Hl.
  { rewrite bool_decide_eq_false_2 by set_solver. by rewrite orb_false_r. }
  rewrite after_logs_cons, IH by done. cbn [map]. destruct (decide (kind l = kind l')) as [E|E].
  - rewrite (bool_decide_eq_true_2 (kind l ∈ _ :: _)) by set_solver. rewrite orb_true_r.
    by destruct l, l'.
  - rewrite (bool_decide_ext (kind l ∈ kind l' :: _) (kind l ∈ map kind logs)) by set_solver.
    f_equal. by destruct l, l'.
Qed.

(** Three messages are enough for the three kinds only if there is one of each. *)
Lemma three_kinds logs : (length logs <= 3)%nat →
  (∀ k, k ∈ [1; 2; 3]%nat → k ∈ map kind logs) →
  ∃ d k m names, logs ≡ₚ [ML_namespace_delegation d; ML_party_to_key_mapping k;
                          ML_party_to_participant m names].
Proof.
  intros Hlen Hk.
  assert (Hp : [1; 2; 3]%nat ≡ₚ map kind logs).
  { apply submseteq_length_Permutation; [|rewrite length_map; exact Hlen].
    apply NoDup_submseteq; [|exact Hk]. repeat constructor; set_solver. }
  apply Permutation_map_inv in Hp as (l3 & E & Hp).
  destruct l3 as [|l1 [|l2 [|l3 [|]]]]; try done. cbn in E. injection E as E1 E2 E3.
  destruct l1; try done. destruct l2; try done. destruct l3; try done. eauto.
Qed.

(** *** A message *)

Lemma add_hash_inv h g g' : add_hash h g = (Ret 0, g') →
  ∃ hs, tp_hashes (g_topology g) = Some hs ∧ (length hs < MAX_HASHES)%nat ∧
    g' = g <| g_topology ::= λ t, t <| tp_hashes := Some (hs ++ [h]) |> |>.
Proof.
  unfold add_hash. intros (hs & g1 & E1 & E)%bind_ret_inv. injection E1 as E1 <-.
  destruct hs as [hs|]; [|done]. exists hs.
  destruct (Nat.leb_spec MAX_HASHES (length hs)) as [|Hlt]; [done|].
  apply bind_ret_inv in E as (u & g1 & E2 & E). injection E2 as _ <-. injection E as <-. done.
Qed.

(** What a message leaves behind before the last one is completed. *)
Record message_read (key buf : bytes) (l : message_log) (g g' : context) : Prop := {
  mr_log : message_logged key buf l;
  mr_frame : g_signature g' = g_signature g ∧ g_state g' = g_state g ∧
             g_clear_signing_available g' = g_clear_signing_available g;
  mr_pairs : ∀ pairs, dp_pairs (g_dp g) = Some pairs → dp_pairs (g_dp g') = Some (pairs ++ log_pairs l);
  mr_topology : ∃ hs, tp_hashes (g_topology g) = Some hs ∧ (length hs < MAX_HASHES)%nat ∧
    g_topology g' = after_log l ((g_topology g) <| tp_hashes := Some (hs ++ [topology_hash buf]) |>)
}.

Lemma process_message_inv buf g g' : process_untyped_versioned_msg_tx buf g = (Ret 0, g') →
  ∃ l g1, message_read (g_signature g) buf l g g1 ∧
    if decide (g_state g = STATE_PARSED) then finish_topology g1 = (Ret 0, g') else g' = g1.
Proof.
  unfold process_untyped_versioned_msg_tx. intros (r & g1 & E1 & E)%bind_ret_inv.
  destruct (Z.eqb_spec r 0) as [->|Hr].
  2: { apply bind_ret_inv in E as (u & g2 & E2 & E). injection E as -> _. done. }
  apply add_hash_inv in E1 as (hs & Hhs & Hlen & E1).
  cbn [negb] in E. apply bind_ret_inv in E as (r & g2 & E2 & E).
  destruct (Z.eqb_spec r 0) as [->|Hr].
  2: { apply bind_ret_inv in E as (u & g3 & E3 & E). injection E as -> _. done. }
  cbn [negb] in E.
  apply parse_topology_accepted in E2 as (tx & l & g0 & Hc & Hd & Hl & [_ At Af Ap Ato]).
  apply bind_ret_inv in E as (st & g3 & E3 & E). injection E3 as <- <-.
  assert (F0 : g_signature g0 = g_signature g ∧ g_state g0 = g_state g ∧ g_dp g0 = g_dp g ∧
    g_topology g0 = (g_topology g) <| tp_hashes := Some (hs ++ [topology_hash buf]) |>)
    by (rewrite Hc, E1; done).
  destruct F0 as (Fs & Fst & Fd & Ft).
  assert (F2 : g_signature g2 = g_signature g ∧ g_state g2 = g_state g ∧
    g_clear_signing_available g2 = g_clear_signing_available g)
    by (unfold g_clear_signing_available; rewrite Af, <- Fs, <- Fst, <- Fd; done).
  exists l, g2. split.
  - split; [|exact F2| |].
    + split; [by rewrite <- Fs|]. by exists tx.
    + rewrite <- Fd. exact Ap.
    + exists hs. split_and!; [done..|]. by rewrite Ato, Ft.
  - destruct F2 as (_ & F2 & _). rewrite F2 in E. case_bool_decide; case_decide; try done.
    by injection E.
Qed.

Lemma read_challenge_inv cdata b g g' : read_challenge_and_deadline cdata g = (Ret b, g') →
  g' = g ∨ ∃ c, g' = g <| g_topology ::= λ t, t <| tp_challenge := c |>
                                               <| tp_challenge_parsed := true |> |>.
Proof.
  unfold read_challenge_and_deadline. destruct (negb _); [intros [= _ <-]; by left|].
  destruct (buffer_read_u8 cdata) as [[len rest]|]; [|intros [= _ <-]; by left].
  destruct (negb _); [intros [= _ <-]; by left|]. destruct (negb _); [intros [= _ <-]; by left|].
  destruct (buffer_move _ rest) as [[moved r]|]; [|intros [= _ <-]; by left].
  intros [= _ <-]. right. by exists moved.
Qed.

Lemma init_inv cdata g b g' key chain :
  derive_public_key (g_bip32_path g) = inr (key, chain) → g_clear_signing_available g = false →
  process_untyped_versioned_msg_tx_init cdata g = (Ret b, g') → topology_inv key [] g'.
Proof.
  unfold process_untyped_versioned_msg_tx_init, init_hash_storage. intros Hk Hc E.
  apply bind_ret_inv in E as (u & g1 & E1 & E).
  apply bind_ret_inv in E1 as (ok & g2 & E2 & E1). injection E2 as _ <-.
  apply bind_ret_inv in E1 as (u1 & g2 & E2 & [-> ->]%assert_inv). injection E2 as _ <-.
  apply bind_ret_inv in E as (ok & g3 & E3 & E). injection E3 as E3 <-. subst ok.
  apply bind_ret_inv in E as (u2 & g4 & [Hok ->]%assert_inv & E). rewrite Hok in E.
  apply bind_ret_inv in E as (u3 & g5 & E5 & E). injection E5 as _ <-.
  apply bind_ret_inv in E as (path & g6 & E6 & E). injection E6 as E6 <-. subst path.
  cbn in E. rewrite Hk in E.
  apply bind_ret_inv in E as (u4 & g7 & E7 & E). injection E7 as _ <-.
  apply bind_ret_inv in E as (u5 & g8 & E8 & E). injection E8 as _ <-.
  apply read_challenge_inv in E as [-> | [c ->]].
  - split; [done|exact Hc|apply Nat.le_0_l|]. exists [], (tp_challenge (g_topology g)), false. by split_and!.
  - split; [done|exact Hc|apply Nat.le_0_l|]. exists [], c, true. by split_and!.
Qed.

Lemma message_keeps_inv key bufs buf l g g1 g2 : topology_inv key bufs g → topology_between g g1 →
  message_read (g_signature g1) buf l g1 g2 → topology_inv key (bufs ++ [buf]) g2.
Proof.
  intros [Hk Hc Hm (logs & c & p & Hl & Ht & Hp)] [Bt Bd Bk] [Hlog (Fs & _ & Fc) Hpairs Hto].
  destruct Hto as (hs & Hhs & Hlen & Ht2). rewrite Bt, Ht, after_logs_same_hashes in Hhs.
  injection Hhs as <-. rewrite length_map in Hlen.
  split.
  - by rewrite Fs, Bk.
  - rewrite Fc. unfold g_clear_signing_available in *. by rewrite Bd.
  - rewrite length_app. cbn. unfold MAX_HASHES in *. lia.
  - exists (logs ++ [l]), c, p. split_and!.
    + apply Forall2_app; [done|]. constructor; [|constructor]. by rewrite <- Hk, <- Bk.
    + rewrite Ht2, Bt, Ht, after_logs_hashes, map_app. unfold after_logs. by rewrite foldl_app.
    + rewrite flat_map_app. cbn. rewrite app_nil_r. apply Hpairs. by rewrite Bd.
Qed.

Lemma onboarding_inv key bufs g : onboarding key bufs g → topology_inv key bufs g.
Proof.
  induction 1 as [cdata g g' chain Hk Hc E|bufs buf g g1 g2 _ IH Hb Hst E].
  - by eapply init_inv.
  - apply process_message_inv in E as (l & g3 & Hr & E). case_decide; [done|]. subst g2.
    by eapply message_keeps_inv.
Qed.

(** *** The last message *)

(** What [sign_challenge] leaves alone. *)
Lemma sign_challenge_inv g r g' : sign_challenge g = (Ret r, g') →
  g_m_hash g' = g_m_hash g ∧ g_dp g' = g_dp g ∧
  ∃ c, g_topology g' = (g_topology g) <| tp_challenge := c |>.
Proof.
  unfold sign_challenge. intros (g6 & g7 & E6 & E)%bind_ret_inv. injection E6 as <- <-.
  apply bind_ret_inv in E as (u4 & g7 & E7 & E). injection E7 as _ <-.
  destruct (cx_eddsa_sign _ _) as [sg|]; [|done].
  destruct cx_ecdomain_parameters_length as [size|]; [|done].
  apply bind_ret_inv in E as (u5 & g8 & E8 & E). injection E8 as _ <-.
  destruct (negb _); [injection E as _ <-; split_and!; [done..|by eexists]|].
  apply bind_ret_inv in E as (u6 & g9 & E9 & E). injection E9 as _ <-. injection E as _ <-.
  split_and!; [done..|by eexists].
Qed.

Lemma finish_inv g g' : finish_topology g = (Ret 0, g') →
  tp_hashes (g_topology g') = None ∧
  g_m_hash g' = canton_hash PURPOSE_MULTI_TOPOLOGY_TRANSACTION_SIGNATURE
                  (concat_hashes (qsort (default [] (tp_hashes (g_topology g))))) ∧
  dp_pairs (g_dp g') = dp_pairs (g_dp g) ∧
  (g_clear_signing_available g' = true → g_clear_signing_available g = false →
   tp_has_namespace_delegation (g_topology g) = true ∧
   tp_has_party_to_key_mapping (g_topology g) = true ∧
   tp_has_party_to_participant (g_topology g) = true ∧
   dp_review_title (g_dp g') = REVIEW_TITLE ∧ dp_review_finish (g_dp g') = REVIEW_FINISH).
Proof.
  unfold finish_topology, compute_multi_hash.
  set (hash := canton_hash _ (concat_hashes (qsort (default [] (tp_hashes (g_topology g)))))).
  intros (u & g1 & E1 & E)%bind_ret_inv.
  apply bind_ret_inv in E1 as (st & g2 & E2 & E1). injection E2 as E2 <-. subst st.
  apply bind_ret_inv in E1 as (ok & g2 & E2 & E1). injection E2 as _ <-.
  apply bind_ret_inv in E1 as (u1 & g2 & [_ ->]%assert_inv & E1).
  apply bind_ret_inv in E1 as (u2 & g2 & E2 & E1). injection E2 as _ <-. injection E1 as _ <-.
  apply bind_ret_inv in E as (u3 & g3 & E3 & E). injection E3 as _ <-.
  apply bind_ret_inv in E as (parsed & g4 & E4 & E). injection E4 as _ <-.
  apply bind_ret_inv in E as (signed & g5 & E5 & E).
  assert (F : tp_hashes (g_topology g5) = None ∧ g_m_hash g5 = hash ∧ g_dp g5 = g_dp g ∧
    tp_has_namespace_delegation (g_topology g5) = tp_has_namespace_delegation (g_topology g) ∧
    tp_has_party_to_key_mapping (g_topology g5) = tp_has_party_to_key_mapping (g_topology g) ∧
    tp_has_party_to_participant (g_topology g5) = tp_has_party_to_participant (g_topology g)).
  { clear E. destruct parsed; [|by injection E5 as _ <-].
    apply sign_challenge_inv in E5 as (Em & Ed & c & Et). by rewrite Em, Ed, Et. }
  destruct F as (Ff & Fm & Fd & Fn & Fk & Fp).
  apply returned_if_inv in E as [_ E]; [|done].
  apply bind_ret_inv in E as (t & g6 & E6 & E). injection E6 as <- <-.
  rewrite Fn, Fk, Fp in E. clear E5.
  destruct (tp_has_namespace_delegation (g_topology g)), (tp_has_party_to_key_mapping (g_topology g)),
    (tp_has_party_to_participant (g_topology g)); cbn [andb] in E;
    try (injection E as <-; unfold g_clear_signing_available; rewrite Fd; split_and!; congruence).
  apply returned_if_inv in E as [_ E]; [|done].
  apply bind_ret_inv in E as (u7 & g7 & E7 & E). injection E7 as _ <-. injection E as <-.
  cbn. rewrite Fd. by split_and!.
Qed.
End Effects.
