(* ===== verification/TopologyFlow.v ===== *)
(** * What signing a topology transaction means

    The theorems about whole sessions of [untyped_versioned_msg.c]: what is on screen when
    clear signing is on, what the signed hash determines, and the bounds of the store. *)

From stdpp Require Import sorting.
From S2P Require Import Prelude Constants Utils Pb Messages DisplayParser Context.
From S2P Require Import TopologyMessages Keys Topology.

(** ** The bytes that are hashed *)

Definition is_hash (h : bytes) : Prop := length h = HASH_LEN ∧ wf_bytes h.

Definition counted (h : bytes) : bytes := be32 (Z.of_nat HASH_LEN) ++ h.

Lemma length_be32 v : length (be32 v) = 4%nat.
Proof. done. Qed.

Lemma put_hashes hs : ∀ bw, bw_overflow bw = false → Forall (λ h, length h = HASH_LEN) hs →
  (bw_size bw + length hs * (HASH_LEN + 4) ≤ bw_cap bw)%nat →
  bw_data (foldl (λ bw h, bw_put (bw_put_u32_be bw (Z.of_nat HASH_LEN)) h) bw hs) =
  bw_data bw ++ flat_map counted hs.
Proof.
  induction hs as [|h hs IH]; intros bw Ho Hl Hc; cbn [foldl flat_map]; [by rewrite app_nil_r|].
  apply Forall_cons in Hl as [Hh Hl]. cbn [length] in Hc. unfold bw_put_u32_be.
  rewrite (bw_put_fits bw) by (done || (rewrite length_be32; lia)).
  rewrite bw_put_fits; [|done|unfold bw_size in *; cbn [bw_data bw_cap] in *;
    rewrite length_app, length_be32, Hh; lia].
  rewrite IH; [|done..|unfold bw_size in *; cbn [bw_data bw_cap] in *;
    rewrite !length_app, length_be32, Hh; lia].
  cbn [bw_data]. unfold counted. by rewrite <- !app_assoc.
Qed.

(** The buffer is large enough: nothing is cut. *)
Lemma concat_hashes_spec hs : Forall (λ h, length h = HASH_LEN) hs →
  concat_hashes hs = be32 (Z.of_nat (length hs)) ++ flat_map counted hs.
Proof.
  intros Hl. unfold concat_hashes, bw_put_u32_be at 2.
  rewrite (bw_put_fits (bw_init _)) by (done || (rewrite length_be32; unfold bw_size; cbn; lia)).
  rewrite put_hashes; [done..|]. unfold bw_size. cbn [bw_data bw_cap bw_init].
  rewrite length_app, length_be32. cbn [length]. lia.
Qed.

Lemma counted_inj hs1 : ∀ hs2, Forall (λ h, length h = HASH_LEN) hs1 →
  Forall (λ h, length h = HASH_LEN) hs2 → flat_map counted hs1 = flat_map counted hs2 → hs1 = hs2.
Proof.
  induction hs1 as [|h1 hs1 IH]; intros [|h2 hs2] F1 F2 E; try done.
  apply Forall_cons in F1 as [L1 F1]. apply Forall_cons in F2 as [L2 F2].
  cbn [flat_map] in E. unfold counted at 1 3 in E. rewrite <- !app_assoc in E.
  apply app_inv_head in E. apply app_inj_1 in E as [-> E]; [|congruence]. f_equal. by apply IH.
Qed.

(** ** The order of the hashes *)

(** The order of strings, on any lists. *)
Fixpoint lex_le (a b : bytes) : bool :=
  match a, b with
  | [], _ => true
  | _ :: _, [] => false
  | x :: a', y :: b' => (x <? y) || ((x =? y) && lex_le a' b')
  end.

Lemma lex_le_trans a : ∀ b c, lex_le a b = true → lex_le b c = true → lex_le a c = true.
Proof.
  induction a as [|x a IH]; intros [|y b] [|z c]; cbn; try done.
  intros [H1%Z.ltb_lt|[->%Z.eqb_eq H1]%andb_true_iff]%orb_true_iff
         [H2%Z.ltb_lt|[->%Z.eqb_eq H2]%andb_true_iff]%orb_true_iff; apply orb_true_iff;
    [left; apply Z.ltb_lt; lia..|].
  right. rewrite Z.eqb_refl. cbn. by apply (IH b).
Qed.
Lemma lex_le_antisymm a : ∀ b, lex_le a b = true → lex_le b a = true → a = b.
Proof.
  induction a as [|x a IH]; intros [|y b]; cbn; try done.
  intros [H1%Z.ltb_lt|[->%Z.eqb_eq H1]%andb_true_iff]%orb_true_iff
         [H2%Z.ltb_lt|[E%Z.eqb_eq H2]%andb_true_iff]%orb_true_iff; try lia.
  f_equal. by apply IH.
Qed.

Lemma strcmp_lex a : ∀ b, Forall (λ c, 0 < c) a → Forall (λ c, 0 < c) b →
  strcmp_from a b <= 0 ↔ lex_le a b = true.
Proof.
  induction a as [|x a IH]; intros [|y b] Ha Hb; cbn.
  - done.
  - apply Forall_cons in Hb as [Hy _]. split; [done|lia].
  - apply Forall_cons in Ha as [Hx _]. split; [lia|done].
  - apply Forall_cons in Ha as [Hx Ha]. apply Forall_cons in Hb as [Hy Hb].
    destruct (Z.eqb_spec x y) as [->|Hne]; cbn.
    + rewrite IH by done. by rewrite Z.ltb_irrefl.
    + rewrite orb_false_r, Z.ltb_lt. lia.
Qed.

Lemma hex_digit_pos n : 0 ≤ n → 0 < hex_digit n.
Proof. intros Hn. unfold hex_digit. case_match; lia. Qed.
Lemma hex_of_pos h : wf_bytes h → Forall (λ c, 0 < c) (hex_of h).
Proof.
  induction 1 as [|b h Hb _ IH]; cbn; [done|].
  constructor; [|constructor; [|done]]; apply hex_digit_pos.
  - apply Z.shiftr_nonneg. apply Hb.
  - apply Z.land_nonneg. by right.
Qed.
Lemma hex_digit_inj m n : 0 ≤ m < 16 → 0 ≤ n < 16 → hex_digit m = hex_digit n → m = n.
Proof. unfold hex_digit. intros Hm Hn. repeat case_match; lia. Qed.
Lemma hex_of_inj h1 : ∀ h2, wf_bytes h1 → wf_bytes h2 → hex_of h1 = hex_of h2 → h1 = h2.
Proof.
  assert (Hnib : ∀ b, is_u8 b → 0 ≤ Z.shiftr b 4 < 16 ∧ 0 ≤ Z.land b 15 < 16 ∧
    b = Z.shiftr b 4 * 16 + Z.land b 15).
  { intros b Hb. unfold is_u8 in Hb. rewrite Z.shiftr_div_pow2 by done.
    change 15 with (Z.ones 4). rewrite Z.land_ones by done. change (2 ^ 4) with 16.
    Z.to_euclidean_division_equations. lia. }
  induction h1 as [|b1 h1 IH]; intros [|b2 h2] W1 W2; cbn; try done.
  apply Forall_cons in W1 as [B1 W1]. apply Forall_cons in W2 as [B2 W2].
  destruct (Hnib b1 B1) as (N1 & M1 & E1). destruct (Hnib b2 B2) as (N2 & M2 & E2).
  intros [= Eh El E]. apply hex_digit_inj in Eh, El; try done.
  f_equal; [congruence|by apply IH].
Qed.

Lemma hash_le_lex a b : is_hash a → is_hash b → hash_le a b ↔ lex_le (hex_of a) (hex_of b) = true.
Proof.
  assert (Hid : ∀ h, is_hash h → c_str (take (HEX_LEN - 1) (hex_of (take HASH_LEN h))) = hex_of h).
  { intros h [Hl Hw]. rewrite (take_ge h) by lia.
    assert (Hx : length (hex_of h) = (2 * length h)%nat).
    { clear. induction h as [|b h IH]; [done|]. unfold hex_of in *. cbn in *. lia. }
    rewrite take_ge by (rewrite Hx, Hl; done). apply c_str_id.
    eapply Forall_impl; [by apply hex_of_pos|]. cbn. lia. }
  intros Ha Hb. unfold hash_le, compare_hashes_hex, strcmp. rewrite !Hid by done.
  apply strcmp_lex; apply hex_of_pos; [apply Ha|apply Hb].
Qed.

Lemma qsort_perm hs : qsort hs ≡ₚ hs.
Proof. apply merge_sort_Permutation. Qed.

Lemma hash_le_total : Total hash_le.
Proof.
  intros a b. unfold hash_le, compare_hashes_hex, strcmp.
  generalize (c_str (take (HEX_LEN - 1) (hex_of (take HASH_LEN a)))) as x.
  generalize (c_str (take (HEX_LEN - 1) (hex_of (take HASH_LEN b)))) as y.
  intros y x. assert (Hs : strcmp_from x y = - strcmp_from y x); [|lia].
  revert y. induction x as [|c x IH]; intros [|d y]; cbn; try lia.
  rewrite (Z.eqb_sym d c). destruct (Z.eqb_spec c d); [apply IH|lia].
Qed.

(** Sorting gives the same list whatever order the hashes came in. *)
Lemma qsort_unique hs1 hs2 : Forall is_hash hs1 → hs1 ≡ₚ hs2 → qsort hs1 = qsort hs2.
Proof.
  intros F1 Hp. assert (F2 : Forall is_hash hs2) by (by rewrite <- Hp).
  set (R a b := lex_le (hex_of a) (hex_of b) = true).
  assert (HR : Transitive R) by (intros a b c; apply lex_le_trans).
  assert (Hs : ∀ hs, Forall is_hash hs → Forall is_hash (qsort hs) ∧ StronglySorted R (qsort hs)).
  { intros hs F. assert (F' : Forall is_hash (qsort hs)) by (by rewrite qsort_perm).
    split; [done|]. apply Sorted_StronglySorted; [done|].
    pose proof hash_le_total. assert (S : Sorted hash_le (qsort hs)) by apply Sorted_merge_sort, _.
    revert F' S. generalize (qsort hs). intros l F'. induction 1 as [|h l S IH Hd]; [constructor|].
    apply Forall_cons in F' as [Fh Fl]. constructor; [by apply IH|].
    destruct Hd as [|h' l]; constructor. apply Forall_cons in Fl as [Fh' _].
    by apply hash_le_lex. }
  destruct (Hs _ F1) as [G1 S1]. destruct (Hs _ F2) as [G2 S2].
  apply (StronglySorted_unique_strong R); [|done..|].
  - intros a b Ha Hb H1 H2. rewrite Forall_forall in G1, G2.
    apply hex_of_inj; [apply G1, Ha|apply G2, Hb|by apply lex_le_antisymm].
  - by rewrite !qsort_perm.
Qed.

(** ** Theorems *)

Section Flow.
Context `{Sha256} `{Device} `{Crypto} `{Buffer} `{Compiler} `{OtherMappings}.

(** The end of a session: the logs of its messages, its hash, and what turned clear signing
    on. *)
Lemma onboarded_inv key bufs g : onboarded key bufs g →
  (length bufs <= MAX_HASHES)%nat ∧
  ∃ logs, Forall2 (message_logged key) bufs logs ∧
    g_m_hash g = canton_hash PURPOSE_MULTI_TOPOLOGY_TRANSACTION_SIGNATURE
                   (concat_hashes (qsort (map topology_hash bufs))) ∧
    dp_pairs (g_dp g) = Some (flat_map log_pairs logs) ∧
    (g_clear_signing_available g = true →
     (∀ k, k ∈ [1; 2; 3]%nat → k ∈ map kind logs) ∧
     dp_review_title (g_dp g) = REVIEW_TITLE ∧ dp_review_finish (g_dp g) = REVIEW_FINISH).
Proof.
  intros [bufs' buf g0 g1 g2 Ho Hb Hst E]. apply onboarding_inv in Ho.
  apply process_message_inv in E as (l & g3 & Hr & E). case_decide; [|done].
  apply (message_keeps_inv key bufs' buf l g0 g1 g3 Ho Hb) in Hr
    as [_ Hc Hm (logs & c & p & Hl & Ht & Hp)].
  apply finish_inv in E as (_ & Hh & Hp2 & Hclear). split; [exact Hm|]. exists logs.
  rewrite Ht, after_logs_same_hashes in Hh. split_and!; [done..|congruence|].
  intros Hav. destruct (Hclear Hav Hc) as (F1 & F2 & F3 & T1 & T2). split_and!; try done.
  rewrite Ht in F1, F2, F3.
  assert (Hin : ∀ l, kind l ≠ 0%nat → kind_seen l (topology_zero c p (map topology_hash (bufs' ++ [buf])))
      = false → kind_seen l (after_logs logs (topology_zero c p (map topology_hash (bufs' ++ [buf]))))
      = true → kind l ∈ map kind logs).
  { intros l' Hk H0' H1'. rewrite kind_seen_spec, H0' in H1' by done. by apply bool_decide_eq_true in H1'. }
  intros k Hk. repeat (apply elem_of_cons in Hk as [->|Hk]); [| | |by apply elem_of_nil in Hk].
  - by apply (Hin (ML_namespace_delegation NamespaceDelegation_zero)).
  - by apply (Hin (ML_party_to_key_mapping PartyToKeyMapping_zero)).
  - by apply (Hin (ML_party_to_participant PartyToParticipant_zero [])).
Qed.

(** Only one of the three puts lines on screen. *)
Lemma flat_map_one (logs : list message_log) l l1 l2 : log_pairs l1 = [] → log_pairs l2 = [] →
  log_pairs l ≠ [] → logs ≡ₚ [l1; l2; l] → flat_map log_pairs logs = log_pairs l.
Proof.
  intros H1' H2' Hl Hp. set (P x := log_pairs x ≠ []).
  assert (Hf : ∀ ls, flat_map log_pairs ls = flat_map log_pairs (filter P ls)).
  { induction ls as [|x ls IH]; [done|]. destruct (decide (P x)) as [Hx|Hx].
    - rewrite filter_cons_True by done. cbn. by rewrite IH.
    - rewrite filter_cons_False by done. cbn. rewrite IH.
      destruct (log_pairs x) eqn:E; [done|]. destruct Hx. unfold P. by rewrite E. }
  assert (E : filter P logs ≡ₚ [l]).
  { rewrite Hp. rewrite !filter_cons_False, filter_cons_True by (unfold P; congruence). done. }
  apply Permutation_singleton_r in E. rewrite Hf, E. cbn. by rewrite app_nil_r.
Qed.

(** C8: A clear signed topology transaction adds an account of the device's own key.  When a
    session ends with clear signing on, the host sent exactly three messages: one delegates
    a namespace to the derived key, one maps the derived party to that key alone with a
    threshold of one, and one maps the derived party to the two validators of one network
    with a threshold of two and no signing keys of its own.  The hash that is signed is over
    these three messages and nothing else, and the screen shows the party and the names of
    the two validators of the third one. *)
Theorem clear_signed_onboarding key bufs g :
  onboarded key bufs g → g_clear_signing_available g = true →
  ∃ logs d k m names,
    logs ≡ₚ [ML_namespace_delegation d; ML_party_to_key_mapping k; ML_party_to_participant m names] ∧
    Forall2 (message_logged key) bufs logs ∧
    g_m_hash g = canton_hash PURPOSE_MULTI_TOPOLOGY_TRANSACTION_SIGNATURE
                   (concat_hashes (qsort (map topology_hash bufs))) ∧
    dp_pairs (g_dp g) = Some (onboarding_pairs m names) ∧
    dp_review_title (g_dp g) = REVIEW_TITLE ∧ dp_review_finish (g_dp g) = REVIEW_FINISH.
Proof.
  intros (Hm & logs & Hl & Hh & Hp & Hc)%onboarded_inv Hav. destruct (Hc Hav) as (Hk & T1 & T2).
  assert (Hlen : (length logs <= 3)%nat) by (rewrite <- (Forall2_length _ _ _ Hl); exact Hm).
  destruct (three_kinds logs Hlen Hk) as (d & k & m & names & Hperm).
  exists logs, d, k, m, names. split_and!; try done.
  rewrite Hp. f_equal. by apply (flat_map_one _ _ _ _ (eq_refl : log_pairs (ML_namespace_delegation d) = [])
    (eq_refl : log_pairs (ML_party_to_key_mapping k) = [])) in Hperm.
Qed.

(** The texts that are hashed for the signature. *)
Definition multi_text (bufs : list bytes) : bytes :=
  be32 PURPOSE_MULTI_TOPOLOGY_TRANSACTION_SIGNATURE ++ concat_hashes (qsort (map topology_hash bufs)).
Definition message_text (buf : bytes) : bytes := be32 PURPOSE_TOPOLOGY_TRANSACTION_SIGNATURE ++ buf.
Definition no_topology_collision (bufs1 bufs2 : list bytes) : Prop :=
  ∀ x y, x ∈ multi_text bufs1 :: map message_text bufs1 →
    y ∈ multi_text bufs2 :: map message_text bufs2 → sha256 x = sha256 y → x = y.

Lemma canton_hash_text p data : canton_hash p data = [0x12; 0x20] ++ sha256 ([0; 0; 0; u8 p] ++ data).
Proof. done. Qed.

Lemma sorted_hashes_inj `{!Sha256Len} bufs1 bufs2 :
  concat_hashes (qsort (map topology_hash bufs1)) = concat_hashes (qsort (map topology_hash bufs2)) →
  map topology_hash bufs1 ≡ₚ map topology_hash bufs2.
Proof.
  assert (Hlen : ∀ bufs, Forall (λ h, length h = HASH_LEN) (qsort (map topology_hash bufs))).
  { intros bufs. rewrite qsort_perm. apply Forall_map, Forall_true. intros x.
    unfold topology_hash. rewrite length_canton_hash. done. }
  rewrite !concat_hashes_spec by done. intros E. apply app_inj_1 in E as [_ E]; [|done].
  apply counted_inj in E; [|done..]. rewrite <- (qsort_perm (map topology_hash bufs1)), E.
  apply qsort_perm.
Qed.

(** C38: The signed hash stands for the set of messages.  Whatever order the messages came in
    the hash is the same, and two sessions with the same hash received the same messages, up
    to their order, unless SHA-256 collides on the texts hashed. *)
Theorem onboarding_hash_is_of_the_set `{!Sha256Len} key1 key2 bufs1 bufs2 g1 g2 :
  (∀ m, wf_bytes m → wf_bytes (sha256 m)) → Forall (λ b, wf_bytes b) bufs1 →
  onboarded key1 bufs1 g1 → onboarded key2 bufs2 g2 →
  (bufs1 ≡ₚ bufs2 → g_m_hash g1 = g_m_hash g2) ∧
  (no_topology_collision bufs1 bufs2 → g_m_hash g1 = g_m_hash g2 → bufs1 ≡ₚ bufs2).
Proof.
  intros Hwf Hb (_ & l1 & _ & E1 & _)%onboarded_inv (_ & l2 & _ & E2 & _)%onboarded_inv.
  rewrite E1, E2. split.
  - intros Hp. do 2 f_equal. apply qsort_unique; [|by rewrite Hp].
    apply Forall_map. eapply Forall_impl; [exact Hb|]. intros buf Hbuf. unfold compose, topology_hash.
    split; [by rewrite length_canton_hash|]. rewrite canton_hash_text.
    repeat (constructor; [split; done|]). apply Hwf. by repeat (constructor; [split; done|]).
  - intros Hc E. rewrite !canton_hash_text in E. apply app_inv_head in E.
    apply (Hc (multi_text bufs1) (multi_text bufs2)) in E; [|set_solver..].
    apply app_inv_head, sorted_hashes_inj in E.
    apply Permutation_map_inv in E as (l3 & E & Hp). rewrite Hp. clear E1 E2 Hb.
    assert (Hin : ∀ b1 b2, b1 ∈ bufs1 → b2 ∈ bufs2 → topology_hash b1 = topology_hash b2 → b1 = b2).
    { intros b1 b2 I1 I2 Eh. unfold topology_hash in Eh. rewrite !canton_hash_text in Eh.
      apply app_inv_head in Eh. apply (Hc (message_text b1) (message_text b2)) in Eh.
      - by apply app_inv_head in Eh.
      - apply elem_of_cons. right. by apply list_elem_of_fmap_2.
      - apply elem_of_cons. right. by apply list_elem_of_fmap_2. }
    assert (Hin3 : ∀ b1 b2, b1 ∈ bufs1 → b2 ∈ l3 → topology_hash b1 = topology_hash b2 → b1 = b2)
      by (intros b1 b2 I1 I2; apply Hin; [done|by rewrite Hp]).
    clear -E Hin3. revert l3 E Hin3. induction bufs1 as [|b bufs1 IH]; intros [|b3 l3] E Hin; try done.
    assert (E1 : topology_hash b = topology_hash b3) by exact (f_equal (hd []) E).
    apply (f_equal tail) in E. rewrite (Hin b b3); [|set_solver..|exact E1]. f_equiv.
    apply IH; [exact E|]. intros b1 b2 I1 I2. apply Hin; set_solver.
Qed.

(** C39: The store of hashes keeps its bounds.  It holds one hash for each message accepted,
    at most three, and the bytes hashed at the end are never cut.  A fourth message is
    refused with its own status word before it is parsed, and the store is freed. *)
Theorem topology_store_bounds `{!Sha256Len} key bufs g g1 buf :
  onboarding key bufs g → topology_between g g1 →
  tp_hashes (g_topology g1) = Some (map topology_hash bufs) ∧
  (length bufs <= MAX_HASHES)%nat ∧
  length (concat_hashes (qsort (map topology_hash bufs))) = (4 + length bufs * (HASH_LEN + 4))%nat ∧
  (length bufs = MAX_HASHES →
   process_untyped_versioned_msg_tx buf g1 =
   (Ret SW_TOPOLOGY_TOO_MANY_MESSAGES, snd (cleanup_hash_storage g1))).
Proof.
  intros [_ _ Hm (logs & c & p & _ & Ht & _)]%onboarding_inv [Bt _ _].
  assert (Hh : tp_hashes (g_topology g1) = Some (map topology_hash bufs))
    by (by rewrite Bt, Ht, after_logs_same_hashes).
  split_and!; [done|done| |].
  - assert (Hlen : Forall (λ h, length h = HASH_LEN) (qsort (map topology_hash bufs))).
    { rewrite qsort_perm. apply Forall_map, Forall_true. intros x.
      unfold topology_hash. by rewrite length_canton_hash. }
    rewrite concat_hashes_spec by done. rewrite length_app, length_be32. f_equal.
    transitivity (length (qsort (map topology_hash bufs)) * (HASH_LEN + 4))%nat;
      [|by rewrite qsort_perm, length_map].
    clear -Hlen. induction Hlen as [|h hs Hh _ IH]; [done|]. cbn [flat_map length].
    rewrite length_app, IH. unfold counted. rewrite length_app, length_be32, Hh. lia.
  - intros Hl. unfold process_untyped_versioned_msg_tx, add_hash, bind, gets. rewrite Hh, length_map, Hl.
    done.
Qed.

(** ** Every message is answered *)

Lemma answers_alloc n : answers (g_mem_alloc n).
Proof. done. Qed.
#[local] Hint Resolve answers_alloc : answers.
Lemma answers_must_set i v : answers (must_set i v).
Proof. unfold must_set, set_field_value, on_display, topology. answer_steps.
Qed.
Lemma answers_refused sw : answers (mapping_refused sw).
Proof. unfold mapping_refused, on_display. answer_steps. Qed.
#[local] Hint Resolve answers_must_set answers_refused : answers.

Lemma answers_process_mapping m : answers (process_mapping m).
Proof.
  unfold process_mapping, process_namespace_delegation, process_party_to_participant,
    process_party_to_key_mapping, topology. answer_steps.
Qed.
Lemma answers_decode buf : answers (attempt (proto_deserialize_topology_transaction buf)).
Proof.
  intros g. pose proof (topology_decode_safe g buf g (same_but_clock_refl g)) as Hs. unfold attempt.
  by destruct (proto_deserialize_topology_transaction buf g) as [[t| | |] g'].
Qed.
Lemma answers_finish : answers finish_topology.
Proof.
  unfold finish_topology, compute_multi_hash, cleanup_hash_storage, sign_challenge, topology, on_display.
  answer_steps.
Qed.
#[local] Hint Resolve answers_process_mapping answers_decode answers_finish : answers.
Lemma answers_message buf : answers (process_untyped_versioned_msg_tx buf).
Proof.
  unfold process_untyped_versioned_msg_tx, add_hash, parse_topology_transaction_for_display,
    cleanup_hash_storage, topology. answer_steps.
Qed.

(** C40: Every message is answered.  For any bytes and any refusal of the heap, processing a
    topology message ends with a status word or stops the application on an assertion. *)
Theorem topology_message_is_answered buf g :
  match fst (process_untyped_versioned_msg_tx buf g) with Ret _ | Abort => True | _ => False end.
Proof. apply answers_message. Qed.

(** Once the last message is processed the store is gone, so one more message, which the APDU
    layer accepts until the next session, stops the application: the assertion of [add_hash]
    is one the host can make fail. *)
Theorem message_after_the_last_aborts key bufs g g1 buf : onboarded key bufs g →
  topology_between g g1 → process_untyped_versioned_msg_tx buf g1 = (Abort, g1).
Proof.
  intros [bufs' buf' g0 g2 g3 _ _ Hst E] [Bt _ _].
  apply process_message_inv in E as (l & g4 & _ & E). case_decide; [|done].
  apply finish_inv in E as (E & _). unfold process_untyped_versioned_msg_tx, add_hash, bind, gets.
  by rewrite Bt, E.
Qed.
End Flow.
