(* ===== verification/TopologySamples.v ===== *)
(** * A sample session of the topology flow

    Three messages that add an account on the main network, run from the first command to the
    review, and the witnesses of the theorems of the flow. *)

From S2P Require Import Prelude Constants Utils ValuesCheck Pb Wire Messages DisplayParser Context.
From S2P Require Import TopologyMessages Keys Topology TopologyFlow TxSamples.

(** A device whose key does not depend on the path, whose signatures are tagged messages, and
    whose buffers behave as the SDK documents. *)
#[export] Instance toy_crypto : Crypto := {|
  bip32_get_pubkey := λ _, inr (replicate 65 2, replicate 32 9);
  bip32_eddsa_sign_hash := λ _ m, Some (take 64 (m ++ replicate 64 7));
  cx_eddsa_sign := λ k m, Some (take 64 (k ++ m));
  cx_ecdomain_parameters_length := Some 32;
  ATTESTATION_KEY := replicate 32 3
|}.
#[export] Instance toy_buffer : Buffer := {|
  buffer_read_u8 := λ s, match s with b :: s' => Some (b, s') | [] => None end;
  buffer_read_bip32_path := λ n s,
    if (Z.to_nat n * 4 <=? length s)%nat
    then Some (map (λ i, be_value (take 4 (drop (4 * i) s))) (seq 0 (Z.to_nat n)),
               drop (Z.to_nat n * 4) s)
    else None;
  buffer_move := λ n s, if (length s <=? n)%nat then Some (s, []) else None
|}.
#[export] Instance toy_buffer_laws : BufferLaws.
Proof. split. intros s. cbn. by rewrite (proj2 (Nat.leb_le _ _) (Nat.le_refl (length s))). Qed.
#[export] Instance toy_compiler : Compiler :=
  {| uenum_bits := 16; sizeof_SigningPublicKey := 1044; sizeof_HostingParticipant := 12 |}.
#[export] Instance toy_others : OtherMappings := λ _ _ clock, (true, clock).

Definition toy_key : bytes := replicate 32 2.
Definition toy_party : bytes :=
  Eval vm_compute in default [] (@party_id_from_pubkey toy_sha toy_key PARTY_ID_LEN).

(** ** Messages *)

Definition wire_topology (mapping : bytes) : bytes :=
  wire_bytes 1 (wire_varint 1 1 ++ wire_varint 2 1 ++ wire_bytes 3 mapping) ++ wire_varint 2 30.
Definition wire_raw_key : bytes := wire_varint 2 CRYPTO_KEY_FORMAT_RAW ++ wire_bytes 3 toy_key.
Definition wire_der_key : bytes :=
  wire_varint 2 CRYPTO_KEY_FORMAT_DER_X509 ++ wire_bytes 3 (ED25519_DER_PREFIX ++ toy_key).
Definition wire_host (uid : bytes) : bytes := wire_bytes 3 (wire_bytes 1 uid ++ wire_varint 2 2).
Definition delegation_message : bytes :=
  wire_topology (wire_bytes 1 (wire_string 1 "1220" ++ wire_bytes 2 wire_der_key)).
Definition key_message : bytes :=
  wire_topology (wire_bytes 16 (wire_bytes 1 toy_party ++ wire_varint 3 1 ++
    wire_bytes 4 wire_raw_key)).
Definition hosting_message : bytes :=
  wire_topology (wire_bytes 9 (wire_bytes 1 toy_party ++ wire_varint 2 2 ++
    flat_map (λ m, wire_host (participant_id m)) (rev MAINNET_DUAL_VALIDATORS))).
Definition onboarding_messages : list bytes := [delegation_message; hosting_message; key_message].

(** ** The session *)

Abbreviation toy_init := (@process_untyped_versioned_msg_tx_init roomy toy_crypto toy_buffer).
Abbreviation toy_message :=
  (@process_untyped_versioned_msg_tx toy_sha roomy toy_crypto toy_compiler toy_others).
Abbreviation toy_onboarding :=
  (@onboarding toy_sha roomy toy_crypto toy_buffer toy_compiler toy_others toy_key).
Abbreviation toy_onboarded :=
  (@onboarded toy_sha roomy toy_crypto toy_buffer toy_compiler toy_others toy_key).

Definition clean_boot : context := Eval vm_compute in snd (clean_context boot).
Definition in_state (st : state_e) (g : context) : context := g <| g_state := st |>.
Lemma in_state_between st g : topology_between g (in_state st g).
Proof. by split. Qed.

Definition topology_0 : context := Eval vm_compute in snd (toy_init [] clean_boot).
Definition topology_1 : context :=
  Eval vm_compute in snd (toy_message delegation_message (in_state STATE_MSG_COMPLETE topology_0)).
Definition topology_2 : context :=
  Eval vm_compute in snd (toy_message hosting_message (in_state STATE_MSG_COMPLETE topology_1)).
Definition topology_3 : context :=
  Eval vm_compute in snd (toy_message key_message (in_state STATE_PARSED topology_2)).

Lemma onboarding_0 : toy_onboarding [] topology_0.
Proof.
  apply (onboarding_start _ [] clean_boot _ (replicate 32 9)); vm_compute; reflexivity.
Qed.
Lemma onboarding_2 : toy_onboarding [delegation_message; hosting_message] topology_2.
Proof.
  apply (onboarding_part toy_key [delegation_message] _ topology_1 (in_state STATE_MSG_COMPLETE topology_1));
    [|apply in_state_between|done|vm_compute; reflexivity].
  apply (onboarding_part toy_key [] _ topology_0 (in_state STATE_MSG_COMPLETE topology_0));
    [exact onboarding_0|apply in_state_between|done|vm_compute; reflexivity].
Qed.
Lemma onboarded_3 : toy_onboarded onboarding_messages topology_3.
Proof.
  apply (onboarded_part toy_key [delegation_message; hosting_message] _ topology_2
    (in_state STATE_PARSED topology_2));
    [exact onboarding_2|apply in_state_between|done|vm_compute; reflexivity].
Qed.

(** The lines of the screen. *)
Example onboarding_is_shown : dp_pairs (g_dp topology_3) = Some
  [{| item := lit "Add account"; value := toy_party |};
   line "Associate to validator 1" "Kiln Validator";
   line "Associate to validator 2" "Ledger Validator";
   line "Validators threshold" "2 out of 2"].
Proof. reflexivity. Qed.

Lemma clear_signed_onboarding_witness :
  ∃ logs d k m names,
    logs ≡ₚ [ML_namespace_delegation d; ML_party_to_key_mapping k; ML_party_to_participant m names] ∧
    Forall2 (@message_logged toy_sha roomy toy_compiler toy_others toy_key) onboarding_messages logs ∧
    g_m_hash topology_3 = @canton_hash toy_sha PURPOSE_MULTI_TOPOLOGY_TRANSACTION_SIGNATURE
      (concat_hashes (qsort (map (@topology_hash toy_sha) onboarding_messages))) ∧
    dp_pairs (g_dp topology_3) = Some (onboarding_pairs m names) ∧
    dp_review_title (g_dp topology_3) = REVIEW_TITLE ∧
    dp_review_finish (g_dp topology_3) = REVIEW_FINISH.
Proof.
  exact (@clear_signed_onboarding toy_sha roomy toy_crypto toy_buffer toy_compiler toy_others
    toy_key onboarding_messages topology_3 onboarded_3 eq_refl).
Defined.

(** ** The same messages in another order *)

Definition other_1 : context :=
  Eval vm_compute in snd (toy_message key_message (in_state STATE_MSG_COMPLETE topology_0)).
Definition other_2 : context :=
  Eval vm_compute in snd (toy_message delegation_message (in_state STATE_MSG_COMPLETE other_1)).
Definition other_3 : context :=
  Eval vm_compute in snd (toy_message hosting_message (in_state STATE_PARSED other_2)).
Definition other_order : list bytes := [key_message; delegation_message; hosting_message].

Lemma onboarded_other : toy_onboarded other_order other_3.
Proof.
  apply (onboarded_part toy_key [key_message; delegation_message] _ other_2
    (in_state STATE_PARSED other_2)); [|apply in_state_between|done|vm_compute; reflexivity].
  apply (onboarding_part toy_key [key_message] _ other_1 (in_state STATE_MSG_COMPLETE other_1));
    [|apply in_state_between|done|vm_compute; reflexivity].
  apply (onboarding_part toy_key [] _ topology_0 (in_state STATE_MSG_COMPLETE topology_0));
    [exact onboarding_0|apply in_state_between|done|vm_compute; reflexivity].
Qed.

Lemma toy_sha_wf m : wf_bytes m → wf_bytes (@sha256 toy_sha m).
Proof.
  intros Hm. apply Forall_take, Forall_app. split; [done|]. by apply Forall_replicate.
Qed.
Lemma sample_messages_wf : Forall (λ b, wf_bytes b) onboarding_messages.
Proof.
  assert (E : forallb (forallb (λ b, (0 <=? b) && (b <? 256))) onboarding_messages = true)
    by (vm_compute; reflexivity).
  apply Forall_forall. intros m Hm. apply Forall_forall. intros b Hb.
  rewrite forallb_forall in E. apply list_elem_of_In in Hm. specialize (E m Hm).
  rewrite forallb_forall in E. apply list_elem_of_In in Hb. specialize (E b Hb).
  unfold is_u8. change (2 ^ 8) with 256. lia.
Qed.
Lemma sample_messages_differ : @no_topology_collision toy_sha onboarding_messages other_order.
Proof.
  set (texts bufs := @multi_text toy_sha bufs :: map message_text bufs).
  assert (E : forallb (λ x, forallb (λ y,
    negb (bool_decide (@sha256 toy_sha x = @sha256 toy_sha y)) || bool_decide (x = y))
      (texts other_order)) (texts onboarding_messages) = true) by (vm_compute; reflexivity).
  intros x y Hx Hy Hs. rewrite forallb_forall in E. apply list_elem_of_In in Hx. specialize (E x Hx).
  rewrite forallb_forall in E. apply list_elem_of_In in Hy. specialize (E y Hy).
  rewrite (bool_decide_eq_true_2 _ Hs) in E. by apply bool_decide_eq_true in E.
Qed.
Lemma sample_orders : onboarding_messages ≡ₚ other_order.
Proof. unfold onboarding_messages, other_order. solve_Permutation. Qed.

Lemma onboarding_hash_is_of_the_set_witness :
  g_m_hash topology_3 = g_m_hash other_3 ∧ onboarding_messages ≡ₚ other_order.
Proof.
  destruct (@onboarding_hash_is_of_the_set toy_sha roomy toy_crypto toy_buffer toy_compiler
    toy_others toy_sha_len toy_key toy_key onboarding_messages other_order topology_3 other_3
    toy_sha_wf sample_messages_wf onboarded_3 onboarded_other) as [E1 E2].
  split; [exact (E1 sample_orders)|exact (E2 sample_messages_differ (E1 sample_orders))].
Defined.

(** ** A full store *)

(** A message without a mapping, three times, and once more. *)
Definition empty_message : bytes := wire_bytes 1 (wire_varint 2 1) ++ wire_varint 2 30.
Fixpoint feed_messages (bufs : list bytes) (g : context) : context :=
  match bufs with
  | [] => g
  | buf :: bufs => feed_messages bufs (snd (toy_message buf (in_state STATE_MSG_COMPLETE g)))
  end.
Definition full_store : context := Eval vm_compute in feed_messages (replicate 3 empty_message) topology_0.
Lemma full_store_onboarding : toy_onboarding (replicate 3 empty_message) full_store.
Proof.
  apply (onboarding_part toy_key (replicate 2 empty_message) _
    (feed_messages (replicate 2 empty_message) topology_0)
    (in_state STATE_MSG_COMPLETE (feed_messages (replicate 2 empty_message) topology_0)));
    [|apply in_state_between|done|vm_compute; reflexivity].
  apply (onboarding_part toy_key [empty_message] _ (feed_messages [empty_message] topology_0)
    (in_state STATE_MSG_COMPLETE (feed_messages [empty_message] topology_0)));
    [|apply in_state_between|done|vm_compute; reflexivity].
  apply (onboarding_part toy_key [] _ topology_0 (in_state STATE_MSG_COMPLETE topology_0));
    [exact onboarding_0|apply in_state_between|done|vm_compute; reflexivity].
Qed.

Lemma topology_store_bounds_witness :
  length (concat_hashes (qsort (map (@topology_hash toy_sha) (replicate 3 empty_message)))) = 118%nat ∧
  toy_message empty_message full_store =
    (Ret SW_TOPOLOGY_TOO_MANY_MESSAGES, snd (cleanup_hash_storage full_store)).
Proof.
  destruct (@topology_store_bounds toy_sha roomy toy_crypto toy_buffer toy_compiler toy_others
    toy_sha_len toy_key (replicate 3 empty_message) full_store full_store empty_message
    full_store_onboarding ltac:(by split)) as (_ & _ & E1 & E2).
  split; [exact E1|exact (E2 eq_refl)].
Defined.
