(* ===== verification/Handlers.v ===== *)
(** * The APDU layer and the user interface

    [src/src/app_main.c], [apdu/dispatcher.c], [handler/*.c], [helper/send_reponse.c],
    [ui/action/validate.c], [ui/nbgl_display_transaction.c], [ui/nbgl_display_party_id.c],
    [ui/blind_signing.c] and the switch of [ui/menu_nbgl.c].  Sending a response always
    succeeds.  A review is shown and waits: [g_review] holds its callback until the user
    answers. *)

From S2P Require Import Prelude Constants Utils DisplayConfig ValuesCheck Pb Wire Messages.
From S2P Require Import DisplayParser Context Prepared TopologyMessages Keys Topology.

(** What the build and the SDK's [status_words.h] define. *)
Class Build := {
  SWO_INCORRECT_DATA : Z;
  MAJOR_VERSION : Z;
  MINOR_VERSION : Z;
  PATCH_VERSION : Z;
  APPNAME : bytes
}.

(** [command_t] as the SDK's [apdu_parser] fills it: [data] is NULL when there is none, and
    [lc] is its length. *)
Record command_t := { cmd_cla : Z; cmd_ins : Z; cmd_p1 : Z; cmd_p2 : Z; cmd_data : option bytes }.

Section Handlers.
Context `{Sha256} `{Device} `{Screen} `{Crypto} `{Buffer} `{Compiler} `{OtherMappings} `{Build}.

(** ** helper/send_reponse.c *)

Definition helper_send_response_pubkey : GM unit :=
  let* g := get in
  io_send_response ([Z.of_nat ED25519_RAW_PUBLIC_KEY_LEN] ++ g_raw_public_key g ++
                    [Z.of_nat MAX_CHAINCODE_LEN] ++ g_chain_code g) SW_OK.

(** The parity [v] is never set to anything but zero. *)
Definition signature_response (signature : bytes) (challenge : option bytes) : bytes :=
  [Z.of_nat ED25519_SIG_LEN] ++ signature ++ [0] ++
  match challenge with
  | Some c => [Z.of_nat ED25519_SIG_LEN] ++ c
  | None => []
  end.
Definition helper_send_response_sig : GM unit :=
  let* g := get in
  do* assert_that (length (g_signature g) =? ED25519_SIG_LEN)%nat in
  io_send_response (signature_response (g_signature g) (g_challenge_signature g)) SW_OK.

(** ** ui/action/validate.c *)

Definition validate_pubkey (choice : bool) : GM unit :=
  if choice then helper_send_response_pubkey else io_send_sw SW_DENY.

Definition crypto_sign_message : GM Z :=
  do* modify (λ g, g <| g_signature := [] |>) in
  let* g := get in
  match bip32_eddsa_sign_hash (g_bip32_path g) (g_m_hash g) with
  | None => ret (-1)
  | Some signature =>
      do* modify (λ g, g <| g_signature := signature |>) in
      if negb (length signature =? ED25519_SIG_LEN)%nat then ret (-1) else ret 0
  end.

Definition validate_transaction (choice : bool) : GM unit :=
  do* (if choice then
         do* set_state STATE_APPROVED in
         let* error := crypto_sign_message in
         if negb (error =? 0) then
           do* set_state STATE_NONE in
           io_send_sw SW_SIGNATURE_FAIL
         else helper_send_response_sig
       else
         do* set_state STATE_NONE in
         io_send_sw SW_DENY) in
  on_display cleanup_display_items.

(** ** The reviews *)

Definition set_review (r : option review_callback) : GM unit :=
  modify (λ g, g <| g_review := r |>).

(** The callback of each review; its last screen leads back to the menu. *)
Definition review_choice (callback : review_callback) (confirm : bool) : GM unit :=
  do* set_review None in
  match callback with
  | review_choice_transaction => validate_transaction confirm
  | review_choice_address => validate_pubkey confirm
  end.

(** [%.*H]: uppercase. *)
Definition hex_digit_upper (n : Z) : Z := if n <? 10 then 48 + n else 55 + n.
Definition hex_upper (l : bytes) : bytes :=
  flat_map (λ b, [hex_digit_upper (Z.shiftr b 4); hex_digit_upper (Z.land b 15)]) l.
Definition hash_pair (m_hash : bytes) : nbgl_contentTagValue_t :=
  {| item := lit "Transaction hash"; value := hex_upper m_hash |}.

Definition ui_display_transaction_bs_choice (is_blind_signed : bool) : GM unit :=
  let* g := get in
  if negb (bool_decide (g_req_type g = CONFIRM_TRANSACTION)) ||
     negb (bool_decide (g_state g = STATE_PARSED))
  then
    do* set_state STATE_NONE in
    io_send_sw SW_BAD_STATE
  else if is_blind_signed then
    let* ok := g_mem_alloc 16 in
    do* assert_that ok in
    let* ok := g_mem_alloc (2 * Z.of_nat (length (g_m_hash g)) + 1) in
    do* assert_that ok in
    let pairs := [hash_pair (g_m_hash g)] in
    do* on_display (λ d, d <| dp_pairs := Some pairs |>) in
    do* show (ReviewBlindSigning pairs) in
    set_review (Some review_choice_transaction)
  else
    let d := g_dp g in
    do* show (ReviewTransaction (default [] (dp_pairs d)) (dp_review_title d) (dp_review_finish d)) in
    set_review (Some review_choice_transaction).
Definition ui_display_blind_signed_transaction : GM unit := ui_display_transaction_bs_choice true.
Definition ui_display_transaction : GM unit := ui_display_transaction_bs_choice false.

Definition ui_error_blind_signing : GM unit :=
  do* show BlindSigningDisabled in
  do* on_display cleanup_display_items in
  io_send_sw SWO_INCORRECT_DATA.

Definition ui_display_party_id : GM unit :=
  let* g := get in
  if negb (bool_decide (g_req_type g = CONFIRM_ADDRESS)) ||
     negb (bool_decide (g_state g = STATE_NONE))
  then
    do* set_state STATE_NONE in
    io_send_sw SW_BAD_STATE
  else match party_id_from_pubkey (g_raw_public_key g) PARTY_ID_LEN with
  | None => io_send_sw SW_DISPLAY_ADDRESS_FAIL
  | Some party_id =>
      do* show (ReviewAddress party_id) in
      set_review (Some review_choice_address)
  end.

(** ** handler/get_version.c, get_app_name.c, get_public_key.c *)

Definition handler_get_version : GM unit :=
  io_send_response [u8 MAJOR_VERSION; u8 MINOR_VERSION; u8 PATCH_VERSION] SW_OK.
Definition handler_get_app_name : GM unit := io_send_response APPNAME SW_OK.

Definition set_request (r : request_type_e) (st : state_e) : GM unit :=
  modify (λ g, g <| g_req_type := r |> <| g_state := st |>).

(** The path length and the path. *)
Definition read_path (cdata : bytes) : option (list Z * bytes) :=
  match buffer_read_u8 cdata with
  | Some (len, cdata) => buffer_read_bip32_path len cdata
  | None => None
  end.

(** A status word is 16 bits wide. *)
Definition u16 (z : Z) : Z := z mod 2 ^ 16.

Definition handler_get_public_key (cdata : bytes) (display : bool) : GM unit :=
  do* clean_context in
  do* set_request CONFIRM_ADDRESS STATE_NONE in
  match read_path cdata with
  | None => io_send_sw SW_WRONG_DATA_LENGTH
  | Some (path, _) =>
      do* modify (λ g, g <| g_bip32_path := path |>) in
      match derive_public_key path with
      | inl error => io_send_sw (u16 error)
      | inr (key, chain_code) =>
          do* modify (λ g, g <| g_raw_public_key := key |> <| g_chain_code := chain_code |>) in
          if display then ui_display_party_id else helper_send_response_pubkey
      end
  end.

(** ** handler/sign_tx.c *)

Definition refuse_tx (sw : Z) : GM unit :=
  do* set_request CONFIRM_ADDRESS STATE_NONE in
  io_send_sw (u16 sw).

(** A hash of 32 bytes, or of 34 with its prefix. *)
Definition process_transaction_hash (buffer : bytes) : GM Z :=
  let* st := gets g_state in
  if negb (bool_decide (st = STATE_PARSED)) then ret SW_BAD_STATE
  else if negb ((length buffer =? 32) || (length buffer =? 34))%nat then ret SW_WRONG_DATA_LENGTH
  else
    do* modify (λ g, g <| g_m_hash := buffer |>) in
    ret 0.

(** The first chunk of a request. *)
Definition first_chunk (cdata : bytes) (type : signing_type_e) : GM Z :=
  do* clean_context in
  match read_path cdata with
  | None => ret SW_WRONG_DATA_LENGTH
  | Some (path, cdata) =>
      do* modify (λ g, g <| g_bip32_path := path |>) in
      let* ok := (match type with
                  | SIGN_PREPARED_TRANSACTION => do* process_prepared_tx_init in ret true
                  | SIGN_UNTYPED_VERSIONED_MESSAGE => process_untyped_versioned_msg_tx_init cdata
                  | SIGN_HASH => ret true
                  end) in
      if negb ok then ret SW_WRONG_DATA_LENGTH
      else
        do* modify (λ g, g <| g_req_type := CONFIRM_TRANSACTION |> <| g_signing_type := type |>) in
        do* set_clear_signing false in
        do* set_state STATE_EXPECTING_MORE in
        ret 0
  end.

(** A further chunk is appended to [raw_tx].  [raw_tx_len] starts over after a message that
    is not the last. *)
Definition next_chunk (cdata : bytes) (more msg_end : bool) : GM Z :=
  let* g := get in
  if negb (bool_decide (g_req_type g = CONFIRM_TRANSACTION)) then ret SW_BAD_STATE
  else if MAX_TRANSACTION_LEN <? Z.of_nat (length (g_raw_tx g) + length cdata)
  then ret SW_WRONG_TX_LENGTH
  else match buffer_move (length cdata) cdata with
  | None => ret SW_TX_PARSING_FAIL
  | Some (moved, _) =>
      do* modify (λ g, g <| g_raw_tx ::= λ raw, raw ++ moved |>) in
      if msg_end && more then do* set_state STATE_MSG_COMPLETE in ret 0
      else if msg_end then do* set_state STATE_PARSED in ret 0
      else if more then do* set_state STATE_EXPECTING_MORE in ret 0
      else ret SW_BAD_STATE
  end.

Definition process_tx_chunk (cdata : bytes) (type : signing_type_e) (first more msg_end : bool)
  : GM Z :=
  if first then first_chunk cdata type else next_chunk cdata more msg_end.

(** The static [buf]: the bytes of the message that is complete.  They stay where they are
    when the length of [raw_tx] is reset for the next one. *)
Definition take_message : GM bytes := λ g,
  (Ret (g_raw_tx g),
   if bool_decide (g_state g = STATE_MSG_COMPLETE) then g <| g_raw_tx := [] |> else g).

Definition process_message (type : signing_type_e) (buf : bytes) : GM Z :=
  match type with
  | SIGN_PREPARED_TRANSACTION => process_prepared_tx_part buf
  | SIGN_HASH => process_transaction_hash buf
  | SIGN_UNTYPED_VERSIONED_MESSAGE => process_untyped_versioned_msg_tx buf
  end.

(** The review of a transaction that is complete, and what is shown when it cannot be. *)
Definition start_review : GM unit :=
  let* g := get in
  if g_clear_signing_available g then ui_display_transaction
  else if bool_decide (g_allow_blind_sign g = BlindSignDisabled) then ui_error_blind_signing
  else ui_display_blind_signed_transaction.

(** The part of [handler_sign_tx] after a chunk was taken. *)
Definition message_complete : GM unit :=
  let* buf := take_message in
  let* type := gets g_signing_type in
  let* result := process_message type buf in
  if negb (result =? 0) then
    do* on_display cleanup_display_items in
    refuse_tx result
  else
    let* st := gets g_state in
    if bool_decide (st = STATE_PARSED) then start_review else io_send_sw SW_OK.

Definition handler_sign_tx (cdata : bytes) (type : signing_type_e) (first more msg_end : bool)
  : GM unit :=
  let* current := gets g_signing_type in
  if negb first && negb (bool_decide (current = type)) then io_send_sw SW_BAD_STATE
  else
    let* result := process_tx_chunk cdata type first more msg_end in
    if negb (result =? 0) then refuse_tx result
    else
      let* st := gets g_state in
      match st with
      | STATE_EXPECTING_MORE => io_send_sw SW_OK
      | STATE_MSG_COMPLETE | STATE_PARSED => message_complete
      | _ => io_send_sw SW_BAD_STATE
      end.

(** ** apdu/dispatcher.c *)

Definition has_flag (p2 flag : Z) : bool := negb (Z.land p2 flag =? 0).

Definition apdu_dispatcher (cmd : command_t) : GM unit :=
  let p1 := cmd_p1 cmd in
  let p2 := cmd_p2 cmd in
  if negb (cmd_cla cmd =? CLA) then io_send_sw SW_CLA_NOT_SUPPORTED
  else if cmd_ins cmd =? GET_VERSION then
    if negb (p1 =? P1_NONE) || negb (p2 =? P2_NONE) then io_send_sw SW_WRONG_P1P2
    else handler_get_version
  else if cmd_ins cmd =? GET_APP_NAME then
    if negb (p1 =? P1_NONE) || negb (p2 =? P2_NONE) then io_send_sw SW_WRONG_P1P2
    else handler_get_app_name
  else if cmd_ins cmd =? GET_PUBLIC_KEY then
    if negb ((p1 =? P1_NON_CONFIRM) || (p1 =? P1_CONFIRM)) || (P2_ADDR_FLAGS_MAX <? p2)
    then io_send_sw SW_WRONG_P1P2
    else if (p1 =? P1_NON_CONFIRM) && negb (p2 =? P2_NONE) then io_send_sw SW_WRONG_P1P2
    else match cmd_data cmd with
    | None => io_send_sw SW_WRONG_DATA_LENGTH
    | Some data => handler_get_public_key data (negb (p1 =? 0))
    end
  else if cmd_ins cmd =? SIGN_TX then
    match signing_type_of_p1 p1 with
    | None => io_send_sw SW_WRONG_P1P2
    | Some type =>
        if has_flag p2 (Z.lnot (Z.lor (Z.lor P2_FIRST P2_MORE) P2_MSG_END))
        then io_send_sw SW_WRONG_P1P2
        else if negb (has_flag p2 (Z.lor P2_MORE P2_MSG_END)) then io_send_sw SW_WRONG_P1P2
        else if has_flag p2 P2_FIRST && negb (has_flag p2 P2_MORE) then io_send_sw SW_WRONG_P1P2
        else match cmd_data cmd with
        | None => io_send_sw SW_WRONG_DATA_LENGTH
        | Some data =>
            handler_sign_tx data type (has_flag p2 P2_FIRST) (has_flag p2 P2_MORE)
              (has_flag p2 P2_MSG_END)
        end
    end
  else io_send_sw SW_INS_NOT_SUPPORTED.

(** *** The commands *)

(** The commands of [doc/APDU.md]. *)
Definition listed (cmd : command_t) : bool :=
  let p1 := cmd_p1 cmd in
  let p2 := cmd_p2 cmd in
  (cmd_cla cmd =? 0xE0) &&
  (if (cmd_ins cmd =? 3) || (cmd_ins cmd =? 4) then (p1 =? 0) && (p2 =? 0)
   else if cmd_ins cmd =? 5
   then ((p1 =? 0) && (p2 =? 0) || (p1 =? 1) && (p2 <=? 3)) && is_set (cmd_data cmd)
   else if cmd_ins cmd =? 6
   then (p1 <=? 2) && bool_decide (p2 ∈ [2; 3; 4; 6; 7]) && is_set (cmd_data cmd)
   else false).
(** What a listed command runs. *)
Definition dispatched (cmd : command_t) : GM unit :=
  let data := default [] (cmd_data cmd) in
  if cmd_ins cmd =? 3 then handler_get_version
  else if cmd_ins cmd =? 4 then handler_get_app_name
  else if cmd_ins cmd =? 5 then handler_get_public_key data (cmd_p1 cmd =? 1)
  else
    let type := if cmd_p1 cmd =? 0 then SIGN_HASH
                else if cmd_p1 cmd =? 1 then SIGN_UNTYPED_VERSIONED_MESSAGE
                else SIGN_PREPARED_TRANSACTION in
    handler_sign_tx data type (Z.testbit (cmd_p2 cmd) 0) (Z.testbit (cmd_p2 cmd) 1)
      (Z.testbit (cmd_p2 cmd) 2).
Definition command_wf (cmd : command_t) : Prop :=
  is_u8 (cmd_cla cmd) ∧ is_u8 (cmd_ins cmd) ∧ is_u8 (cmd_p1 cmd) ∧ is_u8 (cmd_p2 cmd).

Lemma flags_of_p2 p2 : is_u8 p2 →
  (bool_decide (p2 ∈ [2; 3; 4; 6; 7]) =
     negb (has_flag p2 (Z.lnot (Z.lor (Z.lor P2_FIRST P2_MORE) P2_MSG_END))) &&
     has_flag p2 (Z.lor P2_MORE P2_MSG_END) && (negb (has_flag p2 P2_FIRST) || has_flag p2 P2_MORE)) ∧
  has_flag p2 P2_FIRST = Z.testbit p2 0 ∧ has_flag p2 P2_MORE = Z.testbit p2 1 ∧
  has_flag p2 P2_MSG_END = Z.testbit p2 2.
Proof.
  intros Hp. unfold is_u8 in Hp. change (2 ^ 8) with 256 in Hp.
  set (Q := λ p2, eqb (bool_decide (p2 ∈ [2; 3; 4; 6; 7]))
     (negb (has_flag p2 (Z.lnot (Z.lor (Z.lor P2_FIRST P2_MORE) P2_MSG_END))) &&
      has_flag p2 (Z.lor P2_MORE P2_MSG_END) && (negb (has_flag p2 P2_FIRST) || has_flag p2 P2_MORE)) &&
    eqb (has_flag p2 P2_FIRST) (Z.testbit p2 0) && eqb (has_flag p2 P2_MORE) (Z.testbit p2 1) &&
    eqb (has_flag p2 P2_MSG_END) (Z.testbit p2 2)).
  assert (HQ : Q p2 = true) by (by apply byte_cases; [vm_compute|]).
  unfold Q in HQ. rewrite !andb_true_iff, !eqb_true_iff in HQ. tauto.
Qed.

(** A command refused with one of the status words of the checks. *)
Ltac refused := eexists; split; [|reflexivity]; set_solver.

(** C17: Only the documented commands do anything.  A command of the table in [doc/APDU.md]
    runs its handler, with the flags its P2 spells; every other one is refused with a status
    word that is not success, and changes nothing. *)
Theorem only_documented_commands cmd : command_wf cmd →
  if listed cmd then apdu_dispatcher cmd = dispatched cmd
  else ∃ sw, sw ∈ [SW_CLA_NOT_SUPPORTED; SW_INS_NOT_SUPPORTED; SW_WRONG_P1P2; SW_WRONG_DATA_LENGTH] ∧
    apdu_dispatcher cmd = io_send_sw sw.
Proof.
  destruct cmd as [cla ins p1 p2 data]. intros (_ & _ & Hp1 & Hp2). unfold is_u8 in Hp1.
  destruct (flags_of_p2 p2 Hp2) as (Hflags & F1 & F2 & F3). unfold is_u8 in Hp2.
  unfold listed, dispatched, apdu_dispatcher. cbn [cmd_cla cmd_ins cmd_p1 cmd_p2 cmd_data] in *.
  destruct (Z.eqb_spec cla CLA) as [->|Hcla]; cbn [negb].
  2: { replace (cla =? 0xE0) with false by (unfold CLA in Hcla; lia). refused. }
  change (CLA =? 0xE0) with true. cbn [andb].
  destruct (Z.eqb_spec ins GET_VERSION) as [->|]; [|destruct (Z.eqb_spec ins GET_APP_NAME) as [->|];
    [|destruct (Z.eqb_spec ins GET_PUBLIC_KEY) as [->|]; [|destruct (Z.eqb_spec ins SIGN_TX) as [->|]]]].
  - cbn [Z.eqb Pos.eqb orb GET_VERSION]. unfold P1_NONE, P2_NONE.
    destruct (p1 =? 0), (p2 =? 0); [done|refused..].
  - cbn [Z.eqb Pos.eqb orb GET_APP_NAME]. unfold P1_NONE, P2_NONE.
    destruct (p1 =? 0), (p2 =? 0); [done|refused..].
  - cbn [Z.eqb Pos.eqb orb GET_PUBLIC_KEY]. unfold P1_NON_CONFIRM, P1_CONFIRM, P2_NONE.
    change P2_ADDR_FLAGS_MAX with 3. replace (3 <? p2) with (negb (p2 <=? 3)) by lia.
    destruct (Z.eqb_spec p1 0), (Z.eqb_spec p2 0), (Z.eqb_spec p1 1), (Z.leb_spec p2 3),
      data as [d|]; first [lia|done|refused].
  - cbn [Z.eqb Pos.eqb orb SIGN_TX]. rewrite Hflags, F1, F2, F3. unfold signing_type_of_p1.
    replace (p1 <=? 2) with ((p1 =? 0) || (p1 =? 1) || (p1 =? 2)) by lia.
    destruct (Z.eqb_spec p1 0), (Z.eqb_spec p1 1), (Z.eqb_spec p1 2); cbn [orb andb];
      try lia; try refused.
    all: destruct (has_flag p2 (Z.lnot _)); cbn [negb andb]; [refused|].
    all: destruct (has_flag p2 (Z.lor _ _)); cbn [negb andb]; [|refused].
    all: destruct (Z.testbit p2 0), (Z.testbit p2 1), data as [d|]; first [done|refused].
  - unfold GET_VERSION, GET_APP_NAME, GET_PUBLIC_KEY, SIGN_TX in *.
    replace (ins =? 3) with false by lia. replace (ins =? 4) with false by lia.
    replace (ins =? 5) with false by lia. replace (ins =? 6) with false by lia. refused.
Qed.

(** ** app_main.c and the settings *)

(** The switch of the settings writes the opposite of the current value. *)
Definition settings_controls_callback : GM unit :=
  modify (λ g, g <| g_allow_blind_sign ::= λ b,
    match b with BlindSignDisabled => BlindSignEnabled | BlindSignEnabled => BlindSignDisabled end |>).

(** What the main loop and the user interface react to: a command, or bytes [apdu_parser]
    rejects; the answer to a review; the switch. *)
Inductive event :=
  | Command (cmd : option command_t)
  | Choice (confirm : bool)
  | Toggle.

Definition app_main_step (ev : event) : GM unit :=
  match ev with
  | Command None => io_send_sw SW_WRONG_DATA_LENGTH
  | Command (Some cmd) => apdu_dispatcher cmd
  | Choice confirm =>
      let* review := gets g_review in
      match review with
      | Some callback => review_choice callback confirm
      | None => ret tt
      end
  | Toggle => settings_controls_callback
  end.
End Handlers.
