(* ===== verification/Session.v ===== *)
(** * The application as a machine

    Commands, answers to reviews and the switch of the settings drive the application from
    its start.  The host waits for the answer of a command before it sends the next one, so
    no command comes while a review is on screen, and the settings are out of reach then.

    A step is [sound] when it ends with a result or stops the application, and keeps the
    parsers in order; it [replies] when it sends one response, or opens one review that shows
    what is being approved. *)

From S2P Require Import Prelude Constants Utils DisplayConfig Pb Wire Messages CanonicalHash.
From S2P Require Import TreeCheck ValuesCheck HashingParser HoldingParser DisplayParser Context.
From S2P Require Import Prepared PreparedRun TopologyMessages Keys Topology TopologyFlow Handlers.

(** ** Sound steps *)

Definition sound {S A} (P : S → Prop) (m : M S A) : Prop := ∀ s, P s →
  match m s with
  | (Ret _, s') => P s'
  | (Abort, _) => True
  | (Fail, _) | (NoFuel, _) => False
  end.

Create HintDb sound.

Section Sound.
Context {S : Type}.
Implicit Types P : S → Prop.

Lemma sound_ret {A} P (a : A) : sound P (ret a).
Proof. by intros s. Qed.
Lemma sound_abort {A} P : sound P (@abort S A).
Proof. by intros s. Qed.
Lemma sound_gets {A} P (f : S → A) : sound P (gets f).
Proof. by intros s. Qed.
Lemma sound_get P : sound P get.
Proof. by intros s. Qed.
Lemma sound_assert P b : sound P (assert_that b).
Proof. by destruct b; intros s. Qed.
Lemma sound_modify P f : (∀ s, P s → P (f s)) → sound P (modify f).
Proof. intros Hf s Hs. by apply Hf. Qed.
Lemma sound_bind {A B} P (m : M S A) (k : A → M S B) :
  sound P m → (∀ a, sound P (k a)) → sound P (bind m k).
Proof.
  intros Hm Hk s Hs. specialize (Hm s Hs). unfold bind.
  destruct (m s) as [[a| | |] s1]; try done. by apply Hk.
Qed.
Lemma sound_mfor {A} P (f : A → M S unit) l : (∀ a, sound P (f a)) → sound P (mfor f l).
Proof. intros Hf. induction l as [|a l IH]; cbn; [by intros s|by apply sound_bind]. Qed.
End Sound.
#[export] Hint Resolve sound_ret sound_abort sound_gets sound_get sound_assert : sound.
Ltac sound_steps :=
  repeat first
    [ progress intros
    | match goal with
      | |- sound _ (if ?b then _ else _) => destruct b eqn:?
      | |- sound _ (match ?x with _ => _ end) => destruct x eqn:?
      end
    | solve [eauto with sound]
    | apply sound_mfor
    | apply sound_bind ].

Section Session.
Context `{Sha256} `{Device} `{Screen} `{Crypto} `{Buffer} `{Compiler} `{OtherMappings} `{Build}.

(** The parsers are in order. *)
Definition sys_ready (g : context) : Prop := vp_ready (g_vp g) ∧ dp_ready (g_dp g).

Lemma ready_same g g' : g_vp g' = g_vp g → g_dp g' = g_dp g → sys_ready g → sys_ready g'.
Proof. by intros Ev Ed [V D]; split; rewrite ?Ev, ?Ed. Qed.
(** A change of the context that leaves the parsers alone. *)
Ltac ready_modify :=
  lazymatch goal with
  | |- sound sys_ready (modify _) =>
      apply sound_modify; let g := fresh "g" in let Hg := fresh "Hg" in intros g Hg;
      first [exact Hg | by apply (ready_same g) | destruct Hg; split; [done|by apply (same_ready (g_dp g))]]
  end.
#[local] Hint Extern 1 (sound sys_ready (modify _)) => ready_modify : sound.

Lemma sound_on_display f :
  (∀ d, length (dp_fields (f d)) = length (dp_fields d) ∧ dp_md_conf (f d) = dp_md_conf d ∧
        dp_md_identifiers (f d) = dp_md_identifiers d) → sound sys_ready (on_display f).
Proof.
  intros Hf. apply sound_modify. intros g [V D]. split; [done|].
  destruct (Hf (g_dp g)) as (E1 & E2 & E3). by apply (same_ready (g_dp g)).
Qed.
Lemma sound_reset_parser : sound sys_ready (on_display reset_display_parser_state).
Proof. apply sound_modify. intros g [V D]. split; [done|by split]. Qed.
#[local] Hint Extern 1 (sound sys_ready (on_display _)) =>
  first [apply sound_reset_parser | by apply sound_on_display] : sound.

Lemma sound_alloc n : sound sys_ready (g_mem_alloc n).
Proof. intros g Hg. by apply (ready_same g). Qed.
Lemma sound_clean : sound sys_ready clean_context.
Proof. apply sound_modify. intros g [V D]. split; [done|]. by split. Qed.
#[local] Hint Resolve sound_alloc sound_clean : sound.

(** A decode on the context moves the clock only. *)
Lemma sound_decode {A} (m : GM A) : (∀ g, keeps (same_but_clock g) m) → sound sys_ready (attempt m).
Proof.
  intros Hm g Hg. specialize (Hm g g (same_but_clock_refl g)). unfold attempt.
  destruct (m g) as [[a| | |] g']; try done.
  - destruct Hm as [-> _]. by apply (ready_same g).
  - rewrite Hm. by apply (ready_same g).
Qed.
Lemma sound_decode_then {A} fields (zero : A) buf f :
  (∀ g n, fields_safe (same_but_clock g) n fields) →
  (∀ a g, g_vp (f a g) = g_vp g ∧ g_dp (f a g) = g_dp g) →
  sound sys_ready (attempt (let* a := pb_decode_inner fields buf zero in modify (f a))).
Proof.
  intros Hs Hf g Hg. unfold attempt, bind, modify.
  assert (Hk : keeps (same_but_clock g) (pb_decode_inner fields buf zero))
    by (apply pb_decode_inner_safe; intros n _; apply Hs).
  specialize (Hk g (same_but_clock_refl g)).
  destruct (pb_decode_inner fields buf zero g) as [[a| | |] g']; cbn; try done.
  - destruct Hk as [Hk _]. destruct (Hf a g') as [E1 E2].
    apply (ready_same g'); [done..|]. rewrite Hk. by apply (ready_same g).
  - rewrite Hk. by apply (ready_same g).
Qed.
Lemma sound_header buf : sound sys_ready (attempt (proto_deserialize_daml_tx buf)).
Proof.
  apply sound_decode_then; [|done]. intros g n. apply DamlTransaction_fields_safe, g_realloc_safe.
Qed.
Lemma sound_metadata buf : sound sys_ready (attempt (proto_deserialize_metadata buf)).
Proof.
  apply sound_decode_then; [|done]. intros g n. apply Metadata_fields_safe, g_realloc_safe.
Qed.
Lemma sound_topology_decode buf :
  sound sys_ready (attempt (proto_deserialize_topology_transaction buf)).
Proof. apply sound_decode. intros g. apply topology_decode_safe. Qed.
#[local] Hint Resolve sound_header sound_metadata sound_topology_decode : sound.

Lemma sound_in_hashing {A} (m : M hp_state A) : keeps (λ _, True) m →
  sound sys_ready (attempt (in_hashing m)).
Proof.
  intros Hm g Hg. unfold attempt, in_hashing.
  specialize (Hm ((g_hp g) <| hp_clock := g_clock g |> <| hp_store := g_store g |>) I).
  destruct (m _) as [[a| | |] h]; try done; by apply (ready_same g).
Qed.
Lemma sound_node buf : sound sys_ready (attempt (in_hashing (proto_deserialize_node buf))).
Proof. apply sound_in_hashing, node_deserialize_safe. Qed.
Lemma sound_contract buf : sound sys_ready (attempt (in_hashing (proto_deserialize_input_contract buf))).
Proof. apply sound_in_hashing, contract_deserialize_safe. Qed.
Lemma sound_hasher f : sound sys_ready (in_hasher f).
Proof. intros g Hg. by apply (ready_same g). Qed.
#[local] Hint Resolve sound_node sound_contract sound_hasher : sound.

Lemma sound_collect buf : sound sys_ready (in_holding (values_collect_from_node buf)).
Proof.
  intros g [V D]. unfold in_holding. set (s := _ <| vp_store := _ |>).
  assert (Hs : vp_ready s) by (destruct V; split; try done; by exists []).
  destruct (values_collect_effect buf s Hs) as (Hn & Hf & Hret).
  destruct (values_collect_from_node buf s) as [[[]| | |] v]; try done.
  destruct (Hret eq_refl) as [Hv _]. by split.
Qed.
Lemma sound_parse buf parse :
  parse = parse_node_for_display buf ∨ parse = parse_input_contract_for_display buf →
  sound sys_ready (in_display parse).
Proof.
  intros Hp g [V D]. unfold in_display. set (s := _ <| dp_store := _ |>).
  assert (Hs : dp_ready s) by (by apply (same_ready (g_dp g))).
  assert (Hrun : parsed s (parse s)).
  { destruct Hp as [-> | ->]; [by apply node_parse_run|by apply contract_parse_run]. }
  unfold parsed in Hrun. destruct (parse s) as [[r| | |] d]; try done.
  destruct Hrun as [Hd _]. by split.
Qed.
Lemma sound_node_screen buf : sound sys_ready (in_display (parse_node_for_display buf)).
Proof. apply (sound_parse buf). by left. Qed.
Lemma sound_contract_screen buf : sound sys_ready (in_display (parse_input_contract_for_display buf)).
Proof. apply (sound_parse buf). by right. Qed.
Lemma sound_pairs n : sound sys_ready (in_display (init_transaction_pairs n)).
Proof. intros g [V D]. split; [done|]. by apply (same_ready (g_dp g)). Qed.
#[local] Hint Resolve sound_collect sound_node_screen sound_contract_screen sound_pairs : sound.

(** *** The parts of a prepared transaction *)

Lemma sound_start_tree : sound sys_ready start_tree_check.
Proof. intros g Hg. by apply (ready_same g). Qed.
Lemma sound_verdict : sound sys_ready (λ g, let '(err, c) := tree_verify_complete (hp_tree (g_hp g)) in
  (Ret err, g <| g_hp := (g_hp g) <| hp_tree := c |> |>)).
Proof. intros g Hg. destruct (tree_verify_complete _). by apply (ready_same g). Qed.
Lemma sound_values_verdict : sound sys_ready (λ g, let '(b, s) := values_can_clear_sign (g_store g) in
  (Ret b, g <| g_store := s |>)).
Proof. intros g Hg. destruct (values_can_clear_sign _). by apply (ready_same g). Qed.
#[local] Hint Resolve sound_start_tree sound_verdict sound_values_verdict : sound.

Lemma sound_abort_prepared sw : sound sys_ready (abort_prepared_tx sw).
Proof. unfold abort_prepared_tx. sound_steps. Qed.
#[local] Hint Resolve sound_abort_prepared : sound.
Lemma sound_unless k : sound sys_ready k → sound sys_ready (unless_hash_error k).
Proof. intros Hk. unfold unless_hash_error, hash_error. sound_steps; done. Qed.
Lemma sound_drop : sound sys_ready drop_clear_signing.
Proof. unfold drop_clear_signing, set_clear_signing. sound_steps. Qed.
#[local] Hint Resolve sound_drop : sound.
Lemma sound_finalize : sound sys_ready process_prepared_tx_finalize.
Proof. unfold process_prepared_tx_finalize. sound_steps. Qed.
Lemma sound_tree_verdict : sound sys_ready apply_node_tree_verdict.
Proof. unfold apply_node_tree_verdict. sound_steps. Qed.
Lemma sound_index : sound sys_ready next_index.
Proof. unfold next_index. sound_steps. Qed.
#[local] Hint Resolve sound_finalize sound_tree_verdict sound_index : sound.

Lemma sound_prepared buf : sound sys_ready (process_prepared_tx_part buf).
Proof.
  unfold process_prepared_tx_part, daml_tx_part, node_part, metadata_part, input_contract_part.
  sound_steps; apply sound_unless; sound_steps.
Qed.

(** *** The topology flow *)

Lemma sound_topology_modify f : sound sys_ready (topology f).
Proof. apply sound_modify. intros g Hg. by apply (ready_same g). Qed.
#[local] Hint Resolve sound_topology_modify : sound.
Lemma sound_must_set i v : sound sys_ready (must_set i v).
Proof. unfold must_set, set_field_value. sound_steps. Qed.
Lemma sound_refused sw : sound sys_ready (mapping_refused sw).
Proof. unfold mapping_refused. sound_steps. Qed.
#[local] Hint Resolve sound_must_set sound_refused : sound.
Lemma sound_mapping m : sound sys_ready (process_mapping m).
Proof.
  unfold process_mapping, process_namespace_delegation, process_party_to_participant,
    process_party_to_key_mapping. sound_steps.
Qed.
Lemma sound_finish : sound sys_ready finish_topology.
Proof.
  unfold finish_topology, compute_multi_hash, cleanup_hash_storage, sign_challenge. sound_steps.
Qed.
#[local] Hint Resolve sound_mapping sound_finish : sound.
Lemma sound_message buf : sound sys_ready (process_untyped_versioned_msg_tx buf).
Proof.
  unfold process_untyped_versioned_msg_tx, add_hash, parse_topology_transaction_for_display,
    cleanup_hash_storage. sound_steps.
Qed.
Lemma sound_topology_init cdata : sound sys_ready (process_untyped_versioned_msg_tx_init cdata).
Proof.
  unfold process_untyped_versioned_msg_tx_init, init_hash_storage, read_challenge_and_deadline.
  sound_steps.
Qed.
#[local] Hint Resolve sound_prepared sound_message sound_topology_init : sound.

(** *** The handlers *)

Lemma sound_send data sw : sound sys_ready (io_send_response data sw).
Proof. unfold io_send_response. sound_steps. Qed.
Lemma sound_sw sw : sound sys_ready (io_send_sw sw).
Proof. apply sound_send. Qed.
Lemma sound_show scr : sound sys_ready (show scr).
Proof. unfold show. sound_steps. Qed.
Lemma sound_state st : sound sys_ready (set_state st).
Proof. unfold set_state. sound_steps. Qed.
Lemma sound_request r st : sound sys_ready (set_request r st).
Proof. unfold set_request. sound_steps. Qed.
Lemma sound_review r : sound sys_ready (set_review r).
Proof. unfold set_review. sound_steps. Qed.
Lemma sound_take : sound sys_ready take_message.
Proof. intros g Hg. cbn. case_bool_decide; [by apply (ready_same g)|done]. Qed.
#[local] Hint Resolve sound_send sound_sw sound_show sound_state sound_request sound_review
  sound_take : sound.

Lemma sound_step ev : sound sys_ready (app_main_step ev).
Proof.
  unfold app_main_step, apdu_dispatcher, handler_get_version, handler_get_app_name,
    handler_get_public_key, ui_display_party_id, helper_send_response_pubkey, handler_sign_tx,
    process_tx_chunk, first_chunk, next_chunk, message_complete, process_message,
    process_transaction_hash, start_review, refuse_tx, ui_display_transaction,
    ui_display_blind_signed_transaction, ui_display_transaction_bs_choice, ui_error_blind_signing,
    review_choice, validate_transaction, validate_pubkey, crypto_sign_message,
    helper_send_response_sig, settings_controls_callback, process_prepared_tx_init,
    helper_send_response_pubkey, set_clear_signing.
  sound_steps.
Qed.

(** ** What is sent and shown *)

Definition untouched (g g' : context) : Prop :=
  g_output g' = g_output g ∧ g_review g' = g_review g.
Definition quiet {A} (m : GM A) : Prop := ∀ g,
  match m g with (Ret _, g') | (Fail, g') => untouched g g' | _ => True end.

Lemma quiet_ret {A} (a : A) : quiet (ret a).
Proof. by intros g. Qed.
Lemma quiet_abort {A} : quiet (A := A) abort.
Proof. by intros g. Qed.
Lemma quiet_gets {A} (f : context → A) : quiet (gets f).
Proof. by intros g. Qed.
Lemma quiet_get : quiet get.
Proof. by intros g. Qed.
Lemma quiet_assert b : quiet (assert_that b).
Proof. by destruct b; intros g. Qed.
Lemma quiet_modify f : (∀ g, untouched g (f g)) → quiet (modify f).
Proof. intros Hf g. apply Hf. Qed.
Lemma quiet_bind {A B} (m : GM A) (k : A → GM B) : quiet m → (∀ a, quiet (k a)) → quiet (bind m k).
Proof.
  intros Hm Hk g. specialize (Hm g). unfold bind.
  destruct (m g) as [[a| | |] g1]; try done. specialize (Hk a g1). destruct Hm as [Ho Hr].
  destruct (k a g1) as [[b| | |] g2]; try done; destruct Hk; split; congruence.
Qed.
Lemma quiet_mfor {A} (f : A → GM unit) l : (∀ a, quiet (f a)) → quiet (mfor f l).
Proof. intros Hf. induction l as [|a l IH]; cbn; [by intros g|by apply quiet_bind]. Qed.
Lemma quiet_attempt {A} (m : GM A) : quiet m → quiet (attempt m).
Proof. intros Hm g. specialize (Hm g). unfold attempt. by destruct (m g) as [[a| | |] g1]. Qed.
Lemma quiet_decode {A} (m : GM A) : (∀ g, keeps (same_but_clock g) m) → quiet m.
Proof.
  intros Hm g. specialize (Hm g g (same_but_clock_refl g)).
  destruct (m g) as [[a| | |] g']; try done; [destruct Hm as [-> _]|rewrite Hm]; done.
Qed.
Lemma quiet_in_hashing {A} (m : M hp_state A) : quiet (in_hashing m).
Proof. intros g. unfold in_hashing. by destruct (m _) as [[a| | |] h]. Qed.
Lemma quiet_in_holding {A} (m : M vp_state A) : quiet (in_holding m).
Proof. intros g. unfold in_holding. by destruct (m _) as [[a| | |] h]. Qed.
Lemma quiet_in_display {A} (m : M dp_state A) : quiet (in_display m).
Proof. intros g. unfold in_display. by destruct (m _) as [[a| | |] h]. Qed.
#[local] Hint Resolve quiet_ret quiet_abort quiet_gets quiet_get quiet_assert quiet_in_hashing
  quiet_in_holding quiet_in_display : quiet.
#[local] Hint Extern 1 (quiet (modify _)) => apply quiet_modify; intros; by split : quiet.
Ltac quiet_steps :=
  repeat first
    [ progress intros
    | match goal with
      | |- quiet (if ?b then _ else _) => destruct b eqn:?
      | |- quiet (match ?x with _ => _ end) => destruct x eqn:?
      end
    | solve [eauto with quiet]
    | apply quiet_mfor
    | apply quiet_attempt
    | apply quiet_bind ].

Lemma quiet_alloc n : quiet (g_mem_alloc n).
Proof. by intros g. Qed.
Lemma quiet_header buf : quiet (proto_deserialize_daml_tx buf).
Proof.
  apply quiet_bind; [|intros; by apply quiet_modify]. apply quiet_decode. intros g.
  apply pb_decode_inner_safe. intros n _. apply DamlTransaction_fields_safe, g_realloc_safe.
Qed.
Lemma quiet_metadata buf : quiet (proto_deserialize_metadata buf).
Proof.
  apply quiet_bind; [|intros; by apply quiet_modify]. apply quiet_decode. intros g.
  apply pb_decode_inner_safe. intros n _. apply Metadata_fields_safe, g_realloc_safe.
Qed.
Lemma quiet_topology_decode buf : quiet (proto_deserialize_topology_transaction buf).
Proof. apply quiet_decode. intros g. apply topology_decode_safe. Qed.
Lemma quiet_verdict : quiet (λ g, let '(err, c) := tree_verify_complete (hp_tree (g_hp g)) in
  (Ret err, g <| g_hp := (g_hp g) <| hp_tree := c |> |>)).
Proof. intros g. by destruct (tree_verify_complete _). Qed.
Lemma quiet_values_verdict : quiet (λ g, let '(b, s) := values_can_clear_sign (g_store g) in
  (Ret b, g <| g_store := s |>)).
Proof. intros g. by destruct (values_can_clear_sign _). Qed.
Lemma quiet_start_tree : quiet start_tree_check.
Proof. by intros g. Qed.
Lemma quiet_take : quiet take_message.
Proof. intros g. cbn. by case_bool_decide. Qed.
#[local] Hint Resolve quiet_alloc quiet_header quiet_metadata quiet_topology_decode quiet_verdict
  quiet_values_verdict quiet_start_tree quiet_take : quiet.

Lemma quiet_prepared buf : quiet (process_prepared_tx_part buf).
Proof.
  unfold process_prepared_tx_part, daml_tx_part, node_part, metadata_part, input_contract_part,
    unless_hash_error, abort_prepared_tx, process_prepared_tx_finalize, apply_node_tree_verdict,
    drop_clear_signing, set_clear_signing, on_display, next_index, in_hasher, hash_error.
  quiet_steps.
Qed.
Lemma quiet_must_set i v : quiet (must_set i v).
Proof. unfold must_set, set_field_value, on_display, topology. quiet_steps. Qed.
#[local] Hint Resolve quiet_must_set quiet_prepared : quiet.
Lemma quiet_message buf : quiet (process_untyped_versioned_msg_tx buf).
Proof.
  unfold process_untyped_versioned_msg_tx, add_hash, parse_topology_transaction_for_display,
    cleanup_hash_storage, finish_topology, compute_multi_hash, sign_challenge, process_mapping,
    process_namespace_delegation, process_party_to_participant, process_party_to_key_mapping,
    mapping_refused, on_display, topology.
  quiet_steps.
Qed.
Lemma quiet_topology_init cdata : quiet (process_untyped_versioned_msg_tx_init cdata).
Proof.
  unfold process_untyped_versioned_msg_tx_init, init_hash_storage, read_challenge_and_deadline, topology.
  quiet_steps.
Qed.
#[local] Hint Resolve quiet_message quiet_topology_init : quiet.
Lemma quiet_chunk cdata type first more msg_end :
  quiet (process_tx_chunk cdata type first more msg_end).
Proof.
  unfold process_tx_chunk, first_chunk, next_chunk, clean_context, process_prepared_tx_init,
    set_clear_signing, on_display, set_state. quiet_steps.
Qed.
Lemma quiet_process type buf : quiet (process_message type buf).
Proof. unfold process_message, process_transaction_hash. quiet_steps. Qed.
#[local] Hint Resolve quiet_chunk quiet_process : quiet.

(** *** Responses and reviews *)

Definition is_sent (o : output_t) : bool := match o with Sent _ _ => true | Shown _ => false end.
Definition responses (o : list output_t) : nat := length (filter is_sent o).

(** [scr] is the screen of the review that waits in [g]: a clear signed transaction shows the
    lines built for it, a blind signed one the hash to sign, an address the party of the key
    to export. *)
Definition review_shows (r : review_callback) (scr : screen_t) (g : context) : Prop :=
  match r with
  | review_choice_transaction =>
      g_req_type g = CONFIRM_TRANSACTION ∧ g_state g = STATE_PARSED ∧
      if g_clear_signing_available g
      then scr = ReviewTransaction (default [] (dp_pairs (g_dp g))) (dp_review_title (g_dp g))
                   (dp_review_finish (g_dp g))
      else g_allow_blind_sign g = BlindSignEnabled ∧
           scr = ReviewBlindSigning [hash_pair (g_m_hash g)]
  | review_choice_address => ∃ party_id, scr = ReviewAddress party_id ∧
      party_id_from_pubkey (g_raw_public_key g) PARTY_ID_LEN = Some party_id
  end.

(** One response and no review, or a review and no response yet. *)
Definition answered (g g' : context) : Prop :=
  ∃ new, g_output g' = g_output g ++ new ∧
    ((responses new = 1%nat ∧ g_review g' = None) ∨
     ∃ r scr, new = [Shown scr] ∧ g_review g' = Some r ∧ review_shows r scr g').
Definition replies {A} (m : GM A) : Prop := ∀ g,
  match m g with (Ret _, g') => g_review g = None → answered g g' | _ => True end.

Lemma replies_send data sw : replies (io_send_response data sw).
Proof. intros g Hg. exists [Sent data sw]. split; [done|]. by left. Qed.
Lemma replies_sw sw : replies (io_send_sw sw).
Proof. apply replies_send. Qed.
Lemma replies_bind {A B} (m : GM A) (k : A → GM B) : quiet m → (∀ a, replies (k a)) →
  replies (bind m k).
Proof.
  intros Hm Hk g. specialize (Hm g). unfold bind. destruct (m g) as [[a| | |] g1]; try done.
  specialize (Hk a g1). destruct Hm as [Ho Hr]. destruct (k a g1) as [[b| | |] g2]; try done.
  intros Hg. rewrite <- Hr in Hg. destruct (Hk Hg) as (new & E & Hn). exists new. by rewrite E, Ho.
Qed.
#[local] Hint Resolve replies_send replies_sw : quiet.
Ltac reply_steps :=
  repeat first
    [ progress intros
    | match goal with
      | |- replies (if ?b then _ else _) => destruct b eqn:?
      | |- replies (match ?x with _ => _ end) => destruct x eqn:?
      end
    | solve [eauto with quiet]
    | apply replies_bind; [solve [quiet_steps]|] ].

Lemma replies_review : replies start_review.
Proof.
  intros g. unfold start_review, bind, get. destruct (g_clear_signing_available g) eqn:Ec.
  - unfold ui_display_transaction, ui_display_transaction_bs_choice, bind, get.
    case_bool_decide as E1; case_bool_decide as E2; cbn [negb orb];
      try (intros Hg; exists [Sent [] SW_BAD_STATE]; split; [done|by left]).
    intros _. eexists. split; [reflexivity|]. right. eexists _, _. split_and!; [done..|].
    unfold review_shows, g_clear_signing_available in *. cbn. by rewrite Ec.
  - case_bool_decide as Eb.
    + intros Hg. exists [Shown BlindSigningDisabled; Sent [] SWO_INCORRECT_DATA].
      split; [|by left]. cbn. by rewrite <- app_assoc.
    + unfold ui_display_blind_signed_transaction, ui_display_transaction_bs_choice, bind, get.
      case_bool_decide as E1; case_bool_decide as E2; cbn [negb orb];
        try (intros Hg; exists [Sent [] SW_BAD_STATE]; split; [done|by left]).
      unfold g_mem_alloc. destruct (heap_has (g_clock g) 16); [|done]. cbn [assert_that ret].
      destruct (heap_has _ _); [|done]. cbn [assert_that ret].
      intros _. eexists. split; [reflexivity|]. right. eexists _, _. split_and!; [done..|].
      unfold review_shows, g_clear_signing_available in *. cbn. rewrite Ec.
      split_and!; try done. by destruct (g_allow_blind_sign g).
Qed.
Lemma replies_party_id : replies ui_display_party_id.
Proof.
  intros g. unfold ui_display_party_id, bind, get.
  case_bool_decide as E1; case_bool_decide as E2; cbn [negb orb];
    try (intros Hg; exists [Sent [] SW_BAD_STATE]; split; [done|by left]).
  destruct (party_id_from_pubkey _ _) as [party_id|] eqn:Ep.
  - intros _. eexists. split; [reflexivity|]. right. eexists _, _. split_and!; [done..|].
    by exists party_id.
  - intros Hg. exists [Sent [] SW_DISPLAY_ADDRESS_FAIL]. split; [done|by left].
Qed.
#[local] Hint Resolve replies_review replies_party_id : quiet.

Lemma replies_command cmd : replies (app_main_step (Command cmd)).
Proof.
  unfold app_main_step, apdu_dispatcher, handler_get_version, handler_get_app_name,
    handler_get_public_key, helper_send_response_pubkey, handler_sign_tx, message_complete,
    refuse_tx, set_request, clean_context, on_display.
  reply_steps.
Qed.

(** ** Runs *)

Definition allowed (g : context) (ev : event) : Prop :=
  match ev with
  | Command _ | Toggle => g_review g = None
  | Choice _ => g_review g ≠ None
  end.
(** The application is started with the setting it finds in its storage. *)
Inductive run : list event → context → Prop :=
  | run_start setting : run [] (boot <| g_allow_blind_sign := setting |>)
  | run_step evs ev g g' : run evs g → allowed g ev → app_main_step ev g = (Ret tt, g') →
      run (evs ++ [ev]) g'.

Lemma boot_ready setting : sys_ready (boot <| g_allow_blind_sign := setting |>).
Proof.
  split; [|by split]. split; try done; [cbn; unfold MAX_LABEL_PATH_LEN; lia|by exists []].
Qed.
Lemma run_ready evs g : run evs g → sys_ready g.
Proof.
  induction 1 as [setting|evs ev g g' _ IH _ E]; [apply boot_ready|].
  pose proof (sound_step ev g IH) as Hs. by rewrite E in Hs.
Qed.

(** The response to the answer [confirm] to the review of a transaction: the signature of the
    hash, with that of the challenge if there is one. *)
Definition choice_response (confirm : bool) (g : context) : output_t :=
  if confirm then
    match bip32_eddsa_sign_hash (g_bip32_path g) (g_m_hash g) with
    | Some signature =>
        if (length signature =? ED25519_SIG_LEN)%nat
        then Sent (signature_response signature (g_challenge_signature g)) SW_OK
        else Sent [] SW_SIGNATURE_FAIL
    | None => Sent [] SW_SIGNATURE_FAIL
    end
  else Sent [] SW_DENY.
Definition address_response (confirm : bool) (g : context) : output_t :=
  if confirm then
    Sent ([Z.of_nat ED25519_RAW_PUBLIC_KEY_LEN] ++ g_raw_public_key g ++
          [Z.of_nat MAX_CHAINCODE_LEN] ++ g_chain_code g) SW_OK
  else Sent [] SW_DENY.

Lemma review_choice_outputs r confirm g :
  ∃ g', review_choice r confirm g = (Ret tt, g') ∧ g_review g' = None ∧
    g_output g' = g_output g ++ [match r with
      | review_choice_transaction => choice_response confirm g
      | review_choice_address => address_response confirm g end].
Proof.
  unfold review_choice, choice_response, address_response. destruct r, confirm.
  - unfold validate_transaction, crypto_sign_message, bind, modify, set_review, set_state, get. cbn.
    destruct (bip32_eddsa_sign_hash _ _) as [signature|]; [|by eexists].
    destruct (length signature =? ED25519_SIG_LEN)%nat eqn:E; cbn; [|by eexists].
    unfold helper_send_response_sig, bind, get. cbn. rewrite E. by eexists.
  - by eexists.
  - by eexists.
  - by eexists.
Qed.

(** A review that waits is the last thing shown. *)
Lemma run_review evs g r : run evs g → g_review g = Some r →
  ∃ scr, last (g_output g) = Some (Shown scr) ∧ review_shows r scr g.
Proof.
  intros Hr. destruct Hr as [setting|evs ev g g' _ Ha E]; [done|]. intros Hg'. destruct ev as [cmd|confirm|].
  - pose proof (replies_command cmd g) as Hp. rewrite E in Hp.
    destruct (Hp Ha) as (new & Eo & [[_ Hn]|(r' & scr & -> & Er & Hs)]); [congruence|].
    exists scr. rewrite Eo, last_snoc. split; [done|]. congruence.
  - cbn in E. unfold bind, gets in E. destruct (g_review g) as [r'|] eqn:Er; [|done].
    destruct (review_choice_outputs r' confirm g) as (g2 & E2 & Hn & _). congruence.
  - injection E as <-. cbn in Hg'. cbn in Ha. congruence.
Qed.

(** C14: Every command is answered.  Whatever the host sends and the user does, from any state
    the application reaches: a command gets exactly one response, or opens exactly one
    review; the answer to a review sends exactly one response and closes it; the switch of
    the settings sends nothing.  Nothing loops; the only other outcome is a failed assertion,
    which stops the application. *)
Theorem every_command_is_answered evs g ev : run evs g → allowed g ev →
  match app_main_step ev g with
  | (Ret _, g') =>
      match ev with
      | Command _ => answered g g'
      | Choice _ => g_review g' = None ∧ ∃ data sw, g_output g' = g_output g ++ [Sent data sw]
      | Toggle => untouched g g'
      end
  | (Abort, _) => True
  | (Fail, _) | (NoFuel, _) => False
  end.
Proof.
  intros Hr%run_ready Ha. pose proof (sound_step ev g Hr) as Hs.
  destruct (app_main_step ev g) as [[[]| | |] g'] eqn:E; try done. destruct ev as [cmd|confirm|].
  - pose proof (replies_command cmd g) as Hp. rewrite E in Hp. by apply Hp.
  - cbn in E. unfold bind, gets in E. destruct (g_review g) as [r|] eqn:Er; [|done].
    destruct (review_choice_outputs r confirm g) as (g2 & E2 & Hn & Ho).
    rewrite E2 in E. injection E as <-. split; [done|]. rewrite Ho.
    destruct r; unfold choice_response, address_response; repeat case_match; by eexists _, _.
  - injection E as <-. done.
Qed.

(** The device with another signing function. *)
Definition with_signer (f : list Z → bytes → option bytes) : Crypto := {|
  bip32_get_pubkey := bip32_get_pubkey;
  bip32_eddsa_sign_hash := f;
  cx_eddsa_sign := cx_eddsa_sign;
  cx_ecdomain_parameters_length := cx_ecdomain_parameters_length;
  ATTESTATION_KEY := ATTESTATION_KEY
|}.
Definition signs (g : context) (ev : event) : Prop :=
  ev = Choice true ∧ g_review g = Some review_choice_transaction.

Lemma signer_unused f g ev : ¬ signs g ev →
  @app_main_step _ _ _ (with_signer f) _ _ _ _ ev g = app_main_step ev g.
Proof.
  intros Hs. destruct ev as [cmd|confirm|]; [reflexivity| |reflexivity].
  cbn. unfold bind, gets. destruct (g_review g) as [[]|] eqn:Er; [|reflexivity..].
  destruct confirm; [|reflexivity]. by destruct Hs.
Qed.

(** C7: What is signed was reviewed.  The signing key is used only when the user confirms the
    review of a transaction: any other step gives the same result whatever the signing
    function.  And when the user confirms, the last thing on screen is that review, which
    shows the lines built by clear signing, or with blind signing enabled the hash itself;
    the one response is the signature of that hash under the path of the request. *)
Theorem signature_follows_its_review evs g ev : run evs g → allowed g ev →
  (¬ signs g ev → ∀ f, @app_main_step _ _ _ (with_signer f) _ _ _ _ ev g = app_main_step ev g) ∧
  (signs g ev → ∃ scr g', last (g_output g) = Some (Shown scr) ∧
     review_shows review_choice_transaction scr g ∧
     app_main_step ev g = (Ret tt, g') ∧ g_output g' = g_output g ++ [choice_response true g]).
Proof.
  intros Hr Ha. split; [intros Hs f; by apply signer_unused|]. intros [-> Er].
  destruct (run_review evs g _ Hr Er) as (scr & Hl & Hs).
  destruct (review_choice_outputs review_choice_transaction true g) as (g' & E & _ & Ho).
  exists scr, g'. split_and!; try done. cbn. unfold bind, gets. by rewrite Er.
Qed.

(** C16: The key the user confirms is the one that is sent: when the review of an address is
    confirmed, the last screen shows the party identifier of the public key in the
    response. *)
Theorem confirmed_key_was_shown evs g g' : run evs g →
  g_review g = Some review_choice_address → app_main_step (Choice true) g = (Ret tt, g') →
  ∃ party_id, last (g_output g) = Some (Shown (ReviewAddress party_id)) ∧
    party_id_from_pubkey (g_raw_public_key g) PARTY_ID_LEN = Some party_id ∧
    g_output g' = g_output g ++
      [Sent ([32] ++ g_raw_public_key g ++ [32] ++ g_chain_code g) SW_OK].
Proof.
  intros Hr Er E. destruct (run_review evs g _ Hr Er) as (scr & Hl & party_id & -> & Hp).
  destruct (review_choice_outputs review_choice_address true g) as (g2 & E2 & _ & Ho).
  exists party_id. split_and!; try done. cbn in E. unfold bind, gets in E. rewrite Er, E2 in E.
  by injection E as <-.
Qed.

(** ** A refused transaction *)

(** The session is over: no further part is accepted. *)
Definition closed (g : context) : Prop := g_req_type g = CONFIRM_ADDRESS.

Lemma refuse_closes sw g g' : refuse_tx sw g = (Ret tt, g') → closed g'.
Proof. by intros [= <-]. Qed.

Lemma review_outcome g g' : start_review g = (Ret tt, g') →
  ∃ o, last (g_output g') = Some o ∧
    (o = Sent [] SW_BAD_STATE ∨ o = Sent [] SWO_INCORRECT_DATA ∨ ∃ scr, o = Shown scr).
Proof.
  intros E. unfold start_review, bind, get in E. destruct (g_clear_signing_available g).
  - unfold ui_display_transaction, ui_display_transaction_bs_choice, bind, get in E.
    destruct (_ || _); injection E as <-; cbn; rewrite last_snoc; eexists; split; eauto.
  - case_bool_decide.
    + injection E as <-. cbn. rewrite last_snoc. eauto.
    + unfold ui_display_blind_signed_transaction, ui_display_transaction_bs_choice, bind, get in E.
      destruct (_ || _); [injection E as <-; cbn; rewrite last_snoc; eauto|].
      unfold g_mem_alloc in E. destruct (heap_has (g_clock g) 16); [|done]. cbn [assert_that ret] in E.
      destruct (heap_has _ _); [|done]. injection E as <-. cbn. rewrite last_snoc. eauto 6.
Qed.

(** C15: A refusal ends the session.  A chunk of a transaction that is answered with any status
    word but success, "bad state" and the refusal of blind signing leaves the session closed;
    and in a closed session every further chunk is refused with "bad state", changes nothing
    but the state, and leaves it closed: nothing is parsed on top of a refused transaction. *)
Theorem refusal_ends_the_session cdata type first more msg_end g g' :
  handler_sign_tx cdata type first more msg_end g = (Ret tt, g') →
  (∀ sw, last (g_output g') = Some (Sent [] sw) →
     sw ∉ [SW_OK; SW_BAD_STATE; SWO_INCORRECT_DATA] → closed g') ∧
  (closed g → first = false →
     closed g' ∧ g' = g <| g_state := g_state g' |> <| g_output ::= λ o, o ++ [Sent [] SW_BAD_STATE] |>).
Proof.
  unfold handler_sign_tx. intros (current & g1 & E1 & E)%bind_ret_inv. injection E1 as <- <-. split.
  - intros sw Hl Hsw.
    assert (Hsent : ∀ x g0, io_send_sw x g0 = (Ret tt, g') → x ∈ [SW_OK; SW_BAD_STATE; SWO_INCORRECT_DATA]
      → False).
    { intros x g0 [= <-] Hx. cbn in Hl. rewrite last_snoc in Hl. injection Hl as <-. done. }
    destruct (negb first && _); [by destruct (Hsent _ _ E); set_solver|].
    apply bind_ret_inv in E as (result & g1 & _ & E).
    destruct (negb (result =? 0)); [by apply refuse_closes in E|].
    apply bind_ret_inv in E as (st & g2 & E2 & E). injection E2 as <- <-.
    assert (Hm : message_complete g1 = (Ret tt, g') → closed g').
    { unfold message_complete. clear E. intros (buf & g2 & _ & E)%bind_ret_inv.
      apply bind_ret_inv in E as (ty & g3 & _ & E). apply bind_ret_inv in E as (res & g4 & _ & E).
      destruct (negb (res =? 0)).
      - apply bind_ret_inv in E as (u & g5 & _ & E). by apply refuse_closes in E.
      - apply bind_ret_inv in E as (st & g5 & _ & E). case_bool_decide.
        + apply review_outcome in E as (o & Eo & Ho). rewrite Eo in Hl. injection Hl as ->.
          destruct Ho as [[= ->]|[[= ->]|[scr [=]]]]; set_solver.
        + destruct (Hsent _ _ E); set_solver. }
    destruct (g_state g1); try (destruct (Hsent _ _ E); set_solver); by apply Hm.
  - intros Hc ->. cbn [negb andb] in E. case_bool_decide; cbn [negb] in E.
    + unfold process_tx_chunk, next_chunk, bind, get in E. unfold closed in Hc. rewrite Hc in E.
      cbn in E. injection E as <-. split; [done|]. cbn. by destruct g; cbn in *; subst.
    + injection E as <-. split; [done|]. by destruct g.
Qed.

(** The refusal of blind signing leaves the session as it was: it does not go through
    [refuse_tx]. *)
Theorem blind_signing_refusal_keeps_the_session g g' :
  g_clear_signing_available g = false → g_allow_blind_sign g = BlindSignDisabled →
  start_review g = (Ret tt, g') →
  g_req_type g' = g_req_type g ∧ g_state g' = g_state g ∧ g_signing_type g' = g_signing_type g.
Proof.
  intros Hc Hb. unfold start_review, bind, get. rewrite Hc, Hb. cbn. by intros [= <-].
Qed.
End Session.
