(* ===== verification/SessionFlow.v ===== *)
(** * A prepared transaction through the APDU layer

    The chunks of a signing request, from the first command to the review: the parts the
    parsers see are the bytes the host sent between two ends of message, so the theorems of
    [TxFlow] hold of what is on the wire. *)

From S2P Require Import Prelude Constants Utils DisplayConfig Pb Wire Messages CanonicalHash.
From S2P Require Import TreeCheck ValuesCheck HashingParser HoldingParser DisplayParser Context.
From S2P Require Import Prepared PreparedRun TxFlow TopologyMessages Keys Topology TopologyFlow.
From S2P Require Import Handlers Session.

Section Flow.
Context `{Sha256} `{Device} `{Screen} `{Crypto} `{Buffer} `{Compiler} `{OtherMappings} `{Build}.

(** ** No hash before the last part *)

(** The state of the request does not change while a part is processed, and without
    [STATE_PARSED] no hash is written. *)
Definition stays {A} (P : context → Prop) (m : GM A) : Prop := ∀ g, P g →
  match m g with (Ret _, g') | (Fail, g') => P g' | _ => True end.

Section Stays.
Variable P : context → Prop.
Hypothesis P_frame : ∀ g g', P g → g_state g' = g_state g → g_m_hash g' = g_m_hash g → P g'.

Lemma stays_ret {A} (a : A) : stays P (ret a).
Proof. by intros g. Qed.
Lemma stays_gets {A} (f : context → A) : stays P (gets f).
Proof. by intros g. Qed.
Lemma stays_modify f : (∀ g, g_state (f g) = g_state g ∧ g_m_hash (f g) = g_m_hash g) → stays P (modify f).
Proof. intros Hf g Hg. destruct (Hf g). by apply (P_frame g). Qed.
Lemma stays_bind {A B} (m : GM A) (k : A → GM B) : stays P m → (∀ a, stays P (k a)) → stays P (bind m k).
Proof.
  intros Hm Hk g Hg. specialize (Hm g Hg). unfold bind. destruct (m g) as [[a| | |] g1]; try done.
  by apply Hk.
Qed.
Lemma stays_attempt {A} (m : GM A) : stays P m → stays P (attempt m).
Proof. intros Hm g Hg. specialize (Hm g Hg). unfold attempt. by destruct (m g) as [[a| | |] g1]. Qed.
Lemma stays_decode {A} (m : GM A) : (∀ g, keeps (same_but_clock g) m) → stays P m.
Proof.
  intros Hm g Hg. specialize (Hm g g (same_but_clock_refl g)). destruct (m g) as [[a| | |] g']; try done.
  - destruct Hm as [-> _]. by apply (P_frame g).
  - rewrite Hm. by apply (P_frame g).
Qed.
Lemma stays_in_hashing {A} (m : M hp_state A) : stays P (in_hashing m).
Proof. intros g Hg. unfold in_hashing. destruct (m _) as [[a| | |] h]; try done; by apply (P_frame g). Qed.
Lemma stays_in_holding {A} (m : M vp_state A) : stays P (in_holding m).
Proof. intros g Hg. unfold in_holding. destruct (m _) as [[a| | |] h]; try done; by apply (P_frame g). Qed.
Lemma stays_in_display {A} (m : M dp_state A) : stays P (in_display m).
Proof. intros g Hg. unfold in_display. destruct (m _) as [[a| | |] h]; try done; by apply (P_frame g). Qed.
Lemma stays_verdict : stays P (λ g, let '(err, c) := tree_verify_complete (hp_tree (g_hp g)) in
  (Ret err, g <| g_hp := (g_hp g) <| hp_tree := c |> |>)).
Proof. intros g Hg. destruct (tree_verify_complete _). by apply (P_frame g). Qed.
Lemma stays_start_tree : stays P start_tree_check.
Proof. intros g Hg. by apply (P_frame g). Qed.
End Stays.

Definition unhashed (st : state_e) (g : context) : Prop := g_state g = st ∧ g_m_hash g = [].

Lemma unhashed_frame st g g' : unhashed st g → g_state g' = g_state g → g_m_hash g' = g_m_hash g →
  unhashed st g'.
Proof. intros [E1 E2] F1 F2. split; congruence. Qed.
#[local] Hint Resolve stays_ret stays_gets : stays.
#[local] Hint Extern 1 (stays (unhashed _) (modify _)) =>
  apply (stays_modify _ (unhashed_frame _)); intros; by split : stays.
#[local] Hint Extern 1 (stays (unhashed _) (in_hashing _)) =>
  apply (stays_in_hashing _ (unhashed_frame _)) : stays.
#[local] Hint Extern 1 (stays (unhashed _) (in_holding _)) =>
  apply (stays_in_holding _ (unhashed_frame _)) : stays.
#[local] Hint Extern 1 (stays (unhashed _) (in_display _)) =>
  apply (stays_in_display _ (unhashed_frame _)) : stays.
#[local] Hint Extern 1 (stays (unhashed _) start_tree_check) =>
  apply (stays_start_tree _ (unhashed_frame _)) : stays.
#[local] Hint Extern 1 (stays (unhashed _) (λ _, _)) =>
  apply (stays_verdict _ (unhashed_frame _)) : stays.
Ltac stay_steps :=
  repeat first
    [ progress intros
    | match goal with
      | |- stays _ (if ?b then _ else _) => destruct b eqn:?
      | |- stays _ (match ?x with _ => _ end) => destruct x eqn:?
      end
    | solve [eauto with stays]
    | apply stays_attempt
    | apply stays_bind ].

Lemma stays_abort_prepared st sw : stays (unhashed st) (abort_prepared_tx sw).
Proof. unfold abort_prepared_tx. stay_steps. Qed.
#[local] Hint Resolve stays_abort_prepared : stays.
Lemma stays_finalize st : st ≠ STATE_PARSED → stays (unhashed st) process_prepared_tx_finalize.
Proof.
  intros Hst g [Es Eh]. unfold process_prepared_tx_finalize. unfold bind at 1, gets at 1.
  rewrite bool_decide_eq_false_2 by congruence. cbn [negb]. by apply stays_abort_prepared.
Qed.
#[local] Hint Resolve stays_finalize : stays.
Lemma stays_header st buf : stays (unhashed st) (proto_deserialize_daml_tx buf).
Proof.
  apply stays_bind; [|stay_steps]. apply (stays_decode _ (unhashed_frame _)). intros g.
  apply pb_decode_inner_safe. intros n _. apply DamlTransaction_fields_safe, g_realloc_safe.
Qed.
Lemma stays_metadata st buf : stays (unhashed st) (proto_deserialize_metadata buf).
Proof.
  apply stays_bind; [|stay_steps]. apply (stays_decode _ (unhashed_frame _)). intros g.
  apply pb_decode_inner_safe. intros n _. apply Metadata_fields_safe, g_realloc_safe.
Qed.
#[local] Hint Resolve stays_header stays_metadata : stays.

Lemma prepared_part_unhashed st buf : st ≠ STATE_PARSED →
  stays (unhashed st) (process_prepared_tx_part buf).
Proof.
  intros Hst. unfold process_prepared_tx_part, daml_tx_part, node_part, metadata_part,
    input_contract_part, unless_hash_error, apply_node_tree_verdict, drop_clear_signing,
    set_clear_signing, on_display, next_index, in_hasher, hash_error.
  stay_steps.
Qed.

(** ** Chunks *)

(** The parts completed and the bytes of the one under way, from the first command. *)
Inductive sending : list bytes → bytes → context → Prop :=
  | sending_first cdata more msg_end g g' : sys_ready g →
      handler_sign_tx cdata SIGN_PREPARED_TRANSACTION true more msg_end g = (Ret tt, g') →
      g_req_type g' = CONFIRM_TRANSACTION → sending [] [] g'
  | sending_chunk parts raw cdata more msg_end g g' : sending parts raw g →
      handler_sign_tx cdata SIGN_PREPARED_TRANSACTION false more msg_end g = (Ret tt, g') →
      g_state g' = STATE_EXPECTING_MORE → sending parts (raw ++ cdata) g'
  | sending_part parts raw cdata more msg_end g g' : sending parts raw g →
      handler_sign_tx cdata SIGN_PREPARED_TRANSACTION false more msg_end g = (Ret tt, g') →
      g_state g' = STATE_MSG_COMPLETE → sending (parts ++ [raw ++ cdata]) [] g'.

Record session_inv (parts : list bytes) (raw : bytes) (g : context) : Prop := {
  si_type : g_signing_type g = SIGN_PREPARED_TRANSACTION;
  si_req : g_req_type g = CONFIRM_TRANSACTION;
  si_raw : g_raw_tx g = raw;
  si_run : ∃ g0, receiving parts g0 ∧ between g0 g
}.

Lemma first_chunk_inv cdata g g' : first_chunk cdata SIGN_PREPARED_TRANSACTION g = (Ret 0, g') →
  ∃ path, g' = (snd (clean_context g)) <| g_bip32_path := path |>
    <| g_tx_state := RECEIVING_DAML_TX_PART |> <| g_req_type := CONFIRM_TRANSACTION |>
    <| g_signing_type := SIGN_PREPARED_TRANSACTION |>
    <| g_dp ::= λ d, d <| dp_clear_signing_available := false |> |>
    <| g_state := STATE_EXPECTING_MORE |>.
Proof.
  unfold first_chunk. intros (u & g1 & E1 & E)%bind_ret_inv.
  assert (E1' : snd (clean_context g) = g1) by (rewrite E1; reflexivity). rewrite E1'. clear E1 E1'.
  destruct (read_path cdata) as [[path rest]|]; [|done]. injection E as <-. by exists path.
Qed.

Lemma first_chunk_ready cdata g g' : sys_ready g →
  first_chunk cdata SIGN_PREPARED_TRANSACTION g = (Ret 0, g') → ready_for_tx g'.
Proof.
  intros [V D] (path & ->)%first_chunk_inv. split; try done.
  by exists (g_store g).
Qed.

Lemma next_chunk_inv `{!BufferLaws} cdata more msg_end g g' :
  next_chunk cdata more msg_end g = (Ret 0, g') →
  g_req_type g = CONFIRM_TRANSACTION ∧
  g' = g <| g_raw_tx := g_raw_tx g ++ cdata |>
         <| g_state := if msg_end then (if more then STATE_MSG_COMPLETE else STATE_PARSED)
                       else STATE_EXPECTING_MORE |>.
Proof.
  unfold next_chunk, bind, get. case_bool_decide as Er; [|done]. cbn [negb].
  destruct (_ <? _); [done|]. rewrite buffer_move_all. intros E. split; [done|].
  destruct msg_end, more; cbn in E; try done; by injection E.
Qed.

Lemma between_trans g1 g2 g3 : between g1 g2 → between g2 g3 → between g1 g3.
Proof. intros [] []. split; congruence. Qed.
Lemma between_self g : between g g.
Proof. by split. Qed.

(** What the handler does with a chunk of a session that is open. *)
Lemma handler_next_inv `{!BufferLaws} cdata more msg_end parts raw g g' :
  session_inv parts raw g →
  handler_sign_tx cdata SIGN_PREPARED_TRANSACTION false more msg_end g = (Ret tt, g') →
  g_state g' = STATE_NONE ∨
  ∃ g1, between g g1 ∧ g_raw_tx g1 = raw ++ cdata ∧
    g_signing_type g1 = SIGN_PREPARED_TRANSACTION ∧ g_req_type g1 = CONFIRM_TRANSACTION ∧
    g_state g1 = (if msg_end then (if more then STATE_MSG_COMPLETE else STATE_PARSED)
                  else STATE_EXPECTING_MORE) ∧
    if msg_end then message_complete g1 = (Ret tt, g')
    else g' = g1 <| g_output ::= λ o, o ++ [Sent [] SW_OK] |>.
Proof.
  intros [Ht Hq Hraw _]. unfold handler_sign_tx.
  intros (current & g0 & E0 & E)%bind_ret_inv. injection E0 as <- <-.
  rewrite Ht in E. cbn [negb andb] in E. rewrite bool_decide_eq_true_2 in E by done. cbn [negb] in E.
  apply bind_ret_inv in E as (result & g1 & E1 & E).
  destruct (Z.eqb_spec result 0) as [->|_]; cbn [negb] in E; [|injection E as <-; by left].
  apply next_chunk_inv in E1 as [_ E1]. right. exists g1.
  apply bind_ret_inv in E as (st & g2 & E2 & E). injection E2 as <- <-.
  assert (F : between g g1 ∧ g_raw_tx g1 = raw ++ cdata ∧
    g_signing_type g1 = SIGN_PREPARED_TRANSACTION ∧ g_req_type g1 = CONFIRM_TRANSACTION ∧
    g_state g1 = if msg_end then (if more then STATE_MSG_COMPLETE else STATE_PARSED)
                 else STATE_EXPECTING_MORE) by (rewrite E1, <- Hraw; by split_and!).
  destruct F as (F1 & F2 & F3 & F4 & F5). split_and!; try done. rewrite F5 in E.
  destruct msg_end; [destruct more; done|]. by injection E.
Qed.

(** A message that is complete: refused, or processed as the next part. *)
Lemma message_complete_inv g g' : g_signing_type g = SIGN_PREPARED_TRANSACTION →
  message_complete g = (Ret tt, g') →
  g_state g' = STATE_NONE ∨
  ∃ g1 g2, g1 = (if bool_decide (g_state g = STATE_MSG_COMPLETE) then g <| g_raw_tx := [] |> else g) ∧
    process_prepared_tx_part (g_raw_tx g) g1 = (Ret 0, g2) ∧
    if bool_decide (g_state g2 = STATE_PARSED) then start_review g2 = (Ret tt, g')
    else g' = g2 <| g_output ::= λ o, o ++ [Sent [] SW_OK] |>.
Proof.
  intros Ht. unfold message_complete. intros (buf & g1 & E1 & E)%bind_ret_inv. injection E1 as <- E1.
  apply bind_ret_inv in E as (type & g2 & E2 & E). injection E2 as E2 <-.
  assert (Ht1 : type = SIGN_PREPARED_TRANSACTION)
    by (rewrite <- E2, <- E1; by case_bool_decide). subst type.
  rewrite Ht1 in E. apply bind_ret_inv in E as (result & g3 & E3 & E).
  destruct (Z.eqb_spec result 0) as [->|_]; cbn [negb] in E; [|injection E as <-; by left].
  right. exists g1, g3. split_and!; [done|exact E3|].
  apply bind_ret_inv in E as (st & g4 & E4 & E). injection E4 as <- <-.
  case_bool_decide; [done|]. by injection E.
Qed.

(** *** The invariant of a session *)

(** What processing a part leaves alone. *)
Definition request (g : context) : signing_type_e * request_type_e * bytes * state_e :=
  (g_signing_type g, g_req_type g, g_raw_tx g, g_state g).
Definition keeps_request {A} (m : GM A) : Prop := ∀ g,
  match m g with (Ret _, g') | (Fail, g') => request g' = request g | _ => True end.
Lemma kr_ret {A} (a : A) : keeps_request (ret a).
Proof. by intros g. Qed.
Lemma kr_gets {A} (f : context → A) : keeps_request (gets f).
Proof. by intros g. Qed.
Lemma kr_modify f : (∀ g, request (f g) = request g) → keeps_request (modify f).
Proof. intros Hf g. apply Hf. Qed.
Lemma kr_bind {A B} (m : GM A) (k : A → GM B) :
  keeps_request m → (∀ a, keeps_request (k a)) → keeps_request (bind m k).
Proof.
  intros Hm Hk g. specialize (Hm g). unfold bind. destruct (m g) as [[a| | |] g1]; try done.
  specialize (Hk a g1). destruct (k a g1) as [[b| | |] g2]; try done; congruence.
Qed.
Lemma kr_attempt {A} (m : GM A) : keeps_request m → keeps_request (attempt m).
Proof. intros Hm g. specialize (Hm g). unfold attempt. by destruct (m g) as [[a| | |] g1]. Qed.
Lemma kr_decode {A} (m : GM A) : (∀ g, keeps (same_but_clock g) m) → keeps_request m.
Proof.
  intros Hm g. specialize (Hm g g (same_but_clock_refl g)). destruct (m g) as [[a| | |] g']; try done.
  - by destruct Hm as [-> _].
  - by rewrite Hm.
Qed.
Lemma kr_in_hashing {A} (m : M hp_state A) : keeps_request (in_hashing m).
Proof. intros g. unfold in_hashing. by destruct (m _) as [[a| | |] h]. Qed.
Lemma kr_in_holding {A} (m : M vp_state A) : keeps_request (in_holding m).
Proof. intros g. unfold in_holding. by destruct (m _) as [[a| | |] h]. Qed.
Lemma kr_in_display {A} (m : M dp_state A) : keeps_request (in_display m).
Proof. intros g. unfold in_display. by destruct (m _) as [[a| | |] h]. Qed.
Lemma kr_verdict : keeps_request (λ g, let '(err, c) := tree_verify_complete (hp_tree (g_hp g)) in
  (Ret err, g <| g_hp := (g_hp g) <| hp_tree := c |> |>)).
Proof. intros g. by destruct (tree_verify_complete _). Qed.
Lemma kr_values_verdict : keeps_request (λ g, let '(b, s) := values_can_clear_sign (g_store g) in
  (Ret b, g <| g_store := s |>)).
Proof. intros g. by destruct (values_can_clear_sign _). Qed.
Lemma kr_start_tree : keeps_request start_tree_check.
Proof. by intros g. Qed.
Lemma kr_header buf : keeps_request (proto_deserialize_daml_tx buf).
Proof.
  apply kr_bind; [|intros; by apply kr_modify]. apply kr_decode. intros g.
  apply pb_decode_inner_safe. intros n _. apply DamlTransaction_fields_safe, g_realloc_safe.
Qed.
Lemma kr_metadata buf : keeps_request (proto_deserialize_metadata buf).
Proof.
  apply kr_bind; [|intros; by apply kr_modify]. apply kr_decode. intros g.
  apply pb_decode_inner_safe. intros n _. apply Metadata_fields_safe, g_realloc_safe.
Qed.
#[local] Hint Resolve kr_ret kr_gets kr_in_hashing kr_in_holding kr_in_display kr_verdict
  kr_values_verdict kr_start_tree kr_header kr_metadata : request.
#[local] Hint Extern 1 (keeps_request (modify _)) => by apply kr_modify : request.
Ltac request_steps :=
  repeat first
    [ progress intros
    | match goal with
      | |- keeps_request (if ?b then _ else _) => destruct b eqn:?
      | |- keeps_request (match ?x with _ => _ end) => destruct x eqn:?
      end
    | solve [eauto with request]
    | apply kr_attempt
    | apply kr_bind ].
Lemma kr_prepared buf : keeps_request (process_prepared_tx_part buf).
Proof.
  unfold process_prepared_tx_part, daml_tx_part, node_part, metadata_part, input_contract_part,
    unless_hash_error, abort_prepared_tx, process_prepared_tx_finalize, apply_node_tree_verdict,
    drop_clear_signing, set_clear_signing, on_display, next_index, in_hasher, hash_error.
  request_steps.
Qed.

Lemma review_state g g' : start_review g = (Ret tt, g') → g_state g' = g_state g ∨ g_state g' = STATE_NONE.
Proof.
  unfold start_review, bind, get. destruct (g_clear_signing_available g).
  - unfold ui_display_transaction, ui_display_transaction_bs_choice, bind, get.
    destruct (_ || _); intros [= <-]; auto.
  - case_bool_decide; [intros [= <-]; auto|].
    unfold ui_display_blind_signed_transaction, ui_display_transaction_bs_choice, bind, get.
    destruct (_ || _); [intros [= <-]; auto|]. unfold g_mem_alloc.
    destruct (heap_has (g_clock g) 16); [|done]. cbn [assert_that ret].
    destruct (heap_has _ _); [|done]. intros [= <-]. auto.
Qed.

Context `{!Sha256Len} `{!BufferLaws}.

Lemma taken_between g1 g2 (more : bool) :
  g2 = (if bool_decide (g_state g1 = STATE_MSG_COMPLETE) then g1 <| g_raw_tx := [] |> else g1) →
  g_state g1 = (if more then STATE_MSG_COMPLETE else STATE_PARSED) →
  between g1 g2 ∧ g_state g2 = g_state g1 ∧ g_signing_type g2 = g_signing_type g1 ∧
    g_req_type g2 = g_req_type g1 ∧ (more = true → g_raw_tx g2 = []).
Proof.
  intros -> Hs. case_bool_decide as Hc; split_and!; try done; try (by split).
  intros ->. by rewrite Hs in Hc.
Qed.

(** What a chunk of a session can do: end it, add to the message under way, complete a part
    that is accepted, or complete the last one. *)
Lemma chunk_cases cdata more msg_end parts raw g g' : session_inv parts raw g →
  handler_sign_tx cdata SIGN_PREPARED_TRANSACTION false more msg_end g = (Ret tt, g') →
  g_state g' = STATE_NONE ∨
  (g_state g' = STATE_EXPECTING_MORE ∧ session_inv parts (raw ++ cdata) g') ∨
  (g_state g' = STATE_MSG_COMPLETE ∧ session_inv (parts ++ [raw ++ cdata]) [] g') ∨
  (g_state g' = STATE_PARSED ∧ ∃ g0 g2 g3, receiving parts g0 ∧ between g0 g2 ∧
     process_prepared_tx_part (raw ++ cdata) g2 = (Ret 0, g3) ∧ start_review g3 = (Ret tt, g')).
Proof.
  intros I E. destruct (handler_next_inv _ _ _ _ _ _ _ I E) as [Hn|(g1 & B & R & T & Q & Hs & Hm)];
    [by left|].
  destruct I as [_ _ _ (g0 & Hg0 & B0)]. pose proof (between_trans _ _ _ B0 B) as B1. destruct msg_end.
  2: { right. left. subst g'. split; [done|]. split; [done..|].
       exists g0. split; [done|]. apply (between_trans _ g1); [done|by split]. }
  apply message_complete_inv in Hm as [Hn|(g2 & g3 & E2 & E3 & Hm)]; [by left| |done].
  destruct (taken_between _ _ more E2 Hs) as (F1 & F2 & F3 & F4 & F5).
  pose proof (between_trans _ _ _ B1 F1) as B2.
  pose proof (kr_prepared (g_raw_tx g1) g2) as Hk. rewrite E3 in Hk. injection Hk as K1 K2 K3 K4.
  rewrite R in E3. destruct more.
  - right. right. left. rewrite bool_decide_eq_false_2 in Hm by congruence. subst g'.
    split; [cbn; congruence|].
    assert (Hh : g_m_hash g3 = []).
    { pose proof (prepared_part_unhashed STATE_MSG_COMPLETE (raw ++ cdata) ltac:(done) g2) as Hu.
      rewrite E3 in Hu. apply Hu. split; [congruence|].
      rewrite (bt_hash _ _ B2). by apply receiving_progress in Hg0 as [? _]. }
    split; [cbn; congruence..|cbn; rewrite K3; by apply F5|].
    exists g3. split; [|by split]. by apply (receiving_part _ _ g0 g2).
  - rewrite bool_decide_eq_true_2 in Hm by congruence.
    destruct (review_state _ _ Hm) as [Hst|Hst]; [|by left].
    right. right. right. split; [congruence|]. by exists g0, g2, g3.
Qed.

(** *** Whole sessions *)

Lemma first_command_inv cdata more msg_end g g' : sys_ready g →
  handler_sign_tx cdata SIGN_PREPARED_TRANSACTION true more msg_end g = (Ret tt, g') →
  g_req_type g' = CONFIRM_TRANSACTION → session_inv [] [] g'.
Proof.
  intros Hg. unfold handler_sign_tx. intros (current & g0 & E0 & E)%bind_ret_inv. injection E0 as _ <-.
  cbn [negb andb] in E. apply bind_ret_inv in E as (result & g1 & E1 & E).
  destruct (Z.eqb_spec result 0) as [->|_]; cbn [negb] in E; [|by injection E as <-].
  unfold process_tx_chunk in E1. pose proof (first_chunk_ready _ _ _ Hg E1) as Hr.
  apply first_chunk_inv in E1 as (path & E1).
  apply bind_ret_inv in E as (st & g2 & E2 & E). injection E2 as <- <-.
  assert (F : g_state g1 = STATE_EXPECTING_MORE ∧ g_signing_type g1 = SIGN_PREPARED_TRANSACTION ∧
    g_req_type g1 = CONFIRM_TRANSACTION ∧ g_raw_tx g1 = []) by (by rewrite E1).
  destruct F as (F1 & F2 & F3 & F4). rewrite F1 in E. injection E as <-. intros _.
  split; [done..|]. exists g1. split; [by constructor|by split].
Qed.

Lemma sending_inv parts raw g : sending parts raw g → session_inv parts raw g.
Proof.
  induction 1 as [cdata more msg_end g g' Hg E Hq|parts raw cdata more msg_end g g' _ IH E Hst
                 |parts raw cdata more msg_end g g' _ IH E Hst].
  - by apply (first_command_inv _ _ _ _ _ Hg E).
  - destruct (chunk_cases _ _ _ _ _ _ _ IH E) as [?|[[_ ?]|[[? _]|[? _]]]]; congruence.
  - destruct (chunk_cases _ _ _ _ _ _ _ IH E) as [?|[[? _]|[[_ ?]|[? _]]]]; congruence.
Qed.

(** A review with clear signing on that is on screen. *)
Lemma clear_review_inv g g' : start_review g = (Ret tt, g') → g_state g' = STATE_PARSED →
  g_clear_signing_available g' = true →
  g' = g <| g_output ::= λ o, o ++ [Shown (ReviewTransaction (default [] (dp_pairs (g_dp g)))
                            (dp_review_title (g_dp g)) (dp_review_finish (g_dp g)))] |>
         <| g_review := Some review_choice_transaction |>.
Proof.
  unfold start_review, bind at 1, get at 1. destruct (g_clear_signing_available g) eqn:Ec.
  - unfold ui_display_transaction, ui_display_transaction_bs_choice, bind, get.
    destruct (_ || _); intros [= <-]; [done|done].
  - unfold g_clear_signing_available in Ec. case_bool_decide.
    + intros [= <-] _. unfold g_clear_signing_available. cbn. by rewrite Ec.
    + unfold ui_display_blind_signed_transaction, ui_display_transaction_bs_choice, bind, get.
      destruct (_ || _); [by intros [= <-]|]. unfold g_mem_alloc.
      destruct (heap_has (g_clock g) 16); [|done]. cbn [assert_that ret].
      destruct (heap_has _ _); [|done]. intros [= <-] _. unfold g_clear_signing_available. cbn.
      by rewrite Ec.
Qed.

(** C2: Clear signing from the wire to the screen.  When the chunks of a signing request end
    in a review with clear signing on and a hash, the messages the host sent between two ends
    of message are, in order, the parts of one transaction; the hash is theirs; their nodes
    form one tree, unless a disclosed contract opened the screen; and the review that waits
    for the user shows lines that are true of every holding they write. *)
Theorem clear_signed_session cdata more msg_end parts raw g g' :
  sending parts raw g →
  handler_sign_tx cdata SIGN_PREPARED_TRANSACTION false more msg_end g = (Ret tt, g') →
  g_state g' = STATE_PARSED → g_clear_signing_available g' = true → g_m_hash g' ≠ [] →
  ∃ t, tl_parts t = parts ++ [raw ++ cdata] ∧ hashed t (g_m_hash g') ∧
    (one_tree t ∨ opened_by_contract t) ∧ screen_is_true (tl_holdings t) (dp_pairs (g_dp g')) ∧
    g_review g' = Some review_choice_transaction ∧
    last (g_output g') = Some (Shown (ReviewTransaction (default [] (dp_pairs (g_dp g')))
      (dp_review_title (g_dp g')) (dp_review_finish (g_dp g')))).
Proof.
  intros I%sending_inv E Hst Hc Hh.
  destruct (chunk_cases _ _ _ _ _ _ _ I E)
    as [?|[[? _]|[[? _]|(_ & g0 & g2 & g3 & R & B & E3 & Hr)]]]; [congruence..|].
  apply clear_review_inv in Hr; [|done..].
  assert (F : completed (parts ++ [raw ++ cdata]) g3).
  { apply (completed_part _ _ g0 g2); [done..|]. by rewrite Hr in Hh. }
  apply completed_finished in F as (t & Et & Hhash & Hcl).
  assert (Hc3 : g_clear_signing_available g3 = true) by (by rewrite Hr in Hc).
  specialize (Hcl Hc3). exists t. rewrite Hr. split_and!; try done.
  - apply judged_tree, Hcl.
  - by apply clear_signed_true.
  - cbn. by rewrite last_snoc.
Qed.
End Flow.
