(* ===== verification/SessionSamples.v ===== *)
(** * Sample sessions

    Whole runs of the application: a blind signed hash, an address, and a pre-approval sent in
    chunks, with the witnesses of [Session] and [SessionFlow]; and what the host can reach by
    ending a transaction early or going on after its review. *)

From S2P Require Import Prelude Constants Utils DisplayConfig Pb Wire Messages CanonicalHash.
From S2P Require Import TreeCheck ValuesCheck HashingParser HoldingParser DisplayParser Context.
From S2P Require Import Prepared PreparedRun TxFlow TxSamples TopologyMessages Keys Topology.
From S2P Require Import TopologyFlow TopologySamples Handlers Session SessionFlow.

#[export] Instance toy_build : Build := {|
  SWO_INCORRECT_DATA := 0x6A80; MAJOR_VERSION := 3; MINOR_VERSION := 5; PATCH_VERSION := 2;
  APPNAME := lit "Canton"
|}.

Abbreviation toy_step :=
  (@app_main_step toy_sha roomy toy_screen toy_crypto toy_buffer toy_compiler toy_others toy_build).
Abbreviation toy_run :=
  (@run toy_sha roomy toy_screen toy_crypto toy_buffer toy_compiler toy_others toy_build).
Abbreviation toy_sign :=
  (@handler_sign_tx toy_sha roomy toy_screen toy_crypto toy_buffer toy_compiler toy_others toy_build).
Abbreviation toy_sending :=
  (@sending toy_sha roomy toy_screen toy_crypto toy_buffer toy_compiler toy_others toy_build).

(** ** Playing events *)

Definition may (g : context) (ev : event) : bool :=
  match ev, g_review g with
  | Command _, None | Toggle, None | Choice _, Some _ => true
  | _, _ => false
  end.
Fixpoint play (evs : list event) (g : context) : option context :=
  match evs with
  | [] => Some g
  | ev :: evs =>
      if may g ev then match toy_step ev g with (Ret _, g') => play evs g' | _ => None end
      else None
  end.
Lemma may_allowed g ev : may g ev = true → allowed g ev.
Proof. unfold may, allowed. by destruct ev, (g_review g). Qed.
Lemma play_more evs : ∀ before g g', toy_run before g → play evs g = Some g' →
  toy_run (before ++ evs) g'.
Proof.
  induction evs as [|ev evs IH]; intros before g g' Hr; cbn [play].
  { intros [= <-]. by rewrite app_nil_r. }
  destruct (may g ev) eqn:Em; [|done]. destruct (toy_step ev g) as [[[]| | |] g1] eqn:E; try done.
  intros Hp. rewrite cons_middle, app_assoc. apply (IH _ g1); [|done].
  apply (run_step before ev g); [done|by apply may_allowed|done].
Qed.
Lemma play_run evs g : play evs (boot <| g_allow_blind_sign := BlindSignDisabled |>) = Some g →
  toy_run evs g.
Proof. apply (play_more evs []), run_start. Qed.

Definition apdu (ins p1 p2 : Z) (data : bytes) : event :=
  Command (Some {| cmd_cla := CLA; cmd_ins := ins; cmd_p1 := p1; cmd_p2 := p2; cmd_data := Some data |}).
(** A path of one element. *)
Definition sample_path : bytes := [1; 0x80; 0; 0; 44].

(** ** A hash, blind signed *)

Definition sample_digest : bytes := Eval vm_compute in map Z.of_nat (seq 1 32).
Definition hash_events : list event :=
  [Toggle; apdu SIGN_TX 0 (Z.lor P2_FIRST P2_MORE) sample_path;
   apdu SIGN_TX 0 P2_MSG_END sample_digest].
Definition hash_review : context := Eval vm_compute in default boot (play hash_events boot).
Lemma hash_review_run : toy_run hash_events hash_review.
Proof. apply play_run. vm_compute. reflexivity. Qed.

Lemma every_command_is_answered_witness :
  ∃ g', toy_step (Choice false) hash_review = (Ret tt, g') ∧ g_review g' = None ∧
    ∃ data sw, g_output g' = g_output hash_review ++ [Sent data sw].
Proof.
  pose proof (@every_command_is_answered toy_sha roomy toy_screen toy_crypto toy_buffer toy_compiler
    toy_others toy_build hash_events hash_review (Choice false) hash_review_run ltac:(done)) as E.
  destruct (toy_step (Choice false) hash_review) as [[[]| | |] g'] eqn:Es;
    [exists g'; split; [reflexivity|exact E]|vm_compute in Es; discriminate..].
Defined.

Lemma signature_follows_its_review_witness :
  signs hash_review (Choice true) ∧
  ∃ scr g', last (g_output hash_review) = Some (Shown scr) ∧
    @review_shows toy_sha review_choice_transaction scr hash_review ∧
    toy_step (Choice true) hash_review = (Ret tt, g') ∧
    g_output g' = g_output hash_review ++ [@choice_response toy_crypto true hash_review].
Proof.
  split; [by split|].
  exact (proj2 (@signature_follows_its_review toy_sha roomy toy_screen toy_crypto toy_buffer
    toy_compiler toy_others toy_build hash_events hash_review (Choice true) hash_review_run
    ltac:(done)) ltac:(by split)).
Defined.

(** ** An address *)

Definition address_events : list event := [apdu GET_PUBLIC_KEY P1_CONFIRM P2_NONE sample_path].
Definition address_review : context := Eval vm_compute in default boot (play address_events boot).
Definition address_sent : context := Eval vm_compute in snd (toy_step (Choice true) address_review).

Lemma confirmed_key_was_shown_witness :
  ∃ party_id, last (g_output address_review) = Some (Shown (ReviewAddress party_id)) ∧
    @party_id_from_pubkey toy_sha (g_raw_public_key address_review) PARTY_ID_LEN = Some party_id ∧
    g_output address_sent = g_output address_review ++
      [Sent ([32] ++ g_raw_public_key address_review ++ [32] ++ g_chain_code address_review) SW_OK].
Proof.
  apply (@confirmed_key_was_shown toy_sha roomy toy_screen toy_crypto toy_buffer toy_compiler
    toy_others toy_build address_events address_review address_sent);
    [apply play_run; vm_compute; reflexivity|reflexivity|vm_compute; reflexivity].
Defined.

(** ** A transaction that is refused *)

Definition tx_start : context := Eval vm_compute in
  snd (toy_sign sample_path SIGN_PREPARED_TRANSACTION true true false boot).
(** Bytes that are not a header. *)
Definition tx_refused : context := Eval vm_compute in
  snd (toy_sign [255] SIGN_PREPARED_TRANSACTION false true true tx_start).

Lemma refusal_ends_the_session_witness :
  last (g_output tx_refused) = Some (Sent [] SW_TX_PARSING_FAIL) ∧ closed tx_refused.
Proof.
  split; [reflexivity|].
  apply (proj1 (@refusal_ends_the_session toy_sha roomy toy_screen toy_crypto toy_buffer
    toy_compiler toy_others toy_build [255] SIGN_PREPARED_TRANSACTION false true true tx_start
    tx_refused ltac:(vm_compute; reflexivity)) SW_TX_PARSING_FAIL); [reflexivity|].
  apply (bool_decide_unpack _). vm_compute. exact I.
Defined.

(** ** A transaction in chunks *)

(** Chunks that are not the last, and the parts they make. *)
Fixpoint send (chunks : list (bytes * bool)) (g : context) : option context :=
  match chunks with
  | [] => Some g
  | (cdata, msg_end) :: chunks =>
      match toy_sign cdata SIGN_PREPARED_TRANSACTION false true msg_end g with
      | (Ret _, g') =>
          if bool_decide (g_state g' = if msg_end then STATE_MSG_COMPLETE else STATE_EXPECTING_MORE)
          then send chunks g' else None
      | _ => None
      end
  end.
Fixpoint assemble (chunks : list (bytes * bool)) (parts : list bytes) (raw : bytes)
  : list bytes * bytes :=
  match chunks with
  | [] => (parts, raw)
  | (cdata, true) :: chunks => assemble chunks (parts ++ [raw ++ cdata]) []
  | (cdata, false) :: chunks => assemble chunks parts (raw ++ cdata)
  end.
Lemma send_sending chunks : ∀ parts raw g g', toy_sending parts raw g → send chunks g = Some g' →
  toy_sending (fst (assemble chunks parts raw)) (snd (assemble chunks parts raw)) g'.
Proof.
  induction chunks as [|[cdata msg_end] chunks IH]; intros parts raw g g' Hs; cbn [send assemble].
  { by intros [= <-]. }
  destruct (toy_sign _ _ _ _ _ g) as [[[]| | |] g1] eqn:E; try done.
  case_bool_decide as Est; [|done]. intros Hp. destruct msg_end; apply (IH _ _ g1); try done.
  - by apply (sending_part parts raw cdata true true g).
  - by apply (sending_chunk parts raw cdata true false g).
Qed.

(** The header in two chunks, the node in one. *)
Definition sample_chunks : list (bytes * bool) :=
  match sample_parts with
  | [header; node] => [(take 20 header, false); (drop 20 header, true); (node, true)]
  | _ => []
  end.
Definition tx_sent : context := Eval vm_compute in default boot (send sample_chunks tx_start).
Definition tx_review : context := Eval vm_compute in
  snd (toy_sign sample_last SIGN_PREPARED_TRANSACTION false false true tx_sent).

Lemma tx_sending : toy_sending sample_parts [] tx_sent.
Proof.
  change sample_parts with (fst (assemble sample_chunks [] [])).
  change [] with (snd (assemble sample_chunks [] [])) at 2.
  apply (send_sending sample_chunks [] [] tx_start); [|vm_compute; reflexivity].
  apply (sending_first sample_path true false
    (boot <| g_allow_blind_sign := BlindSignDisabled |>)); [apply boot_ready| |reflexivity].
  vm_compute. reflexivity.
Qed.

Lemma clear_signed_session_witness :
  ∃ t, tl_parts t = sample_parts ++ [[] ++ sample_last] ∧
    @hashed toy_sha roomy t (g_m_hash tx_review) ∧ (one_tree t ∨ opened_by_contract t) ∧
    @screen_is_true toy_sha toy_screen (tl_holdings t) (dp_pairs (g_dp tx_review)) ∧
    g_review tx_review = Some review_choice_transaction ∧
    last (g_output tx_review) = Some (Shown (ReviewTransaction
      (default [] (dp_pairs (g_dp tx_review)))
      (dp_review_title (g_dp tx_review)) (dp_review_finish (g_dp tx_review)))).
Proof.
  exact (@clear_signed_session toy_sha roomy toy_screen toy_crypto toy_buffer toy_compiler
    toy_others toy_build toy_sha_len toy_buffer_laws sample_last false true sample_parts []
    tx_sent tx_review tx_sending ltac:(vm_compute; reflexivity) eq_refl eq_refl ltac:(done)).
Defined.

(** ** What the host can reach otherwise *)

Definition tx_chunk (p2 : Z) (data : bytes) : event := apdu SIGN_TX 2 p2 data.
Definition tx_events (parts : list bytes) (final : bytes) : list event :=
  tx_chunk (Z.lor P2_FIRST P2_MORE) sample_path ::
  map (tx_chunk (Z.lor P2_MORE P2_MSG_END)) parts ++ [tx_chunk P2_MSG_END final].

(** A node sent as if it were the last part opens the review of its screen, and what the user
    then signs is the empty hash: the state that opens a review is set by the flags of the
    chunk, before the part is processed. *)
Definition early_review : context := Eval vm_compute in
  default boot (play (tx_events (take 1 sample_parts) (nth 1 sample_parts [])) boot).
Theorem early_end_signs_no_hash :
  toy_run (tx_events (take 1 sample_parts) (nth 1 sample_parts [])) early_review ∧
  g_review early_review = Some review_choice_transaction ∧
  g_clear_signing_available early_review = true ∧ g_m_hash early_review = [] ∧
  ∃ signature g', toy_step (Choice true) early_review = (Ret tt, g') ∧
    @bip32_eddsa_sign_hash toy_crypto (g_bip32_path early_review) [] = Some signature ∧
    last (g_output g') = Some (Sent (signature_response signature None) SW_OK).
Proof.
  split; [apply play_run; vm_compute; reflexivity|]. split_and!; [reflexivity..|].
  eexists _, (snd (toy_step (Choice true) early_review)).
  split; [vm_compute; reflexivity|]. split; [reflexivity|vm_compute; reflexivity].
Qed.

(** After the answer to a review one more chunk is appended to the last part and processed
    again: a second clear signing review opens, over another hash and without a line. *)
Definition second_events : list event :=
  tx_events sample_parts sample_last ++ [Choice true; tx_chunk P2_MSG_END []].
Definition second_review : context := Eval vm_compute in default boot (play second_events boot).
Theorem second_review_is_empty :
  toy_run second_events second_review ∧
  g_review second_review = Some review_choice_transaction ∧
  g_m_hash second_review ≠ g_m_hash tx_review ∧
  last (g_output second_review) = Some (Shown (ReviewTransaction []
    (dp_review_title (g_dp tx_review)) (dp_review_finish (g_dp tx_review)))).
Proof.
  split; [apply play_run; vm_compute; reflexivity|]. by split_and!.
Qed.

(** ** Commands *)

Definition sample_command (ins p1 p2 : Z) : command_t :=
  {| cmd_cla := CLA; cmd_ins := ins; cmd_p1 := p1; cmd_p2 := p2; cmd_data := Some sample_path |}.

Lemma only_documented_commands_witness :
  @apdu_dispatcher toy_sha roomy toy_screen toy_crypto toy_buffer toy_compiler toy_others toy_build
    (sample_command SIGN_TX 2 3) =
  @dispatched toy_sha roomy toy_screen toy_crypto toy_buffer toy_compiler toy_others toy_build
    (sample_command SIGN_TX 2 3) ∧
  ∃ sw, sw ∈ [SW_CLA_NOT_SUPPORTED; SW_INS_NOT_SUPPORTED; SW_WRONG_P1P2; SW_WRONG_DATA_LENGTH] ∧
    @apdu_dispatcher toy_sha roomy toy_screen toy_crypto toy_buffer toy_compiler toy_others toy_build
      (sample_command SIGN_TX 2 5) = io_send_sw sw.
Proof.
  split.
  - exact (@only_documented_commands toy_sha roomy toy_screen toy_crypto toy_buffer toy_compiler
      toy_others toy_build (sample_command SIGN_TX 2 3) ltac:(by split_and!)).
  - exact (@only_documented_commands toy_sha roomy toy_screen toy_crypto toy_buffer toy_compiler
      toy_others toy_build (sample_command SIGN_TX 2 5) ltac:(by split_and!)).
Defined.
